(* ===== verification/_CoqProject ===== *)
-Q . S2P
Prelude.v
RustStd.v
Identity.v
Vocabulary.v
Errors.v
World.v
FsFacts.v
Store.v
Download.v
Archive.v
Provider.v
StubProvider.v
Resolve.v
ResolveLife.v
PoolWorker.v
FakeWorker.v
LangPool.v
PoolServes.v
PoolSpec.v
WorkerTypes.v
Engine.v
WorkerValidate.v
Native.v
Actor.v
ActorFacts.v
ActorMemory.v
ActorProcess.v
ActorBackoff.v
ActorSamples.v
ActorClose.v
ActorEnds.v
Manager.v
ManagerSpec.v
PySpawner.v
PyServer.v
PyLife.v
PySlot.v
CapFs.v
CacheFiles.v
CacheSession.v
TreeFacts.v
CacheFacts.v
CacheRebuild.v
CacheReady.v
CacheInstall.v
CacheAdopt.v
CacheAcquire.v
CacheCleanup.v
WorkerScript.v
CacheConfine.v
CacheProps.v
CacheProvision.v
CacheJoint.v
CacheSupervisor.v
CacheLife.v
CacheSamples.v
CacheLifeSamples.v
