(* ===== verification/Prelude.v ===== *)
(** * A verification library for tinyruntime

    tinyruntime is a router for managed language runtimes. A host asks it, over a
    message bus, for a toolchain of a language at a version; the router finds one (the
    system's, one it installed before, or one it downloads, verifies and unpacks),
    runs jobs on it through pools of warm workers, and keeps persistent workers alive
    under handles. What is particular to a language is answered by a provider, another
    bus service. This library models the router's own logic and proves what it
    guarantees whatever the operating system, the network, a provider or a worker does.

    ** The files and the code

    - [Prelude]: results, the three monads' notations, reachability of transition
      systems, list and machine-integer lemmas ([u64] is an [N] below 2^64: checked,
      wrapping and saturating addition and subtraction are written out).
    - [RustStd]: the parts of Rust's standard library in use: [str] as its UTF-8
      bytes ([trim], [split], [strip_prefix], ASCII case, decimal printing and
      parsing), and Unix paths with their component order.
    - [Identity], [Vocabulary], [WorkerTypes]: the payloads of [tinyruntime-bus]
      ([version], [language], [names]; [settings], [pool], [exec], [resolve],
      [provision], [harness]; [worker]), constructors and builders with them.
    - [Errors]: [error/mod.rs] of [tinyruntime]; which failures are retryable.
    - [World], [FsFacts]: the outside. A tree of directories, files and links with the
      system calls the router makes, a log of every event, and [Env], an oracle over
      that log for what may fail and what other processes do meanwhile. Code that
      touches the disk is a function [World -> A * World]; [FsFacts] says what each
      operation leaves alone. Calls on paths the router makes up are looked up as
      written; calls on paths an archive chooses follow links ([_through]).
    - [Store] ([store/mod.rs], [store/lock.rs], [blocking/mod.rs]), [Download]
      ([download/mod.rs]), [Archive] ([archive/mod.rs], [archive/extract.rs]),
      [Provider] ([provider/mod.rs], [registry.rs], [bus.rs]) and [Resolve]
      ([resolve/mod.rs], [reuse.rs], [install.rs]): a resolution, from the request to
      an installed toolchain. [Resolve.resolve] calls the memo, the provider,
      [scan] and [install_run]; that takes the lock of [Store], fetches with
      [Download], unpacks with [Archive] and promotes with [Store]. [ResolveLife] is a
      resolver with callers that overlap; [StubProvider] ([provider/stub.rs]) the two
      providers the router is tested with.
    - [PoolWorker] ([pool/worker.rs], [protocol.rs], [env.rs], [spawner.rs]) and
      [LangPool] ([pool/lang_pool.rs]): one worker's protocol against the clock, and
      the bounded pool, where any number of calls, the reaper and cancellation take
      turns. [FakeWorker] ([pool/fake_worker.rs]) is the worker at the other end of the
      protocol, and puts the two ends together; [PoolServes] puts that worker under the
      pool. [PoolSpec] is the abstract executor a pool is, and the refinement.
    - [Engine] ([exec/mod.rs], [pool/mod.rs], [config/mod.rs],
      [tinybus_module/mod.rs]): a job from the bus to its pool.
    - [WorkerValidate] ([worker/validate.rs], [worker/cache/validate.rs]), [Native]
      ([worker/native.rs]), [Actor] ([worker/actor.rs]), [Manager] ([worker/mod.rs]):
      persistent workers. The manager vets a plan and starts one
      supervisor under a handle; the supervisor owns the process group that [Native]
      frames, exchanges and reaps. [ActorFacts] says what each part of a
      supervisor may record; [ActorMemory], [ActorProcess] and [ActorBackoff] hold its
      theorems, [ActorSamples] runs them, and [ActorClose] and [ActorEnds] are its end:
      the announcement that it has closed, and that it can always come to that.
      [ManagerSpec] is the abstract life cycle of a handle, and the refinement.
    - [CapFs], [CacheFiles] ([worker/cache/filesystem.rs], [staging.rs],
      [identity.rs]) and [CacheSession] ([worker/cache/mod.rs]): the persistent cache
      of a worker's recipe, over a tree of inodes and the handles into it. [TreeFacts]
      and [CacheFacts] are lemmas on the tree and a logic of its calls;
      [CacheRebuild], [CacheInstall], [CacheReady], [CacheAdopt], [CacheAcquire] and
      [CacheCleanup] specify publishing, installing, looking, adopting, acquiring and
      cleaning up; [CacheConfine] says where a session's changes go; [CacheProps] and
      [CacheAdopt] hold the theorems on one session, and [CacheProvision] follows the
      sequence [Actor::provision_cache] drives; [CacheSamples] runs them.
      [WorkerScript] is [Actor::install_script], which uses the same calls to put a
      worker's script into its scope.
    - [CacheJoint] makes [Actor] and [CacheSession] one system: the session's side is
      computed from the supervisor's history, and answers it. [CacheSupervisor] says
      what each operation keeps, [CacheLife] carries it through the whole of [Actor],
      and [CacheLifeSamples] runs whole lives.
    - [PySpawner] and [PyServer] ([tinyruntime-pyserver]: [spawner.rs], [server.rs],
      [launch.rs], [error.rs], [script.rs]), [PyLife] (its callers interleaving) and
      [PySlot] ([slot.rs]): the client of one warm Python server.

    Definitions keep the names of the source; where two components share one, the
    struct's name is a prefix ([Registry_new]). A record's fields carry a prefix of
    their own.

    ** How the code's effects are represented

    - Fallible code returns [result]; an asynchronous function that may be dropped by
      an enclosing deadline, or wait for ever, returns an [option] or the type [timed].
    - A lock section is one transition: [LangPool.step], [Manager.mstep],
      [ResolveLife.resolving_step] and [PyLife.pystep] have one constructor for each
      thing that happens between two points where others may run, and the invariants
      are by induction on [reachable].
    - What the environment answers is universally quantified: [World.Env],
      [CapFs.CapEnv] and [Actor.ActorEnv] are functions of the history ([CapEnv] also
      changes the tree before every call, as other processes may),
      [PoolWorker.socket] and the lists of [Native.fill] are what a pipe delivers and
      how it is cut.
    - Third-party code is a class of parameters ([Sha256], [Unpackers], [PoolJson],
      [WorkerJson], [RecipeJson], [JsonValue], [Bus], [RustDebug]), with a law class where
      the code relies on documented behaviour ([Sha256Law], [DigestLaw],
      [ZipLaws], [TarLaws], [PoolJsonLaw], and [ProtocolLaws] for both ends of the socket);
      each law is instantiated in the [Samples] section of its file, where the
      theorems are applied to concrete inputs.
    - [ProviderLaws] is the interface between the resolver and providers: asking a
      question changes nothing on this host. [Provider] discharges it for the one
      implementation in the crate and [StubProvider] for the two of its tests;
      [Resolve] and [ResolveLife] are proved against the interface, or without it.

    ** What the theorems show

    - Jobs: a job is handed to a worker at most once, and an error that invites a
      retry means it never was; workers, permits and queue are bounded over every
      interleaving; a worker serves one call at a time; nothing leaks when calls are
      cancelled; every call can be carried to its end, in a bounded number of steps of
      its own ([LangPool]); with its counters and permits a pool is
      an executor that has none ([PoolSpec]). A reply is only taken for the job it
      answers; once the worker has read the job, a deadline is kept whatever arrives
      (a worker that stops reading blocks its call for ever, as in the code); a worker is
      used only after the first line of the connection it made in time presented the
      secret, and its environment is an allow-list ([PoolWorker]). The
      two ends of the protocol fit: through noise and stray replies every job comes
      back with its own, up to the one that ends the worker ([FakeWorker]), and calls
      made one after the other are all answered by one warm process ([PoolServes]).
      [Engine] relates the bus request to the pool and the harness it runs on.
    - Toolchains: a failed provisioning leaves the previous toolchain whole, a
      successful one installs the unpacked tree whole and verified; provisioning is
      serialised and re-checked under the lock; unpacking a zip, through every link it
      meets, stays inside a staging directory that had none (that a tarball's does is
      the [tar] crate's promise, [TarLaws]); a request that forbids installing neither changes the disk nor reaches
      the network; the reuse scan finds the greatest acceptable install; the memo
      tells different settings apart, and over every interleaving of callers, whatever
      their requests contain, what is answered or remembered is what the language's own
      provider said under all of the settings asked for, unless separators in the
      settings made two keys one.
    - Providers: the last registration wins, every language is listed, and only a
      provider of a compatible contract that advertises a capability is asked for it.
    - Persistent workers: an operation is attempted once over the life of its
      supervisor and repeats are answered from memory; there is never more than one
      child, worker or preparation step; a failed start backs off for five minutes; no child is forgotten before
      it was waited for; a handle has one supervisor, started for a vetted plan, that
      stays in the book until it has closed; shutting down is final; plans, recipes
      and requests are bounded and stay inside their scope; frame reading does not
      depend on how the bytes are cut, and a request is answered within its bound. The
      manager refines a one-way life of each handle, and a supervisor is announced
      closed exactly when its closing loop has ended, with every process waited for and
      neither a process nor a cache lock left, and as soon as nothing stands in the way.
    - Worker caches: whatever other processes do and whatever fails, a session changes
      only single names in directories it reached from its root without following a
      link, writes only to files it created, and removes only a directory it opened
      under a name it made in its root. Waiting for the scope's lock ends.
      While the session alone holds the scope (no other process changes it: [quiet])
      and looking at the tree works ([sighted]; writes, renames and removals may still
      fail), a rebuild first takes the old marker away and publishes the new one last,
      so that at every moment the cache is the old one, unmarked, or complete; the
      next session finds it exactly when it is complete; adopting a cache from before
      identities only adds its identity. Over the whole life of a supervisor, from the
      lock it waits for to the end of its closing loop, under the same two conditions
      and with commands that leave the staging alone and do not forge the marker, its
      cache is never half made and marked; preparation is only complete with a complete cache, and the lock is given back.
    - The Python server: one process at a time, over every interleaving of callers; a
      reply answers the request it was sent for; a request is sent at most twice and
      never twice to one process; an exchange goes on exactly as long as the process
      says something else within each timeout, and otherwise ends within one timeout for
      each line it read; a failed start is remembered for five minutes.

    ** Fuel and bounds

    [RustStd.trim_front] has the length of the string for fuel, and every encoding it
    strips is non-empty ([trim_front_done]). [World.resolve_names] has forty links'
    worth of path components; running out is the error the system itself reports.
    [Native.read_response] has one unit for each byte and each read that is left, and
    consumes at least one in each turn; that it never runs out is part of
    [request_is_answered_within_bounds]. What a Python server writes has no end
    ([PyServer.output]); [PyServer.read_loop] follows it for [sy_turns] lines, one unit
    each, and calls an exchange that still goes on [Stuck]: [exchange_is_bounded] says
    when that is for every number of lines, and that any that was enough gives the
    answer every greater one does. Supervisors are bounded by the lists of
    commands they are given, for every such list. [CacheSession.acquire_lock] has one
    unit for each turn of its wait; a turn that goes on has slept 25 milliseconds, so
    one turn per 25 milliseconds before the deadline is enough
    ([CacheProps.waiting_for_the_lock_ends]).

    ** What is not modelled

    - The wire form of payloads (derived serialisers), logging, and the generated
      module entry.
    - What runs after a cache's session was given back (the plan's own steps and the
      worker itself) does not act on the tree of [CacheLife]. The file a cache lock is
      held on is an inode; the lock itself is the system's answer.
    - A cache's tree has one device, and its directories no permissions; calls that
      the real ones would refuse are among those that may fail.
    - [tinyruntime-process], an unsafe binding to [fchdir]; Windows-only branches;
      draining a child's output to the log; the scripts and directories of tests, and
      the example programs, which print what the module answers.
    - [resolve_fresh] is one step of [ResolveLife]: what others do to the disk while it
      runs is what [World.Env] says other processes did. *)

From Stdlib Require Export NArith Lia Ascii.
From stdpp Require Export base tactics option strings pretty numbers gmap list.

#[export] Set Default Goal Selector "!".

(** ** Results: Rust's [Result<T, E>] *)

Inductive result (E A : Type) : Type :=
| Ok (a : A)
| Err (e : E).
Arguments Ok {E A} a.
Arguments Err {E A} e.

Definition result_bind {E A B} (r : result E A) (k : A -> result E B) : result E B :=
  match r with Ok a => k a | Err e => Err e end.

Definition map_err {E F A} (f : E -> F) (r : result E A) : result F A :=
  match r with Ok a => Ok a | Err e => Err (f e) end.

Definition result_map {E A B} (f : A -> B) (r : result E A) : result E B :=
  match r with Ok a => Ok (f a) | Err e => Err e end.

Definition ok_or {E A} (e : E) (o : option A) : result E A :=
  match o with Some a => Ok a | None => Err e end.

Definition is_ok {E A} (r : result E A) : bool :=
  match r with Ok _ => true | Err _ => false end.

(** ** Computations over a state of the world, with Rust's [?] *)

Definition io (W A : Type) : Type := W -> A * W.

Definition io_ret {W A} (a : A) : io W A := fun w => (a, w).

Definition io_bind {W A B} (m : io W A) (k : A -> io W B) : io W B :=
  fun w => let '(a, w') := m w in k a w'.

Definition io_try {W E A B} (m : io W (result E A)) (k : A -> io W (result E B))
  : io W (result E B) :=
  fun w => match m w with
           | (Ok a, w') => k a w'
           | (Err e, w') => (Err e, w')
           end.

Definition io_map {W A B} (f : A -> B) (m : io W A) : io W B :=
  fun w => let '(a, w') := m w in (f a, w').

(** Reading the world without changing it. *)
Definition io_get {W A} (f : W -> A) : io W A := fun w => (f w, w).

Declare Scope rust_scope.
Delimit Scope rust_scope with rust.

Notation "x <-- m ;; k" := (io_bind m (fun x => k))
  (at level 60, m at next level, right associativity) : rust_scope.
Notation "m ;;; k" := (io_bind m (fun _ => k))
  (at level 60, right associativity) : rust_scope.
Notation "x <-? m ;; k" := (io_try m (fun x => k))
  (at level 60, m at next level, right associativity) : rust_scope.
Notation "x <-! r ;; k" := (result_bind r (fun x => k))
  (at level 60, r at next level, right associativity) : rust_scope.

(** ** Machine integers *)

Definition u64_max : N := 18446744073709551615.
(** [usize] on the 64-bit targets the crates are released for. *)
Definition usize_max : N := u64_max.
Definition u64_modulus : N := 18446744073709551616.

(** Release builds wrap on overflow. *)
Definition wrapping_add (a b : N) : N := ((a + b) mod u64_modulus)%N.
Definition wrapping_sub (a b : N) : N := ((a + (u64_modulus - b mod u64_modulus)) mod u64_modulus)%N.
Definition saturating_add (a b : N) : N := N.min u64_max (a + b)%N.
Definition saturating_sub (a b : N) : N := (a - b)%N.
Definition checked_add (a b : N) : option N :=
  if (a + b <=? u64_max)%N then Some (a + b)%N else None.

(** ** Transition systems *)

Section Reachability.
Context {S : Type} (init : S -> Prop) (step : S -> S -> Prop).

Inductive reachable : S -> Prop :=
| reachable_init s : init s -> reachable s
| reachable_step s t : reachable s -> step s t -> reachable t.

Lemma reachable_invariant (P : S -> Prop) :
  (forall s, init s -> P s) ->
  (forall s t, P s -> step s t -> P t) ->
  forall s, reachable s -> P s.
Proof. induction 3; eauto. Qed.

(** An invariant may lean on one already established. *)
Lemma reachable_invariant_with (Q P : S -> Prop) :
  (forall s, reachable s -> Q s) ->
  (forall s, init s -> P s) ->
  (forall s t, Q s -> P s -> step s t -> P t) ->
  forall s, reachable s -> P s.
Proof. intros HQ Hinit Hstep s Hs. induction Hs; eauto. Qed.

End Reachability.
#[global] Hint Constructors reachable : core.

(** ** Counting the entries of a map *)

Section Counting.
Context {A : Type}.
Implicit Types (f g : A -> bool) (m : gmap nat A).

Definition count_of f m : nat := size (filter (fun '(_, a) => f a = true) m).

Lemma count_new f m i a : m !! i = None -> count_of f (<[i := a]> m) = ((if f a then 1 else 0) + count_of f m)%nat.
Proof.
  intros Hi. unfold count_of. destruct (f a) eqn:Hf.
  - rewrite map_filter_insert_True by done. rewrite map_size_insert_None; [done|].
    apply map_lookup_filter_None. by left.
  - rewrite map_filter_insert_False by (by rewrite Hf). by rewrite delete_id.
Qed.

Lemma count_update f m i a a' :
  m !! i = Some a ->
  (count_of f (<[i := a']> m) + (if f a then 1 else 0) = count_of f m + (if f a' then 1 else 0))%nat.
Proof.
  intros Hi. rewrite <- (insert_delete_id m i a Hi) at 2. rewrite <- (insert_delete_eq m i a').
  rewrite !count_new by apply lookup_delete_eq. lia.
Qed.

Lemma count_zero f m : (forall i a, m !! i = Some a -> f a = false) -> count_of f m = 0%nat.
Proof.
  intros Hf. unfold count_of. apply map_size_empty_iff, map_eq. intros i. rewrite lookup_empty.
  apply map_lookup_filter_None. right. intros a Hi. by rewrite (Hf _ _ Hi).
Qed.

Lemma count_nonzero f m : count_of f m <> 0%nat -> exists i a, m !! i = Some a /\ f a = true.
Proof.
  intros Hne. apply map_size_ne_0_lookup_1 in Hne as (i & a & Hi).
  apply map_lookup_filter_Some in Hi. eauto.
Qed.

Lemma count_le f g m : (forall a, f a = true -> g a = true) -> (count_of f m <= count_of g m)%nat.
Proof.
  intros Hfg. apply map_subseteq_size, map_subseteq_spec. intros i a.
  rewrite !map_lookup_filter_Some. intros [? ?]. auto.
Qed.

Lemma count_le_size f m : (count_of f m <= size m)%nat.
Proof. apply map_subseteq_size, map_filter_subseteq. Qed.

(** The sum of a measure over the entries. *)
Definition sum_of (h : A -> nat) m : nat := map_fold (fun _ a n => h a + n)%nat 0%nat m.

Lemma sum_new (h : A -> nat) m i a : m !! i = None -> sum_of h (<[i := a]> m) = (h a + sum_of h m)%nat.
Proof. intros Hi. apply (map_fold_insert_L (fun _ a n => h a + n)%nat); [intros; lia|done]. Qed.

Lemma sum_update (h : A -> nat) m i a a' :
  m !! i = Some a -> (sum_of h (<[i := a']> m) + h a = sum_of h m + h a')%nat.
Proof.
  intros Hi. rewrite <- (insert_delete_id m i a Hi) at 2. rewrite <- (insert_delete_eq m i a').
  rewrite !sum_new by apply lookup_delete_eq. lia.
Qed.

End Counting.

(** Two maps with the same keys, whose entries count alike. *)
Lemma count_same {A B} (f : A -> bool) (g : B -> bool) (m : gmap nat A) (n : gmap nat B) :
  (forall i, f <$> m !! i = g <$> n !! i) -> count_of f m = count_of g n.
Proof.
  intros Hi. unfold count_of. rewrite <- !(size_dom (D := gset nat)). f_equal. apply set_eq. intros i.
  rewrite !elem_of_dom. specialize (Hi i). unfold is_Some.
  destruct (m !! i) as [a|] eqn:Ha, (n !! i) as [b|] eqn:Hb; try done.
  - injection Hi as Hf.
    split; intros [? [E1 E2]%map_lookup_filter_Some].
    + exists b. apply map_lookup_filter_Some. split; [done|]. rewrite <- Hf. congruence.
    + exists a. apply map_lookup_filter_Some. split; [done|]. rewrite Hf. congruence.
  - split; intros [? [E1 E2]%map_lookup_filter_Some]; congruence.
Qed.

(** ** Tactics *)

(** Case analysis on every [match] and [if] left in the goal or a hypothesis. *)
Ltac break_match :=
  match goal with
  | |- context [match ?x with _ => _ end] => destruct x eqn:?
  | H : context [match ?x with _ => _ end] |- _ => destruct x eqn:?
  end.
Ltac break := repeat (break_match; simplify_eq/=).

(** Reflect the boolean tests of the code into propositions. *)
Ltac reflect_bools :=
  repeat match goal with
  | H : (_ && _)%bool = true |- _ => apply andb_true_iff in H as [? ?]
  | H : (_ && _)%bool = false |- _ => apply andb_false_iff in H
  | H : (_ || _)%bool = true |- _ => apply orb_true_iff in H
  | H : (_ || _)%bool = false |- _ => apply orb_false_iff in H as [? ?]
  | H : negb _ = true |- _ => apply negb_true_iff in H
  | H : negb _ = false |- _ => apply negb_false_iff in H
  | H : bool_decide _ = true |- _ => apply bool_decide_eq_true in H
  | H : bool_decide _ = false |- _ => apply bool_decide_eq_false in H
  | H : N.leb _ _ = true |- _ => apply N.leb_le in H
  | H : N.leb _ _ = false |- _ => apply N.leb_gt in H
  | H : N.ltb _ _ = true |- _ => apply N.ltb_lt in H
  | H : N.ltb _ _ = false |- _ => apply N.ltb_ge in H
  | H : N.eqb _ _ = true |- _ => apply N.eqb_eq in H
  | H : N.eqb _ _ = false |- _ => apply N.eqb_neq in H
  | H : String.eqb _ _ = true |- _ => apply String.eqb_eq in H
  | H : String.eqb _ _ = false |- _ => apply String.eqb_neq in H
  end.

(** ** Lemmas the components share *)

Create HintDb rust discriminated.

Lemma io_bind_ret {W A B} (a : A) (k : A -> io W B) w :
  io_bind (io_ret a) k w = k a w.
Proof. reflexivity. Qed.

Lemma io_try_ok {W E A B} (m : io W (result E A)) (k : A -> io W (result E B)) w a w' :
  m w = (Ok a, w') -> io_try m k w = k a w'.
Proof. unfold io_try. by intros ->. Qed.

Lemma io_try_err {W E A B} (m : io W (result E A)) (k : A -> io W (result E B)) w e w' :
  m w = (Err e, w') -> io_try m k w = (Err e, w').
Proof. unfold io_try. by intros ->. Qed.

(** Inversion of [?]: the whole succeeds only through the first part. *)
Lemma io_try_inv_ok {W E A B} (m : io W (result E A)) (k : A -> io W (result E B)) w b w' :
  io_try m k w = (Ok b, w') ->
  exists a w1, m w = (Ok a, w1) /\ k a w1 = (Ok b, w').
Proof. unfold io_try. destruct (m w) as [[a|e] w1]; naive_solver. Qed.

Lemma wrapping_add_small a b : (a + b <= u64_max)%N -> wrapping_add a b = (a + b)%N.
Proof. intros. unfold wrapping_add. apply N.mod_small. unfold u64_max, u64_modulus in *. lia. Qed.

Lemma checked_add_spec a b c :
  checked_add a b = Some c <-> c = (a + b)%N /\ (a + b <= u64_max)%N.
Proof.
  unfold checked_add. destruct (N.leb_spec (a + b) u64_max); split.
  - by intros [= <-].
  - by intros [-> _].
  - done.
  - intros [_ ?]. lia.
Qed.

#[export] Hint Resolve wrapping_add_small : rust.
