(* ===== verification/RustStd.v ===== *)
(** * The parts of Rust's standard library the crates use

    Byte strings ([str::trim], [split], [strip_prefix], ASCII case, decimal
    printing and parsing of [u64]) and Unix paths ([Path::join], [parent],
    [file_name], [with_extension], [starts_with], component order).  A [str] is
    its UTF-8 bytes, a [string] here, so [String.length] is [str::len]. *)

From S2P Require Import Prelude.
From Stdlib Require Import String Ascii.
From stdpp Require Import sorting.

(** ** Bytes *)

Definition byte_to_lower (c : ascii) : ascii :=
  let n := N_of_ascii c in
  if (65 <=? n)%N && (n <=? 90)%N then ascii_of_N (n + 32) else c.

Definition byte_to_upper (c : ascii) : ascii :=
  let n := N_of_ascii c in
  if (97 <=? n)%N && (n <=? 122)%N then ascii_of_N (n - 32) else c.

Definition is_ascii_digit (c : ascii) : bool :=
  let n := N_of_ascii c in (48 <=? n)%N && (n <=? 57)%N.

Definition is_ascii_alphanumeric (c : ascii) : bool :=
  let n := N_of_ascii c in
  is_ascii_digit c || (65 <=? n)%N && (n <=? 90)%N || (97 <=? n)%N && (n <=? 122)%N.

(** ** Strings *)

Fixpoint string_map (f : ascii -> ascii) (s : string) : string :=
  match s with
  | EmptyString => EmptyString
  | String c r => String (f c) (string_map f r)
  end.

Definition to_ascii_lowercase : string -> string := string_map byte_to_lower.
Definition to_ascii_uppercase : string -> string := string_map byte_to_upper.

Definition eq_ignore_ascii_case (a b : string) : bool :=
  String.eqb (to_ascii_lowercase a) (to_ascii_lowercase b).

Fixpoint string_existsb (f : ascii -> bool) (s : string) : bool :=
  match s with
  | EmptyString => false
  | String c r => f c || string_existsb f r
  end.

Definition string_forallb (f : ascii -> bool) (s : string) : bool :=
  negb (string_existsb (fun c => negb (f c)) s).

Definition contains_byte (c : ascii) (s : string) : bool :=
  string_existsb (Ascii.eqb c) s.

Definition str_len (s : string) : N := N.of_nat (String.length s).

Definition starts_with (p s : string) : bool := String.prefix p s.

Definition ends_with_byte (c : ascii) (s : string) : bool :=
  match String.rev s with String d _ => Ascii.eqb c d | EmptyString => false end.

Fixpoint strip_prefix (p s : string) : option string :=
  match p, s with
  | EmptyString, _ => Some s
  | String a p', String b s' => if Ascii.eqb a b then strip_prefix p' s' else None
  | String _ _, EmptyString => None
  end.

Definition strip_suffix (p s : string) : option string :=
  String.rev <$> strip_prefix (String.rev p) (String.rev s).

(** [str::split] on a one-byte separator. *)
Fixpoint split_on (c : ascii) (s : string) : list string :=
  match s with
  | EmptyString => [""]
  | String d r =>
      if Ascii.eqb c d then "" :: split_on c r
      else match split_on c r with
           | [] => [String d ""]
           | x :: xs => String d x :: xs
           end
  end.

(** [str::replace] of one byte by another. *)
Definition replace_byte (a b : ascii) : string -> string :=
  string_map (fun c => if Ascii.eqb a c then b else c).


(** [char::is_control] on UTF-8 bytes: C0, DEL, and C1 ([C2 80] to [C2 9F]). *)
Fixpoint contains_control (s : string) : bool :=
  match s with
  | EmptyString => false
  | String c r =>
      let n := N_of_ascii c in
      (n <? 32)%N || (n =? 127)%N
      || match r with
         | String d _ => (n =? 194)%N && (128 <=? N_of_ascii d)%N && (N_of_ascii d <=? 159)%N
         | EmptyString => false
         end
      || contains_control r
  end.

(** The UTF-8 encodings of the Unicode [White_Space] characters. *)
Definition white_space : list (list ascii) :=
  map (map ascii_of_N)
    ([[9]; [10]; [11]; [12]; [13]; [32]; [194; 133]; [194; 160]; [225; 154; 128];
      [226; 128; 128]; [226; 128; 129]; [226; 128; 130]; [226; 128; 131];
      [226; 128; 132]; [226; 128; 133]; [226; 128; 134]; [226; 128; 135];
      [226; 128; 136]; [226; 128; 137]; [226; 128; 138]; [226; 128; 168];
      [226; 128; 169]; [226; 128; 175]; [226; 129; 159]; [227; 128; 128]]%N).

Fixpoint strip_bytes (p l : list ascii) : option (list ascii) :=
  match p, l with
  | [], _ => Some l
  | a :: p', b :: l' => if Ascii.eqb a b then strip_bytes p' l' else None
  | _ :: _, [] => None
  end.

Fixpoint strip_any (encs : list (list ascii)) (l : list ascii) : option (list ascii) :=
  match encs with
  | [] => None
  | e :: es => match strip_bytes e l with Some r => Some r | None => strip_any es l end
  end.

Fixpoint trim_front (encs : list (list ascii)) (fuel : nat) (l : list ascii) : list ascii :=
  match fuel with
  | O => l
  | S fuel => match strip_any encs l with
              | Some r => trim_front encs fuel r
              | None => l
              end
  end.

(** [str::trim]; every encoding is non-empty, so the length is fuel enough. *)
Definition trim_bytes (l : list ascii) : list ascii :=
  let front := trim_front white_space (length l) l in
  rev (trim_front (map (@rev ascii) white_space) (length front) (rev front)).

Definition trim (s : string) : string :=
  string_of_list_ascii (trim_bytes (list_ascii_of_string s)).

(** [u64::from_str]: an optional plus sign, then at least one digit. *)
Fixpoint parse_digits (s : string) (acc : N) : option N :=
  match s with
  | EmptyString => Some acc
  | String c r =>
      if is_ascii_digit c then
        let acc' := (acc * 10 + (N_of_ascii c - 48))%N in
        if (acc' <=? u64_max)%N then parse_digits r acc' else None
      else None
  end.

Definition parse_u64 (s : string) : option N :=
  match s with
  | EmptyString => None
  | String c r =>
      if Ascii.eqb c "+" then match r with EmptyString => None | _ => parse_digits r 0 end
      else parse_digits s 0
  end.

(** [u64::to_string]. *)
Definition display_u64 (n : N) : string := pretty n.

(** ** Paths

    A [PathBuf] is its root flag and its components: [std::path] compares,
    orders and joins paths by component, so repeated and trailing separators
    are not represented. *)

Record Path := MkPath { p_root : bool; p_names : list string }.

#[global] Instance Path_eq_dec : EqDecision Path.
Proof. solve_decision. Defined.
#[global] Program Instance Path_countable : Countable Path :=
  inj_countable' (fun p => (p_root p, p_names p)) (fun '(r, n) => MkPath r n) _.
Next Obligation. by intros []. Qed.

Inductive Component := RootDir | CurDir | ParentDir | Normal (name : string).

Definition Path_new (s : string) : Path :=
  let parts := split_on "/" s in
  let kept := filter (fun p => p <> "" /\ p <> ".") parts in
  match parts with
  | "" :: _ :: _ => MkPath true kept
  | "." :: _ => MkPath false ("." :: kept)
  | _ => MkPath false kept
  end.

Definition component_of (name : string) : Component :=
  if String.eqb name ".." then ParentDir
  else if String.eqb name "." then CurDir
  else Normal name.

Definition components (p : Path) : list Component :=
  (if p_root p then [RootDir] else []) ++ map component_of (p_names p).

Definition is_absolute (p : Path) : bool := p_root p.

(** [Path::join]: an absolute right-hand side replaces the left one. *)
Definition path_join (a b : Path) : Path :=
  if p_root b then b
  else MkPath (p_root a)
         (p_names a ++ match p_names b with
                       | "." :: r => match p_names a with [] => "." :: r | _ => r end
                       | r => r
                       end).

(** [Path::parent] *)
Definition parent (p : Path) : option Path :=
  match p_names p with
  | [] => None
  | _ => Some (MkPath (p_root p) (removelast (p_names p)))
  end.

(** [Path::file_name] *)
Definition file_name (p : Path) : option string :=
  match last (p_names p) with
  | Some n => match component_of n with Normal m => Some m | _ => None end
  | None => None
  end.

(** [Path::starts_with], by components. *)
Definition path_starts_with (p base : Path) : bool :=
  bool_decide (p_root p = p_root base)
  && bool_decide (firstn (length (p_names base)) (p_names p) = p_names base).

(** [Path::file_stem]: what precedes the last dot, unless that dot is first. *)
Definition file_stem_of (name : string) : string :=
  match rev (split_on "." name) with
  | [] | [_] => name
  | _ :: before =>
      match String.concat "." (rev before) with
      | EmptyString => name
      | stem => stem
      end
  end.

(** [Path::with_extension] *)
Definition with_extension (p : Path) (ext : string) : Path :=
  match file_name p with
  | None => p
  | Some name =>
      MkPath (p_root p)
        (removelast (p_names p)
         ++ [file_stem_of name +:+ (if String.eqb ext "" then "" else "." +:+ ext)])
  end.

(** [Path::to_string_lossy], on a path whose names are valid UTF-8. *)
Definition path_display (p : Path) : string :=
  (if p_root p then "/" else "") +:+ String.concat "/" (p_names p).

(** The order [Vec<PathBuf>::sort] sorts by: component by component, bytewise. *)
Fixpoint names_le (a b : list string) : bool :=
  match a, b with
  | [], _ => true
  | _ :: _, [] => false
  | x :: a', y :: b' =>
      match String.compare x y with
      | Lt => true
      | Eq => names_le a' b'
      | Gt => false
      end
  end.

Definition path_le (p q : Path) : Prop :=
  match p_root p, p_root q with
  | true, false => True
  | false, true => False
  | _, _ => names_le (p_names p) (p_names q) = true
  end.

#[global] Instance path_le_dec p q : Decision (path_le p q).
Proof. unfold path_le. destruct (p_root p), (p_root q); apply _. Defined.

Definition path_sort (l : list Path) : list Path := merge_sort path_le l.

(** ** Lemmas *)

Lemma string_map_compose f g s : string_map f (string_map g s) = string_map (fun c => f (g c)) s.
Proof. induction s; cbn; congruence. Qed.

Lemma string_map_ext f g s : (forall c, f c = g c) -> string_map f s = string_map g s.
Proof. intros H. induction s; cbn; congruence. Qed.

Lemma string_map_length f s : String.length (string_map f s) = String.length s.
Proof. induction s; cbn; congruence. Qed.

Lemma string_map_bytes f s :
  list_ascii_of_string (string_map f s) = map f (list_ascii_of_string s).
Proof. induction s; cbn; congruence. Qed.

Lemma string_map_of_bytes f l :
  string_map f (string_of_list_ascii l) = string_of_list_ascii (map f l).
Proof. induction l; cbn; congruence. Qed.

Lemma byte_to_lower_idem c : byte_to_lower (byte_to_lower c) = byte_to_lower c.
Proof. destruct c as [[][][][][][][][]]; reflexivity. Qed.

Lemma byte_to_lower_upper c : byte_to_lower (byte_to_upper c) = byte_to_lower c.
Proof. destruct c as [[][][][][][][][]]; reflexivity. Qed.

Lemma to_ascii_lowercase_idem s :
  to_ascii_lowercase (to_ascii_lowercase s) = to_ascii_lowercase s.
Proof.
  unfold to_ascii_lowercase. rewrite string_map_compose.
  apply string_map_ext, byte_to_lower_idem.
Qed.

Lemma to_ascii_lowercase_upper s :
  to_ascii_lowercase (to_ascii_uppercase s) = to_ascii_lowercase s.
Proof.
  unfold to_ascii_lowercase, to_ascii_uppercase. rewrite string_map_compose.
  apply string_map_ext, byte_to_lower_upper.
Qed.

Lemma eq_ignore_ascii_case_spec a b :
  eq_ignore_ascii_case a b = true <-> to_ascii_lowercase a = to_ascii_lowercase b.
Proof. apply String.eqb_eq. Qed.

(** *** Trimming *)

Lemma strip_bytes_app p l r : strip_bytes p l = Some r <-> l = p ++ r.
Proof.
  revert l. induction p as [|a p IH]; intros l; cbn.
  { split; [by intros [= ->]|by intros ->]. }
  destruct l as [|b l]; [done|]. destruct (Ascii.eqb_spec a b) as [->|Hne].
  - rewrite IH. split; [by intros ->|by intros [= ->]].
  - split; [done|by intros [= ? _]].
Qed.

Lemma strip_any_Some encs l r :
  strip_any encs l = Some r -> exists e, e ∈ encs /\ l = e ++ r.
Proof.
  induction encs as [|e es IH]; cbn; [done|].
  destruct (strip_bytes e l) eqn:E.
  - intros [= ->]. exists e. split; [left|by apply strip_bytes_app].
  - intros (e' & ? & ->)%IH. exists e'. split; [by right|done].
Qed.

Lemma strip_any_None encs l :
  strip_any encs l = None <-> forall e r, e ∈ encs -> l <> e ++ r.
Proof.
  induction encs as [|e es IH]; cbn; [split; [intros _ ?? []%not_elem_of_nil|done]|].
  destruct (strip_bytes e l) as [r|] eqn:E.
  - apply strip_bytes_app in E. split; [done|]. intros H. by destruct (H e r); [left|].
  - rewrite IH. split; intros H e' r He'.
    + apply elem_of_cons in He' as [->|He']; [|eauto].
      intros Heq%strip_bytes_app. congruence.
    + apply H. by right.
Qed.

Lemma trim_front_suffix encs fuel l : exists p, l = p ++ trim_front encs fuel l.
Proof.
  revert l. induction fuel as [|n IH]; intros l; cbn; [by exists []|].
  destruct (strip_any encs l) as [r|] eqn:E; [|by exists []].
  apply strip_any_Some in E as (e & _ & ->).
  destruct (IH r) as [p Hp]. exists (e ++ p). rewrite <- app_assoc. by rewrite <- Hp.
Qed.

(** With the length as fuel, trimming stops at a byte that starts no separator. *)
Lemma trim_front_done encs fuel l :
  [] ∉ encs -> (length l <= fuel)%nat -> strip_any encs (trim_front encs fuel l) = None.
Proof.
  intros Hne. revert l. induction fuel as [|n IH]; intros l Hl; cbn.
  - destruct l; [|cbn in Hl; lia]. apply strip_any_None. intros [|] r He; [done|done].
  - destruct (strip_any encs l) as [r|] eqn:E; [|done].
    apply strip_any_Some in E as (e & He & ->). apply IH.
    destruct e; [done|]. cbn in Hl. rewrite length_app in Hl. lia.
Qed.

Lemma trim_front_fix encs fuel l : strip_any encs l = None -> trim_front encs fuel l = l.
Proof. destruct fuel; cbn; [done|]. by intros ->. Qed.

Lemma strip_any_prefix encs l r : strip_any encs (l ++ r) = None -> strip_any encs l = None.
Proof.
  rewrite !strip_any_None. intros H e s He ->. apply (H e (s ++ r) He). by rewrite app_assoc.
Qed.

Lemma white_space_nonempty : [] ∉ white_space.
Proof. apply (bool_decide_unpack _). vm_compute. exact I. Qed.

Lemma white_space_rev_nonempty : [] ∉ map (@rev ascii) white_space.
Proof. apply (bool_decide_unpack _). vm_compute. exact I. Qed.

Lemma trim_bytes_front l : strip_any white_space (trim_bytes l) = None.
Proof.
  unfold trim_bytes. set (front := trim_front white_space (length l) l).
  destruct (trim_front_suffix (map (@rev ascii) white_space) (length front) (rev front))
    as [p Hp].
  apply (strip_any_prefix _ _ (rev p)). rewrite <- rev_app_distr, <- Hp, rev_involutive.
  apply trim_front_done; [apply white_space_nonempty|done].
Qed.

Lemma trim_bytes_idem l : trim_bytes (trim_bytes l) = trim_bytes l.
Proof.
  unfold trim_bytes at 1. rewrite (trim_front_fix white_space) by apply trim_bytes_front.
  rewrite (trim_front_fix (map _ _)); [apply rev_involutive|].
  unfold trim_bytes. rewrite rev_involutive.
  apply trim_front_done; [apply white_space_rev_nonempty|by rewrite length_rev].
Qed.

Lemma trim_idem s : trim (trim s) = trim s.
Proof.
  unfold trim. rewrite list_ascii_of_string_of_list_ascii. by rewrite trim_bytes_idem.
Qed.

(** A byte map that neither produces nor consumes the bytes of the separators
    commutes with trimming. *)
Definition transparent (f : ascii -> ascii) (encs : list (list ascii)) : bool :=
  forallb (forallb (fun x => forallb (fun n =>
    let c := ascii_of_nat n in Bool.eqb (Ascii.eqb x (f c)) (Ascii.eqb x c)) (seq 0 256))) encs.

Lemma transparent_elem f encs e x c :
  transparent f encs = true -> e ∈ encs -> x ∈ e -> Ascii.eqb x (f c) = Ascii.eqb x c.
Proof.
  unfold transparent. rewrite forallb_forall. intros H He Hx.
  apply list_elem_of_In in He. specialize (H e He). rewrite forallb_forall in H.
  apply list_elem_of_In in Hx. specialize (H x Hx). rewrite forallb_forall in H.
  specialize (H (nat_of_ascii c)). rewrite ascii_nat_embedding in H.
  apply Bool.eqb_prop, H, in_seq. pose proof (nat_ascii_bounded c). lia.
Qed.

Lemma strip_bytes_map f p l :
  (forall x c, x ∈ p -> Ascii.eqb x (f c) = Ascii.eqb x c) ->
  strip_bytes p (map f l) = map f <$> strip_bytes p l.
Proof.
  revert l. induction p as [|a p IH]; intros [|b l] H; cbn; try done.
  rewrite H by (by left). destruct (Ascii.eqb a b); [|done].
  apply IH. intros. apply H. by right.
Qed.

Lemma strip_any_map f encs l :
  (forall e x c, e ∈ encs -> x ∈ e -> Ascii.eqb x (f c) = Ascii.eqb x c) ->
  strip_any encs (map f l) = map f <$> strip_any encs l.
Proof.
  induction encs as [|e es IH]; intros H; cbn; [done|].
  rewrite strip_bytes_map by (intros; eapply H; [by left|done]).
  destruct (strip_bytes e l); cbn; [done|]. apply IH.
  intros e' x c He'. eapply H. by right.
Qed.

Lemma trim_front_map f encs fuel l :
  transparent f encs = true -> trim_front encs fuel (map f l) = map f (trim_front encs fuel l).
Proof.
  intros Ht. revert l. induction fuel as [|n IH]; intros l; cbn; [done|].
  rewrite strip_any_map by (intros; eapply transparent_elem; eauto).
  destruct (strip_any encs l); cbn; [apply IH|done].
Qed.

Lemma trim_map f s :
  transparent f white_space = true -> transparent f (map (@rev ascii) white_space) = true ->
  trim (string_map f s) = string_map f (trim s).
Proof.
  intros H1 H2. unfold trim, trim_bytes.
  rewrite string_map_bytes, string_map_of_bytes, map_rev, length_map.
  rewrite trim_front_map by done. rewrite length_map.
  rewrite <- (map_rev f). by rewrite trim_front_map.
Qed.

Lemma trim_lowercase s : trim (to_ascii_lowercase s) = to_ascii_lowercase (trim s).
Proof. apply trim_map; vm_compute; reflexivity. Qed.

Lemma trim_uppercase s : trim (to_ascii_uppercase s) = to_ascii_uppercase (trim s).
Proof. apply trim_map; vm_compute; reflexivity. Qed.

(** *** Decimal numbers *)

Lemma pretty_N_char_digit d :
  (d < 10)%N -> is_ascii_digit (pretty_N_char d) = true
                /\ (N_of_ascii (pretty_N_char d) - 48 = d)%N.
Proof.
  intros Hd. assert (d ∈ (N.of_nat <$> seq 0 10)) as Hin.
  { apply list_elem_of_fmap. exists (N.to_nat d). rewrite N2Nat.id. split; [done|].
    apply elem_of_seq. lia. }
  cbn in Hin. repeat (apply elem_of_cons in Hin as [->|Hin]; [by vm_compute|]).
  by apply not_elem_of_nil in Hin.
Qed.

Lemma parse_digits_pretty_go x s :
  (x <= u64_max)%N -> parse_digits (pretty_N_go x s) 0 = parse_digits s x.
Proof.
  revert s. induction (N.lt_wf_0 x) as [x _ IH]. intros s Hx.
  destruct (decide (x = 0)%N) as [->|Hne]; [by rewrite pretty_N_go_0|].
  rewrite pretty_N_go_step by lia.
  assert (x mod 10 < 10)%N as Hd by (apply N.mod_lt; lia).
  pose proof (N.div_mod x 10 ltac:(lia)) as Hdm.
  pose proof (N.div_lt x 10 ltac:(lia) ltac:(lia)) as Hlt.
  rewrite IH; [|lia|lia]. cbn [parse_digits].
  destruct (pretty_N_char_digit _ Hd) as [-> ->].
  replace (x `div` 10 * 10 + x `mod` 10)%N with x by lia.
  by rewrite (proj2 (N.leb_le _ _) Hx).
Qed.

Lemma pretty_N_go_head x s :
  (0 < x)%N -> exists d r, (d < 10)%N /\ pretty_N_go x s = String (pretty_N_char d) r.
Proof.
  revert s. induction (N.lt_wf_0 x) as [x _ IH]. intros s Hx.
  rewrite pretty_N_go_step by done.
  assert (x mod 10 < 10)%N as Hd by (apply N.mod_lt; lia).
  pose proof (N.div_lt x 10 ltac:(lia) ltac:(lia)) as Hlt.
  destruct (decide (x `div` 10 = 0)%N) as [->|Hne].
  - rewrite pretty_N_go_0. eauto.
  - apply IH; [lia|]. apply N.neq_0_lt_0, Hne.
Qed.

(** Every [u64] is read back from its decimal rendering. *)
Lemma parse_display_u64 n : (n <= u64_max)%N -> parse_u64 (display_u64 n) = Some n.
Proof.
  intros Hn. unfold display_u64, pretty, pretty_N.
  case_decide as H0; [by subst|].
  pose proof (parse_digits_pretty_go n "" Hn) as Hp.
  destruct (pretty_N_go_head n "" (proj1 (N.neq_0_lt_0 n) H0)) as (d & r & Hd & Heq).
  rewrite Heq in *. cbn [parse_u64]. destruct (pretty_N_char_digit d Hd) as [Hdig _].
  destruct (Ascii.eqb_spec (pretty_N_char d) "+") as [E|]; [by rewrite E in Hdig|].
  exact Hp.
Qed.

Lemma display_u64_inj a b : display_u64 a = display_u64 b -> a = b.
Proof. apply (inj pretty). Qed.

(** A number is written in digits alone. *)
Lemma pretty_N_go_without c x s :
  is_ascii_digit c = false -> contains_byte c s = false -> contains_byte c (pretty_N_go x s) = false.
Proof.
  intros Hc. revert s. induction (N.lt_wf_0 x) as [x _ IH]. intros s Hs.
  destruct (decide (x = 0)%N) as [->|Hne]; [by rewrite pretty_N_go_0|].
  rewrite pretty_N_go_step by lia. apply IH; [apply N.div_lt; lia|].
  unfold contains_byte in *. cbn [string_existsb]. rewrite Hs, orb_false_r.
  destruct (Ascii.eqb_spec c (pretty_N_char (x mod 10))) as [->|]; [|done].
  destruct (pretty_N_char_digit (x mod 10)) as [Hd _]; [apply N.mod_lt; lia|congruence].
Qed.

Lemma display_u64_without c n : is_ascii_digit c = false -> contains_byte c (display_u64 n) = false.
Proof.
  intros Hc. unfold display_u64, pretty, pretty_N. destruct (decide _).
  - unfold contains_byte. cbn -[Ascii.eqb]. destruct (Ascii.eqb_spec c "0"%char) as [->|]; done.
  - by apply pretty_N_go_without.
Qed.

Lemma string_append_cons c p r : String c p +:+ r = String c (p +:+ r).
Proof. reflexivity. Qed.

Lemma strip_prefix_app p r : strip_prefix p (p +:+ r) = Some r.
Proof.
  induction p as [|c p IH]; [done|]. rewrite string_append_cons. cbn -[Ascii.eqb].
  by rewrite Ascii.eqb_refl.
Qed.

Lemma strip_prefix_Some p s r : strip_prefix p s = Some r <-> s = p +:+ r.
Proof.
  split; [|intros ->; apply strip_prefix_app].
  revert s. induction p as [|c p IH]; intros s; [by intros [= ->]|].
  destruct s as [|d s]; [done|]. rewrite string_append_cons. cbn -[Ascii.eqb].
  destruct (Ascii.eqb_spec c d) as [->|]; [|done]. by intros ->%IH.
Qed.

(** *** Paths *)

Lemma path_eta p : MkPath (p_root p) (p_names p) = p.
Proof. by destruct p. Qed.

Lemma names_le_refl a : names_le a a = true.
Proof.
  induction a as [|x a IH]; cbn; [done|].
  pose proof (String.compare_antisym x x) as H. destruct (String.compare x x); done.
Qed.

Lemma names_le_total a b : names_le a b = true \/ names_le b a = true.
Proof.
  revert b. induction a as [|x a IH]; intros [|y b]; cbn; eauto.
  rewrite (String.compare_antisym y x). destruct (String.compare x y); cbn; eauto.
Qed.

Lemma names_le_antisym a b : names_le a b = true -> names_le b a = true -> a = b.
Proof.
  revert b. induction a as [|x a IH]; intros [|y b]; cbn; try done.
  rewrite (String.compare_antisym y x). destruct (String.compare x y) eqn:E; cbn; try done.
  apply String.compare_eq_iff in E as ->. intros. f_equal. eauto.
Qed.

Lemma ascii_compare_lt_trans a b c :
  Ascii.compare a b = Lt -> Ascii.compare b c = Lt -> Ascii.compare a c = Lt.
Proof. unfold Ascii.compare. rewrite !N.compare_lt_iff. apply N.lt_trans. Qed.

Lemma string_compare_lt_trans x y z :
  String.compare x y = Lt -> String.compare y z = Lt -> String.compare x z = Lt.
Proof.
  revert y z. induction x as [|a x IH]; intros [|b y] [|c z]; cbn -[Ascii.compare]; try done.
  destruct (Ascii.compare a b) eqn:Eab; try done.
  - apply Ascii.compare_eq_iff in Eab as ->.
    destruct (Ascii.compare b c) eqn:Ebc; try done. apply IH.
  - destruct (Ascii.compare b c) eqn:Ebc; try done.
    + apply Ascii.compare_eq_iff in Ebc as ->. by rewrite Eab.
    + by rewrite (ascii_compare_lt_trans a b c).
Qed.

Lemma names_le_trans a b c : names_le a b = true -> names_le b c = true -> names_le a c = true.
Proof.
  revert b c. induction a as [|x a IH]; intros [|y b] [|z c]; cbn; try done.
  destruct (String.compare x y) eqn:Exy; try done.
  - apply String.compare_eq_iff in Exy as ->.
    destruct (String.compare y z) eqn:Eyz; try done. apply IH.
  - destruct (String.compare y z) eqn:Eyz; try done.
    + apply String.compare_eq_iff in Eyz as ->. by rewrite Exy.
    + by rewrite (string_compare_lt_trans x y z).
Qed.

#[global] Instance path_le_total : Total path_le.
Proof.
  intros [[] a] [[] b]; unfold path_le; cbn; eauto using names_le_total.
Qed.

#[global] Instance path_le_trans : Transitive path_le.
Proof.
  intros [[] a] [[] b] [[] c]; unfold path_le; cbn; try done; apply names_le_trans.
Qed.

#[global] Instance path_le_antisym : AntiSymm (=) path_le.
Proof.
  intros [[] a] [[] b]; unfold path_le; cbn; try done;
    intros; f_equal; by apply names_le_antisym.
Qed.

(** Sorting forgets the order a directory was listed in. *)
Lemma path_sort_permutation l1 l2 : l1 ≡ₚ l2 -> path_sort l1 = path_sort l2.
Proof.
  intros Hp. unfold path_sort. eapply (StronglySorted_unique path_le).
  - apply StronglySorted_merge_sort; apply _.
  - apply StronglySorted_merge_sort; apply _.
  - by rewrite !merge_sort_Permutation.
Qed.

Lemma elem_of_path_sort p l : p ∈ path_sort l <-> p ∈ l.
Proof. unfold path_sort. by rewrite merge_sort_Permutation. Qed.

Lemma path_join_names r a b :
  b <> [] -> head b <> Some "." ->
  path_join (MkPath r a) (MkPath false b) = MkPath r (a ++ b).
Proof.
  intros Hb Hd. unfold path_join. cbn. destruct b as [|x b]; [done|].
  destruct x as [|c x]; [done|]. destruct x; [|by destruct c as [[][][][][][][][]]].
  destruct c as [[][][][][][][][]]; done.
Qed.

Lemma path_starts_with_spec p base :
  path_starts_with p base = true <->
  p_root p = p_root base /\ exists rest, p_names p = p_names base ++ rest.
Proof.
  unfold path_starts_with. rewrite andb_true_iff, !bool_decide_eq_true. split.
  - intros [? Hf]. split; [done|]. exists (drop (length (p_names base)) (p_names p)).
    rewrite <- Hf at 1. by rewrite take_drop.
  - intros [? [rest ->]]. split; [done|]. by rewrite take_app_length.
Qed.

Lemma string_app_length a b : String.length (a +:+ b) = (String.length a + String.length b)%nat.
Proof. induction a as [|c a IH]; [done|]. rewrite string_append_cons. cbn. by rewrite IH. Qed.

Lemma string_app_nil_r s : s +:+ "" = s.
Proof. induction s as [|c s IH]; [done|]. by rewrite string_append_cons, IH. Qed.

Lemma string_concat_cons s l : String.concat "" (s :: l) = s +:+ String.concat "" l.
Proof. destruct l; cbn; [by rewrite string_app_nil_r|done]. Qed.

Lemma string_app_assoc a b c : (a +:+ b) +:+ c = a +:+ (b +:+ c).
Proof.
  induction a as [|x a IH]; [done|]. rewrite !string_append_cons. by rewrite IH.
Qed.

Lemma string_app_cancel_r a b s : a +:+ s = b +:+ s -> a = b.
Proof.
  revert b. induction a as [|x a IH]; intros [|y b]; [done| | |].
  - intros Heq%(f_equal String.length). rewrite !string_app_length in Heq. cbn in Heq. lia.
  - intros Heq%(f_equal String.length). rewrite !string_app_length in Heq. cbn in Heq. lia.
  - rewrite !string_append_cons. intros [= -> Heq]. by rewrite (IH b).
Qed.

Lemma with_extension_eq p q ext :
  is_Some (file_name p) -> is_Some (file_name q) ->
  with_extension p ext = with_extension q ext <->
  p_root p = p_root q /\ removelast (p_names p) = removelast (p_names q)
  /\ file_stem_of <$> file_name p = file_stem_of <$> file_name q.
Proof.
  intros [x Hx] [y Hy]. unfold with_extension. rewrite Hx, Hy. cbn [fmap option_fmap option_map].
  split.
  - intros [= Hr Hn]. apply app_inj_tail in Hn as [Hn Hs]. repeat split; [done|done|].
    f_equal. by apply string_app_cancel_r in Hs.
  - intros (-> & -> & [= ->]). done.
Qed.

Lemma list_ascii_of_app a b :
  list_ascii_of_string (a +:+ b) = list_ascii_of_string a ++ list_ascii_of_string b.
Proof. induction a as [|c a IH]; [done|]. rewrite string_append_cons. cbn. by rewrite IH. Qed.

Lemma string_list_inj a b : list_ascii_of_string a = list_ascii_of_string b -> a = b.
Proof.
  intros Hab. rewrite <- (string_of_list_ascii_of_string a), Hab.
  apply string_of_list_ascii_of_string.
Qed.

(** A separator that neither head contains splits a text in one way. *)
Lemma string_split_unique c a b x y :
  contains_byte c a = false -> contains_byte c b = false ->
  a +:+ String c x = b +:+ String c y -> a = b /\ x = y.
Proof.
  revert b. induction a as [|d a IH]; intros [|e b]; rewrite ?string_append_cons.
  - by intros _ _ [= ->].
  - unfold contains_byte. cbn -[Ascii.eqb]. intros _ Hb [= -> _].
    by rewrite Ascii.eqb_refl in Hb.
  - unfold contains_byte. cbn -[Ascii.eqb]. intros Ha _ [= -> _].
    by rewrite Ascii.eqb_refl in Ha.
  - unfold contains_byte. cbn -[Ascii.eqb]. intros [_ Ha]%orb_false_iff [_ Hb]%orb_false_iff.
    intros [= -> Hr]. by destruct (IH b Ha Hb Hr) as [-> ->].
Qed.

Lemma elem_of_rev {A} (x : A) l : x ∈ rev l <-> x ∈ l.
Proof. by rewrite !list_elem_of_In, <- in_rev. Qed.

(** A separator the tail does not contain splits a text from the right. *)
Lemma string_split_last c a b x y :
  contains_byte c x = false -> contains_byte c y = false ->
  a +:+ String c x = b +:+ String c y -> a = b /\ x = y.
Proof.
  intros Hx Hy Heq.
  assert (forall s, contains_byte c s = false -> c ∉ list_ascii_of_string s) as Hin.
  { intros s. induction s as [|d s IH]; cbn; [by intros _ ?%elem_of_nil|].
    unfold contains_byte. cbn -[Ascii.eqb]. intros [Hc Hs]%orb_false_iff.
    intros [->|?]%elem_of_cons; [by rewrite Ascii.eqb_refl in Hc|by apply IH]. }
  apply Hin in Hx, Hy. apply (f_equal list_ascii_of_string) in Heq.
  rewrite !list_ascii_of_app in Heq. cbn in Heq.
  assert (forall (l1 l2 r1 r2 : list ascii), c ∉ r1 -> c ∉ r2 ->
            l1 ++ c :: r1 = l2 ++ c :: r2 -> l1 = l2 /\ r1 = r2) as Hsplit.
  { intros l1. induction l1 as [|e l1 IH]; intros [|d l2] r1 r2 H1 H2; cbn.
    - by intros [= ->].
    - intros [= -> ->]. exfalso. apply H1. apply elem_of_app. right. left.
    - intros [= -> <-]. exfalso. apply H2. apply elem_of_app. right. left.
    - intros [= -> Hr]. by destruct (IH _ _ _ H1 H2 Hr) as [-> ->]. }
  destruct (Hsplit _ _ _ _ Hx Hy Heq) as [Ha Hb]. split; by apply string_list_inj.
Qed.

Lemma split_on_prefix c p s :
  contains_byte c p = false -> exists x rest, split_on c (p +:+ s) = (p +:+ x) :: rest.
Proof.
  induction p as [|d p IH].
  - intros _. change ("" +:+ s) with s. induction s as [|e s IH]; cbn -[Ascii.eqb]; [by eexists _, _|].
    destruct (Ascii.eqb c e); [by eexists _, _|]. destruct IH as (x & rest & ->). by eexists _, _.
  - unfold contains_byte. cbn -[Ascii.eqb]. intros [Hd Hp]%orb_false_iff.
    destruct (IH Hp) as (x & rest & Hs). rewrite string_append_cons. cbn -[Ascii.eqb].
    rewrite Hd, Hs. exists x, rest. by rewrite string_append_cons.
Qed.

Lemma starts_with_app p s : starts_with p (p +:+ s) = true.
Proof.
  unfold starts_with. induction p as [|c p IH]; [by destruct s|].
  rewrite string_append_cons. cbn. destruct (ascii_dec c c); [done|done].
Qed.

Lemma string_length_app a b : String.length (a +:+ b) = (String.length a + String.length b)%nat.
Proof. induction a as [|c a IH]; [done|]. rewrite string_append_cons. cbn. by rewrite IH. Qed.

(** *** Bytes of a string *)

Lemma contains_byte_app c a b : contains_byte c (a +:+ b) = contains_byte c a || contains_byte c b.
Proof.
  unfold contains_byte. induction a as [|d a IH]; [done|].
  rewrite string_append_cons. cbn -[Ascii.eqb]. by rewrite IH, orb_assoc.
Qed.

Lemma string_forallb_cons f c s :
  string_forallb f (String c s) = f c && string_forallb f s.
Proof. unfold string_forallb. cbn. by rewrite negb_orb, negb_involutive. Qed.

Lemma string_forallb_append f p s :
  string_forallb f (p +:+ s) = string_forallb f p && string_forallb f s.
Proof.
  induction p as [|c p IH]; [done|]. rewrite string_append_cons, !string_forallb_cons, IH.
  by rewrite andb_assoc.
Qed.

Lemma string_forallb_impl (f g : ascii -> bool) s :
  (forall c, f c = true -> g c = true) -> string_forallb f s = true -> string_forallb g s = true.
Proof.
  intros Hfg. induction s as [|c s IH]; [done|]. rewrite !string_forallb_cons.
  intros [Hc Hs]%andb_true_iff. by rewrite (Hfg c Hc), IH.
Qed.

Lemma contains_byte_forallb b s :
  contains_byte b s = false <-> string_forallb (fun c => negb (Ascii.eqb b c)) s = true.
Proof.
  unfold contains_byte. induction s as [|c s IH]; [done|]. rewrite string_forallb_cons. cbn.
  destruct (Ascii.eqb b c); cbn; [done|exact IH].
Qed.

Lemma split_on_one c s : contains_byte c s = false -> split_on c s = [s].
Proof.
  unfold contains_byte. induction s as [|d s IH]; [done|]. cbn [string_existsb split_on].
  intros [Hd Hs]%orb_false_iff. by rewrite Hd, IH.
Qed.

Definition is_printable (c : ascii) : bool := (32 <=? N_of_ascii c)%N && (N_of_ascii c <? 127)%N.

Lemma printable_no_control s : string_forallb is_printable s = true -> contains_control s = false.
Proof.
  induction s as [|c s IH]; [done|]. rewrite string_forallb_cons. intros [Hc Hs]%andb_true_iff.
  cbn. rewrite (IH Hs), orb_false_r. unfold is_printable in Hc. apply andb_true_iff in Hc as [H1 H2].
  apply N.leb_le in H1. apply N.ltb_lt in H2.
  rewrite (proj2 (N.ltb_ge _ _)) by lia. rewrite (proj2 (N.eqb_neq _ 127)) by lia.
  destruct s; [done|]. rewrite (proj2 (N.eqb_neq _ 194)) by lia. done.
Qed.

Lemma rev_app_append p s acc : String.rev_app (p +:+ s) acc = String.rev_app s (String.rev_app p acc).
Proof. revert acc. induction p as [|c p IH]; intros acc; [done|]. rewrite string_append_cons. cbn. apply IH. Qed.

Lemma rev_app_last f s acc :
  string_forallb f s = true -> s <> "" ->
  exists c rest, String.rev_app s acc = String c rest /\ f c = true.
Proof.
  revert acc. induction s as [|c s IH]; intros acc; [done|]. rewrite string_forallb_cons.
  intros [Hc Hs]%andb_true_iff _. cbn. destruct s as [|d s]; [cbn; eauto|]. by apply IH.
Qed.

Lemma split_on_without c s : Forall (fun part => contains_byte c part = false) (split_on c s).
Proof.
  unfold contains_byte. induction s as [|d s IH]; [by repeat constructor|]. cbn [split_on].
  destruct (Ascii.eqb c d) eqn:Hd; [by constructor|].
  destruct (split_on c s) as [|x xs]; [by repeat constructor; cbn; rewrite Hd|].
  apply Forall_cons in IH as [Hx Hxs]. constructor; [|done]. cbn. by rewrite Hd.
Qed.
