(* ===== verification/Identity.v ===== *)
(** * Who is talking: contract versions, language identifiers, bus names

    [crates/tinyruntime-bus/src/version], [language] and [names]. *)

From S2P Require Import Prelude RustStd.

(** ** [version/mod.rs] *)

Definition CONTRACT_VERSION : N * N := (1, 4)%N.
Definition PROVIDER_CONTRACT_VERSION : N * N := (1, 0)%N.

Definition binds (local other : N * N) : bool :=
  let '(local_major, local_minor) := local in
  let '(other_major, other_minor) := other in
  (other_major =? local_major)%N && (local_minor <=? other_minor)%N.

Definition is_compatible (other : N * N) : bool := binds CONTRACT_VERSION other.

Definition provider_is_compatible (other : N * N) : bool :=
  binds PROVIDER_CONTRACT_VERSION other.

(** ** [language/types.rs] *)

(** The newtype [Language(String)]. *)
Record Language := MkLanguage { as_str : string }.

#[global] Instance Language_eq_dec : EqDecision Language.
Proof. solve_decision. Defined.
#[global] Program Instance Language_countable : Countable Language :=
  inj_countable' as_str MkLanguage _.
Next Obligation. by intros []. Qed.

Definition NODEJS : string := "nodejs".
Definition PYTHON : string := "python".

Definition Language_new (id : string) : Language :=
  MkLanguage (to_ascii_lowercase (trim id)).

Definition Language_nodejs : Language := MkLanguage NODEJS.
Definition Language_python : Language := MkLanguage PYTHON.

Definition Language_is_empty (l : Language) : bool := String.eqb (as_str l) "".

(** [Deserialize]: the decoded string goes through the constructor. *)
Definition Language_deserialize {E} (decoded : result E string) : result E Language :=
  result_map Language_new decoded.

(** ** [names/mod.rs] *)

Definition INTERFACE : string := "ai.tinyhumans.runtime.Runtime".
Definition OBJECT_PATH : string := "/ai/tinyhumans/runtime/Runtime".
Definition PROVIDER_INTERFACE : string := "ai.tinyhumans.runtime.Provider".

Definition object_path_for (bus_name : string) : string :=
  "/" +:+ replace_byte "."%char "/"%char bus_name.

Definition methods_LANGUAGES : string := "Languages".
Definition methods_RESOLVE : string := "Resolve".
Definition methods_EXECUTE : string := "Execute".
Definition methods_POOL_STATS : string := "PoolStats".
Definition methods_PREPARE_ENVIRONMENT : string := "PrepareEnvironment".

Definition DESCRIBE : string := "Describe".
Definition DETECT_SYSTEM : string := "DetectSystem".
Definition SELECT_DISTRIBUTION : string := "SelectDistribution".
Definition LAYOUT : string := "Layout".
Definition HARNESS : string := "Harness".
Definition PREPARE_ENVIRONMENT : string := "PrepareEnvironment".

Definition providers_NODEJS : string := "ai.tinyhumans.runtime.nodejs.Provider".
Definition providers_NODEJS_OBJECT_PATH : string := "/ai/tinyhumans/runtime/nodejs/Provider".
Definition providers_PYTHON : string := "ai.tinyhumans.runtime.python.Provider".
Definition providers_PYTHON_OBJECT_PATH : string := "/ai/tinyhumans/runtime/python/Provider".

Definition METHODS : list string :=
  [methods_LANGUAGES; methods_RESOLVE; methods_EXECUTE; methods_POOL_STATS;
   methods_PREPARE_ENVIRONMENT].

Definition PROVIDER_METHODS : list string :=
  [DESCRIBE; DETECT_SYSTEM; SELECT_DISTRIBUTION; LAYOUT; HARNESS].

Definition OPTIONAL_PROVIDER_METHODS : list string := [PREPARE_ENVIRONMENT].

(** ** Lemmas *)

Lemma binds_spec local other :
  binds local other = true <-> other.1 = local.1 /\ (local.2 <= other.2)%N.
Proof.
  destruct local, other. cbn. by rewrite andb_true_iff, N.eqb_eq, N.leb_le.
Qed.

Lemma provider_is_compatible_spec v : provider_is_compatible v = true <-> v.1 = 1%N.
Proof.
  unfold provider_is_compatible. rewrite binds_spec. cbn. split; [by intros []|].
  intros ->. split; [done|lia].
Qed.

Lemma Language_new_id id : Language_new (as_str (Language_new id)) = Language_new id.
Proof.
  unfold Language_new. cbn [as_str]. f_equal.
  by rewrite trim_lowercase, trim_idem, to_ascii_lowercase_idem.
Qed.

(** ** Properties *)

(** Language identifiers are normalised once and for all: building one from
    an already built one changes nothing, and every ASCII-case variant of a
    spelling, trimmed or not, is the same routing key, whether it goes through
    the constructor or arrives on the wire. *)
Theorem language_normalised (id : string) :
  Language_new (as_str (Language_new id)) = Language_new id
  /\ Language_new (to_ascii_uppercase id) = Language_new id
  /\ Language_new (trim id) = Language_new id
  /\ Language_deserialize (E := string) (Ok id) = Ok (Language_new id).
Proof.
  repeat split; [apply Language_new_id| |].
  - unfold Language_new. by rewrite trim_uppercase, to_ascii_lowercase_upper.
  - unfold Language_new. by rewrite trim_idem.
Qed.

(** A peer can be bound to exactly when the majors agree and its minor is at
    least ours; so the first-party providers' floor 1.0 admits every peer the
    router's own version admits, and the relation is transitive. *)
Theorem contract_binding (v w : N * N) :
  (is_compatible v = true <-> v.1 = 1%N /\ (4 <= v.2)%N)
  /\ (provider_is_compatible v = true <-> v.1 = 1%N)
  /\ (is_compatible v = true -> binds v w = true -> is_compatible w = true).
Proof.
  unfold is_compatible, provider_is_compatible. rewrite !binds_spec. cbn.
  repeat split; intros; destruct_and?; try lia; congruence.
Qed.
