(* ===== verification/Vocabulary.v ===== *)
(** * The payloads that cross the bus

    [crates/tinyruntime-bus/src/{settings,pool,exec,resolve,provision,harness}].
    Field names carry a prefix naming their struct; builders keep the source's
    names with the struct's as a prefix. *)

From S2P Require Import Prelude RustStd Identity.

(** ** [settings/types.rs] *)

Record RuntimeSettings := MkRuntimeSettings {
  rs_enabled : bool;
  rs_prefer_system : bool;
  rs_version : string;
  rs_maximum_version : string;
  rs_cache_dir : string;
  rs_release_tag : string;
  rs_preferred_command : string
}.

#[global] Instance RuntimeSettings_eq_dec : EqDecision RuntimeSettings.
Proof. solve_decision. Defined.

Definition RuntimeSettings_new (version : string) : RuntimeSettings :=
  {| rs_enabled := true; rs_prefer_system := true; rs_version := version;
     rs_maximum_version := ""; rs_cache_dir := ""; rs_release_tag := "";
     rs_preferred_command := "" |}.

Definition non_empty (value : string) : option string :=
  let trimmed := trim value in
  if String.eqb trimmed "" then None else Some trimmed.

Definition settings_cache_dir (s : RuntimeSettings) : option string := non_empty (rs_cache_dir s).
Definition settings_release_tag (s : RuntimeSettings) : option string :=
  non_empty (rs_release_tag s).
Definition settings_preferred_command (s : RuntimeSettings) : option string :=
  non_empty (rs_preferred_command s).
Definition settings_maximum_version (s : RuntimeSettings) : option string :=
  non_empty (rs_maximum_version s).

(** ** [pool/types.rs] *)

Record PoolSettings := MkPoolSettings {
  ps_enabled : bool;
  ps_max_workers : N;
  ps_idle_ttl_secs : N;
  ps_recycle_after_jobs : N;
  ps_max_queue_depth : N
}.

#[global] Instance PoolSettings_eq_dec : EqDecision PoolSettings.
Proof. solve_decision. Defined.

Definition effective_max_workers (s : PoolSettings) : N := N.max (ps_max_workers s) 1.
Definition effective_max_queue_depth (s : PoolSettings) : N := ps_max_queue_depth s.
Definition idle_ttl_secs (s : PoolSettings) : option N :=
  if (ps_idle_ttl_secs s =? 0)%N then None else Some (ps_idle_ttl_secs s).

Definition with_max_workers (n : N) (s : PoolSettings) : PoolSettings :=
  MkPoolSettings (ps_enabled s) n (ps_idle_ttl_secs s) (ps_recycle_after_jobs s)
    (ps_max_queue_depth s).
Definition with_idle_ttl_secs (n : N) (s : PoolSettings) : PoolSettings :=
  MkPoolSettings (ps_enabled s) (ps_max_workers s) n (ps_recycle_after_jobs s)
    (ps_max_queue_depth s).
Definition with_recycle_after_jobs (n : N) (s : PoolSettings) : PoolSettings :=
  MkPoolSettings (ps_enabled s) (ps_max_workers s) (ps_idle_ttl_secs s) n
    (ps_max_queue_depth s).
Definition with_max_queue_depth (n : N) (s : PoolSettings) : PoolSettings :=
  MkPoolSettings (ps_enabled s) (ps_max_workers s) (ps_idle_ttl_secs s)
    (ps_recycle_after_jobs s) n.
Definition with_enabled (b : bool) (s : PoolSettings) : PoolSettings :=
  MkPoolSettings b (ps_max_workers s) (ps_idle_ttl_secs s) (ps_recycle_after_jobs s)
    (ps_max_queue_depth s).

Definition PoolSettings_default : PoolSettings :=
  {| ps_enabled := true; ps_max_workers := 2; ps_idle_ttl_secs := 300;
     ps_recycle_after_jobs := 100; ps_max_queue_depth := 256 |}.

Record PoolStats := MkPoolStats {
  pst_language : Language;
  pst_jobs_total : N;
  pst_worker_spawns : N;
  pst_rejected_saturated : N;
  pst_idle_workers : N;
  pst_max_workers : N
}.

Definition PoolStats_new (language : Language) (max_workers : N) : PoolStats :=
  {| pst_language := language; pst_jobs_total := 0; pst_worker_spawns := 0;
     pst_rejected_saturated := 0; pst_idle_workers := 0; pst_max_workers := max_workers |}.

Definition with_counts (jobs_total worker_spawns rejected_saturated : N) (s : PoolStats)
  : PoolStats :=
  MkPoolStats (pst_language s) jobs_total worker_spawns rejected_saturated
    (pst_idle_workers s) (pst_max_workers s).

Definition with_idle_workers (idle_workers : N) (s : PoolStats) : PoolStats :=
  MkPoolStats (pst_language s) (pst_jobs_total s) (pst_worker_spawns s)
    (pst_rejected_saturated s) idle_workers (pst_max_workers s).

Record PoolStatsResponse := MkPoolStatsResponse { psr_pools : list PoolStats }.

(** ** [exec/types.rs] *)

Record ExecRequest := MkExecRequest {
  er_language : Language;
  er_settings : RuntimeSettings;
  er_pool : PoolSettings;
  er_code : string;
  er_cwd : option string;
  er_timeout_ms : option N
}.

Definition ExecRequest_new (language : Language) (settings : RuntimeSettings) (code : string)
  : ExecRequest :=
  {| er_language := language; er_settings := settings; er_pool := PoolSettings_default;
     er_code := code; er_cwd := None; er_timeout_ms := None |}.

Definition with_cwd (cwd : string) (r : ExecRequest) : ExecRequest :=
  MkExecRequest (er_language r) (er_settings r) (er_pool r) (er_code r) (Some cwd)
    (er_timeout_ms r).
Definition with_timeout_ms (timeout_ms : N) (r : ExecRequest) : ExecRequest :=
  MkExecRequest (er_language r) (er_settings r) (er_pool r) (er_code r) (er_cwd r)
    (Some timeout_ms).

Record ExecResponse := MkExecResponse {
  ex_stdout : string;
  ex_stderr : string;
  ex_exit_code : option Z;
  ex_timed_out : bool;
  ex_elapsed_ms : N;
  ex_queue_wait_ms : N;
  ex_runtime_version : string
}.

Definition ExecResponse_new (stdout stderr : string) (exit_code : option Z)
    (runtime_version : string) : ExecResponse :=
  {| ex_stdout := stdout; ex_stderr := stderr; ex_exit_code := exit_code;
     ex_timed_out := false; ex_elapsed_ms := 0; ex_queue_wait_ms := 0;
     ex_runtime_version := runtime_version |}.

Definition with_timings (elapsed_ms queue_wait_ms : N) (r : ExecResponse) : ExecResponse :=
  MkExecResponse (ex_stdout r) (ex_stderr r) (ex_exit_code r) (ex_timed_out r)
    elapsed_ms queue_wait_ms (ex_runtime_version r).

Definition with_timed_out (timed_out : bool) (r : ExecResponse) : ExecResponse :=
  MkExecResponse (ex_stdout r) (ex_stderr r) (ex_exit_code r) timed_out
    (ex_elapsed_ms r) (ex_queue_wait_ms r) (ex_runtime_version r).

Definition success (r : ExecResponse) : bool :=
  negb (ex_timed_out r)
  && match ex_exit_code r with None => true | Some n => (n =? 0)%Z end.

(** ** [provision/types.rs] *)

Inductive ArchiveFormat := TarGz | TarXz | Zip.

Definition extension (f : ArchiveFormat) : string :=
  match f with TarGz => "tar.gz" | TarXz => "tar.xz" | Zip => "zip" end.

Record Distribution := MkDistribution {
  di_version : string;
  di_archive_name : string;
  di_url : string;
  di_expected_sha256 : option string;
  di_format : ArchiveFormat;
  di_install_dir_name : string;
  di_headers : list (string * string)
}.

Definition Distribution_new (version archive_name url : string) (format : ArchiveFormat)
  : Distribution :=
  {| di_version := version; di_archive_name := archive_name; di_url := url;
     di_expected_sha256 := None; di_format := format;
     di_install_dir_name :=
       match strip_suffix ("." +:+ extension format) archive_name with
       | Some stem => stem
       | None => archive_name
       end;
     di_headers := [] |}.

Definition with_sha256 (digest : string) (d : Distribution) : Distribution :=
  MkDistribution (di_version d) (di_archive_name d) (di_url d) (Some digest) (di_format d)
    (di_install_dir_name d) (di_headers d).
Definition with_install_dir_name (name : string) (d : Distribution) : Distribution :=
  MkDistribution (di_version d) (di_archive_name d) (di_url d) (di_expected_sha256 d)
    (di_format d) name (di_headers d).
Definition with_header (name value : string) (d : Distribution) : Distribution :=
  MkDistribution (di_version d) (di_archive_name d) (di_url d) (di_expected_sha256 d)
    (di_format d) (di_install_dir_name d) (di_headers d ++ [(name, value)]).

Record RuntimeLayout := MkRuntimeLayout {
  la_version : string;
  la_bin_dir : string;
  la_executables : gmap string string
}.

Definition RuntimeLayout_new (version bin_dir : string) : RuntimeLayout :=
  MkRuntimeLayout version bin_dir ∅.
Definition layout_with_executable (name path : string) (l : RuntimeLayout) : RuntimeLayout :=
  MkRuntimeLayout (la_version l) (la_bin_dir l) (<[name := path]> (la_executables l)).
Definition layout_executable (name : string) (l : RuntimeLayout) : option string :=
  la_executables l !! name.

Inductive ProviderCapability := PrepareEnvironment | Unknown.

#[global] Instance ProviderCapability_eq_dec : EqDecision ProviderCapability.
Proof. solve_decision. Defined.

Record ProviderDescriptor := MkProviderDescriptor {
  pd_language : Language;
  pd_display_name : string;
  pd_default_version : string;
  pd_contract_version : N * N;
  pd_executables : list string;
  pd_capabilities : list ProviderCapability
}.

Definition ProviderDescriptor_new (language : Language) (display_name default_version : string)
  : ProviderDescriptor :=
  {| pd_language := language; pd_display_name := display_name;
     pd_default_version := default_version; pd_contract_version := CONTRACT_VERSION;
     pd_executables := []; pd_capabilities := [] |}.

Definition descriptor_with_executable (name : string) (d : ProviderDescriptor)
  : ProviderDescriptor :=
  MkProviderDescriptor (pd_language d) (pd_display_name d) (pd_default_version d)
    (pd_contract_version d) (pd_executables d ++ [name]) (pd_capabilities d).

Definition with_capability (capability : ProviderCapability) (d : ProviderDescriptor)
  : ProviderDescriptor :=
  if bool_decide (capability ∈ pd_capabilities d) then d
  else MkProviderDescriptor (pd_language d) (pd_display_name d) (pd_default_version d)
         (pd_contract_version d) (pd_executables d) (pd_capabilities d ++ [capability]).

Record PackageGroup := MkPackageGroup { pg_packages : list string; pg_source : option string }.

Definition PackageGroup_new (packages : list string) : PackageGroup :=
  MkPackageGroup packages None.
Definition with_source (source : string) (g : PackageGroup) : PackageGroup :=
  MkPackageGroup (pg_packages g) (Some source).

Record EnvironmentPreparationRequest := MkEnvironmentPreparationRequest {
  ep_runtime_executable : string;
  ep_environment_root : string;
  ep_upgrade_installer : bool;
  ep_package_groups : list PackageGroup
}.

Definition EnvironmentPreparationRequest_new (runtime_executable environment_root : string)
  : EnvironmentPreparationRequest :=
  MkEnvironmentPreparationRequest runtime_executable environment_root false [].
Definition with_installer_upgrade (r : EnvironmentPreparationRequest)
  : EnvironmentPreparationRequest :=
  MkEnvironmentPreparationRequest (ep_runtime_executable r) (ep_environment_root r) true
    (ep_package_groups r).
Definition with_package_group (g : PackageGroup) (r : EnvironmentPreparationRequest)
  : EnvironmentPreparationRequest :=
  MkEnvironmentPreparationRequest (ep_runtime_executable r) (ep_environment_root r)
    (ep_upgrade_installer r) (ep_package_groups r ++ [g]).

(** [worker/types.rs]: a complete command, shared with preparation plans. *)
Record WorkerCommand := MkWorkerCommand {
  wc_executable : string;
  wc_args : list string;
  wc_env : list (string * string);
  wc_timeout_ms : option N
}.

#[global] Instance WorkerCommand_eq_dec : EqDecision WorkerCommand.
Proof. solve_decision. Defined.

Record EnvironmentPreparationPlan := MkEnvironmentPreparationPlan {
  pp_executable : string;
  pp_steps : list WorkerCommand
}.

Record PrepareEnvironmentRequest := MkPrepareEnvironmentRequest {
  per_language : Language;
  per_preparation : EnvironmentPreparationRequest
}.

Record LayoutRequest := MkLayoutRequest {
  lr_install_dir : string;
  lr_settings : RuntimeSettings
}.

Record LayoutResponse := MkLayoutResponse { lp_layout : option RuntimeLayout }.
Definition LayoutResponse_found (l : RuntimeLayout) : LayoutResponse := MkLayoutResponse (Some l).
Definition LayoutResponse_missing : LayoutResponse := MkLayoutResponse None.

(** ** [harness/types.rs] *)

Definition WORKER_PROTOCOL_VERSION : N := 1.

Record WorkerHarness := MkWorkerHarness {
  wh_filename : string;
  wh_source : string;
  wh_args_before_script : list string;
  wh_args_after_script : list string;
  wh_env : list (string * string);
  wh_protocol_version : N;
  wh_executable : string
}.

Definition WorkerHarness_new (filename source executable : string) : WorkerHarness :=
  {| wh_filename := filename; wh_source := source; wh_args_before_script := [];
     wh_args_after_script := []; wh_env := [];
     wh_protocol_version := WORKER_PROTOCOL_VERSION; wh_executable := executable |}.

Definition with_flag (flag : string) (h : WorkerHarness) : WorkerHarness :=
  MkWorkerHarness (wh_filename h) (wh_source h) (wh_args_before_script h ++ [flag])
    (wh_args_after_script h) (wh_env h) (wh_protocol_version h) (wh_executable h).
Definition with_env (name value : string) (h : WorkerHarness) : WorkerHarness :=
  MkWorkerHarness (wh_filename h) (wh_source h) (wh_args_before_script h)
    (wh_args_after_script h) (wh_env h ++ [(name, value)]) (wh_protocol_version h)
    (wh_executable h).

Definition command_args (script_path : string) (h : WorkerHarness) : list string :=
  wh_args_before_script h ++ [script_path] ++ wh_args_after_script h.

(** ** [resolve/types.rs] *)

Inductive RuntimeSource := System | Managed.

#[global] Instance RuntimeSource_eq_dec : EqDecision RuntimeSource.
Proof. solve_decision. Defined.

Record ResolveRequest := MkResolveRequest {
  rr_language : Language;
  rr_settings : RuntimeSettings;
  rr_install : bool
}.

Definition ResolveRequest_new (language : Language) (settings : RuntimeSettings)
  : ResolveRequest := MkResolveRequest language settings true.
Definition probe (language : Language) (settings : RuntimeSettings) : ResolveRequest :=
  MkResolveRequest language settings false.

Record ResolvedRuntime := MkResolvedRuntime {
  rt_language : Language;
  rt_version : string;
  rt_source : RuntimeSource;
  rt_bin_dir : string;
  rt_executables : gmap string string;
  rt_install_dir : option string
}.

Definition from_layout (language : Language) (source : RuntimeSource) (layout : RuntimeLayout)
  : ResolvedRuntime :=
  {| rt_language := language; rt_version := la_version layout; rt_source := source;
     rt_bin_dir := la_bin_dir layout; rt_executables := la_executables layout;
     rt_install_dir := None |}.

Definition with_install_dir (install_dir : string) (r : ResolvedRuntime) : ResolvedRuntime :=
  MkResolvedRuntime (rt_language r) (rt_version r) (rt_source r) (rt_bin_dir r)
    (rt_executables r) (Some install_dir).

Definition runtime_executable (name : string) (r : ResolvedRuntime) : option string :=
  rt_executables r !! name.

Record ResolveResponse := MkResolveResponse { rp_runtime : option ResolvedRuntime }.
Definition ResolveResponse_found (r : ResolvedRuntime) : ResolveResponse :=
  MkResolveResponse (Some r).
Definition ResolveResponse_missing : ResolveResponse := MkResolveResponse None.

Record LanguageStatus := MkLanguageStatus {
  ls_language : Language;
  ls_bus_name : string;
  ls_available : bool;
  ls_display_name : option string;
  ls_detail : option string
}.

(** [Some(String::new()).filter(|detail| !detail.is_empty())] is [None]. *)
Definition LanguageStatus_available (language : Language) (bus_name display_name : string)
  : LanguageStatus :=
  {| ls_language := language; ls_bus_name := bus_name; ls_available := true;
     ls_display_name := Some display_name;
     ls_detail := if negb (String.eqb "" "") then Some "" else None |}.

Definition LanguageStatus_unavailable (language : Language) (bus_name detail : string)
  : LanguageStatus :=
  {| ls_language := language; ls_bus_name := bus_name; ls_available := false;
     ls_display_name := None; ls_detail := Some detail |}.

Definition with_display_name (display_name : string) (s : LanguageStatus) : LanguageStatus :=
  MkLanguageStatus (ls_language s) (ls_bus_name s) (ls_available s) (Some display_name)
    (ls_detail s).

Record LanguagesResponse := MkLanguagesResponse { lsr_languages : list LanguageStatus }.
