(* ===== verification/Errors.v ===== *)
(** * The router's error type: [crates/tinyruntime/src/error/mod.rs] *)

From S2P Require Import Prelude RustStd Identity.

(** The constructors carry the source's fields in the source's order. *)
Inductive Error :=
| CacheScope (reason : string)
| UnknownLanguage (language : Language)
| ProviderUnavailable (language : Language) (reason : string)
| ProviderContract (language : Language) (major minor : N)
| LanguageDisabled (language : Language)
| LanguageMissing
| NotProvisioned (language : Language)
| Download (language : Language) (reason : string)
| DigestMismatch (language : Language)
| Install (language : Language) (reason : string)
| EmptyInstall (language : Language)
| PoolSaturated (language : Language)
| PreDispatch (language : Language) (reason : string)
| PostDispatch (language : Language) (reason : string)
| Storage (reason : string).

#[global] Instance Error_eq_dec : EqDecision Error.
Proof. solve_decision. Defined.

(** The [thiserror] renderings: what a bus peer sees. *)
Definition Error_display (e : Error) : string :=
  match e with
  | CacheScope r => "cache scope configuration invalid: " +:+ r
  | UnknownLanguage l => "no runtime provider is registered for `" +:+ as_str l +:+ "`"
  | ProviderUnavailable l r =>
      "the `" +:+ as_str l +:+ "` runtime provider is not available: " +:+ r
  | ProviderContract l major minor =>
      "the `" +:+ as_str l +:+ "` runtime provider speaks contract " +:+ display_u64 major
      +:+ "." +:+ display_u64 minor +:+ ", which this build cannot bind to"
  | LanguageDisabled l => "the `" +:+ as_str l +:+ "` runtime is disabled"
  | LanguageMissing => "the request named no language"
  | NotProvisioned l =>
      "no `" +:+ as_str l
      +:+ "` runtime is provisioned and this request did not allow installing one"
  | Download l r => "downloading the `" +:+ as_str l +:+ "` toolchain failed: " +:+ r
  | DigestMismatch l =>
      "the downloaded `" +:+ as_str l +:+ "` archive did not match its published digest"
  | Install l r => "installing the `" +:+ as_str l +:+ "` toolchain failed: " +:+ r
  | EmptyInstall l =>
      "the `" +:+ as_str l +:+ "` toolchain installed but no interpreter was found in it"
  | PoolSaturated l => "the `" +:+ as_str l +:+ "` runtime pool is at capacity"
  | PreDispatch l r => "the `" +:+ as_str l +:+ "` job could not be dispatched: " +:+ r
  | PostDispatch l r => "the `" +:+ as_str l +:+ "` job failed after dispatch: " +:+ r
  | Storage r => "a runtime cache path could not be used: " +:+ r
  end.

Definition is_retryable (e : Error) : bool :=
  match e with
  | PoolSaturated _ | PreDispatch _ _ | Download _ _ | ProviderUnavailable _ _ => true
  | _ => false
  end.
