(* ===== verification/World.v ===== *)
(** * The outside of the router: filesystem, clock of events, oracles

    [std::fs] and [tokio::fs] (its asynchronous wrappers) act on a tree of
    directories, files and symbolic links.  What the operating system, other
    processes and remote ends decide is an [Env]: functions of the history of
    events, so a theorem quantified over [Env] holds whatever fails and whenever.
    Paths the router makes up itself are looked up as written, and a link in place of
    a directory or file of its own is refused; links matter to [file_type], [exists]
    and [canonicalize], and to the calls on paths an archive chooses ([_through]),
    which follow them wherever they lead. *)

From stdpp Require Import sorting.
From S2P Require Import Prelude RustStd Identity.

(** ** Errors of I/O *)

Inductive io_kind := NotFound | AlreadyExists | OtherIo.

#[global] Instance io_kind_eq_dec : EqDecision io_kind.
Proof. solve_decision. Defined.

Record io_error := MkIoError { ioe_kind : io_kind; ioe_text : string }.

(** [reqwest::Error], as far as the router inspects it. *)
Record http_error := MkHttpError {
  he_timeout : bool; he_connect : bool; he_status : option string;
  he_body : bool; he_decode : bool
}.

(** The answer to one GET, after [error_for_status]: a failure, or the body's
    chunks, the last of which may be a failed transfer. *)
Inductive http_answer :=
| HttpFailed (e : http_error)
| HttpBody (chunks : list (result http_error string)).

(** ** The tree *)

Inductive node := NDir | NFile (bytes : string) | NLink (target : Path).

#[global] Instance node_eq_dec : EqDecision node.
Proof. solve_decision. Defined.

Abbreviation fs := (gmap Path node).

(** The filesystem root and the working directory always exist. *)
Definition node_at (m : fs) (p : Path) : option node :=
  match p_names p with [] => Some NDir | _ => m !! p end.

(** [p] followed by [rel]. *)
Definition below (p : Path) (rel : list string) : Path := MkPath (p_root p) (p_names p ++ rel).

(** [p] itself or something in it. *)
Definition under (p q : Path) : bool := path_starts_with q p.

(** Symbolic link resolution; 40 links is Linux's own limit. *)
Definition link_limit : nat := 40.

Fixpoint resolve_names (fuel : nat) (m : fs) (base : Path) (todo : list string) : option Path :=
  match fuel with
  | O => None
  | S fuel =>
      match todo with
      | [] => Some base
      | c :: rest =>
          if String.eqb c ".." then
            resolve_names fuel m (MkPath (p_root base) (removelast (p_names base))) rest
          else
          let here := below base [c] in
          match node_at m here with
          | None => None
          | Some (NLink t) =>
              if p_root t then resolve_names fuel m (MkPath true []) (p_names t ++ rest)
              else resolve_names fuel m base (p_names t ++ rest)
          | Some (NFile _) => match rest with [] => Some here | _ => None end
          | Some NDir => resolve_names fuel m here rest
          end
      end
  end.

(** [fs::canonicalize]: every component costs one unit of fuel, every link also
    the length of its target. *)
Definition canonical (m : fs) (p : Path) : option Path :=
  resolve_names (link_limit * (2 + length (p_names p))) m (MkPath (p_root p) []) (p_names p).

#[global] Arguments canonical : simpl never.

Definition is_dir_following (m : fs) (p : Path) : bool :=
  match canonical m p with
  | Some q => bool_decide (node_at m q = Some NDir)
  | None => false
  end.

Definition ancestors (p : Path) : list Path :=
  map (fun n => MkPath (p_root p) (take n (p_names p))) (seq 1 (length (p_names p))).

Fixpoint make_dirs (m : fs) (ps : list Path) : result io_error fs :=
  match ps with
  | [] => Ok m
  | p :: ps =>
      match node_at m p with
      | None => make_dirs (<[p := NDir]> m) ps
      | Some NDir => make_dirs m ps
      | Some (NLink _) =>
          if is_dir_following m p then make_dirs m ps
          else Err (MkIoError AlreadyExists "not a directory")
      | Some (NFile _) => Err (MkIoError AlreadyExists "not a directory")
      end
  end.

Definition has_children (m : fs) (p : Path) : bool :=
  existsb (fun '(q, _) => under p q && negb (bool_decide (q = p))) (map_to_list m).

(** The entries under [a], filed under [b] instead. *)
Definition rekey (a b q : Path) : Path := below b (drop (length (p_names a)) (p_names q)).

Definition move_tree (a b : Path) (m : fs) : fs :=
  let moving := filter (fun '(q, _) => under a q = true) m in
  let staying := filter (fun '(q, _) => under a q = false /\ under b q = false) m in
  list_to_map (map (fun '(q, n) => (rekey a b q, n)) (map_to_list moving)) ∪ staying.

Definition rename_tree (a b : Path) (m : fs) : result io_error fs :=
  let move := Ok (move_tree a b m) in
  match m !! a with
  | None => Err (MkIoError NotFound "no such file or directory")
  | Some n =>
      if bool_decide (a = b) then Ok m
      else if under a b then Err (MkIoError OtherIo "invalid argument")
      else match parent b with
           | None => Err (MkIoError OtherIo "resource busy")
           | Some up =>
               if negb (is_dir_following m up)
               then Err (MkIoError NotFound "no such file or directory")
               else match n, m !! b with
                    | _, None => move
                    | NDir, Some NDir =>
                        if has_children m b then Err (MkIoError OtherIo "directory not empty")
                        else move
                    | NDir, Some _ => Err (MkIoError OtherIo "not a directory")
                    | _, Some NDir => Err (MkIoError OtherIo "is a directory")
                    | _, Some _ => move
                    end
           end
  end.

Definition remove_tree (p : Path) (m : fs) : result io_error fs :=
  match m !! p with
  | None => Err (MkIoError NotFound "no such file or directory")
  | Some (NFile _) => Err (MkIoError OtherIo "not a directory")
  | Some (NLink _) => Ok (delete p m)
  | Some NDir => Ok (filter (fun '(q, _) => under p q = false) m)
  end.

Definition remove_leaf (p : Path) (m : fs) : result io_error fs :=
  match m !! p with
  | None => Err (MkIoError NotFound "no such file or directory")
  | Some NDir => Err (MkIoError OtherIo "is a directory")
  | Some _ => Ok (delete p m)
  end.

(** [File::create]: create or truncate, in an existing directory. *)
Definition create_leaf (p : Path) (m : fs) : result io_error fs :=
  match parent p with
  | None => Err (MkIoError OtherIo "is a directory")
  | Some up =>
      if negb (is_dir_following m up)
      then Err (MkIoError NotFound "no such file or directory")
      else match m !! p with
           | Some NDir => Err (MkIoError OtherIo "is a directory")
           | Some (NLink _) => Err (MkIoError OtherIo "is a link")
           | _ => Ok (<[p := NFile ""]> m)
           end
  end.

Definition append_leaf (p : Path) (bytes : string) (m : fs) : result io_error fs :=
  match m !! p with
  | Some (NFile old) => Ok (<[p := NFile (old +:+ bytes)]> m)
  | _ => Err (MkIoError OtherIo "bad file descriptor")
  end.

(** *** Calls that follow links *)

(** Where [open] with [O_CREAT] ends up: the directory is looked up through links, and a
    link under the name itself is followed, too. *)
Fixpoint open_target (links : nat) (m : fs) (p : Path) : option Path :=
  match links with
  | O => None
  | S links =>
      match parent p, last (p_names p) with
      | Some up, Some name =>
          match canonical m up with
          | Some real =>
              if String.eqb name ".." || negb (bool_decide (node_at m real = Some NDir)) then None
              else match m !! below real [name] with
                   | Some (NLink t) => open_target links m (if p_root t then t else below real (p_names t))
                   | _ => Some (below real [name])
                   end
          | None => None
          end
      | _, _ => None
      end
  end.

(** [File::create], and the file it opened. *)
Definition create_leaf_through (p : Path) (m : fs) : result io_error (Path * fs) :=
  match open_target link_limit m p with
  | None => Err (MkIoError NotFound "no such file or directory")
  | Some file =>
      match m !! file with
      | Some NDir => Err (MkIoError OtherIo "is a directory")
      | _ => Ok (file, <[file := NFile ""]> m)
      end
  end.

(** [mkdir] follows links to the directory it makes an entry in, but not the entry. *)
Definition make_dir_through (p : Path) (m : fs) : result io_error fs :=
  match parent p, last (p_names p) with
  | Some up, Some name =>
      match canonical m up with
      | Some real =>
          if String.eqb name ".." then Err (MkIoError AlreadyExists "file exists")
          else if negb (bool_decide (node_at m real = Some NDir))
               then Err (MkIoError OtherIo "not a directory")
               else match m !! below real [name] with
                    | None => Ok (<[below real [name] := NDir]> m)
                    | Some _ => Err (MkIoError AlreadyExists "file exists")
                    end
      | None => Err (MkIoError NotFound "no such file or directory")
      end
  | _, _ => Err (MkIoError AlreadyExists "file exists")
  end.

Fixpoint make_dirs_through (m : fs) (ps : list Path) : result io_error fs :=
  match ps with
  | [] => Ok m
  | p :: ps =>
      if is_dir_following m p then make_dirs_through m ps
      else match make_dir_through p m with
           | Ok m => make_dirs_through m ps
           | Err e => Err e
           end
  end.

(** The direct entries of a directory, with their own (unfollowed) type. *)
Definition entries_of (p : Path) (m : fs) : result io_error (list (Path * node)) :=
  if is_dir_following m p then
    match canonical m p with
    | None => Err (MkIoError NotFound "no such file or directory")
    | Some real =>
        Ok (omap (fun '(q, n) =>
                    match parent q, last (p_names q) with
                    | Some up, Some name =>
                        if bool_decide (up = real) then Some (below p [name], n) else None
                    | _, _ => None
                    end) (map_to_list m))
    end
  else Err (MkIoError NotFound "no such file or directory").

(** ** Events and the environment *)

Inductive fs_op :=
| OpCreateDirAll (p : Path)
| OpExists (p : Path)
| OpRemoveDirAll (p : Path)
| OpRemoveFile (p : Path)
| OpRename (a b : Path)
| OpReadDir (p : Path)
| OpCanonicalize (p : Path)
| OpCreate (p : Path)
| OpWrite (p : Path) (bytes : string)
| OpFlush (p : Path)
| OpOpen (p : Path)
| OpOpenLock (p : Path)
| OpLock (p : Path)
| OpSetPermissions (p : Path) (mode : N).

(** The questions a provider is asked. *)
Inductive question :=
| QDescribe | QDetectSystem | QSelectDistribution | QLayout (install_dir : string) | QHarness
| QPrepareEnvironment.

Inductive event :=
| EvIo (op : fs_op)
| EvUnlock (p : Path)
| EvProvider (l : Language) (q : question)
| EvHttpGet (url : string) (headers : list (string * string))
| EvBlocking
| EvUnpack (archive staging : Path).

#[global] Instance fs_op_eq_dec : EqDecision fs_op.
Proof. solve_decision. Defined.
#[global] Instance question_eq_dec : EqDecision question.
Proof. solve_decision. Defined.
#[global] Instance event_eq_dec : EqDecision event.
Proof. solve_decision. Defined.

(** The history, most recent first. *)
Abbreviation history := (list event).

Class Env := {
  (** the I/O operation at the head of the history fails *)
  env_fault : history -> option io_error;
  (** what a failed recursive removal leaves behind *)
  env_spared : history -> Path -> bool;
  (** what other processes did to the tree while a lock was awaited *)
  env_peers : history -> fs -> fs;
  (** an entry of a directory being listed cannot be read, or its type cannot *)
  env_entry_fault : history -> Path -> option io_error;
  env_type_fault : history -> Path -> option io_error;
  (** the order a directory is listed in *)
  env_order : history -> Path -> N;
  (** why a blocking task never ran *)
  env_join_error : history -> option string;
  env_http : history -> string -> list (string * string) -> http_answer;
  env_uuid : history -> string;
  env_pid : N;
  (** [dirs::cache_dir()] *)
  env_cache_dir : option Path
}.

Record World := MkWorld { w_fs : fs; w_log : history }.

Definition emit (e : event) : io World unit :=
  fun w => (tt, MkWorld (w_fs w) (e :: w_log w)).

Section Operations.
Context `{Env}.

(** One system call: it is recorded, may fail without effect, else acts. *)
Definition syscall {A} (op : fs_op) (act : fs -> result io_error (A * fs))
  : io World (result io_error A) :=
  fun w =>
    let log := EvIo op :: w_log w in
    match env_fault log with
    | Some e => (Err e, MkWorld (w_fs w) log)
    | None =>
        match act (w_fs w) with
        | Ok (a, m) => (Ok a, MkWorld m log)
        | Err e => (Err e, MkWorld (w_fs w) log)
        end
    end.

Definition changing (act : fs -> result io_error fs) (m : fs) : result io_error (unit * fs) :=
  result_map (pair tt) (act m).

Definition reading {A} (act : fs -> result io_error A) (m : fs) : result io_error (A * fs) :=
  result_map (fun a => (a, m)) (act m).

Definition create_dir_all (p : Path) : io World (result io_error unit) :=
  syscall (OpCreateDirAll p) (changing (fun m => make_dirs m (ancestors p))).

(** [Path::exists] is [false] when the path cannot be examined. *)
Definition exists_path (p : Path) : io World bool :=
  io_map is_ok
    (syscall (OpExists p) (reading (fun m =>
       ok_or (MkIoError NotFound "no such file or directory") (canonical m p)))).

(** A failed recursive removal may already have removed some entries. *)
Definition remove_dir_all (p : Path) : io World (result io_error unit) :=
  fun w =>
    let log := EvIo (OpRemoveDirAll p) :: w_log w in
    match env_fault log with
    | Some e =>
        (Err e, MkWorld (filter (fun '(q, _) => under p q = false \/ env_spared log q = true)
                           (w_fs w)) log)
    | None =>
        match remove_tree p (w_fs w) with
        | Ok m => (Ok tt, MkWorld m log)
        | Err e => (Err e, MkWorld (w_fs w) log)
        end
    end.

Definition remove_file (p : Path) : io World (result io_error unit) :=
  syscall (OpRemoveFile p) (changing (remove_leaf p)).

Definition rename (a b : Path) : io World (result io_error unit) :=
  syscall (OpRename a b) (changing (rename_tree a b)).

Definition listed_before (log : history) (a b : Path * node) : Prop :=
  (env_order log a.1 <= env_order log b.1)%N.
#[local] Instance listed_before_dec log a b : Decision (listed_before log a b).
Proof. unfold listed_before. apply _. Defined.

(** One listed entry: its path, and its own type when that can be told. *)
Definition listing (log : history) (found : list (Path * node))
  : list (result io_error (Path * result io_error node)) :=
  map (fun '(p, n) =>
         match env_entry_fault log p with
         | Some e => Err e
         | None => Ok (p, match env_type_fault log p with Some e => Err e | None => Ok n end)
         end)
    (merge_sort (listed_before log) found).

Definition read_dir (p : Path)
  : io World (result io_error (list (result io_error (Path * result io_error node)))) :=
  fun w =>
    let '(found, w') := syscall (OpReadDir p) (reading (entries_of p)) w in
    (result_map (listing (w_log w')) found, w').

Definition canonicalize (p : Path) : io World (result io_error Path) :=
  syscall (OpCanonicalize p) (reading (fun m =>
    ok_or (MkIoError NotFound "no such file or directory") (canonical m p))).

Definition create_file (p : Path) : io World (result io_error unit) :=
  syscall (OpCreate p) (changing (create_leaf p)).

Definition write_all (p : Path) (bytes : string) : io World (result io_error unit) :=
  syscall (OpWrite p bytes) (changing (append_leaf p bytes)).

Definition flush (p : Path) : io World (result io_error unit) :=
  syscall (OpFlush p) (reading (fun _ => Ok tt)).

(** [File::open] for reading: the bytes at the path. *)
Definition open_file (p : Path) : io World (result io_error string) :=
  syscall (OpOpen p) (reading (fun m =>
    match canonical m p with
    | Some q => match m !! q with
                | Some (NFile b) => Ok b
                | _ => Err (MkIoError OtherIo "is a directory")
                end
    | None => Err (MkIoError NotFound "no such file or directory")
    end)).

(** [tokio::fs::write] is create, write and close. *)
Definition write_file (p : Path) (bytes : string) : io World (result io_error unit) :=
  (_ <-? create_file p ;; write_all p bytes)%rust.

(** A lock file is opened without truncation. *)
Definition open_lock (p : Path) : io World (result io_error unit) :=
  syscall (OpOpenLock p) (changing (fun m =>
    match m !! p with
    | Some (NFile _) => Ok m
    | _ => create_leaf p m
    end)).

(** Waiting for an exclusive lock lets the other holders finish their work. *)
Definition lock_exclusive (p : Path) : io World (result io_error unit) :=
  fun w =>
    let log := EvIo (OpLock p) :: w_log w in
    let m := env_peers log (w_fs w) in
    match env_fault log with
    | Some e => (Err e, MkWorld m log)
    | None => (Ok tt, MkWorld m log)
    end.

Definition set_permissions (p : Path) (mode : N) : io World (result io_error unit) :=
  syscall (OpSetPermissions p mode) (reading (fun m =>
    match canonical m p with
    | Some _ => Ok tt
    | None => Err (MkIoError NotFound "no such file or directory")
    end)).

Definition create_dir_all_through (p : Path) : io World (result io_error unit) :=
  syscall (OpCreateDirAll p) (changing (fun m => make_dirs_through m (ancestors p))).

Definition create_file_through (p : Path) : io World (result io_error Path) :=
  syscall (OpCreate p) (create_leaf_through p).

(** [tokio::task::spawn_blocking(work).await] *)
Definition spawn_blocking {A} (work : io World A) : io World (result string A) :=
  fun w =>
    let log := EvBlocking :: w_log w in
    match env_join_error log with
    | Some e => (Err e, MkWorld (w_fs w) log)
    | None => let '(a, w') := work (MkWorld (w_fs w) log) in (Ok a, w')
    end.

Definition http_get (url : string) (headers : list (string * string)) : io World http_answer :=
  fun w =>
    let log := EvHttpGet url headers :: w_log w in
    (env_http log url headers, MkWorld (w_fs w) log).

End Operations.

(** ** Concrete environments, for evaluation *)

(** Fails the system calls numbered in [failing] (counted from 1). *)
Definition sample_fault (failing : list nat) (log : history) : option io_error :=
  if bool_decide (length log ∈ failing) then Some (MkIoError OtherIo "input/output error")
  else None.

Definition sample_env (failing : list nat) (answer : http_answer) : Env := {|
  env_fault := sample_fault failing;
  env_spared := fun _ _ => false;
  env_peers := fun _ m => m;
  env_entry_fault := fun _ _ => None;
  env_type_fault := fun _ _ => None;
  env_order := fun _ _ => 0%N;
  env_join_error := fun _ => None;
  env_http := fun _ _ _ => answer;
  env_uuid := fun _ => "0b5f";
  env_pid := 77;
  env_cache_dir := Some (Path_new "/cache")
|}.
