(* ===== verification/FsFacts.v ===== *)
(** * Facts about the tree of [World]: what each operation leaves alone *)

From S2P Require Import Prelude RustStd World.

(** Two paths neither of which contains the other. *)
Definition apart (a b : Path) : Prop := under a b = false /\ under b a = false.

Lemma under_spec p q : under p q = true <-> exists rel, q = below p rel.
Proof.
  unfold under, below. rewrite path_starts_with_spec. split.
  - intros [Hr [rel Hn]]. exists rel. rewrite <- Hr, <- Hn. by rewrite path_eta.
  - intros [rel ->]. cbn. eauto.
Qed.

Lemma under_refl p : under p p = true.
Proof. apply under_spec. exists []. unfold below. by rewrite app_nil_r, path_eta. Qed.

Lemma under_below p rel : under p (below p rel) = true.
Proof. apply under_spec. eauto. Qed.

Lemma under_trans p q r : under p q = true -> under q r = true -> under p r = true.
Proof.
  rewrite !under_spec. intros [x ->] [y ->]. exists (x ++ y). unfold below. cbn.
  by rewrite app_assoc.
Qed.

(** Two containers of the same path contain one another. *)
Lemma under_comparable a b q :
  under a q = true -> under b q = true -> under a b = true \/ under b a = true.
Proof.
  rewrite !under_spec. intros [x ->] [y Hq]. unfold below in Hq. injection Hq as Hr Hn.
  destruct (Nat.le_ge_cases (length (p_names a)) (length (p_names b))) as [Hl|Hl].
  - left. exists (drop (length (p_names a)) (p_names b)). unfold below. rewrite Hr.
    assert (p_names a = take (length (p_names a)) (p_names b)) as Ha.
    { apply (f_equal (take (length (p_names a)))) in Hn. rewrite take_app_length in Hn.
      rewrite Hn at 1. by apply take_app_le. }
    assert (p_names a ++ drop (length (p_names a)) (p_names b) = p_names b) as ->.
    { rewrite Ha at 1. apply take_drop. }
    by rewrite path_eta.
  - right. exists (drop (length (p_names b)) (p_names a)). unfold below. rewrite <- Hr.
    assert (p_names b = take (length (p_names b)) (p_names a)) as Hb.
    { apply (f_equal (take (length (p_names b)))) in Hn. rewrite take_app_length in Hn.
      rewrite <- Hn at 1. by apply take_app_le. }
    assert (p_names b ++ drop (length (p_names b)) (p_names a) = p_names a) as ->.
    { rewrite Hb at 1. apply take_drop. }
    by rewrite path_eta.
Qed.

Lemma apart_sym a b : apart a b -> apart b a.
Proof. unfold apart. tauto. Qed.

Lemma apart_under a b q : apart a b -> under a q = true -> under b q = false.
Proof.
  intros [Hab Hba] Ha. destruct (under b q) eqn:Hb; [|done].
  destruct (under_comparable a b q Ha Hb); congruence.
Qed.

Lemma apart_below a b q : apart a b -> under a q = true -> apart q b.
Proof.
  intros Hab Haq. split.
  - destruct (under q b) eqn:E; [|done]. destruct Hab as [Hab _].
    by rewrite (under_trans a q b) in Hab.
  - by apply (apart_under a).
Qed.

Lemma apart_ne a b : apart a b -> a <> b.
Proof. intros [H _] ->. by rewrite under_refl in H. Qed.

Lemma rekey_below a b rel : rekey a b (below a rel) = below b rel.
Proof. unfold rekey, below. cbn. by rewrite drop_app_length. Qed.

Lemma rekey_rekey a b q : under a q = true -> rekey b a (rekey a b q) = q.
Proof. intros [rel ->]%under_spec. by rewrite !rekey_below. Qed.

Lemma rekey_under a b q : under b (rekey a b q) = true.
Proof. apply under_spec. unfold rekey. eauto. Qed.

(** ** Moving *)

Lemma lookup_moving a b (m : fs) q :
  under b q = true ->
  (list_to_map (map (fun '(q, n) => (rekey a b q, n))
     (map_to_list (filter (fun '(q, _) => under a q = true) m))) : fs) !! q
  = m !! rekey b a q.
Proof.
  intros Hb.
  set (moving := filter (fun '(q, _) => under a q = true) m : fs).
  assert (forall q n, moving !! q = Some n <-> m !! q = Some n /\ under a q = true) as Hm.
  { intros. unfold moving. rewrite map_lookup_filter_Some. done. }
  assert (NoDup (map (fun '(q, n) => (rekey a b q, n)) (map_to_list moving)).*1) as Hnd.
  { rewrite <- list_fmap_compose.
    replace (_ <$> map_to_list moving) with (rekey a b <$> (map_to_list moving).*1).
    2:{ rewrite <- list_fmap_compose. apply list_fmap_ext. by intros ? [] ?. }
    apply NoDup_fmap_2_strong; [|apply NoDup_fst_map_to_list].
    intros x y Hx Hy Heq.
    apply list_elem_of_fmap in Hx as ([x' nx] & -> & Hx), Hy; cbn in *.
    destruct Hy as ([y' ny] & -> & Hy); cbn in *.
    apply elem_of_map_to_list, Hm in Hx as [_ Hx], Hy. destruct Hy as [_ Hy].
    rewrite <- (rekey_rekey a b x'), <- (rekey_rekey a b y') by done. by rewrite Heq. }
  apply option_eq. intros n. rewrite <- elem_of_list_to_map by done.
  rewrite list_elem_of_fmap. split.
  - intros ([q' n'] & Heq & Hin). injection Heq as -> ->.
    apply elem_of_map_to_list, Hm in Hin as [Hin Ha]. by rewrite rekey_rekey.
  - intros Hin. exists (rekey b a q, n). split.
    + by rewrite rekey_rekey.
    + apply elem_of_map_to_list, Hm. split; [done|apply rekey_under].
Qed.

Lemma lookup_move_tree a b m q :
  apart a b ->
  move_tree a b m !! q
  = if under b q then m !! rekey b a q else if under a q then None else m !! q.
Proof.
  intros Hab. unfold move_tree. destruct (under b q) eqn:Hb.
  - rewrite lookup_union, lookup_moving by done.
    rewrite (proj2 (map_lookup_filter_None _ _ _)); [by destruct (m !! _)|].
    right. intros n _ [_ ?]. congruence.
  - rewrite lookup_union_r.
    + destruct (under a q) eqn:Ha.
      * apply map_lookup_filter_None. right. intros n _ [? _]. congruence.
      * destruct (m !! q) eqn:E.
        -- apply map_lookup_filter_Some. split; [done|]. by rewrite Ha, Hb.
        -- apply map_lookup_filter_None. by left.
    + apply not_elem_of_list_to_map. rewrite list_elem_of_fmap. intros ([q' n] & -> & Hin).
      apply list_elem_of_fmap in Hin as ([q'' n'] & [= -> ->] & _). cbn in Hb.
      by rewrite rekey_under in Hb.
Qed.

Lemma move_tree_target a b m rel :
  apart a b -> move_tree a b m !! below b rel = m !! below a rel.
Proof. intros H. rewrite lookup_move_tree by done. by rewrite under_below, rekey_below. Qed.

Lemma move_tree_source a b m q : apart a b -> under a q = true -> move_tree a b m !! q = None.
Proof.
  intros H Ha. rewrite lookup_move_tree by done. by rewrite (apart_under a b q), Ha.
Qed.

Lemma move_tree_elsewhere a b m q :
  apart a b -> under a q = false -> under b q = false -> move_tree a b m !! q = m !! q.
Proof. intros H Ha Hb. rewrite lookup_move_tree by done. by rewrite Ha, Hb. Qed.

Lemma rename_tree_ok a b m m' :
  apart a b -> rename_tree a b m = Ok m' -> m' = move_tree a b m /\ is_Some (m !! a).
Proof.
  intros Hab. unfold rename_tree. destruct (m !! a) as [n|]; [|done].
  rewrite bool_decide_eq_false_2 by by apply apart_ne.
  destruct Hab as [-> _]. destruct (parent b); [|done].
  destruct (is_dir_following _ _); [|done]. cbn.
  destruct n, (m !! b) as [[]|]; try destruct (has_children _ _); intros; simplify_eq; eauto.
Qed.

(** ** Creating directories *)

Lemma make_dirs_frame ps m m' q : make_dirs m ps = Ok m' -> q ∉ ps -> m' !! q = m !! q.
Proof.
  revert m. induction ps as [|p ps IH]; intros m; cbn; [by intros [= ->]|].
  intros Hm [Hq Hps]%not_elem_of_cons.
  destruct (node_at m p) as [[| |]|]; try done; [by eauto| |].
  - destruct (is_dir_following m p); [by eauto|done].
  - rewrite (IH _ Hm Hps). by apply lookup_insert_ne.
Qed.

Lemma elem_of_ancestors p q : q ∈ ancestors p -> under q p = true.
Proof.
  unfold ancestors. rewrite list_elem_of_fmap. intros (n & -> & _). apply under_spec.
  exists (drop n (p_names p)). unfold below. cbn. by rewrite take_drop, path_eta.
Qed.

Lemma parent_names p up :
  parent p = Some up -> exists name, p = MkPath (p_root up) (p_names up ++ [name]).
Proof.
  unfold parent. destruct (p_names p) as [|x l] eqn:E; [done|]. intros Hup.
  assert (up = MkPath (p_root p) (removelast (x :: l))) as -> by congruence.
  exists (List.last (x :: l) x). cbn [p_root p_names].
  rewrite <- app_removelast_last by done. rewrite <- E. by rewrite path_eta.
Qed.

Lemma parent_under p up : parent p = Some up -> under up p = true.
Proof. intros [name ->]%parent_names. apply under_spec. by exists [name]. Qed.

Lemma parent_not_under p up : parent p = Some up -> under p up = false.
Proof.
  intros [name ->]%parent_names. destruct (under _ up) eqn:Hu; [|done].
  apply under_spec in Hu as [rel Hu]. apply (f_equal (fun q => length (p_names q))) in Hu.
  cbn in Hu. rewrite !length_app in Hu. cbn in Hu. lia.
Qed.

(** Creating the way to [p]'s parent touches nothing in [q], unless [q] contains [p]. *)
Lemma ancestors_parent_outside p up q :
  parent p = Some up -> under q p = false -> q ∉ ancestors up.
Proof.
  intros Hp Hq Hin. apply elem_of_ancestors in Hin.
  rewrite (under_trans q up p) in Hq; [done|done|by apply parent_under].
Qed.

Lemma ancestors_of_under s p q :
  q ∈ ancestors p -> under s p = true -> under s q = false -> q ∈ ancestors s.
Proof.
  unfold ancestors. rewrite !list_elem_of_fmap. intros (n & -> & Hn%elem_of_seq) Hsp Hsq.
  apply under_spec in Hsp as [rel ->]. cbn in *. rewrite length_app in Hn.
  assert (n < length (p_names s))%nat as Hlt.
  { destruct (Nat.lt_ge_cases n (length (p_names s))) as [|Hge]; [done|]. exfalso.
    apply not_true_iff_false in Hsq. apply Hsq, under_spec.
    exists (take (n - length (p_names s)) rel). unfold below. cbn. f_equal.
    rewrite take_app. f_equal. by apply take_ge. }
  exists n. split; [|apply elem_of_seq; lia]. f_equal. rewrite take_app.
  replace (n - length (p_names s))%nat with 0%nat by lia. by rewrite take_0, app_nil_r.
Qed.

Lemma node_at_None m p : node_at m p = None -> m !! p = None.
Proof. unfold node_at. by destruct (p_names p). Qed.

(** Making directories replaces nothing. *)
Lemma make_dirs_keeps ps m m' q n : make_dirs m ps = Ok m' -> m !! q = Some n -> m' !! q = Some n.
Proof.
  revert m. induction ps as [|p ps IH]; intros m; cbn; [by intros [= ->]|]. intros Hm Hq.
  destruct (node_at m p) as [[| |]|] eqn:Hp; try done; [by eauto| |].
  - destruct (is_dir_following m p); [by eauto|done].
  - apply (IH _ Hm). apply node_at_None in Hp. rewrite lookup_insert_ne by congruence. done.
Qed.

Lemma make_dirs_new ps m m' q :
  make_dirs m ps = Ok m' -> m !! q = None -> m' !! q = None \/ m' !! q = Some NDir.
Proof.
  revert m. induction ps as [|p ps IH]; intros m; cbn; [intros [= ->]; by left|]. intros Hm Hq.
  destruct (node_at m p) as [[| |]|] eqn:Hp; try done; [by eauto| |].
  - destruct (is_dir_following m p); [by eauto|done].
  - destruct (decide (p = q)) as [->|Hne].
    + right. eapply make_dirs_keeps; [done|apply lookup_insert_eq].
    + apply (IH _ Hm). by rewrite lookup_insert_ne.
Qed.

Lemma make_dirs_node_at ps m m' q :
  make_dirs m ps = Ok m' -> is_Some (node_at m q) -> is_Some (node_at m' q).
Proof.
  unfold node_at. intros Hm. destruct (p_names q); [done|]. intros [n Hn].
  erewrite make_dirs_keeps; eauto.
Qed.

Lemma make_dirs_present ps m m' q :
  make_dirs m ps = Ok m' -> q ∈ ps -> is_Some (node_at m' q).
Proof.
  revert m. induction ps as [|p ps IH]; intros m; cbn; [by intros _ ?%elem_of_nil|].
  intros Hm [->|Hq]%elem_of_cons.
  - destruct (node_at m p) as [n|] eqn:Hp.
    + assert (make_dirs m ps = Ok m') as Hm'.
      { destruct n; [done|done|]. by destruct (is_dir_following m p). }
      eapply make_dirs_node_at; [exact Hm'|eauto].
    + eapply make_dirs_node_at; [exact Hm|]. unfold node_at in *.
      destruct (p_names p); [done|]. rewrite lookup_insert_eq. eauto.
  - destruct (node_at m p) as [[| |]|]; [by eauto|done| |by eauto].
    destruct (is_dir_following m p); [by eauto|done].
Qed.

(** ** Through links *)

(** Nothing on the way to [p], nor [p] itself, is a link, and it climbs nowhere. *)
Definition real (m : fs) (p : Path) : Prop :=
  (".." ∉ p_names p) /\ forall q t, q ∈ ancestors p -> m !! q <> Some (NLink t).

(** [m'] is [m] with directories added among [ps]. *)
Definition adds_dirs (ps : list Path) (m m' : fs) : Prop :=
  forall q, m' !! q = m !! q \/ (q ∈ ps) /\ m !! q = None /\ m' !! q = Some NDir.

Lemma elem_of_ancestors_take p q :
  q ∈ ancestors p <-> exists n, q = MkPath (p_root p) (take n (p_names p)) /\ (1 <= n <= length (p_names p))%nat.
Proof.
  unfold ancestors. rewrite list_elem_of_fmap. setoid_rewrite elem_of_seq.
  split; intros (n & -> & Hn); exists n; (split; [done|lia]).
Qed.

Lemma ancestors_self p : p_names p <> [] -> p ∈ ancestors p.
Proof.
  intros Hp. apply elem_of_ancestors_take. exists (length (p_names p)).
  rewrite firstn_all, path_eta. split; [done|]. destruct (p_names p); [done|cbn; lia].
Qed.

Lemma ancestors_parent p up : parent p = Some up -> forall q, q ∈ ancestors up -> q ∈ ancestors p.
Proof.
  intros [name ->]%parent_names q. rewrite !elem_of_ancestors_take. cbn.
  intros (n & -> & Hn). exists n. rewrite length_app, take_app_le by lia. split; [done|lia].
Qed.

Lemma real_parent m p up : parent p = Some up -> real m p -> real m up.
Proof.
  intros Hup [Hd Hl]. split; [|intros q t Hq; apply Hl; by eapply ancestors_parent].
  apply parent_names in Hup as [name ->]. cbn in Hd. intros Hin. apply Hd, elem_of_app. by left.
Qed.

Lemma real_adds ps m m' p : adds_dirs ps m m' -> real m p -> real m' p.
Proof.
  intros Hadd [Hd Hl]. split; [done|]. intros q t Hq. destruct (Hadd q) as [->|(_ & _ & ->)]; [by apply Hl|done].
Qed.

Lemma resolve_real fuel m base todo q :
  ".." ∉ todo ->
  (forall n t, (1 <= n <= length todo)%nat -> m !! below base (take n todo) <> Some (NLink t)) ->
  resolve_names fuel m base todo = Some q -> q = below base todo.
Proof.
  revert base todo. induction fuel as [|fuel IH]; intros base todo; [done|]. cbn [resolve_names].
  destruct todo as [|c rest]; [intros _ _ [= <-]; unfold below; by rewrite app_nil_r, path_eta|].
  intros [Hc Hrest]%not_elem_of_cons Hl. destruct (String.eqb_spec c ".."); [congruence|].
  assert (node_at m (below base [c]) = m !! below base [c]) as Hnode.
  { unfold node_at, below. cbn. by destruct (p_names base). }
  rewrite Hnode. pose proof (fun t => Hl 1%nat t ltac:(cbn; lia)) as H1. cbn in H1.
  destruct (m !! below base [c]) as [[| |t]|] eqn:Hm; [| |by destruct (H1 t)|done].
  - intros Hr. apply IH in Hr; [|done|].
    + subst q. unfold below. cbn. by rewrite <- app_assoc.
    + intros k t Hk. specialize (Hl (S k) t ltac:(cbn; lia)). unfold below in *. cbn in *. by rewrite <- app_assoc.
  - destruct rest; [|done]. by intros [= <-].
Qed.

Lemma canonical_real m p q : real m p -> canonical m p = Some q -> q = p.
Proof.
  intros [Hd Hl] Hq. apply resolve_real in Hq; [|done|].
  - subst q. unfold below. cbn. by rewrite path_eta.
  - intros n t Hn. apply Hl, elem_of_ancestors_take. exists n. split; [by unfold below|lia].
Qed.

(** What the parent's name and the last one make. *)
Lemma parent_last p up name : parent p = Some up -> last (p_names p) = Some name -> below up [name] = p.
Proof. intros [y ->]%parent_names. cbn. rewrite last_snoc. by intros [= ->]. Qed.

Lemma open_target_real links m p file : real m p -> open_target links m p = Some file -> file = p.
Proof.
  intros Hp. destruct links as [|links]; [done|]. cbn [open_target].
  destruct (parent p) as [up|] eqn:Hup; [|done]. destruct (last (p_names p)) as [name|] eqn:Hlast; [|done].
  destruct (canonical m up) as [r|] eqn:Hc; [|done]. apply canonical_real in Hc as ->; [|by eapply real_parent].
  rewrite (parent_last p up name Hup Hlast). destruct (_ || _); [done|].
  destruct (m !! p) as [[| |t]|] eqn:Hm; [by intros [= <-]..| |by intros [= <-]].
  destruct Hp as [_ Hl]. destruct (Hl p t); [|done]. apply ancestors_self. intros Hn. by rewrite Hn in Hlast.
Qed.

Lemma make_dir_through_real m p m' :
  real m p -> make_dir_through p m = Ok m' -> m !! p = None /\ m' = <[p := NDir]> m.
Proof.
  intros Hp. unfold make_dir_through.
  destruct (parent p) as [up|] eqn:Hup; [|done]. destruct (last (p_names p)) as [name|] eqn:Hlast; [|done].
  destruct (canonical m up) as [r|] eqn:Hc; [|done]. apply canonical_real in Hc as ->; [|by eapply real_parent].
  rewrite (parent_last p up name Hup Hlast). destruct (String.eqb name ".."); [done|].
  destruct (negb _); [done|]. destruct (m !! p); [done|]. by intros [= <-].
Qed.

Lemma make_dirs_through_real ps m m' :
  (forall p, p ∈ ps -> real m p) -> make_dirs_through m ps = Ok m' -> adds_dirs ps m m'.
Proof.
  revert m. induction ps as [|p ps IH]; intros m Hps; cbn; [intros [= ->] q; by left|].
  destruct (is_dir_following m p).
  - intros Hm q. destruct (IH m (fun p' Hp' => Hps p' ltac:(by right)) Hm q) as [?|(? & ? & ?)]; [by left|right].
    split_and!; [by right|done..].
  - destruct (make_dir_through p m) as [m1|] eqn:Hm1; [|done].
    apply make_dir_through_real in Hm1 as [Hnone ->]; [|apply Hps; by left].
    assert (adds_dirs [p] m (<[p := NDir]> m)) as Hadd.
    { intros q. destruct (decide (p = q)) as [<-|Hne]; [right|left; by apply lookup_insert_ne].
      split_and!; [by left|done|apply lookup_insert_eq]. }
    intros Hm q. destruct (IH _ (fun p' Hp' => real_adds _ _ _ _ Hadd (Hps p' ltac:(by right))) Hm q) as [Hq|(H1 & H2 & H3)].
    + rewrite Hq. destruct (Hadd q) as [?|(Hin & ? & ?)]; [by left|right]. split_and!; [|done..].
      apply list_elem_of_singleton in Hin as ->. by left.
    + right. split_and!; [by right| |done]. destruct (decide (p = q)) as [->|Hne]; [done|by rewrite lookup_insert_ne in H2].
Qed.

(** A relative path joined to a directory names something in it. *)
Lemma path_join_below a b :
  p_root b = false -> exists rel, path_join a b = below a rel /\ forall x, x ∈ rel -> x ∈ p_names b.
Proof.
  intros Hb. unfold path_join. rewrite Hb. eexists. split; [by unfold below|]. intros x.
  destruct (p_names b) as [|y r]; [done|]. rewrite elem_of_cons.
  destruct y as [|c y]; [by rewrite elem_of_cons|]. destruct c as [[][][][][][][][]];
    try by rewrite elem_of_cons.
  destruct y; [|by rewrite elem_of_cons]. destruct (p_names a); [by rewrite elem_of_cons|auto].
Qed.

(** The entries of a directory are the nodes filed one name below it. *)
Lemma elem_of_entries p m found real q n :
  entries_of p m = Ok found -> canonical m p = Some real ->
  (q, n) ∈ found <-> exists name, q = below p [name] /\ m !! below real [name] = Some n.
Proof.
  unfold entries_of. intros Hf Hr. rewrite Hr in Hf. destruct (is_dir_following m p); [|done].
  injection Hf as <-. rewrite list_elem_of_omap. split.
  - intros ([q' n'] & Hin%elem_of_map_to_list & Hc).
    destruct (parent q') as [up|] eqn:Hup; [|done].
    destruct (last (p_names q')) as [name|] eqn:Hlast; [|done].
    case_bool_decide as Heq; [|done]. subst up. injection Hc as <- <-. exists name. split; [done|].
    apply parent_names in Hup as [name' ->]. cbn in Hlast.
    rewrite last_snoc in Hlast. by injection Hlast as ->.
  - intros (name & -> & Hm). exists (below real [name], n).
    split; [by apply elem_of_map_to_list|]. unfold parent, below. cbn.
    rewrite last_snoc. destruct (p_names real ++ [name]) eqn:E; [by destruct (p_names real)|].
    rewrite <- E, removelast_last. rewrite path_eta. by rewrite bool_decide_true.
Qed.

Lemma entries_nodup p m found : entries_of p m = Ok found -> NoDup found.*1.
Proof.
  unfold entries_of. destruct (is_dir_following m p); [|done].
  destruct (canonical m p) as [real|]; [|done]. intros [= <-].
  pose proof (NoDup_fst_map_to_list m) as Hnd. revert Hnd.
  induction (map_to_list m) as [|[q n] l IH]; [constructor|].
  cbn [fmap list_fmap fst]. intros [Hq Hnd]%NoDup_cons. specialize (IH Hnd). cbn [omap list_omap].
  destruct (parent q) as [up|] eqn:Hup; [|done].
  destruct (last (p_names q)) as [name|] eqn:Hlast; [|done].
  case_bool_decide as Heq; [|done]. subst up. cbn [fmap list_fmap fst]. constructor; [|done].
  intros Hin. apply Hq. apply list_elem_of_fmap in Hin as ([q1 n1] & Hq1 & Hin).
  apply list_elem_of_omap in Hin as ([q2 n2] & Hin & Hc).
  destruct (parent q2) as [up2|] eqn:Hup2; [|done].
  destruct (last (p_names q2)) as [name2|] eqn:Hlast2; [|done].
  case_bool_decide as Heq2; [|done]. subst up2. injection Hc as <- <-.
  cbn in Hq1. injection Hq1 as Hq1. apply app_inj_tail in Hq1 as [_ <-].
  apply parent_names in Hup as [x ->], Hup2 as [y ->]. cbn in *.
  rewrite last_snoc in Hlast, Hlast2. simplify_eq.
  apply list_elem_of_fmap. by exists (MkPath (p_root real) (p_names real ++ [name]), n2).
Qed.

(** Filters keep exactly what they name. *)
Lemma lookup_filter_outside (P : Path -> Prop) `{!forall q, Decision (P q)} (m : fs) q :
  P q -> filter (fun '(q, _) => P q) m !! q = m !! q.
Proof.
  intros HP. destruct (m !! q) eqn:E.
  - by apply map_lookup_filter_Some.
  - apply map_lookup_filter_None. by left.
Qed.

#[export] Hint Resolve under_refl under_below apart_ne : rust.

(** ** Operations, one at a time *)

Section OperationFacts.
Context `{Env}.

Lemma syscall_inv {A} op (act : fs -> result io_error (A * fs)) w r w' :
  syscall op act w = (r, w') ->
  w_log w' = EvIo op :: w_log w
  /\ match r with
     | Ok a => act (w_fs w) = Ok (a, w_fs w')
     | Err _ => w_fs w' = w_fs w
     end.
Proof.
  unfold syscall. destruct (env_fault _); [by intros [= <- <-]|].
  destruct (act (w_fs w)) as [[a m]|e]; by intros [= <- <-].
Qed.

Lemma syscall_reading_fs {A} op (act : fs -> result io_error A) w r w' :
  syscall op (reading act) w = (r, w') -> w_fs w' = w_fs w.
Proof.
  intros [_ Hr]%syscall_inv. destruct r; [|done]. unfold reading, result_map in Hr.
  destruct (act (w_fs w)); by simplify_eq.
Qed.

Lemma create_dir_all_frame p w r w' q :
  create_dir_all p w = (r, w') -> q ∉ ancestors p -> w_fs w' !! q = w_fs w !! q.
Proof.
  intros [_ Hr]%syscall_inv Hq. destruct r; [|by rewrite Hr].
  unfold changing, result_map in Hr. destruct (make_dirs _ _) eqn:E; simplify_eq.
  by eapply make_dirs_frame.
Qed.

Lemma create_dir_all_keeps p w r w' q n :
  create_dir_all p w = (r, w') -> w_fs w !! q = Some n -> w_fs w' !! q = Some n.
Proof.
  intros [_ Hr]%syscall_inv Hq. destruct r; [|by rewrite Hr].
  unfold changing, result_map in Hr. destruct (make_dirs _ _) eqn:E; simplify_eq.
  by eapply make_dirs_keeps.
Qed.

Lemma create_dir_all_new p w r w' q :
  create_dir_all p w = (r, w') -> w_fs w !! q = None ->
  w_fs w' !! q = None \/ w_fs w' !! q = Some NDir.
Proof.
  intros [_ Hr]%syscall_inv Hq. destruct r; [|rewrite Hr; by left].
  unfold changing, result_map in Hr. destruct (make_dirs _ _) eqn:E; simplify_eq.
  by eapply make_dirs_new.
Qed.

Lemma create_dir_all_present p w u w' q :
  create_dir_all p w = (Ok u, w') -> q ∈ ancestors p -> is_Some (node_at (w_fs w') q).
Proof.
  intros [_ Hr]%syscall_inv Hq. unfold changing, result_map in Hr.
  destruct (make_dirs _ _) eqn:E; simplify_eq. by eapply make_dirs_present.
Qed.

Lemma exists_path_fs p w b w' : exists_path p w = (b, w') -> w_fs w' = w_fs w.
Proof.
  unfold exists_path, io_map. destruct (syscall _ _ w) as [r w1] eqn:E.
  intros [= _ <-]. by eapply syscall_reading_fs.
Qed.

Lemma remove_dir_all_frame p w r w' q :
  remove_dir_all p w = (r, w') -> under p q = false -> w_fs w' !! q = w_fs w !! q.
Proof.
  unfold remove_dir_all. intros Hr Hq. destruct (env_fault _) as [e|].
  - injection Hr as _ <-. cbn.
    apply (lookup_filter_outside (fun q => under p q = false \/ env_spared _ q = true)). by left.
  - destruct (remove_tree p (w_fs w)) as [m|e] eqn:E; injection Hr as _ <-; [|done].
    cbn. unfold remove_tree in E. destruct (w_fs w !! p) as [[| |]|]; simplify_eq.
    + by apply (lookup_filter_outside (fun q => under p q = false)).
    + apply lookup_delete_ne. intros ->. by rewrite under_refl in Hq.
Qed.

Lemma rename_ok a b w w' :
  apart a b -> rename a b w = (Ok tt, w') -> w_fs w' = move_tree a b (w_fs w).
Proof.
  intros Hab [_ Hr]%syscall_inv. unfold changing, result_map in Hr.
  destruct (rename_tree _ _ _) eqn:E; simplify_eq. by apply rename_tree_ok in E as [-> _].
Qed.

Lemma rename_err a b w e w' : rename a b w = (Err e, w') -> w_fs w' = w_fs w.
Proof. by intros [_ Hr]%syscall_inv. Qed.

Lemma remove_file_frame p w r w' q :
  remove_file p w = (r, w') -> q <> p -> w_fs w' !! q = w_fs w !! q.
Proof.
  intros [_ Hr]%syscall_inv Hq. destruct r; [|by rewrite Hr].
  unfold changing, result_map, remove_leaf in Hr.
  destruct (w_fs w !! p) as [[]|]; try done; injection Hr as _ <-;
    by apply lookup_delete_ne.
Qed.

Lemma remove_file_gone p w u w' : remove_file p w = (Ok u, w') -> w_fs w' !! p = None.
Proof.
  intros [_ Hr]%syscall_inv. unfold changing, result_map, remove_leaf in Hr.
  destruct (w_fs w !! p) as [[]|]; try done; injection Hr as _ <-; apply lookup_delete_eq.
Qed.

Lemma create_file_ok p w u w' :
  create_file p w = (Ok u, w') -> w_fs w' = <[p := NFile ""]> (w_fs w).
Proof.
  intros [_ Hr]%syscall_inv. unfold changing, result_map, create_leaf in Hr.
  destruct (parent p); [|done]. destruct (is_dir_following _ _); [|done]. cbn in Hr.
  destruct (w_fs w !! p) as [[]|]; by simplify_eq.
Qed.

Lemma write_all_ok p bytes w u w' :
  write_all p bytes w = (Ok u, w') ->
  exists old, w_fs w !! p = Some (NFile old)
              /\ w_fs w' = <[p := NFile (old +:+ bytes)]> (w_fs w).
Proof.
  intros [_ Hr]%syscall_inv. unfold changing, result_map, append_leaf in Hr.
  destruct (w_fs w !! p) as [[|old|]|]; simplify_eq. eauto.
Qed.

Lemma flush_fs p w r w' : flush p w = (r, w') -> w_fs w' = w_fs w.
Proof. apply syscall_reading_fs. Qed.

Lemma syscall_log {A} op (act : fs -> result io_error (A * fs)) w :
  w_log (syscall op act w).2 = EvIo op :: w_log w.
Proof.
  destruct (syscall op act w) as [r w'] eqn:E. by apply syscall_inv in E as [? _].
Qed.

(** ** What a computation records

    [emits P m]: every event [m] adds to the history satisfies [P]. *)

Definition emits {A} (P : event -> Prop) (m : io World A) : Prop :=
  forall w a w', m w = (a, w') -> exists new, w_log w' = new ++ w_log w /\ Forall P new.

(** [keeps m]: [m] changes nothing in the tree. *)
Definition keeps {A} (m : io World A) : Prop :=
  forall w a w', m w = (a, w') -> w_fs w' = w_fs w.

Lemma emits_ret {A} P (a : A) : emits P (io_ret a).
Proof. intros w b w' [= _ <-]. by exists []. Qed.

Lemma emits_get {A} P (f : World -> A) : emits P (io_get f).
Proof. intros w b w' [= _ <-]. by exists []. Qed.

Lemma emits_bind {A B} P (m : io World A) (k : A -> io World B) :
  emits P m -> (forall a, emits P (k a)) -> emits P (io_bind m k).
Proof.
  intros Hm Hk w b w'. unfold io_bind. destruct (m w) as [a w1] eqn:E. intros Hr.
  destruct (Hm _ _ _ E) as (n1 & L1 & Q1), (Hk _ _ _ _ Hr) as (n2 & L2 & Q2).
  exists (n2 ++ n1). rewrite L2, L1, app_assoc. split; [done|]. by apply Forall_app.
Qed.

Lemma emits_try {X A B} P (m : io World (result X A)) (k : A -> io World (result X B)) :
  emits P m -> (forall a, emits P (k a)) -> emits P (io_try m k).
Proof.
  intros Hm Hk w b w'. unfold io_try. destruct (m w) as [[a|e] w1] eqn:E.
  - intros Hr. destruct (Hm _ _ _ E) as (n1 & L1 & Q1), (Hk _ _ _ _ Hr) as (n2 & L2 & Q2).
    exists (n2 ++ n1). rewrite L2, L1, app_assoc. split; [done|]. by apply Forall_app.
  - intros [= _ <-]. eauto.
Qed.

Lemma emits_map {A B} P (f : A -> B) m : emits P m -> emits P (io_map f m).
Proof.
  intros Hm w b w'. unfold io_map. destruct (m w) as [a w1] eqn:E. intros [= _ <-]. eauto.
Qed.

Lemma emits_emit P e : P e -> emits P (emit e).
Proof. intros He w a w' [= _ <-]. exists [e]. split; [done|]. by constructor. Qed.

Lemma emits_syscall {A} P op (act : fs -> result io_error (A * fs)) :
  P (EvIo op) -> emits P (syscall op act).
Proof.
  intros HP w a w' [-> _]%syscall_inv. exists [EvIo op]. split; [done|]. by constructor.
Qed.

Lemma emits_weaken {A} (P Q : event -> Prop) (m : io World A) :
  (forall e, P e -> Q e) -> emits P m -> emits Q m.
Proof.
  intros HPQ Hm w a w' E. destruct (Hm _ _ _ E) as (n & L & F). exists n. split; [done|].
  eapply Forall_impl; eauto.
Qed.

Lemma emits_remove_dir_all P p : P (EvIo (OpRemoveDirAll p)) -> emits P (remove_dir_all p).
Proof.
  intros HP w a w' E. exists [EvIo (OpRemoveDirAll p)]. split; [|by constructor].
  unfold remove_dir_all in E. destruct (env_fault _); [by injection E as _ <-|].
  destruct (remove_tree _ _); by injection E as _ <-.
Qed.

Lemma emits_lock_exclusive P p : P (EvIo (OpLock p)) -> emits P (lock_exclusive p).
Proof.
  intros HP w a w' E. exists [EvIo (OpLock p)]. split; [|by constructor].
  unfold lock_exclusive in E. by destruct (env_fault _); injection E as _ <-.
Qed.

Lemma emits_http_get P url headers : P (EvHttpGet url headers) -> emits P (http_get url headers).
Proof. intros HP w a w' [= _ <-]. exists [EvHttpGet url headers]. split; [done|]. by constructor. Qed.

Lemma emits_read_dir P p : P (EvIo (OpReadDir p)) -> emits P (read_dir p).
Proof.
  intros HP w a w'. unfold read_dir. destruct (syscall _ _ w) as [r w1] eqn:E.
  intros [= _ <-]. apply syscall_inv in E as [-> _]. exists [EvIo (OpReadDir p)].
  split; [done|]. by constructor.
Qed.

Lemma emits_spawn_blocking {A} P (m : io World A) :
  P EvBlocking -> emits P m -> emits P (spawn_blocking m).
Proof.
  intros HP Hm w a w'. unfold spawn_blocking. destruct (env_join_error _).
  - intros [= _ <-]. exists [EvBlocking]. split; [done|]. by constructor.
  - destruct (m _) as [b w1] eqn:E. intros [= _ <-]. destruct (Hm _ _ _ E) as (n & L & F).
    exists (n ++ [EvBlocking]). rewrite L, <- app_assoc. split; [done|].
    apply Forall_app. split; [done|]. by constructor.
Qed.

Lemma keeps_ret {A} (a : A) : keeps (io_ret a).
Proof. by intros w b w' [= _ <-]. Qed.

Lemma keeps_get {A} (f : World -> A) : keeps (io_get f).
Proof. by intros w b w' [= _ <-]. Qed.

Lemma keeps_bind {A B} (m : io World A) (k : A -> io World B) :
  keeps m -> (forall a, keeps (k a)) -> keeps (io_bind m k).
Proof.
  intros Hm Hk w b w'. unfold io_bind. destruct (m w) as [a w1] eqn:E. intros Hr.
  rewrite (Hk _ _ _ _ Hr). eauto.
Qed.

Lemma keeps_try {X A B} (m : io World (result X A)) (k : A -> io World (result X B)) :
  keeps m -> (forall a, keeps (k a)) -> keeps (io_try m k).
Proof.
  intros Hm Hk w b w'. unfold io_try. destruct (m w) as [[a|e] w1] eqn:E.
  - intros Hr. rewrite (Hk _ _ _ _ Hr). eauto.
  - intros [= _ <-]. eauto.
Qed.

Lemma keeps_map {A B} (f : A -> B) m : keeps m -> keeps (io_map f m).
Proof.
  intros Hm w b w'. unfold io_map. destruct (m w) as [a w1] eqn:E. intros [= _ <-]. eauto.
Qed.

Lemma keeps_reading {A} op (act : fs -> result io_error A) : keeps (syscall op (reading act)).
Proof. intros w a w' E. by eapply syscall_reading_fs. Qed.

Lemma keeps_read_dir p : keeps (read_dir p).
Proof.
  intros w a w'. unfold read_dir. destruct (syscall _ _ w) as [r w1] eqn:E.
  intros [= _ <-]. by eapply syscall_reading_fs.
Qed.

(** [counts P n m]: [m] records at most [n] events that satisfy [P]. *)
Definition counts {A} (P : event -> Prop) `{!forall e, Decision (P e)} (n : nat) (m : io World A)
  : Prop :=
  forall w a w', m w = (a, w') ->
    exists new, w_log w' = new ++ w_log w /\ (length (filter P new) <= n)%nat.

Section Counts.
Context (P : event -> Prop) `{!forall e, Decision (P e)}.

Lemma counts_none {A} (m : io World A) : emits (fun e => ~ P e) m -> counts P 0 m.
Proof.
  intros Hm w a w' E. destruct (Hm _ _ _ E) as (new & L & F). exists new. split; [done|].
  clear L. induction F as [|e new He F IH]; [done|]. by rewrite filter_cons_False.
Qed.

Lemma counts_bind {A B} n1 n2 (m : io World A) (k : A -> io World B) :
  counts P n1 m -> (forall a, counts P n2 (k a)) -> counts P (n1 + n2) (io_bind m k).
Proof.
  intros Hm Hk w b w'. unfold io_bind. destruct (m w) as [a w1] eqn:E. intros Hr.
  destruct (Hm _ _ _ E) as (x1 & L1 & Q1), (Hk _ _ _ _ Hr) as (x2 & L2 & Q2).
  exists (x2 ++ x1). rewrite L2, L1, app_assoc. split; [done|].
  rewrite filter_app, length_app. lia.
Qed.

Lemma counts_try {X A B} n1 n2 (m : io World (result X A)) (k : A -> io World (result X B)) :
  counts P n1 m -> (forall a, counts P n2 (k a)) -> counts P (n1 + n2) (io_try m k).
Proof.
  intros Hm Hk w b w'. unfold io_try. destruct (m w) as [[a|e] w1] eqn:E.
  - intros Hr. destruct (Hm _ _ _ E) as (x1 & L1 & Q1), (Hk _ _ _ _ Hr) as (x2 & L2 & Q2).
    exists (x2 ++ x1). rewrite L2, L1, app_assoc. split; [done|].
    rewrite filter_app, length_app. lia.
  - intros [= _ <-]. destruct (Hm _ _ _ E) as (x1 & L1 & Q1). exists x1. split; [done|]. lia.
Qed.

Lemma counts_one {A} (m : io World A) e :
  (forall w a w', m w = (a, w') -> w_log w' = e :: w_log w) -> counts P 1 m.
Proof.
  intros Hm w a w' E. exists [e]. split; [by eapply Hm|].
  etransitivity; [apply length_filter|done].
Qed.

Lemma counts_weaken {A} n1 n2 (m : io World A) : (n1 <= n2)%nat -> counts P n1 m -> counts P n2 m.
Proof.
  intros Hn Hm w a w' E. destruct (Hm _ _ _ E) as (x & L & Q). exists x. split; [done|]. lia.
Qed.

End Counts.

End OperationFacts.

#[export] Hint Resolve emits_ret emits_get emits_bind emits_try emits_map emits_emit
  emits_syscall emits_remove_dir_all emits_lock_exclusive emits_http_get emits_read_dir
  emits_spawn_blocking keeps_ret keeps_get keeps_bind keeps_try keeps_map keeps_reading
  keeps_read_dir : rust.

(** One step of the walk over a computation built from bind, try and map. *)
Ltac walk_step :=
  match goal with
  | |- emits _ (io_bind _ _) => apply emits_bind; intros
  | |- emits _ (io_try _ _) => apply emits_try; intros
  | |- emits _ (io_map _ _) => apply emits_map
  | |- emits _ (io_ret _) => apply emits_ret
  | |- emits _ (io_get _) => apply emits_get
  | |- keeps (io_bind _ _) => apply keeps_bind; intros
  | |- keeps (io_try _ _) => apply keeps_try; intros
  | |- keeps (io_map _ _) => apply keeps_map
  | |- keeps (io_ret _) => apply keeps_ret
  | |- keeps (io_get _) => apply keeps_get
  | |- emits _ (match ?x with _ => _ end) => destruct x
  | |- keeps (match ?x with _ => _ end) => destruct x
  | |- _ => solve [eauto with rust]
  end.
Ltac walk := repeat walk_step.
