(* ===== verification/Store.v ===== *)
(** * Where managed toolchains live: [store/mod.rs], [store/lock.rs], [blocking/mod.rs]

    Cache roots, staging directories, the install lock and the one-rename
    promotion with its roll-back. *)

From S2P Require Import Prelude RustStd Identity Vocabulary Errors World FsFacts.

Open Scope rust_scope.

Section Store.
Context `{Env}.

(** ** [blocking::run] *)

Definition blocking_run {A} (language : Language) (work : io World (result Error A))
  : io World (result Error A) :=
  joined <-- spawn_blocking work ;;
  match joined with
  | Ok res => io_ret res
  | Err error => io_ret (Err (Install language ("the task did not finish: " +:+ error)))
  end.

(** ** Cache roots *)

Definition cache_root_under (platform_cache : option Path) (configured : option string)
    (language : Language) : Path :=
  match configured with
  | Some configured => Path_new configured
  | None =>
      match platform_cache with
      | Some platform_cache =>
          path_join (path_join platform_cache (Path_new "tinyruntime")) (Path_new (as_str language))
      | None => path_join (Path_new ".tinyruntime") (Path_new (as_str language))
      end
  end.

Definition cache_root (configured : option string) (language : Language) : Path :=
  cache_root_under env_cache_dir configured language.

Definition ensure_root (root : Path) : io World (result Error unit) :=
  io_map (map_err (fun error => Storage (ioe_text error))) (create_dir_all root).

(** ** Staging *)

Definition STAGING_PREFIX : string := ".stage-".

Definition staging_name (pid : N) (uuid : string) : string :=
  STAGING_PREFIX +:+ display_u64 pid +:+ "-" +:+ uuid.

Definition staging_dir (root : Path) : io World Path :=
  io_get (fun w => path_join root (Path_new (staging_name env_pid (env_uuid (w_log w))))).

Definition is_staging (path : Path) : bool :=
  match file_name path with
  | Some name => starts_with STAGING_PREFIX name
  | None => false
  end.

Definition is_inside (root candidate : Path) : io World bool :=
  root <-- canonicalize root ;;
  candidate <-- canonicalize candidate ;;
  match root, candidate with
  | Ok root, Ok candidate => io_ret (path_starts_with candidate root)
  | _, _ => io_ret false
  end.

(** ** Promotion *)

Definition aside_path (destination : Path) : Path :=
  with_extension destination ("replaced-" +:+ display_u64 env_pid).

Definition install_failed (language : Language) (what : string) (error : io_error) : Error :=
  Install language (what +:+ ": " +:+ ioe_text error).

(** Move an existing install out of the way, to where it can be restored from. *)
Definition displace (destination : Path) (language : Language)
  : io World (result Error (option Path)) :=
  found <-- exists_path destination ;;
  if found : bool then
    let aside := aside_path destination in
    _ <-- remove_dir_all aside ;;
    _ <-? io_map
            (map_err (install_failed language "the existing install could not be moved aside"))
            (rename destination aside) ;;
    io_ret (Ok (Some aside))
  else io_ret (Ok None).

(** The last step, once the old install (if any) is out of the way. *)
Definition land (staged destination : Path) (language : Language) (displaced : option Path)
  : io World (result Error unit) :=
  let install_error reason := Install language reason in
  moved <-- rename staged destination ;;
  match moved with
  | Err error =>
      match displaced with
      | Some aside =>
          restored <-- rename aside destination ;;
          match restored with
          | Err restore =>
              io_ret (Err (install_error
                ("the toolchain could not be installed (" +:+ ioe_text error
                 +:+ ") and the previous one could not be restored ("
                 +:+ ioe_text restore +:+ ")")))
          | Ok _ =>
              io_ret (Err (install_error
                ("the unpacked toolchain could not be moved into place: "
                 +:+ ioe_text error)))
          end
      | None =>
          io_ret (Err (install_error
            ("the unpacked toolchain could not be moved into place: " +:+ ioe_text error)))
      end
  | Ok _ =>
      match displaced with
      | Some aside => _ <-- remove_dir_all aside ;; io_ret (Ok tt)
      | None => io_ret (Ok tt)
      end
  end.

Definition promote_blocking (staged destination : Path) (language : Language)
  : io World (result Error unit) :=
  _ <-? match parent destination with
        | Some parent =>
            io_map (map_err (install_failed language "the cache root could not be created"))
              (create_dir_all parent)
        | None => io_ret (Ok tt)
        end ;;
  displaced <-? displace destination language ;;
  land staged destination language displaced.

Definition promote (staged destination : Path) (language : Language)
  : io World (result Error unit) :=
  blocking_run language (promote_blocking staged destination language).

(** Best effort: every failure is only logged. *)
Definition discard (path : Path) : io World unit :=
  _ <-- remove_dir_all path ;; io_ret tt.

(** ** The install lock *)

Definition lock_path (install_dir : Path) : Path := with_extension install_dir "lock".

Definition InstallLock_acquire (install_dir : Path) (language : Language)
  : io World (result Error Path) :=
  let lock_path := lock_path install_dir in
  _ <-? match parent lock_path with
        | Some parent =>
            io_map (map_err (fun error => Storage (ioe_text error))) (create_dir_all parent)
        | None => io_ret (Ok tt)
        end ;;
  blocking_run language
    (_ <-? io_map (map_err (install_failed language "the install lock could not be opened"))
             (open_lock lock_path) ;;
     _ <-? io_map (map_err (install_failed language "the install lock could not be taken"))
             (lock_exclusive lock_path) ;;
     io_ret (Ok lock_path)).

(** Dropping the lock closes the handle, which releases it. *)
Definition InstallLock_drop (lock : Path) : io World unit := emit (EvUnlock lock).

(** ** What a promotion changes *)

Definition same_tree_at (p : Path) (m m' : fs) : Prop :=
  forall rel, m' !! below p rel = m !! below p rel.

(** Everything filed under [a] in [m] is filed under [b] in [m']. *)
Definition moved_tree (a b : Path) (m m' : fs) : Prop :=
  forall rel, m' !! below b rel = m !! below a rel.

Lemma displace_spec d l w r w1 :
  apart d (aside_path d) -> displace d l w = (r, w1) ->
  match r with
  | Ok None => w_fs w1 = w_fs w
  | Ok (Some aside) =>
      aside = aside_path d
      /\ exists m, (forall q, under aside q = false -> m !! q = w_fs w !! q)
                   /\ w_fs w1 = move_tree d aside m
  | Err _ => forall q, under (aside_path d) q = false -> w_fs w1 !! q = w_fs w !! q
  end.
Proof.
  intros Hap. unfold displace, io_bind. destruct (exists_path d w) as [found wa] eqn:E.
  apply exists_path_fs in E as Hfs. destruct found; [|by intros [= <- <-]].
  destruct (remove_dir_all (aside_path d) wa) as [r1 wb] eqn:Er.
  assert (forall q, under (aside_path d) q = false -> w_fs wb !! q = w_fs w !! q) as Hwb.
  { intros q Hq. rewrite (remove_dir_all_frame _ _ _ _ _ Er Hq). by rewrite Hfs. }
  unfold io_try, io_map. destruct (rename d (aside_path d) wb) as [[[]|e] wc] eqn:Em.
  - intros [= <- <-]. split; [done|]. exists (w_fs wb). split; [done|].
    by apply rename_ok.
  - intros [= <- <-]. apply rename_err in Em. cbn. intros q Hq. rewrite Em. auto.
Qed.

Lemma create_parent_frame d e q w r w1 :
  match parent d with
  | Some up => io_map (map_err e) (create_dir_all up)
  | None => io_ret (Ok tt)
  end w = (r : result Error unit, w1) ->
  under q d = false \/ q = d -> same_tree_at q (w_fs w) (w_fs w1).
Proof.
  intros Hr Hq rel. destruct (parent d) as [up|] eqn:Hp; [|by injection Hr as _ <-].
  unfold io_map in Hr. destruct (create_dir_all up w) as [r1 w2] eqn:Ec. injection Hr as _ <-.
  eapply create_dir_all_frame; [exact Ec|]. intros Hin%elem_of_ancestors.
  assert (under q up = true) as Hqu by (eapply under_trans; [apply (under_below q rel)|done]).
  destruct Hq as [Hq| ->]; [|by rewrite (parent_not_under d up) in Hqu].
  rewrite (under_trans q up d) in Hq; [done|done|by apply parent_under].
Qed.

(** The report of a roll-back that failed too. *)
Definition unrestored (l : Language) (e : Error) : Prop :=
  exists why why', e = Install l ("the toolchain could not be installed (" +:+ why
    +:+ ") and the previous one could not be restored (" +:+ why' +:+ ")").

(** What [land] leaves behind, whether or not something was displaced. *)
Lemma land_spec s d l displaced w r w' :
  apart s d -> (forall a, displaced = Some a -> apart s a /\ apart d a) ->
  land s d l displaced w = (r, w') ->
  match r with
  | Ok _ => moved_tree s d (w_fs w) (w_fs w')
  | Err e =>
      same_tree_at s (w_fs w) (w_fs w')
      /\ match displaced with
         | None => same_tree_at d (w_fs w) (w_fs w')
         | Some a => moved_tree a d (w_fs w) (w_fs w')
                     \/ unrestored l e /\ same_tree_at a (w_fs w) (w_fs w')
         end
  end.
Proof.
  intros Hsd Ha. unfold land, io_bind.
  destruct (rename s d w) as [[[]|e] w1] eqn:Em.
  - apply rename_ok in Em; [|done]. destruct displaced as [aside|].
    + destruct (remove_dir_all aside w1) as [r2 w2] eqn:Er. intros [= <- <-] rel.
      destruct (Ha aside eq_refl) as [_ Hda].
      rewrite (remove_dir_all_frame _ _ _ _ _ Er).
      * rewrite Em. by apply move_tree_target.
      * apply (apart_under d); [done|apply under_below].
    + intros [= <- <-] rel. rewrite Em. by apply move_tree_target.
  - apply rename_err in Em. destruct displaced as [aside|].
    + destruct (Ha aside eq_refl) as [Hsa Hda].
      destruct (rename aside d w1) as [[[]|e'] w2] eqn:Er; intros [= <- <-].
      * apply rename_ok in Er; [|by apply apart_sym]. rewrite Em in Er. split.
        -- intros rel. rewrite Er. apply move_tree_elsewhere; [by apply apart_sym| |];
             apply (apart_under s); auto using under_below.
        -- left. intros rel. rewrite Er. apply move_tree_target. by apply apart_sym.
      * apply rename_err in Er. rewrite Em in Er. split; [by intros rel; rewrite Er|].
        right. split; [|by intros rel; rewrite Er]. by exists (ioe_text e), (ioe_text e').
    + intros [= <- <-]. split; intros rel; by rewrite Em.
Qed.

Lemma promote_blocking_spec (s d : Path) (l : Language) (w : World) :
  apart s d -> apart s (aside_path d) -> apart d (aside_path d) ->
  let '(r, w') := promote_blocking s d l w in
  match r with
  | Ok _ => moved_tree s d (w_fs w) (w_fs w')
  | Err e =>
      same_tree_at s (w_fs w) (w_fs w')
      /\ (same_tree_at d (w_fs w) (w_fs w')
          \/ unrestored l e /\ moved_tree d (aside_path d) (w_fs w) (w_fs w'))
  end.
Proof.
  intros Hsd Hsa Hda. destruct (promote_blocking s d l w) as [r w'] eqn:E.
  unfold promote_blocking, io_try in E.
  match type of E with
  | context [match ?m w with _ => _ end] => destruct (m w) as [r0 w0] eqn:Ep
  end.
  assert (same_tree_at s (w_fs w) (w_fs w0)) as Hs0.
  { eapply create_parent_frame; [exact Ep|]. left. apply Hsd. }
  assert (same_tree_at d (w_fs w) (w_fs w0)) as Hd0.
  { eapply create_parent_frame; [exact Ep|]. by right. }
  destruct r0 as [[]|e0]; [|injection E as <- <-; eauto].
  destruct (displace d l w0) as [[[aside|]|e] w1] eqn:Ed; pose proof (displace_spec _ _ _ _ _ Hda Ed) as Hd.
  - destruct Hd as (-> & m & Hm & Hw1).
    assert (forall q, under s q = true -> w_fs w1 !! q = w_fs w0 !! q) as Hs1.
    { intros q Hq. rewrite Hw1, move_tree_elsewhere; [|done| |].
      - apply Hm. by apply (apart_under s).
      - by apply (apart_under s).
      - by apply (apart_under s). }
    assert (moved_tree d (aside_path d) (w_fs w0) (w_fs w1)) as Hd1.
    { intros rel. rewrite Hw1, move_tree_target by done. apply Hm.
      apply (apart_under d); [done|apply under_below]. }
    pose proof (land_spec s d l (Some (aside_path d)) w1 r w' Hsd) as Hl.
    destruct r; specialize (Hl ltac:(intros ? [= <-]; done) E).
    + intros rel. rewrite Hl, Hs1 by apply under_below. apply Hs0.
    + destruct Hl as [Hs Hl]. split; [intros rel; rewrite Hs, Hs1 by apply under_below; apply Hs0|].
      destruct Hl as [Hback|[Hu Hl]].
      * left. intros rel. by rewrite Hback, Hd1, Hd0.
      * right. split; [done|]. intros rel. by rewrite Hl, Hd1, Hd0.
  - pose proof (land_spec s d l None w1 r w' Hsd ltac:(done) E) as Hl. rewrite Hd in Hl.
    destruct r.
    + intros rel. rewrite Hl. apply Hs0.
    + destruct Hl as [Hs Hdd]. split; [intros rel; by rewrite Hs, Hs0|].
      left. intros rel. by rewrite Hdd, Hd0.
  - injection E as <- <-. split; [|left]; intros rel; rewrite Hd;
      try (by apply Hs0); try (by apply Hd0).
    + apply (apart_under s); [done|apply under_below].
    + apply (apart_under d); [done|apply under_below].
Qed.

Lemma promote_spec (s d : Path) (l : Language) (w : World) :
  apart s d -> apart s (aside_path d) -> apart d (aside_path d) ->
  let '(r, w') := promote s d l w in
  match r with
  | Ok _ => moved_tree s d (w_fs w) (w_fs w')
  | Err e =>
      same_tree_at s (w_fs w) (w_fs w')
      /\ (same_tree_at d (w_fs w) (w_fs w')
          \/ unrestored l e /\ moved_tree d (aside_path d) (w_fs w) (w_fs w'))
  end.
Proof.
  intros Hsd Hsa Hda. unfold promote, blocking_run, io_bind, spawn_blocking.
  destruct (env_join_error _); cbn; [split; [done|by left]|].
  pose proof (promote_blocking_spec s d l (MkWorld (w_fs w) (EvBlocking :: w_log w)) Hsd Hsa Hda) as H'.
  by destruct (promote_blocking s d l _).
Qed.

(** A failed upgrade keeps the working toolchain.  Whatever system call fails,
    a promotion that succeeds leaves exactly the unpacked tree at the install
    directory, and one that fails leaves the unpacked tree where it was and the
    previous install in place, or, if even restoring it failed, says so and
    leaves it whole at the path it was moved aside to. *)
Theorem promote_keeps_the_working_toolchain (s d : Path) (l : Language) (w : World) :
  apart s d -> apart s (aside_path d) -> apart d (aside_path d) ->
  let '(r, w') := promote s d l w in
  match r with
  | Ok _ => moved_tree s d (w_fs w) (w_fs w')
  | Err e =>
      same_tree_at s (w_fs w) (w_fs w')
      /\ (same_tree_at d (w_fs w) (w_fs w')
          \/ unrestored l e /\ moved_tree d (aside_path d) (w_fs w) (w_fs w'))
  end.
Proof. apply promote_spec. Qed.

(** The lock an install takes is the lock of everything that could share its
    roll-back directory: within one process, two installs move the old tree aside
    to the same place exactly when they contend for the same lock file. *)
Theorem lock_guards_the_aside_directory (d d' : Path) :
  is_Some (file_name d) -> is_Some (file_name d') ->
  aside_path d = aside_path d' <-> lock_path d = lock_path d'.
Proof. intros. unfold aside_path, lock_path. by rewrite !with_extension_eq. Qed.

End Store.

(** ** The properties at work *)

Section Samples.
(** A system call fails while version 22.11.0 is being replaced by a new build. *)
Let cache : fs :=
  list_to_map [(Path_new "/cache", NDir); (Path_new "/cache/node-22", NDir);
               (Path_new "/cache/node-22/node", NFile "old");
               (Path_new "/cache/stage", NDir); (Path_new "/cache/stage/node-22", NDir);
               (Path_new "/cache/stage/node-22/node", NFile "new")].
Let staged := Path_new "/cache/stage/node-22".
Let target := Path_new "/cache/node-22".

Lemma promote_keeps_the_working_toolchain_witness :
  let E := sample_env [6%nat] (HttpBody []) in
  let out := @promote E staged target Language_nodejs (MkWorld cache []) in
  is_ok out.1 = false
  /\ w_fs out.2 !! Path_new "/cache/node-22/node" = Some (NFile "old")
  /\ (let '(r, w') := out in
      match r with
      | Ok _ => moved_tree staged target cache (w_fs w')
      | Err e =>
          same_tree_at staged cache (w_fs w')
          /\ (same_tree_at target cache (w_fs w')
              \/ unrestored Language_nodejs e
                 /\ moved_tree target (@aside_path E target) cache (w_fs w'))
      end).
Proof.
  split; [vm_compute; reflexivity|]. split; [vm_compute; reflexivity|].
  apply (@promote_keeps_the_working_toolchain (sample_env [6%nat] (HttpBody [])) staged target
           Language_nodejs (MkWorld cache []));
    split; vm_compute; reflexivity.
Defined.

Lemma lock_guards_the_aside_directory_witness :
  let E := sample_env [] (HttpBody []) in
  @aside_path E (Path_new "/cache/node-v22.11.0") = @aside_path E (Path_new "/cache/node-v22.11.1")
  <-> lock_path (Path_new "/cache/node-v22.11.0") = lock_path (Path_new "/cache/node-v22.11.1").
Proof.
  apply (@lock_guards_the_aside_directory (sample_env [] (HttpBody []))); vm_compute; eauto.
Defined.

(** Versions that differ after the last dot share one lock file: the extension is
    replaced, not appended. *)
Example patch_versions_share_a_lock :
  lock_path (Path_new "/cache/node-v22.11.0-linux-x64")
  = lock_path (Path_new "/cache/node-v22.11.1-linux-x64").
Proof. vm_compute. reflexivity. Qed.

End Samples.
