(* ===== verification/Download.v ===== *)
(** * Fetching an archive and proving it is the published one: [download/mod.rs] *)

From S2P Require Import Prelude RustStd Identity Vocabulary Errors World FsFacts.

Open Scope rust_scope.

(** The [sha2] and [hex] crates: an incremental hash over byte strings. *)
Class Sha256 := {
  hasher : Type;
  Sha256_new : hasher;
  Sha256_update : hasher -> string -> hasher;
  Sha256_finalize : hasher -> string;
  hex_encode : string -> string;
  (** the digest of a whole message *)
  sha256 : string -> string
}.

(** What [sha2] documents: hashing chunk by chunk is hashing the concatenation. *)
Class Sha256Law `(Sha256) : Prop :=
  sha256_incremental : forall chunks : list string,
    Sha256_finalize (fold_left Sha256_update chunks Sha256_new)
    = sha256 (String.concat "" chunks).

(** [concat!("tinyruntime/", env!("CARGO_PKG_VERSION"))] and the header's name. *)
Definition USER_AGENT : string * string := ("user-agent", "tinyruntime/0.2.14").

Definition sanitise (error : http_error) : string :=
  if he_timeout error then "the request timed out"
  else if he_connect error then "the connection could not be established"
  else match he_status error with
       | Some status => "the channel answered with status " +:+ status
       | None =>
           if he_body error || he_decode error then "the transfer ended early"
           else "the request failed"
       end.

Definition download_error (language : Language) (error : http_error) : Error :=
  Download language (sanitise error).

Section Download.
Context `{Env} `{Sha256}.

Definition storage {A} (m : io World (result io_error A)) : io World (result Error A) :=
  io_map (map_err (fun error => Storage (ioe_text error))) m.

(** The [while let] over the response's chunks: hash, then write. *)
Fixpoint stream_chunks (target : Path) (language : Language)
    (chunks : list (result http_error string)) (h : hasher)
  : io World (result Error hasher) :=
  match chunks with
  | [] => io_ret (Ok h)
  | Err error :: _ => io_ret (Err (download_error language error))
  | Ok chunk :: rest =>
      _ <-? storage (write_all target chunk) ;;
      stream_chunks target language rest (Sha256_update h chunk)
  end.

Definition stream_to_file (distribution : Distribution) (target : Path) (language : Language)
  : io World (result Error string) :=
  response <-- http_get (di_url distribution) (USER_AGENT :: di_headers distribution) ;;
  match response with
  | HttpFailed error => io_ret (Err (download_error language error))
  | HttpBody chunks =>
      _ <-? storage (create_file target) ;;
      h <-? stream_chunks target language chunks Sha256_new ;;
      _ <-? storage (flush target) ;;
      io_ret (Ok (hex_encode (Sha256_finalize h)))
  end.

(** Best effort: a failure is only logged. *)
Definition remove_partial (target : Path) : io World unit :=
  _ <-- remove_file target ;; io_ret tt.

Definition fetch (distribution : Distribution) (target : Path) (language : Language)
  : io World (result Error unit) :=
  _ <-? match parent target with
        | Some parent => storage (create_dir_all parent)
        | None => io_ret (Ok tt)
        end ;;
  streamed <-- stream_to_file distribution target language ;;
  match streamed with
  | Err error => _ <-- remove_partial target ;; io_ret (Err error)
  | Ok digest =>
      match di_expected_sha256 distribution with
      | Some expected =>
          if negb (eq_ignore_ascii_case expected digest) then
            _ <-- remove_partial target ;; io_ret (Err (DigestMismatch language))
          else io_ret (Ok tt)
      | None => io_ret (Ok tt)
      end
  end.

(** ** What a download writes *)

(** Only the target, and the directories above it. *)
Definition writes_only (target : Path) (m m' : fs) : Prop :=
  forall q, q <> target -> m' !! q = m !! q.

Lemma writes_only_refl t m : writes_only t m m.
Proof. done. Qed.

Lemma writes_only_trans t m1 m2 m3 :
  writes_only t m1 m2 -> writes_only t m2 m3 -> writes_only t m1 m3.
Proof. intros H12 H23 q Hq. by rewrite H23, H12. Qed.

Lemma storage_inv {A} (m : io World (result io_error A)) w r w' :
  storage m w = (r, w') ->
  exists r0, m w = (r0, w') /\ r = map_err (fun error => Storage (ioe_text error)) r0.
Proof. unfold storage, io_map. destruct (m w) as [r0 w0]. intros [= <- <-]. eauto. Qed.

Lemma create_file_writes t w r w' :
  create_file t w = (r, w') -> writes_only t (w_fs w) (w_fs w').
Proof.
  destruct r as [u|e]; intros Hc q Hq.
  - rewrite (create_file_ok _ _ _ _ Hc). by apply lookup_insert_ne.
  - apply syscall_inv in Hc as [_ Hc]. by rewrite Hc.
Qed.

Lemma write_all_writes t b w r w' :
  write_all t b w = (r, w') -> writes_only t (w_fs w) (w_fs w').
Proof.
  destruct r as [u|e]; intros Hc q Hq.
  - apply write_all_ok in Hc as (old & _ & ->). by apply lookup_insert_ne.
  - apply syscall_inv in Hc as [_ Hc]. by rewrite Hc.
Qed.

Lemma stream_chunks_writes t l chunks h w r w' :
  stream_chunks t l chunks h w = (r, w') -> writes_only t (w_fs w) (w_fs w').
Proof.
  revert h w. induction chunks as [|[c|e] rest IH]; intros h w; cbn.
  - by intros [= _ <-].
  - unfold io_try. destruct (storage _ w) as [r1 w1] eqn:E.
    apply storage_inv in E as (r0 & E & ->). apply write_all_writes in E.
    destruct r0; cbn; [|by intros [= _ <-]].
    intros Hr%IH. by eapply writes_only_trans.
  - by intros [= _ <-].
Qed.

Lemma stream_to_file_writes d t l w r w' :
  stream_to_file d t l w = (r, w') -> writes_only t (w_fs w) (w_fs w').
Proof.
  unfold stream_to_file, io_bind, io_try, http_get. destruct (env_http _ _ _); [by intros [= _ <-]|].
  destruct (storage (create_file t) _) as [r1 w1] eqn:E1.
  apply storage_inv in E1 as (r0 & E1 & ->). apply create_file_writes in E1. cbn in E1.
  destruct r0; cbn; [|by intros [= _ <-]].
  destruct (stream_chunks _ _ _ _ w1) as [r2 w2] eqn:E2. apply stream_chunks_writes in E2.
  pose proof (writes_only_trans _ _ _ _ E1 E2) as E12.
  destruct r2; [|by intros [= _ <-]].
  destruct (storage (flush t) w2) as [r3 w3] eqn:E3.
  apply storage_inv in E3 as (r0 & E3 & ->). apply flush_fs in E3.
  destruct r0; cbn; intros [= _ <-]; by rewrite E3.
Qed.

(** Streaming appends the chunks and hashes exactly what it appended. *)
Lemma stream_chunks_ok t l chunks h w h' w' old :
  stream_chunks t l chunks h w = (Ok h', w') -> w_fs w !! t = Some (NFile old) ->
  exists cs, chunks = map Ok cs /\ h' = fold_left Sha256_update cs h
             /\ w_fs w' !! t = Some (NFile (old +:+ String.concat "" cs)).
Proof.
  revert h w old. induction chunks as [|[c|e] rest IH]; intros h w old; cbn; [| |done].
  - intros [= <- <-] Hw. exists []. by rewrite string_app_nil_r.
  - unfold io_try. destruct (storage _ w) as [r1 w1] eqn:E.
    apply storage_inv in E as ([u|e] & E & ->); cbn; [|done].
    apply write_all_ok in E as (old' & Hold & Hw1). intros Hr Hw.
    assert (old' = old) as -> by congruence.
    apply (IH _ _ (old +:+ c)) in Hr as (cs & -> & -> & Hw').
    + exists (c :: cs). split_and!; [done|done|]. rewrite Hw'. f_equal. f_equal.
      by rewrite string_concat_cons, string_app_assoc.
    + rewrite Hw1. apply lookup_insert_eq.
Qed.

Lemma stream_to_file_ok d t l w digest w' :
  stream_to_file d t l w = (Ok digest, w') ->
  exists cs h,
    env_http (EvHttpGet (di_url d) (USER_AGENT :: di_headers d) :: w_log w) (di_url d)
      (USER_AGENT :: di_headers d) = HttpBody (map Ok cs)
    /\ h = fold_left Sha256_update cs Sha256_new
    /\ digest = hex_encode (Sha256_finalize h)
    /\ w_fs w' !! t = Some (NFile (String.concat "" cs)).
Proof.
  unfold stream_to_file, io_bind, io_try, http_get. destruct (env_http _ _ _) as [|chunks]; [done|].
  destruct (storage (create_file t) _) as [r1 w1] eqn:E1.
  apply storage_inv in E1 as ([u|] & E1 & ->); cbn; [|done]. apply create_file_ok in E1.
  destruct (stream_chunks _ _ _ _ w1) as [[h|e] w2] eqn:E2; [|done].
  apply (stream_chunks_ok _ _ _ _ _ _ _ "") in E2 as (cs & -> & -> & Hf).
  2:{ rewrite E1. apply lookup_insert_eq. }
  destruct (storage (flush t) w2) as [r3 w3] eqn:E3.
  apply storage_inv in E3 as ([u3|] & E3 & ->); cbn; [|done]. apply flush_fs in E3.
  intros [= <- <-]. exists cs, (fold_left Sha256_update cs Sha256_new). rewrite E3. eauto.
Qed.

(** After a refusal no file is left at the target unless removing it failed too. *)
Definition removed (target : Path) (w : World) : Prop :=
  (forall bytes, w_fs w !! target <> Some (NFile bytes))
  \/ exists log, w_log w = EvIo (OpRemoveFile target) :: log
                 /\ is_Some (env_fault (w_log w)).

Lemma remove_partial_spec t w u w' :
  remove_partial t w = (u, w') -> removed t w' /\ writes_only t (w_fs w) (w_fs w').
Proof.
  unfold remove_partial, io_bind. destruct (remove_file t w) as [r w1] eqn:E.
  intros [= _ <-]. split.
  2:{ intros q Hq. by eapply remove_file_frame. }
  unfold remove_file, syscall in E. destruct (env_fault _) as [e|] eqn:Ef.
  - injection E as _ <-. right. cbn. rewrite Ef. eauto.
  - left. intros bytes. unfold changing, result_map, remove_leaf in E.
    destruct (w_fs w !! t) as [[|b|q]|] eqn:Hl; injection E as _ <-; cbn;
      rewrite ?lookup_delete_eq; congruence.
Qed.

End Download.

(** ** Properties *)

Section Properties.
Context `{Env} `{Hsha : Sha256} `{!Sha256Law Hsha}.

Lemma fetch_spec (d : Distribution) (t : Path) (l : Language) (w : World) :
  let '(r, w') := fetch d t l w in
  match r with
  | Ok _ =>
      exists log cs,
        env_http log (di_url d) (USER_AGENT :: di_headers d) = HttpBody (map Ok cs)
        /\ w_fs w' !! t = Some (NFile (String.concat "" cs))
        /\ match di_expected_sha256 d with
           | Some expected =>
               eq_ignore_ascii_case expected (hex_encode (sha256 (String.concat "" cs))) = true
           | None => True
           end
  | Err (DigestMismatch _) =>
      exists log cs expected,
        env_http log (di_url d) (USER_AGENT :: di_headers d) = HttpBody (map Ok cs)
        /\ di_expected_sha256 d = Some expected
        /\ eq_ignore_ascii_case expected (hex_encode (sha256 (String.concat "" cs))) = false
  | Err _ => True
  end.
Proof.
  destruct (fetch d t l w) as [r w'] eqn:E. unfold fetch, io_try, io_bind in E.
  match type of E with
  | context [match ?m w with _ => _ end] => destruct (m w) as [r0 w0] eqn:Ep
  end.
  destruct r0 as [[]|e0].
  2:{ injection E as <- _. destruct (parent t); [|done].
      apply storage_inv in Ep as ([[]|] & _ & ?); by simplify_eq/=. }
  destruct (stream_to_file d t l w0) as [[digest|e] w1] eqn:Es.
  - apply stream_to_file_ok in Es as (cs & h & Hhttp & -> & -> & Hf).
    rewrite sha256_incremental in E.
    destruct (di_expected_sha256 d) as [expected|] eqn:Hd.
    + destruct (eq_ignore_ascii_case _ _) eqn:Heq; cbn in E.
      * injection E as <- <-. eauto 10.
      * destruct (remove_partial t w1). injection E as <- _. eauto 10.
    + injection E as <- <-. eauto 10.
  - destruct (remove_partial t w1). injection E as <- _.
    destruct e; try done. exfalso. revert Es. clear.
    unfold stream_to_file, io_bind, io_try, http_get.
    destruct (env_http _ _ _) as [|chunks]; [done|].
    destruct (storage (create_file t) _) as [r1 w1'] eqn:E1.
    apply storage_inv in E1 as ([u|] & _ & ->); cbn; [|done].
    destruct (stream_chunks _ _ _ _ w1') as [[h|e] w2] eqn:E2.
    + destruct (storage (flush t) w2) as [r3 w3] eqn:E3.
      apply storage_inv in E3 as ([u3|] & _ & ->); done.
    + intros [= -> ->]. revert E2. generalize Sha256_new, w1'.
      induction chunks as [|[c|e] rest IH]; cbn; [done| |done].
      intros h wa. unfold io_try. destruct (storage _ wa) as [r4 w4] eqn:E4.
      apply storage_inv in E4 as ([u4|] & _ & ->); cbn; [apply IH|done].
Qed.

(** C35. A download that succeeds leaves at its target exactly the bytes the channel
    sent, and when the channel published a digest, bytes whose SHA-256 is that
    digest; a channel that sent bytes with another digest is refused. *)
Theorem fetch_verified (d : Distribution) (t : Path) (l : Language) (w : World) :
  let '(r, w') := fetch d t l w in
  match r with
  | Ok _ =>
      exists log cs,
        env_http log (di_url d) (USER_AGENT :: di_headers d) = HttpBody (map Ok cs)
        /\ w_fs w' !! t = Some (NFile (String.concat "" cs))
        /\ match di_expected_sha256 d with
           | Some expected =>
               eq_ignore_ascii_case expected (hex_encode (sha256 (String.concat "" cs))) = true
           | None => True
           end
  | Err (DigestMismatch _) =>
      exists log cs expected,
        env_http log (di_url d) (USER_AGENT :: di_headers d) = HttpBody (map Ok cs)
        /\ di_expected_sha256 d = Some expected
        /\ eq_ignore_ascii_case expected (hex_encode (sha256 (String.concat "" cs))) = false
  | Err _ => True
  end.
Proof. apply fetch_spec. Qed.

Lemma fetch_failure_spec (d : Distribution) (t : Path) (l : Language) (w : World) :
  let '(r, w') := fetch d t l w in
  (forall q, q <> t -> under q t = false -> w_fs w' !! q = w_fs w !! q)
  /\ match r with
     | Ok _ => True
     | Err e =>
         removed t w'
         \/ (exists why, e = Storage why) /\ w_fs w' !! t = w_fs w !! t
     end.
Proof.
  destruct (fetch d t l w) as [r w'] eqn:E. unfold fetch, io_try, io_bind in E.
  match type of E with
  | context [match ?m w with _ => _ end] => destruct (m w) as [r0 w0] eqn:Ep
  end.
  assert (forall q, q <> t -> under q t = false -> w_fs w0 !! q = w_fs w !! q) as Hw0.
  { intros q _ Hq. destruct (parent t) as [up|] eqn:Hp; [|by injection Ep as _ <-].
    apply storage_inv in Ep as (r1 & Ep & _). eapply create_dir_all_frame; [exact Ep|].
    by eapply ancestors_parent_outside. }
  destruct r0 as [[]|e0].
  2:{ injection E as <- <-. split; [done|]. right.
      destruct (parent t) as [up|] eqn:Hp; [|by injection Ep].
      apply storage_inv in Ep as ([u|e] & Ep & [= ->]). split; [eauto|].
      apply syscall_inv in Ep as [_ Ep]. by rewrite Ep. }
  destruct (stream_to_file d t l w0) as [r1 w1] eqn:Es.
  pose proof (stream_to_file_writes _ _ _ _ _ _ Es) as Hs.
  assert (forall u w2, remove_partial t w1 = (u, w2) ->
            removed t w2 /\ (forall q, q <> t -> under q t = false -> w_fs w2 !! q = w_fs w !! q))
    as Hrm.
  { intros u w2 [? Hw]%remove_partial_spec. split; [done|]. intros q Hq Hu.
    rewrite Hw, Hs by done. auto. }
  assert (forall q, q <> t -> under q t = false -> w_fs w1 !! q = w_fs w !! q) as Hw1.
  { intros q Hq Hu. rewrite Hs by done. auto. }
  destruct r1 as [digest|e].
  - destruct (di_expected_sha256 d); [|by injection E as <- <-].
    destruct (negb _); [|by injection E as <- <-].
    destruct (remove_partial t w1) as [u w2]. destruct (Hrm _ _ eq_refl).
    injection E as <- <-. eauto.
  - destruct (remove_partial t w1) as [u w2]. destruct (Hrm _ _ eq_refl).
    injection E as <- <-. eauto.
Qed.

(** A download that fails, at whatever step and for whatever reason, leaves no
    file to be mistaken for a verified archive: the target holds none, unless the
    directory could not even be made (then nothing was touched there) or the
    removal itself was refused by the system.  Nothing but the target and the
    directories above it is ever written. *)
Theorem fetch_failure_leaves_nothing (d : Distribution) (t : Path) (l : Language) (w : World) :
  let '(r, w') := fetch d t l w in
  (forall q, q <> t -> under q t = false -> w_fs w' !! q = w_fs w !! q)
  /\ match r with
     | Ok _ => True
     | Err e =>
         removed t w'
         \/ (exists why, e = Storage why) /\ w_fs w' !! t = w_fs w !! t
     end.
Proof. apply fetch_failure_spec. Qed.

End Properties.

(** ** The properties at work *)

(** A stand-in digest for evaluation: the message itself. *)
Definition sample_sha256 : Sha256 := {|
  hasher := string;
  Sha256_new := "";
  Sha256_update := fun h bytes => h +:+ bytes;
  Sha256_finalize := fun h => h;
  hex_encode := fun digest => digest;
  sha256 := fun message => message
|}.

Lemma sample_sha256_law : Sha256Law sample_sha256.
Proof.
  intros chunks.
  assert (forall acc, fold_left (fun h bytes => h +:+ bytes) chunks acc
                      = acc +:+ String.concat "" chunks) as H.
  { induction chunks as [|c cs IH]; intros acc; cbn [fold_left].
    - by rewrite string_app_nil_r.
    - by rewrite IH, string_concat_cons, string_app_assoc. }
  exact (H "").
Qed.

Section Samples.
Let node (digest : string) : Distribution :=
  with_sha256 digest (Distribution_new "22.11.0" "node.tar.gz" "https://x/node.tar.gz" TarGz).
Let answer := HttpBody [Ok "ab"; Ok "cd"].
Let empty := MkWorld (∅ : fs) [].
Let target := Path_new "/cache/node.tar.gz".

(** A digest published in capitals is accepted; the bytes are the chunks. *)
Example fetch_accepts :
  let out := @fetch (sample_env [] answer) sample_sha256 (node "ABCD") target Language_nodejs empty in
  out.1 = Ok tt /\ w_fs out.2 !! target = Some (NFile "abcd").
Proof. vm_compute. done. Qed.

Lemma fetch_verified_witness :
  let out := @fetch (sample_env [] answer) sample_sha256 (node "abcc") target Language_nodejs empty in
  out.1 = Err (DigestMismatch Language_nodejs)
  /\ w_fs out.2 !! target = None
  /\ let '(r, w') := out in
     match r with
     | Ok _ =>
         exists log cs,
           @env_http (sample_env [] answer) log (di_url (node "abcc"))
             (USER_AGENT :: di_headers (node "abcc")) = HttpBody (map Ok cs)
           /\ w_fs w' !! target = Some (NFile (String.concat "" cs))
           /\ match di_expected_sha256 (node "abcc") with
              | Some expected =>
                  eq_ignore_ascii_case expected
                    (@hex_encode sample_sha256 (@sha256 sample_sha256 (String.concat "" cs))) = true
              | None => True
              end
     | Err (DigestMismatch _) =>
         exists log cs expected,
           @env_http (sample_env [] answer) log (di_url (node "abcc"))
             (USER_AGENT :: di_headers (node "abcc")) = HttpBody (map Ok cs)
           /\ di_expected_sha256 (node "abcc") = Some expected
           /\ eq_ignore_ascii_case expected
                (@hex_encode sample_sha256 (@sha256 sample_sha256 (String.concat "" cs))) = false
     | Err _ => True
     end.
Proof.
  split; [vm_compute; reflexivity|]. split; [vm_compute; reflexivity|].
  exact (@fetch_verified (sample_env [] answer) sample_sha256 sample_sha256_law
           (node "abcc") target Language_nodejs empty).
Defined.

End Samples.
