(* ===== verification/Archive.v ===== *)
(** * Unpacking a toolchain archive: [archive/mod.rs], [archive/extract.rs]

    The tar and zip decoders are third-party crates, so they are parameters: what
    a tarball does to the tree below the staging directory, and the entries a zip
    file yields.  The loop over zip entries, the dispatch on the format and the
    search for the single top-level directory are the router's own. *)

From stdpp Require Import sorting.
From S2P Require Import Prelude RustStd Identity Vocabulary Errors World FsFacts Store.

Open Scope rust_scope.

Inductive decoder := GzDecoder | XzDecoder.

(** What the zip crate reports about one entry. *)
Record zip_entry := MkZipEntry {
  (** the stored path, when it stays inside the directory it is joined to *)
  ze_enclosed_name : option Path;
  ze_is_dir : bool;
  ze_unix_mode : option N;
  (** the bytes that could be read, and the failure that ended the reading *)
  ze_bytes : string;
  ze_failure : option io_error
}.

Class Unpackers := {
  (** [tar::Archive::unpack] over a decoded stream *)
  tar_unpack : decoder -> string -> Path -> fs -> result io_error unit * fs;
  (** [zip::ZipArchive::new], then [by_index] for each index *)
  zip_open : string -> result string (list (result string zip_entry))
}.

(** What the two crates document. An enclosed name is relative and climbs nowhere; it is
    only a name, and says nothing of where the entry ends up. *)
Class ZipLaws `(Unpackers) : Prop := {
  enclosed_name_confined bytes entries entry p :
    zip_open bytes = Ok entries -> Ok entry ∈ entries -> ze_enclosed_name entry = Some p ->
    p_root p = false /\ ".." ∉ p_names p
}.

(** Unpacking a tarball never writes outside the directory it is given. *)
Class TarLaws `(Unpackers) : Prop := {
  tar_unpack_confined dec bytes staging m r m' :
    tar_unpack dec bytes staging m = (r, m') ->
    forall q, under staging q = false -> m' !! q = m !! q
}.

Class UnpackersLaws `(Hun : Unpackers) : Prop := {
  #[global] unpackers_zip :: ZipLaws Hun;
  #[global] unpackers_tar :: TarLaws Hun
}.

Section Archive.
Context `{Env} `{Unpackers}.

Definition install_error (language : Language) (error : io_error) : Error :=
  Install language (ioe_text error).

Definition zip_io_error (error : string) : io_error := MkIoError OtherIo error.

Definition unpack_tar (dec : decoder) (archive : Path) (bytes : string) (staging_dir : Path)
  : io World (result io_error unit) :=
  fun w =>
    let '(r, m) := tar_unpack dec bytes staging_dir (w_fs w) in
    (r, MkWorld m (EvUnpack archive staging_dir :: w_log w)).

Definition tar_gz (archive staging_dir : Path) : io World (result io_error unit) :=
  file <-? open_file archive ;; unpack_tar GzDecoder archive file staging_dir.

Definition tar_xz (archive staging_dir : Path) : io World (result io_error unit) :=
  file <-? open_file archive ;; unpack_tar XzDecoder archive file staging_dir.

(** [io::copy] to the file that was opened: whatever could be read is written before the
    failure is reported. *)
Definition io_copy (entry : zip_entry) (out : Path) : io World (result io_error unit) :=
  _ <-? write_all out (ze_bytes entry) ;;
  io_ret (match ze_failure entry with Some e => Err e | None => Ok tt end).

(** The body of the loop, for one entry: every call on its destination follows links. *)
Definition zip_entry_unpack (staging_dir : Path) (entry : zip_entry)
  : io World (result io_error unit) :=
  match ze_enclosed_name entry with
  | None => io_ret (Ok tt)
  | Some relative =>
      let destination := path_join staging_dir relative in
      _ <-? (if ze_is_dir entry then create_dir_all_through destination
             else
               _ <-? match parent destination with
                     | Some parent => create_dir_all_through parent
                     | None => io_ret (Ok tt)
                     end ;;
               out <-? create_file_through destination ;;
               io_copy entry out) ;;
      match ze_unix_mode entry with
      | Some mode => set_permissions destination mode
      | None => io_ret (Ok tt)
      end
  end.

Fixpoint zip_entries (staging_dir : Path) (entries : list (result string zip_entry))
  : io World (result io_error unit) :=
  match entries with
  | [] => io_ret (Ok tt)
  | Err error :: _ => io_ret (Err (zip_io_error error))
  | Ok entry :: rest =>
      _ <-? zip_entry_unpack staging_dir entry ;; zip_entries staging_dir rest
  end.

Definition zip (archive staging_dir : Path) : io World (result io_error unit) :=
  file <-? open_file archive ;;
  match zip_open file with
  | Err error => io_ret (Err (zip_io_error error))
  | Ok entries => zip_entries staging_dir entries
  end.

(** The directories among the entries; the first unreadable entry ends the listing. *)
Fixpoint directories_of (entries : list (result io_error (Path * result io_error node)))
  : result string (list Path) :=
  match entries with
  | [] => Ok []
  | Err error :: _ => Err ("an unpacked entry could not be read: " +:+ ioe_text error)
  | Ok (path, kind) :: rest =>
      result_map (fun found => match kind with Ok NDir => path :: found | _ => found end)
        (directories_of rest)
  end.

Definition single_root (staging_dir : Path) : io World (result string Path) :=
  entries <-- read_dir staging_dir ;;
  io_ret
    (entries <-! map_err
                   (fun error => "the unpacked directory could not be listed: " +:+ ioe_text error)
                   entries ;;
     directories <-! directories_of entries ;;
     match path_sort directories with
     | [directory] => Ok directory
     | [] => Err "the archive expanded into no directory at all"
     | found =>
         Err ("the archive expanded into " +:+ display_u64 (N.of_nat (length found))
              +:+ " directories, not one")
     end).

Definition extract (archive staging_dir : Path) (format : ArchiveFormat) (language : Language)
  : io World (result Error Path) :=
  blocking_run language
    (_ <-? io_map (map_err (install_error language)) (create_dir_all staging_dir) ;;
     _ <-? io_map (map_err (install_error language))
             (match format with
              | TarGz => tar_gz archive staging_dir
              | TarXz => tar_xz archive staging_dir
              | Zip => zip archive staging_dir
              end) ;;
     io_map (map_err (fun reason => Install language reason)) (single_root staging_dir)).

(** ** Confinement *)

(** [p] lies inside [s] without climbing out of it. *)
Definition safely_below (s p : Path) : Prop := exists rel, p = below s rel /\ ".." ∉ rel.

(** What an unpacking may do: files, contents and modes only inside the staging
    directory; directories only inside it or on the way to it. *)
Definition event_confined (s : Path) (e : event) : Prop :=
  match e with
  | EvIo (OpCreate p) | EvIo (OpWrite p _) | EvIo (OpSetPermissions p _) => safely_below s p
  | EvIo (OpCreateDirAll p) => safely_below s p \/ under p s = true
  | EvIo (OpRemoveDirAll _ | OpRemoveFile _ | OpRename _ _) | EvHttpGet _ _ | EvProvider _ _ => False
  | EvUnpack _ p => p = s
  | _ => True
  end.

Definition outside_unchanged (s : Path) (m m' : fs) : Prop :=
  forall q, under s q = false -> m' !! q = m !! q.

Definition confined (s : Path) (w w' : World) : Prop :=
  outside_unchanged s (w_fs w) (w_fs w')
  /\ exists new, w_log w' = new ++ w_log w /\ Forall (event_confined s) new.

Lemma confined_refl s w : confined s w w.
Proof. split; [done|]. by exists []. Qed.

Lemma confined_trans s w1 w2 w3 : confined s w1 w2 -> confined s w2 w3 -> confined s w1 w3.
Proof.
  intros [H12 (n1 & L1 & F1)] [H23 (n2 & L2 & F2)]. split.
  - intros q Hq. by rewrite H23, H12.
  - exists (n2 ++ n1). rewrite L2, L1, app_assoc. split; [done|]. by apply Forall_app.
Qed.

(** What lies above the staging directory is already there. *)
Definition grounded (s : Path) (m : fs) : Prop :=
  forall q, q ∈ ancestors s -> under s q = false -> is_Some (m !! q).

Lemma grounded_confined s m m' : grounded s m -> outside_unchanged s m m' -> grounded s m'.
Proof. intros Hg Ho q Hq Hu. rewrite (Ho q Hu). by apply Hg. Qed.

(** Every path in the staging directory, and every path to it, is what it says: no link
    is on the way, or inside. *)
Definition unlinked (s : Path) (m : fs) : Prop :=
  (".." ∉ p_names s) /\ forall q t, under s q = true \/ q ∈ ancestors s -> m !! q <> Some (NLink t).

(** A path an entry's unpacking works on. *)
Definition in_place (s p : Path) : Prop := safely_below s p \/ (under p s = true /\ ".." ∉ p_names s).

Lemma safely_below_under s p : safely_below s p -> under s p = true.
Proof. intros (rel & -> & _). apply under_below. Qed.

Lemma in_place_ancestors s p q : in_place s p -> q ∈ ancestors p -> under s q = true \/ q ∈ ancestors s.
Proof.
  intros [Hp|[Hp _]] Hq.
  - destruct (under s q) eqn:Hs; [by left|right].
    eapply ancestors_of_under; [done| |done]. by apply safely_below_under.
  - right. apply under_spec in Hp as [rel ->]. revert Hq. rewrite !elem_of_ancestors_take. cbn.
    intros (n & -> & Hn). exists n. rewrite length_app, take_app_le by lia. split; [done|lia].
Qed.

(** Nothing there is looked up through a link. *)
Lemma unlinked_real s m p : unlinked s m -> in_place s p -> real m p.
Proof.
  intros [Hd Hl] Hp. split.
  - destruct Hp as [(rel & -> & Hrel)|[Hp _]].
    + cbn. intros [|]%elem_of_app; done.
    + apply under_spec in Hp as [rel ->]. cbn in Hd. intros Hin. apply Hd, elem_of_app. by left.
  - intros q t Hq. apply Hl. by eapply in_place_ancestors.
Qed.

(** One step of an unpacking, in Hoare style. *)
Definition stays {A} (s : Path) (m : io World A) : Prop :=
  forall w r w', grounded s (w_fs w) -> unlinked s (w_fs w) -> m w = (r, w') ->
    confined s w w' /\ unlinked s (w_fs w').

Lemma stays_ret {A} s (a : A) : stays s (io_ret a).
Proof. intros w r w' _ Hu [= _ <-]. split; [apply confined_refl|done]. Qed.

(** What a first step leaves, the second works on. *)
Lemma stays_first {X A B} s (m : io World (result X A)) (k : A -> io World (result X B)) (P : A -> Prop) :
  (forall w r w', grounded s (w_fs w) -> unlinked s (w_fs w) -> m w = (r, w') ->
     (confined s w w' /\ unlinked s (w_fs w')) /\ forall a, r = Ok a -> P a) ->
  (forall a, P a -> stays s (k a)) -> stays s (io_try m k).
Proof.
  intros Hm Hk w r w' Hg Hu. unfold io_try. destruct (m w) as [r1 w1] eqn:Em.
  destruct (Hm _ _ _ Hg Hu Em) as [[H1 Hu1] HP]. destruct r1 as [a|e]; [|by intros [= _ <-]].
  intros Hr. destruct (Hk a (HP a eq_refl) w1 r w') as [H2 Hu2]; [|done..|].
  - eapply grounded_confined; [done|apply H1].
  - split; [by eapply confined_trans|done].
Qed.

Lemma stays_try {X A B} s (m : io World (result X A)) (k : A -> io World (result X B)) :
  stays s m -> (forall a, stays s (k a)) -> stays s (io_try m k).
Proof.
  intros Hm Hk. apply (stays_first _ _ _ (fun _ => True)); [|by intros a _].
  intros w r w' Hg Hu E. split; [by eapply Hm|done].
Qed.

(** No link appears. *)
Definition adds_no_link (m m' : fs) : Prop := forall q t, m' !! q = Some (NLink t) -> m !! q = Some (NLink t).

Lemma unlinked_kept s m m' : adds_no_link m m' -> unlinked s m -> unlinked s m'.
Proof. intros Ha [Hd Hl]. split; [done|]. intros q t Hq Hm%Ha. by apply (Hl q t). Qed.

Lemma unchanged_stays s (m : fs) : outside_unchanged s m m /\ adds_no_link m m.
Proof. split; [by intros ?|by intros ? ?]. Qed.

Lemma stays_syscall {A} s op (act : fs -> result io_error (A * fs)) :
  event_confined s (EvIo op) ->
  (forall m a m', grounded s m -> unlinked s m -> act m = Ok (a, m') ->
     outside_unchanged s m m' /\ adds_no_link m m') ->
  stays s (syscall op act).
Proof.
  intros Hop Hact w r w' Hg Hu Hs. apply syscall_inv in Hs as [Hlog Hr].
  assert (outside_unchanged s (w_fs w) (w_fs w') /\ adds_no_link (w_fs w) (w_fs w')) as [Ho Ha].
  { destruct r; [by eapply Hact|]. rewrite Hr. apply unchanged_stays. }
  split; [|by eapply unlinked_kept]. split; [done|]. exists [EvIo op]. rewrite Hlog. split; [done|]. by constructor.
Qed.

Lemma stays_reading {A} s op (act : fs -> result io_error A) :
  event_confined s (EvIo op) -> stays s (syscall op (reading act)).
Proof.
  intros Hop. apply stays_syscall; [done|]. intros m a m' _ _. unfold reading, result_map.
  destruct (act m); [|done]. intros [= _ <-]. apply unchanged_stays.
Qed.

(** Writing a file inside. *)
Lemma leaf_stays s (m : fs) p b :
  safely_below s p -> outside_unchanged s m (<[p := NFile b]> m) /\ adds_no_link m (<[p := NFile b]> m).
Proof.
  intros Hp%safely_below_under. split.
  - intros q Hq. apply lookup_insert_ne. congruence.
  - intros q t. destruct (decide (p = q)) as [->|Hne]; [by rewrite lookup_insert_eq|by rewrite lookup_insert_ne].
Qed.

Lemma stays_create_dir_all_through s p : in_place s p -> stays s (create_dir_all_through p).
Proof.
  intros Hp. apply stays_syscall; [destruct Hp as [|[]]; first [by left|by right]|]. intros m a m' Hg Hu Hm.
  unfold changing, result_map in Hm. destruct (make_dirs_through _ _) as [m1|] eqn:E; [|done].
  injection Hm as _ ->. apply make_dirs_through_real in E.
  - split.
    + intros q Hq. destruct (E q) as [?|(Hin & Hnone & _)]; [done|].
      destruct (in_place_ancestors _ _ _ Hp Hin) as [?|Hs]; [congruence|].
      destruct (Hg q Hs Hq) as [n Hn]. congruence.
    + intros q t Hq. by destruct (E q) as [<-|(_ & _ & ?)]; [|congruence].
  - intros q Hq. destruct (unlinked_real _ _ _ Hu Hp) as [Hd Hl]. split.
    + apply elem_of_ancestors, under_spec in Hq as [rel ->]. cbn in Hd.
      intros Hin. apply Hd, elem_of_app. by left.
    + intros q' t Hq'. apply Hl. revert Hq Hq'. rewrite !elem_of_ancestors_take.
      intros (n & -> & Hn) (k & -> & Hk). cbn in *. rewrite take_take, length_take in *.
      exists (k `min` n)%nat. split; [done|lia].
Qed.

(** What is opened is what was named. *)
Lemma create_file_through_stays s p w r w' :
  safely_below s p -> grounded s (w_fs w) -> unlinked s (w_fs w) -> create_file_through p w = (r, w') ->
  (confined s w w' /\ unlinked s (w_fs w')) /\ forall out, r = Ok out -> safely_below s out.
Proof.
  intros Hp Hg Hu E.
  assert (forall m out m', unlinked s m -> create_leaf_through p m = Ok (out, m') ->
            out = p /\ m' = <[p := NFile ""]> m) as Hact.
  { intros m out m' Hum. unfold create_leaf_through.
    destruct (open_target _ _ _) as [file|] eqn:Ho; [|done].
    apply open_target_real in Ho as ->; [|eapply unlinked_real; [done|by left]].
    by destruct (m !! p) as [[]|]; intros [= <- <-]. }
  split.
  - eapply (stays_syscall s (OpCreate p)); [exact Hp| |exact Hg|exact Hu|exact E].
    intros m out m' _ Hum Hm. destruct (Hact m out m' Hum Hm) as [_ ->]. by apply leaf_stays.
  - intros out ->. apply syscall_inv in E as [_ E]. by destruct (Hact _ _ _ Hu E) as [-> _].
Qed.

Lemma stays_write_all s p b : safely_below s p -> stays s (write_all p b).
Proof.
  intros Hp. apply stays_syscall; [done|]. intros m a m' _ _. unfold changing, result_map, append_leaf.
  destruct (m !! p) as [[]|]; intros [= _ <-]. by apply leaf_stays.
Qed.

Lemma stays_zip_entry s entry :
  (".." ∉ p_names s) ->
  (forall p, ze_enclosed_name entry = Some p -> p_root p = false /\ ".." ∉ p_names p) ->
  stays s (zip_entry_unpack s entry).
Proof.
  intros Hs He. unfold zip_entry_unpack. destruct (ze_enclosed_name entry) as [rel|]; [|apply stays_ret].
  destruct (He rel eq_refl) as [Hroot Hnames].
  destruct (path_join_below s rel Hroot) as (names & Hd & Hsub).
  assert (safely_below s (path_join s rel)) as Hsafe by (exists names; split; [done|eauto]).
  apply stays_try; [destruct (ze_is_dir entry)|intros _].
  - apply stays_create_dir_all_through. by left.
  - apply stays_try; [|intros _].
    + destruct (parent (path_join s rel)) as [up|] eqn:Hup; [|apply stays_ret].
      apply stays_create_dir_all_through. destruct (under up s) eqn:Hus; [by right|left].
      rewrite Hd in Hup. destruct names as [|x l _] using rev_ind.
      { unfold below in Hup. rewrite app_nil_r, path_eta in Hup.
        apply parent_under in Hup. congruence. }
      apply parent_names in Hup as [y Hy]. unfold below in Hy. injection Hy as Hr Hn.
      rewrite app_assoc in Hn. apply app_inj_tail in Hn as [Hn _]. exists l. split.
      * unfold below. rewrite Hr, Hn. by rewrite path_eta.
      * intros Hin. apply Hnames, Hsub. apply elem_of_app. by left.
    + apply (stays_first _ _ _ (safely_below s)).
      * intros w r w' Hg Hu E. by apply (create_file_through_stays _ _ _ _ _ Hsafe Hg Hu E).
      * intros out Hout. unfold io_copy. apply stays_try; [by apply stays_write_all|]. intros _. apply stays_ret.
  - destruct (ze_unix_mode entry); [|apply stays_ret]. by apply stays_reading.
Qed.

Lemma stays_zip_entries s entries :
  (".." ∉ p_names s) ->
  (forall entry p, Ok entry ∈ entries -> ze_enclosed_name entry = Some p ->
                   p_root p = false /\ ".." ∉ p_names p) ->
  stays s (zip_entries s entries).
Proof.
  intros Hs. induction entries as [|[entry|e] rest IH]; intros He; cbn; [apply stays_ret| |apply stays_ret].
  apply stays_try.
  - apply stays_zip_entry; [done|]. intros q. apply He. left.
  - intros _. apply IH. intros entry' q Hin. apply He. by right.
Qed.

Lemma read_dir_inv p w r w' :
  read_dir p w = (r, w') ->
  w_fs w' = w_fs w /\ w_log w' = EvIo (OpReadDir p) :: w_log w
  /\ match r with
     | Ok listed => exists found, entries_of p (w_fs w) = Ok found /\ listed = listing (w_log w') found
     | Err _ => True
     end.
Proof.
  unfold read_dir. destruct (syscall _ _ w) as [r1 w1] eqn:E. intros [= <- <-].
  pose proof (syscall_reading_fs _ _ _ _ _ E) as Hfs. apply syscall_inv in E as [Hlog Hr].
  split_and!; [done|done|]. destruct r1 as [found|]; [|done]. cbn. exists found.
  unfold reading, result_map in Hr. destruct (entries_of p (w_fs w)); by simplify_eq.
Qed.

Lemma single_root_confined s w r w' : single_root s w = (r, w') -> confined s w w' /\ w_fs w' = w_fs w.
Proof.
  unfold single_root, io_bind. destruct (read_dir s w) as [r1 w1] eqn:E.
  intros [= _ <-]. apply read_dir_inv in E as (Hfs & Hlog & _). split; [split|done].
  - intros q _. by rewrite Hfs.
  - exists [EvIo (OpReadDir s)]. split; [done|by constructor].
Qed.

(** *** The listing and its directories *)

Lemma elem_of_listing log found q n :
  Ok (q, Ok n) ∈ listing log found <->
  (q, n) ∈ found /\ env_entry_fault log q = None /\ env_type_fault log q = None.
Proof.
  unfold listing. rewrite list_elem_of_fmap. split.
  - intros ([q' n'] & Heq & Hin). rewrite merge_sort_Permutation in Hin.
    destruct (env_entry_fault log q') eqn:E1; [done|].
    destruct (env_type_fault log q') eqn:E2; simplify_eq. done.
  - intros (Hin & E1 & E2). exists (q, n). rewrite E1, E2. split; [done|].
    by rewrite merge_sort_Permutation.
Qed.

Lemma directories_of_ok entries ds :
  directories_of entries = Ok ds ->
  (forall p, p ∈ ds <-> Ok (p, Ok NDir) ∈ entries) /\ (forall e, Err e ∉ entries).
Proof.
  revert ds. induction entries as [|[[q k]|e] rest IH]; intros ds; cbn; [| |done].
  - intros [= <-]. split; [intros p; by rewrite !elem_of_nil|intros e; by intros ?%elem_of_nil].
  - destruct (directories_of rest) as [found|]; [|done]. cbn. intros [= <-].
    destruct (IH found eq_refl) as [Hin Hno]. split.
    + intros p. rewrite elem_of_cons. destruct k as [[| |]|]; rewrite ?elem_of_cons, ?Hin;
        split; intros; destruct_or?; simplify_eq; auto.
    + intros e. rewrite elem_of_cons. intros [|]; [done|by eapply Hno].
Qed.

Lemma directories_nodup log found ds :
  NoDup found.*1 ->
  directories_of
    (map (fun '(p, n) =>
       match env_entry_fault log p with
       | Some e => Err e
       | None => Ok (p, match env_type_fault log p with Some e => Err e | None => Ok n end)
       end) found) = Ok ds ->
  NoDup ds /\ forall p, p ∈ ds -> p ∈ found.*1.
Proof.
  revert ds. induction found as [|[q n] found IH]; intros ds; cbn.
  { intros _ [= <-]. split; [constructor|]. by intros p ?%elem_of_nil. }
  intros [Hq Hnd]%NoDup_cons. destruct (env_entry_fault log q); cbn; [done|].
  destruct (directories_of _) as [ds'|]; [|done]. cbn. destruct (IH ds' Hnd eq_refl) as [Hd Hin].
  destruct (env_type_fault log q), n; intros [= <-]; split; try done;
    try (intros p Hp; apply elem_of_cons; by eauto).
  - constructor; [|done]. intros Hq'. by apply Hq, Hin.
  - intros p [->|Hp]%elem_of_cons; apply elem_of_cons; auto.
Qed.

(** What the search sees, when the staging directory is a real one. *)
Lemma directories_seen s m log found ds :
  canonical m s = Some s -> entries_of s m = Ok found ->
  directories_of (listing log found) = Ok ds ->
  NoDup ds
  /\ (forall q, q ∈ ds -> exists name, q = below s [name] /\ m !! q = Some NDir)
  /\ (forall name, m !! below s [name] = Some NDir ->
        below s [name] ∈ ds \/ is_Some (env_type_fault log (below s [name]))).
Proof.
  intros Hcan Hfound Hd. destruct (directories_of_ok _ _ Hd) as [Hds Hno]. split_and!.
  - unfold listing in Hd. eapply directories_nodup; [|exact Hd].
    rewrite merge_sort_Permutation. by eapply entries_nodup.
  - intros q [Hq _]%Hds%elem_of_listing.
    apply (elem_of_entries _ _ _ _ _ _ Hfound Hcan) in Hq as (name & -> & ?). eauto.
  - intros name Hname. destruct (env_type_fault log (below s [name])) eqn:Ht; [by eauto|left].
    apply Hds, elem_of_listing. split_and!; [| |done].
    + apply (elem_of_entries _ _ _ _ _ _ Hfound Hcan). eauto.
    + destruct (env_entry_fault log (below s [name])) as [e|] eqn:He; [|done].
      exfalso. apply (Hno e). unfold listing. apply list_elem_of_fmap.
      exists (below s [name], NDir). rewrite He. split; [done|].
      rewrite merge_sort_Permutation. apply (elem_of_entries _ _ _ _ _ _ Hfound Hcan). eauto.
Qed.

(** The directory found is an entry of the staging directory. *)
Lemma single_root_inside s w p w' :
  single_root s w = (Ok p, w') -> exists name, p = below s [name].
Proof.
  unfold single_root, io_bind. destruct (read_dir s w) as [r w1] eqn:Er.
  apply read_dir_inv in Er as (_ & _ & Hr). intros [= Hp _].
  destruct r as [listed|]; [|done]. destruct Hr as (found & Hf & ->). cbn in Hp.
  destruct (directories_of _) as [ds|] eqn:Hd; [|done]. cbn in Hp.
  assert (p ∈ ds) as Hin.
  { apply elem_of_path_sort. destruct (path_sort ds) as [|q [|]]; simplify_eq. left. }
  apply (directories_of_ok _ _ Hd), elem_of_listing in Hin. destruct Hin as [Hin _].
  destruct (canonical (w_fs w) s) as [real|] eqn:Hreal.
  2:{ unfold entries_of in Hf. rewrite Hreal in Hf. by destruct (is_dir_following _ _). }
  apply (elem_of_entries _ _ _ _ _ _ Hf Hreal) in Hin. destruct Hin as (name & Hin & _). eauto.
Qed.

Lemma extract_inside a s f l w p w' :
  extract a s f l w = (Ok p, w') -> exists name, p = below s [name].
Proof.
  unfold extract, blocking_run, io_bind, spawn_blocking. destruct (env_join_error _); [done|].
  match goal with
  | |- context [io_try ?m ?k ?w0] => destruct (io_try m k w0) as [[q|e] w1] eqn:E1
  end; [|done].
  intros [= -> ->]. apply io_try_inv_ok in E1 as (u & w2 & _ & E1).
  apply io_try_inv_ok in E1 as (u2 & w3 & _ & E1). unfold io_map in E1.
  destruct (single_root s w3) as [[q|] w4] eqn:Es; [|done]. injection E1 as <- <-.
  by eapply single_root_inside.
Qed.

End Archive.

(** ** Properties *)

Section Properties.
Context `{Env} `{Hun : Unpackers}.

(** What unpacking one format does. *)
Definition unpack (f : ArchiveFormat) (archive s : Path) : io World (result io_error unit) :=
  match f with
  | TarGz => tar_gz archive s
  | TarXz => tar_xz archive s
  | Zip => zip archive s
  end.

(** What an extraction may leave, and record. *)
Definition extraction_confined (s : Path) (w w' : World) : Prop :=
  (forall q, under s q = false ->
     w_fs w' !! q = w_fs w !! q
     \/ (q ∈ ancestors s) /\ w_fs w !! q = None /\ w_fs w' !! q = Some NDir)
  /\ exists new, w_log w' = new ++ w_log w
     /\ Forall (fun e => event_confined s e \/ e = EvIo (OpCreateDirAll s)) new.

Lemma make_staging s w r w1 :
  create_dir_all s w = (r, w1) ->
  (forall q, w_fs w1 !! q = w_fs w !! q
     \/ (q ∈ ancestors s) /\ w_fs w !! q = None /\ w_fs w1 !! q = Some NDir)
  /\ w_log w1 = EvIo (OpCreateDirAll s) :: w_log w
  /\ (is_ok r = true -> grounded s (w_fs w1)).
Proof.
  intros Ec. split; [|split; [by apply syscall_inv in Ec as [-> _]|]].
  - intros q. destruct (w_fs w !! q) as [n|] eqn:Hq; [left; by eapply create_dir_all_keeps|].
    destruct (create_dir_all_new _ _ _ _ _ Ec Hq) as [?|?]; [by left|].
    destruct (decide (q ∈ ancestors s)) as [|Hn]; [by right|left].
    apply (create_dir_all_frame _ _ _ _ _ Ec) in Hn. congruence.
  - destruct r; [intros _|done]. intros q Hq Hu. apply (create_dir_all_present _ _ _ _ _ Ec) in Hq as Hn.
    unfold node_at in Hn. destruct (p_names q) eqn:Hnames; [|done].
    apply elem_of_ancestors_take in Hq as (n & -> & Hle). cbn in Hnames.
    destruct (p_names s); [cbn in Hle; lia|]. by destruct n; [lia|].
Qed.

(** An extraction is confined when its unpacking is, and adds no link when it does not. *)
Lemma extract_around (archive s : Path) (f : ArchiveFormat) (l : Language) (w : World) (P : fs -> Prop) :
  P (w_fs w) -> (forall m m', adds_dirs (ancestors s) m m' -> P m -> P m') ->
  (forall w1 r w2, grounded s (w_fs w1) -> P (w_fs w1) -> unpack f archive s w1 = (r, w2) ->
     confined s w1 w2 /\ P (w_fs w2)) ->
  let '(_, w') := extract archive s f l w in extraction_confined s w w' /\ P (w_fs w').
Proof.
  intros HP Hmade Hunpack. destruct (extract archive s f l w) as [r w'] eqn:E.
  unfold extract, blocking_run, io_bind, spawn_blocking in E.
  destruct (env_join_error _) as [e|].
  { injection E as _ <-. split; [|done]. split; [by left|]. exists [EvBlocking]. split; [done|].
    by constructor; [left|]. }
  fold (unpack f archive s) in E. unfold io_try, io_map in E.
  destruct (create_dir_all s _) as [r1 w1] eqn:Ec.
  apply make_staging in Ec as (Hfs & Hlog & Hg). cbn in Hfs, Hlog.
  assert (P (w_fs w1)) as HP1 by by eapply Hmade.
  assert (Forall (fun e => event_confined s e \/ e = EvIo (OpCreateDirAll s))
            [EvIo (OpCreateDirAll s); EvBlocking]) as Hnew.
  { constructor; [by right|]. by constructor; [left|]. }
  destruct r1 as [[]|e]; cbn in E.
  2:{ injection E as _ <-. split; [|done]. split; [intros q _; apply Hfs|].
      exists [EvIo (OpCreateDirAll s); EvBlocking]. by rewrite Hlog. }
  destruct (unpack f archive s w1) as [r2 w2] eqn:E2.
  destruct (Hunpack _ _ _ (Hg eq_refl) HP1 E2) as [H12 HP2].
  assert (confined s w1 w' /\ P (w_fs w')) as [[Ho (new & Hl & Hf)] HP'].
  { destruct r2 as [[]|e]; cbn in E; [|by injection E as _ <-].
    destruct (single_root s w2) as [r3 w3] eqn:E3. apply single_root_confined in E3 as [H23 Hsame].
    assert (w' = w3) as -> by (destruct r3; by injection E).
    split; [by eapply confined_trans|by rewrite Hsame]. }
  split; [|done]. split.
  - intros q Hq. rewrite (Ho q Hq). apply Hfs.
  - exists (new ++ [EvIo (OpCreateDirAll s); EvBlocking]). rewrite Hl, Hlog, <- app_assoc.
    split; [done|]. apply Forall_app. split; [|done]. eapply Forall_impl; [done|]. by left.
Qed.

Lemma adds_dirs_no_link ps m m' : adds_dirs ps m m' -> adds_no_link m m'.
Proof. intros Ha q t Hq. by destruct (Ha q) as [<-|(_ & _ & ?)]; [|congruence]. Qed.

Lemma zip_stays `{!ZipLaws Hun} archive s : (".." ∉ p_names s) -> stays s (zip archive s).
Proof.
  intros Hs. unfold zip. apply stays_try; [by apply stays_reading|]. intros bytes.
  destruct (zip_open bytes) as [entries|e] eqn:Ez; [|apply stays_ret].
  apply stays_zip_entries; [done|]. intros entry p. by eapply enclosed_name_confined.
Qed.

Lemma zip_extract_spec `{!ZipLaws Hun} (archive s : Path) (l : Language) (w : World) :
  unlinked s (w_fs w) ->
  let '(_, w') := extract archive s Zip l w in extraction_confined s w w' /\ unlinked s (w_fs w').
Proof.
  intros Hu. apply extract_around; [done|..].
  - intros m m' Ha. apply unlinked_kept. by eapply adds_dirs_no_link.
  - intros w1 r w2 Hg Hu1 E. eapply zip_stays; [apply Hu|done..].
Qed.

(** Every format, with what is documented of the tarballs. *)
Lemma extract_spec `{!UnpackersLaws Hun} (archive s : Path) (f : ArchiveFormat) (l : Language) (w : World) :
  unlinked s (w_fs w) ->
  let '(_, w') := extract archive s f l w in extraction_confined s w w'.
Proof.
  intros Hu.
  assert (f <> Zip -> let '(_, w') := extract archive s f l w in extraction_confined s w w' /\ True) as Htar.
  { intros Hf. apply (extract_around _ _ _ _ _ (fun _ => True)); [done|done|].
    intros w1 r w2 _ _ E. split; [|done].
    assert (exists dec, (file <-? open_file archive ;; unpack_tar dec archive file s) w1 = (r, w2)) as [dec Et]
      by (destruct f; [by exists GzDecoder|by exists XzDecoder|done]).
    unfold io_try in Et. destruct (open_file archive w1) as [ro wo] eqn:Eo.
    apply syscall_inv in Eo as Hlog. destruct Hlog as [Hlog _].
    apply syscall_reading_fs in Eo. assert (confined s w1 wo) as H1.
    { split; [intros q _; by rewrite Eo|]. exists [EvIo (OpOpen archive)]. split; [done|by constructor]. }
    destruct ro as [bytes|e]; [|by injection Et as _ <-]. unfold unpack_tar in Et.
    destruct (tar_unpack _ _ _ _) as [r5 m5] eqn:Ew. injection Et as _ <-.
    eapply confined_trans; [exact H1|]. split; [intros q; by eapply tar_unpack_confined|].
    exists [EvUnpack archive s]. split; [done|by constructor]. }
  assert (f = Zip \/ f <> Zip) as [->|Hf] by (destruct f; auto).
  - pose proof (zip_extract_spec archive s l w Hu) as Hz. destruct (extract _ _ _ _ _). apply Hz.
  - specialize (Htar Hf). destruct (extract _ _ _ _ _). apply Htar.
Qed.


End Properties.

Section SingleRoot.
Context `{Env}.

(** The directory promoted is never a guess: the search answers with a directory
    of the staging directory only when no other entry could be seen to be a
    directory, and on a listing with no unreadable entry it fails only when there
    is none or there are two. *)
Theorem single_root_unique (s : Path) (w : World) :
  canonical (w_fs w) s = Some s ->
  let '(r, w') := single_root s w in
  w_fs w' = w_fs w
  /\ match r with
     | Ok p =>
         (exists name, p = below s [name]) /\ w_fs w !! p = Some NDir
         /\ forall name, w_fs w !! below s [name] = Some NDir ->
              below s [name] = p \/ is_Some (env_type_fault (w_log w') (below s [name]))
     | Err _ =>
         (exists why, fst (read_dir s w) = Err why)
         \/ (exists p, is_Some (env_entry_fault (w_log w') p))
         \/ (exists p, is_Some (env_type_fault (w_log w') p))
         \/ (forall name, w_fs w !! below s [name] <> Some NDir)
         \/ (exists n1 n2, n1 <> n2 /\ w_fs w !! below s [n1] = Some NDir
                           /\ w_fs w !! below s [n2] = Some NDir)
     end.
Proof.
  intros Hcan. destruct (single_root s w) as [r w'] eqn:E. unfold single_root, io_bind in E.
  destruct (read_dir s w) as [r1 w1] eqn:Er.
  destruct (read_dir_inv _ _ _ _ Er) as (Hfs & Hlog & Hr1). injection E as <- <-. split; [done|].
  destruct r1 as [listed|e]; cbn; [|by left; eauto].
  destruct Hr1 as (found & Hfound & ->).
  destruct (directories_of _) as [ds|e] eqn:Hd; cbn.
  - destruct (directories_seen _ _ _ _ _ Hcan Hfound Hd) as (Hnd & Hin & Hall).
    assert (forall q, q ∈ path_sort ds <-> q ∈ ds) as Hsort by (intros; apply elem_of_path_sort).
    assert (NoDup (path_sort ds)) as Hnds.
    { unfold path_sort. by rewrite merge_sort_Permutation. }
    destruct (path_sort ds) as [|p [|p2 rest]].
    + right. right.
      destruct (decide (Exists (fun q => is_Some (env_type_fault (w_log w1) q)) found.*1)) as [Hf|Hf].
      { left. apply Exists_exists in Hf as (q & _ & ?). eauto. }
      right. left. intros name Hname. destruct (Hall name Hname) as [Hx%Hsort|Hx].
      { by apply elem_of_nil in Hx. }
      apply Hf, Exists_exists. exists (below s [name]). split; [|done].
      apply list_elem_of_fmap. exists (below s [name], NDir). split; [done|].
      apply (elem_of_entries _ _ _ _ _ _ Hfound Hcan). eauto.
    + destruct (Hin p) as (name & Hp & Hm); [apply Hsort; left|]. split_and!; [eauto|done|].
      intros name' [Hx%Hsort|Hx]%Hall; [|by right].
      left. by apply list_elem_of_singleton in Hx.
    + destruct (Hin p) as (n1 & -> & Hm1); [apply Hsort; left|].
      destruct (Hin p2) as (n2 & -> & Hm2); [apply Hsort; right; left|].
      do 4 right. exists n1, n2. split_and!; [|done..]. intros ->.
      apply NoDup_cons in Hnds as [Hx _]. apply Hx. left.
  - right. left.
    assert (exists p, is_Some (env_entry_fault (w_log w1) p)) as [p Hp]; [|eauto].
    clear -Hd. unfold listing in Hd. induction (merge_sort _ found) as [|[q n] l IH]; [done|].
    cbn in Hd. destruct (env_entry_fault (w_log w1) q) eqn:Hq; [by exists q; rewrite Hq|].
    apply IH. cbn in Hd. by destruct (directories_of _).
Qed.

End SingleRoot.

(** ** The properties at work *)

(** A zip file with a directory, an escaping entry and an executable; a tarball
    with one directory. *)
Definition sample_unpackers : Unpackers := {|
  tar_unpack := fun _ _ staging m => (Ok tt, <[below staging ["node"] := NDir]> m);
  zip_open := fun bytes =>
    if String.eqb bytes "zip" then
      Ok [Ok (MkZipEntry (Some (Path_new "node")) true (Some 493%N) "" None);
          Ok (MkZipEntry None false None "evil" None);
          Ok (MkZipEntry (Some (Path_new "node/bin/node")) false (Some 493%N) "elf" None)]
    else Err "invalid zip archive"
|}.

#[global] Instance sample_zip_laws : ZipLaws sample_unpackers.
Proof.
  split. cbn. intros bytes entries entry p. destruct (String.eqb bytes "zip"); [|done].
  intros [= <-]. rewrite !elem_of_cons, elem_of_nil. intros He Hp.
  destruct_or! He; simplify_eq; injection Hp as <-; (split; [done|]);
    apply (bool_decide_unpack _); vm_compute; exact I.
Qed.

Lemma sample_unpackers_laws : UnpackersLaws sample_unpackers.
Proof.
  split; [apply _|]. split. cbn. intros _ _ s m r m' [= _ <-] q Hq. apply lookup_insert_ne. intros <-.
  by rewrite under_below in Hq.
Qed.

(** A tree without links. *)
Definition linkless (m : fs) : bool :=
  forallb (fun '(_, n) => match n with NLink _ => false | _ => true end) (map_to_list m).

Lemma linkless_unlinked s m : bool_decide (".." ∉ p_names s) = true -> linkless m = true -> unlinked s m.
Proof.
  intros Hs Hm. split; [by apply bool_decide_eq_true in Hs|]. intros q t _ Hq%elem_of_map_to_list.
  unfold linkless in Hm. rewrite forallb_forall in Hm. by specialize (Hm (q, NLink t) (proj1 (list_elem_of_In _ _) Hq)).
Qed.

Section Samples.
Let before := MkWorld (list_to_map [(Path_new "/c", NDir); (Path_new "/c/a.zip", NFile "zip")]) [].
Let staging := Path_new "/c/stage".
Let unpacked :=
  @extract (sample_env [] (HttpBody [])) sample_unpackers (Path_new "/c/a.zip") staging Zip
    Language_nodejs before.


(** A link planted in the staging directory would be written through. *)
Let planted := MkWorld (list_to_map [(Path_new "/c", NDir); (Path_new "/c/a.zip", NFile "zip");
  (Path_new "/c/stage", NDir); (Path_new "/c/stage/node", NLink (Path_new "/etc")); (Path_new "/etc", NDir)]) [].

Example a_planted_link_is_followed :
  w_fs (@extract (sample_env [] (HttpBody [])) sample_unpackers (Path_new "/c/a.zip") staging Zip
          Language_nodejs planted).2 !! Path_new "/etc/bin/node" = Some (NFile "elf").
Proof. vm_compute. reflexivity. Qed.

Let cache := MkWorld (list_to_map [(Path_new "/s", NDir); (Path_new "/s/readme", NFile "");
                                   (Path_new "/s/node-22", NDir)]) [].
Let found := @single_root (sample_env [] (HttpBody [])) (Path_new "/s") cache.

(** A stray file next to the one directory does not matter. *)
Lemma single_root_unique_witness :
  found.1 = Ok (Path_new "/s/node-22")
  /\ let '(r, w') := found in
     w_fs w' = w_fs cache
     /\ match r with
        | Ok p =>
            (exists name, p = below (Path_new "/s") [name]) /\ w_fs cache !! p = Some NDir
            /\ forall name, w_fs cache !! below (Path_new "/s") [name] = Some NDir ->
                 below (Path_new "/s") [name] = p
                 \/ is_Some (@env_type_fault (sample_env [] (HttpBody [])) (w_log w')
                               (below (Path_new "/s") [name]))
        | Err _ => True
        end.
Proof.
  split; [vm_compute; reflexivity|].
  assert (canonical (w_fs cache) (Path_new "/s") = Some (Path_new "/s")) as Hc
    by (vm_compute; reflexivity).
  pose proof (@single_root_unique (sample_env [] (HttpBody [])) (Path_new "/s") cache Hc) as H.
  unfold found. destruct (@single_root _ (Path_new "/s") cache) as [[p|e] w'].
  - exact H.
  - split; [exact (proj1 H)|exact I].
Defined.

End Samples.
