(* ===== verification/Provider.v ===== *)
(** * Language providers and the routing table: [provider/{mod,registry,bus}.rs]

    The trait [Provider] is a record of questions; what the trait's documentation
    promises of every implementation (an answer has no side effect on this host)
    is the class [ProviderLaws], against which the resolver is verified, and which
    the one implementation in the crate, [BusProvider], discharges. *)

From S2P Require Import Prelude RustStd Identity Vocabulary Errors World.

Open Scope rust_scope.

Record Provider := MkProvider {
  describe : io World (result Error ProviderDescriptor);
  detect_system : RuntimeSettings -> io World (result Error (option RuntimeLayout));
  select_distribution : RuntimeSettings -> io World (result Error Distribution);
  layout : string -> RuntimeSettings -> io World (result Error (option RuntimeLayout));
  harness : io World (result Error WorkerHarness);
  provider_prepare_environment :
    EnvironmentPreparationRequest -> io World (result Error (option EnvironmentPreparationPlan))
}.

(** The trait's default for the optional question. *)
Definition prepare_environment_default (_ : EnvironmentPreparationRequest)
  : io World (result Error (option EnvironmentPreparationPlan)) := io_ret (Ok None).

(** ** The contract of an implementation *)

(** A question that leaves the tree alone and records nothing but itself. *)
Definition asks {A} (q : question -> Prop) (m : io World A) : Prop :=
  forall w a w', m w = (a, w') ->
    w_fs w' = w_fs w
    /\ exists new, w_log w' = new ++ w_log w
                   /\ Forall (fun e => exists l k, e = EvProvider l k /\ q k) new.

Class ProviderLaws (p : Provider) : Prop := {
  describe_asks : asks (eq QDescribe) (describe p);
  detect_system_asks s : asks (eq QDetectSystem) (detect_system p s);
  select_distribution_asks s : asks (eq QSelectDistribution) (select_distribution p s);
  layout_asks d s : asks (eq (QLayout d)) (layout p d s);
  harness_asks : asks (eq QHarness) (harness p);
  prepare_asks r : asks (eq QPrepareEnvironment) (provider_prepare_environment p r)
}.

(** ** Routes *)

Record Route := MkRoute {
  ro_language : Language;
  ro_bus_name : string;
  ro_provider : Provider
}.

Definition refusal (version : N * N) : string :=
  let '(major, minor) := version in
  "the provider speaks contract " +:+ display_u64 major +:+ "." +:+ display_u64 minor
  +:+ ", which this build cannot bind to".

Definition Route_status (route : Route) : io World LanguageStatus :=
  described <-- describe (ro_provider route) ;;
  io_ret
    match described with
    | Ok descriptor =>
        if provider_is_compatible (pd_contract_version descriptor) then
          LanguageStatus_available (ro_language route) (ro_bus_name route)
            (pd_display_name descriptor)
        else
          with_display_name (pd_display_name descriptor)
            (LanguageStatus_unavailable (ro_language route) (ro_bus_name route)
               (refusal (pd_contract_version descriptor)))
    | Err error =>
        LanguageStatus_unavailable (ro_language route) (ro_bus_name route) (Error_display error)
    end.

Definition verify_contract (language : Language) (descriptor : ProviderDescriptor)
  : result Error unit :=
  if provider_is_compatible (pd_contract_version descriptor) then Ok tt
  else let '(major, minor) := pd_contract_version descriptor in
       Err (ProviderContract language major minor).

Definition Route_prepare_environment (route : Route) (request : EnvironmentPreparationRequest)
  : io World (result Error (option EnvironmentPreparationPlan)) :=
  descriptor <-? describe (ro_provider route) ;;
  match verify_contract (ro_language route) descriptor with
  | Err error => io_ret (Err error)
  | Ok _ =>
      if negb (bool_decide (PrepareEnvironment ∈ pd_capabilities descriptor)) then
        io_ret (Ok None)
      else provider_prepare_environment (ro_provider route) request
  end.

(** ** The registry *)

Record Registry := MkRegistry { routes : list Route }.

Definition Registry_new : Registry := MkRegistry [].

(** [iter_mut().find(..)] replaces the first match, otherwise the route is pushed. *)
Fixpoint register_in (rs : list Route) (route : Route) : list Route :=
  match rs with
  | [] => [route]
  | existing :: rest =>
      if decide (ro_language existing = ro_language route) then route :: rest
      else existing :: register_in rest route
  end.

Definition register (language : Language) (bus_name : string) (provider : Provider)
    (registry : Registry) : Registry :=
  MkRegistry (register_in (routes registry) (MkRoute language bus_name provider)).

Definition find_route (registry : Registry) (language : Language) : option Route :=
  find (fun route => bool_decide (ro_language route = language)) (routes registry).

Definition Registry_provider (registry : Registry) (language : Language)
  : result Error Provider :=
  if Language_is_empty language then Err LanguageMissing
  else ok_or (UnknownLanguage language) (ro_provider <$> find_route registry language).

Definition Registry_prepare_environment (registry : Registry) (language : Language)
    (request : EnvironmentPreparationRequest)
  : io World (result Error (option EnvironmentPreparationPlan)) :=
  if Language_is_empty language then io_ret (Err LanguageMissing)
  else match find_route registry language with
       | None => io_ret (Err (UnknownLanguage language))
       | Some route => Route_prepare_environment route request
       end.

Definition languages (registry : Registry) : list Language := map ro_language (routes registry).
Definition Registry_len (registry : Registry) : nat := length (routes registry).
Definition Registry_is_empty (registry : Registry) : bool :=
  match routes registry with [] => true | _ => false end.

Fixpoint statuses_of (rs : list Route) : io World (list LanguageStatus) :=
  match rs with
  | [] => io_ret []
  | route :: rest =>
      status <-- Route_status route ;;
      others <-- statuses_of rest ;;
      io_ret (status :: others)
  end.

Definition statuses (registry : Registry) : io World (list LanguageStatus) :=
  statuses_of (routes registry).

(** ** A provider on the bus *)

Inductive bus_arguments :=
| NoArguments
| SettingsArgument (settings : RuntimeSettings)
| LayoutArgument (request : LayoutRequest)
| PreparationArgument (request : EnvironmentPreparationRequest).

(** The bus connection: a proxy to a peer's object, and a call on it whose reply is
    decoded into the type its caller expects. *)
Class Bus := {
  bus_payload : Type;
  bus_proxy : string -> string -> string -> result string unit;
  bus_call : string -> string -> string -> bus_arguments -> World -> result string bus_payload;
  decode_descriptor : bus_payload -> result string ProviderDescriptor;
  decode_layout : bus_payload -> result string LayoutResponse;
  decode_distribution : bus_payload -> result string Distribution;
  decode_harness : bus_payload -> result string WorkerHarness;
  decode_plan : bus_payload -> result string EnvironmentPreparationPlan
}.

Section BusProvider.
Context `{Bus}.

Record BusProvider := MkBusProvider {
  bp_language : Language;
  bp_bus_name : string;
  bp_object_path : string
}.

Definition BusProvider_new (language : Language) (bus_name : string) : BusProvider :=
  {| bp_language := language; bp_bus_name := bus_name;
     bp_object_path := object_path_for bus_name |}.

Definition unavailable (self : BusProvider) (error : string) : Error :=
  ProviderUnavailable (bp_language self) error.

(** The question is recorded when the call goes out. *)
Definition call {R} (decode : bus_payload -> result string R) (self : BusProvider)
    (q : question) (member : string) (arguments : bus_arguments) : io World (result Error R) :=
  match bus_proxy (bp_bus_name self) (bp_object_path self) PROVIDER_INTERFACE with
  | Err error => io_ret (Err (unavailable self error))
  | Ok _ =>
      _ <-- emit (EvProvider (bp_language self) q) ;;
      reply <-- io_get (bus_call (bp_bus_name self) (bp_object_path self) member arguments) ;;
      io_ret (map_err (unavailable self) (result_bind reply decode))
  end.

Definition BusProvider_provider (self : BusProvider) : Provider := {|
  describe := call decode_descriptor self QDescribe DESCRIBE NoArguments;
  detect_system settings :=
    io_map (result_map lp_layout)
      (call decode_layout self QDetectSystem DETECT_SYSTEM (SettingsArgument settings));
  select_distribution settings :=
    call decode_distribution self QSelectDistribution SELECT_DISTRIBUTION
      (SettingsArgument settings);
  layout install_dir settings :=
    io_map (result_map lp_layout)
      (call decode_layout self (QLayout install_dir) LAYOUT
         (LayoutArgument (MkLayoutRequest install_dir settings)));
  harness := call decode_harness self QHarness HARNESS NoArguments;
  provider_prepare_environment request :=
    io_map (result_map Some)
      (call decode_plan self QPrepareEnvironment PREPARE_ENVIRONMENT
         (PreparationArgument request))
|}.

Lemma call_asks {R} (decode : bus_payload -> result string R) self q member args :
  asks (eq q) (call decode self q member args).
Proof.
  intros w a w'. unfold call. destruct (bus_proxy _ _ _).
  - intros [= _ <-]. split; [done|]. exists [EvProvider (bp_language self) q].
    split; [done|]. constructor; [eauto|done].
  - intros [= _ <-]. split; [done|]. by exists [].
Qed.

Lemma asks_map {A B} q (f : A -> B) m : asks q m -> asks q (io_map f m).
Proof.
  intros Hm w b w'. unfold io_map. destruct (m w) as [a w1] eqn:E. intros [= _ <-]. eauto.
Qed.

#[export] Instance BusProvider_laws self : ProviderLaws (BusProvider_provider self).
Proof. split; intros; cbn; repeat apply asks_map; apply call_asks. Qed.

(** Every failure of a bus provider is this language being unavailable. *)
Lemma call_error {R} (decode : bus_payload -> result string R) self q member args w e w' :
  call decode self q member args w = (Err e, w') ->
  exists reason, e = ProviderUnavailable (bp_language self) reason.
Proof.
  unfold call. destruct (bus_proxy _ _ _).
  - unfold io_bind, emit, io_get, io_ret. destruct (result_bind _ _); cbn; intros [= <- _]. eauto.
  - intros [= <- _]. unfold unavailable. eauto.
Qed.

End BusProvider.

(** ** Lemmas *)

Lemma register_in_languages rs route :
  map ro_language (register_in rs route)
  = if decide (ro_language route ∈ map ro_language rs) then map ro_language rs
    else map ro_language rs ++ [ro_language route].
Proof.
  induction rs as [|r rs IH]; cbn; [by rewrite decide_False by apply not_elem_of_nil|].
  destruct (decide (ro_language r = ro_language route)) as [Heq|Hne]; cbn.
  - rewrite Heq. rewrite decide_True by left. done.
  - rewrite IH. destruct (decide (ro_language route ∈ map ro_language rs)) as [Hin|Hin].
    + by rewrite decide_True by (by right).
    + rewrite decide_False; [done|]. intros [|]%elem_of_cons; congruence.
Qed.

Lemma find_register_in rs route l :
  find (fun r => bool_decide (ro_language r = l)) (register_in rs route)
  = if decide (ro_language route = l) then Some route
    else find (fun r => bool_decide (ro_language r = l)) rs.
Proof.
  induction rs as [|r rs IH]; cbn.
  - case_bool_decide; destruct (decide _); congruence.
  - destruct (decide (ro_language r = ro_language route)) as [Heq|Hne]; cbn.
    + rewrite Heq. case_bool_decide; destruct (decide _); congruence.
    + rewrite IH. case_bool_decide; destruct (decide _); congruence.
Qed.

(** [Route_status] asks for a description and nothing else. *)
Lemma Route_status_asks route :
  ProviderLaws (ro_provider route) -> asks (eq QDescribe) (Route_status route).
Proof.
  intros Hp w a w'. unfold Route_status, io_bind.
  destruct (describe _ w) as [r w1] eqn:E. intros [= _ <-]. by eapply describe_asks.
Qed.

Lemma asks_bind {A B} q (m : io World A) (k : A -> io World B) :
  asks q m -> (forall a, asks q (k a)) -> asks q (io_bind m k).
Proof.
  intros Hm Hk w b w'. unfold io_bind. destruct (m w) as [a w1] eqn:E. intros Hr.
  destruct (Hm _ _ _ E) as (F1 & n1 & L1 & Q1). destruct (Hk _ _ _ _ Hr) as (F2 & n2 & L2 & Q2).
  split; [congruence|]. exists (n2 ++ n1). rewrite L2, L1, app_assoc. split; [done|].
  by apply Forall_app.
Qed.

Lemma asks_try {E A B} q (m : io World (result E A)) (k : A -> io World (result E B)) :
  asks q m -> (forall a, asks q (k a)) -> asks q (io_try m k).
Proof.
  intros Hm Hk w b w'. unfold io_try. destruct (m w) as [[a|e] w1] eqn:Em.
  - intros Hr. destruct (Hm _ _ _ Em) as (F1 & n1 & L1 & Q1).
    destruct (Hk _ _ _ _ Hr) as (F2 & n2 & L2 & Q2).
    split; [congruence|]. exists (n2 ++ n1). rewrite L2, L1, app_assoc. split; [done|].
    by apply Forall_app.
  - intros [= _ <-]. eauto.
Qed.

Lemma asks_ret {A} q (a : A) : asks q (io_ret a).
Proof. intros w b w' [= _ <-]. split; [done|]. by exists []. Qed.

Lemma asks_weaken {A} (q q' : question -> Prop) (m : io World A) :
  (forall k, q k -> q' k) -> asks q m -> asks q' m.
Proof.
  intros Hq Hm w a w' E. destruct (Hm _ _ _ E) as (F & n & L & Q). split; [done|].
  exists n. split; [done|]. eapply Forall_impl; [done|]. intros e (l & k & -> & ?). eauto.
Qed.

(** ** Properties *)

(** One line of the module's configuration, with the provider built for it. *)
Record Registration := MkRegistration {
  re_language : Language; re_bus_name : string; re_provider : Provider
}.

Definition register_all (entries : list Registration) (registry : Registry) : Registry :=
  fold_left (fun r e => register (re_language e) (re_bus_name e) (re_provider e) r) entries registry.

Lemma register_languages l b p r :
  languages (register l b p r)
  = if decide (l ∈ languages r) then languages r else languages r ++ [l].
Proof. unfold languages, register. cbn. by rewrite register_in_languages. Qed.

Lemma find_route_register l b p r l' :
  find_route (register l b p r) l'
  = if decide (l = l') then Some (MkRoute l b p) else find_route r l'.
Proof. unfold find_route, register. cbn. by rewrite find_register_in. Qed.

Lemma register_all_snoc entries e r :
  register_all (entries ++ [e]) r
  = register (re_language e) (re_bus_name e) (re_provider e) (register_all entries r).
Proof. unfold register_all. by rewrite fold_left_app. Qed.

(** The routing table is a map with an order: however often and in whatever order
    languages are registered, each has one route, the last one registered; no
    language is lost or invented; and registering one again leaves every other
    language where it was listed. *)
Theorem registry_last_registration_wins (entries : list Registration) (l : Language) :
  let registry := register_all entries Registry_new in
  NoDup (languages registry)
  /\ (l ∈ languages registry <-> l ∈ map re_language entries)
  /\ Registry_provider registry l
     = (if Language_is_empty l then Err LanguageMissing
        else match find (fun e => bool_decide (re_language e = l)) (rev entries) with
             | Some e => Ok (re_provider e)
             | None => Err (UnknownLanguage l)
             end)
  /\ forall b p, languages (register l b p registry)
                = if decide (l ∈ languages registry) then languages registry
                  else languages registry ++ [l].
Proof.
  cbn zeta. split_and!; [| | |intros; apply register_languages].
  - induction entries as [|e entries IH] using rev_ind; [constructor|].
    rewrite register_all_snoc, register_languages.
    destruct (decide _) as [|Hn]; [done|]. apply NoDup_app. split_and!; [done| |].
    + intros x Hx ->%list_elem_of_singleton. done.
    + apply NoDup_singleton.
  - induction entries as [|e entries IH] using rev_ind; [done|].
    rewrite register_all_snoc, register_languages, map_app, elem_of_app, <- IH. cbn.
    rewrite list_elem_of_singleton. destruct (decide _) as [Hin|Hn].
    + split; [by left|]. by intros [| ->].
    + by rewrite elem_of_app, list_elem_of_singleton.
  - unfold Registry_provider. destruct (Language_is_empty l); [done|].
    assert (ro_provider <$> find_route (register_all entries Registry_new) l
            = re_provider <$> find (fun e => bool_decide (re_language e = l)) (rev entries)) as ->.
    { induction entries as [|e entries IH] using rev_ind; [done|].
      rewrite register_all_snoc, find_route_register, rev_app_distr. cbn.
      case_bool_decide; destruct (decide _); try congruence. done. }
    by destruct (find _ _).
Qed.

(** What one row of the listing says about the answer it was made from. *)
Definition row_reports (route : Route) (answer : result Error ProviderDescriptor)
    (row : LanguageStatus) : Prop :=
  ls_language row = ro_language route /\ ls_bus_name row = ro_bus_name route
  /\ (ls_available row = true
      <-> exists d, answer = Ok d /\ (pd_contract_version d).1 = 1%N)
  /\ (ls_available row = false <-> is_Some (ls_detail row))
  /\ ls_display_name row = match answer with Ok d => Some (pd_display_name d) | Err _ => None end.

Lemma Route_status_reports route w row w' :
  Route_status route w = (row, w') -> row_reports route (describe (ro_provider route) w).1 row.
Proof.
  unfold Route_status, io_bind. destruct (describe _ w) as [[d|e] w1]; intros [= <- _]; cbn [fst].
  - destruct (provider_is_compatible _) eqn:Hc; (split; [done|]); (split; [done|]); cbn.
    + apply provider_is_compatible_spec in Hc. split_and!; try done; eauto. split; eauto.
    + split_and!; try done; eauto. split; [done|].
      intros (d' & [= <-] & Hd). apply provider_is_compatible_spec in Hd. congruence.
  - split_and!; try done; cbn; eauto. split; [done|]. by intros (? & ? & ?).
Qed.

Lemma statuses_of_asks rs :
  Forall (fun route => ProviderLaws (ro_provider route)) rs -> asks (eq QDescribe) (statuses_of rs).
Proof.
  induction 1; cbn; [apply asks_ret|]. apply asks_bind; [by apply Route_status_asks|].
  intros status. apply asks_bind; [done|]. intros others. apply asks_ret.
Qed.

(** Listing the languages never fails and hides nothing: one row per registered
    language, in registration order, marked available exactly when its provider
    answered with a contract this build binds to and carrying a reason exactly when
    it is not; and no provider is asked anything but to describe itself. *)
Theorem statuses_list_every_language (registry : Registry) (w : World) :
  Forall (fun route => ProviderLaws (ro_provider route)) (routes registry) ->
  let '(rows, w') := statuses registry w in
  Forall2 (fun route row => exists w0, row_reports route (describe (ro_provider route) w0).1 row)
    (routes registry) rows
  /\ map ls_language rows = languages registry
  /\ w_fs w' = w_fs w
  /\ exists new, w_log w' = new ++ w_log w
                 /\ Forall (fun e => exists l, e = EvProvider l QDescribe) new.
Proof.
  unfold statuses, languages. intros Hlaws.
  destruct (statuses_of (routes registry) w) as [rows w'] eqn:E.
  assert (Forall2 (fun route row => exists w0,
            row_reports route (describe (ro_provider route) w0).1 row) (routes registry) rows) as Hrows.
  { clear Hlaws. revert w rows E. induction (routes registry) as [|route rs IH]; intros w rows; cbn.
    - intros [= <- _]. constructor.
    - unfold io_bind. destruct (Route_status route w) as [row w1] eqn:Er.
      destruct (statuses_of rs w1) as [others w2] eqn:Eo. intros [= <- <-].
      constructor; [|eauto]. exists w. by eapply Route_status_reports. }
  split_and!; [done| |..].
  - clear E. induction Hrows as [|route row rs rows (w0 & Hl & _) _ IH]; [done|]. cbn.
    apply Forall_cons in Hlaws as [_ Hlaws]. by rewrite Hl, IH.
  - eapply statuses_of_asks; done.
  - destruct (statuses_of_asks _ Hlaws _ _ _ E) as (_ & new & Hl & Hq). exists new.
    split; [done|]. eapply Forall_impl; [done|]. intros e (l & k & -> & <-). eauto.
Qed.

(** An environment plan is only ever asked of a provider that described itself,
    at that moment, with a bindable contract and the advertised capability; one
    that did not advertise it yields no plan, and a refusal changes nothing. *)
Theorem prepare_environment_gated (registry : Registry) (l : Language)
    (request : EnvironmentPreparationRequest) (w : World) :
  Forall (fun route => ProviderLaws (ro_provider route)) (routes registry) ->
  let '(r, w') := Registry_prepare_environment registry l request w in
  w_fs w' = w_fs w
  /\ exists new, w_log w' = new ++ w_log w
     /\ ((exists l', EvProvider l' QPrepareEnvironment ∈ new) \/ (exists plan, r = Ok (Some plan)) ->
         exists route d, find_route registry l = Some route
           /\ (describe (ro_provider route) w).1 = Ok d
           /\ (pd_contract_version d).1 = 1%N /\ PrepareEnvironment ∈ pd_capabilities d).
Proof.
  intros Hlaws. destruct (Registry_prepare_environment registry l request w) as [r w'] eqn:E.
  unfold Registry_prepare_environment in E.
  assert (forall e, (Err e, w) = (r, w') -> w_fs w' = w_fs w
    /\ exists new, w_log w' = new ++ w_log w
       /\ ((exists l', EvProvider l' QPrepareEnvironment ∈ new) \/ (exists plan, r = Ok (Some plan)) ->
           exists route d, find_route registry l = Some route
             /\ (describe (ro_provider route) w).1 = Ok d
             /\ (pd_contract_version d).1 = 1%N /\ PrepareEnvironment ∈ pd_capabilities d)) as Hno.
  { intros e [= <- <-]. split; [done|]. exists []. split; [done|].
    intros [[l' Hl]|[plan Hp]]; [by apply elem_of_nil in Hl|done]. }
  destruct (Language_is_empty l); [by eapply Hno|].
  destruct (find_route registry l) as [route|] eqn:Hr; [|by eapply Hno].
  assert (ProviderLaws (ro_provider route)) as Hp.
  { rewrite Forall_forall in Hlaws. apply Hlaws. unfold find_route in Hr. apply find_some in Hr as [Hr _]. by apply list_elem_of_In. }
  clear Hno. unfold Route_prepare_environment, io_try in E.
  destruct (describe (ro_provider route) w) as [answer w1] eqn:Ed.
  destruct (describe_asks _ _ _ Ed) as (Hfs & new & Hl & Hq).
  assert (forall l', EvProvider l' QPrepareEnvironment ∉ new) as Hnot.
  { intros l' Hin. rewrite Forall_forall in Hq. by destruct (Hq _ Hin) as (? & ? & [= _ <-] & ?). }
  assert (w' = w1 -> (forall plan, r <> Ok (Some plan)) -> w_fs w' = w_fs w
    /\ exists new, w_log w' = new ++ w_log w
       /\ ((exists l', EvProvider l' QPrepareEnvironment ∈ new) \/ (exists plan, r = Ok (Some plan)) ->
           exists route0 d, Some route = Some route0
             /\ (describe (ro_provider route0) w).1 = Ok d
             /\ (pd_contract_version d).1 = 1%N /\ PrepareEnvironment ∈ pd_capabilities d)) as Hone.
  { intros -> Hplan. split; [done|]. exists new. split; [done|].
    intros [[l' Hin]|[plan ->]]; [by destruct (Hnot l')|by destruct (Hplan plan)]. }
  destruct answer as [d|e]; [|injection E as <- <-; by apply Hone].
  unfold verify_contract in E. destruct (provider_is_compatible _) eqn:Hc.
  2:{ destruct (pd_contract_version d). injection E as <- <-. by apply Hone. }
  destruct (bool_decide _) eqn:Hb; cbn in E; [|injection E as <- <-; by apply Hone].
  destruct (prepare_asks _ _ _ _ E) as (Hfs2 & new2 & Hl2 & _). split; [congruence|].
  exists (new2 ++ new). rewrite Hl2, Hl, app_assoc. split; [done|]. intros _.
  exists route, d. rewrite Ed. split_and!; [done|done| |by apply bool_decide_eq_true in Hb].
  by apply provider_is_compatible_spec.
Qed.

(** ** The properties at work *)

(** A provider that answers [answers] to every question about itself. *)
Definition sample_provider (l : Language) (described : result Error ProviderDescriptor)
    (system : option RuntimeLayout) (dist : Distribution)
    (found : string -> World -> result Error (option RuntimeLayout)) : Provider := {|
  describe := (_ <-- emit (EvProvider l QDescribe) ;; io_ret described);
  detect_system _ := (_ <-- emit (EvProvider l QDetectSystem) ;; io_ret (Ok system));
  select_distribution _ := (_ <-- emit (EvProvider l QSelectDistribution) ;; io_ret (Ok dist));
  layout d _ := (_ <-- emit (EvProvider l (QLayout d)) ;; io_get (found d));
  harness := (_ <-- emit (EvProvider l QHarness) ;;
              io_ret (Ok (WorkerHarness_new "worker.js" "//" "node")));
  provider_prepare_environment _ :=
    (_ <-- emit (EvProvider l QPrepareEnvironment) ;;
     io_ret (Ok (Some (MkEnvironmentPreparationPlan "/env/bin/node" []))))
|}.

Lemma sample_provider_laws l described system dist found :
  ProviderLaws (sample_provider l described system dist found).
Proof.
  split; intros; intros w0 a w1; cbn; unfold io_bind, emit, io_ret, io_get; intros [= _ <-];
    (split; [done|]); eexists [_]; (split; [done|]); (constructor; [eauto|done]).
Qed.

Section Samples.
Let node : Provider :=
  sample_provider Language_nodejs
    (Ok (with_capability PrepareEnvironment (ProviderDescriptor_new Language_nodejs "Node.js" "22")))
    None (Distribution_new "22" "n.zip" "u" Zip) (fun _ _ => Ok None).
Let python : Provider :=
  sample_provider Language_python (Err (ProviderUnavailable Language_python "no reply"))
    None (Distribution_new "3" "p.zip" "u" Zip) (fun _ _ => Ok None).
Let table := register Language_python "p" python (register Language_nodejs "n" node Registry_new).
Let world := MkWorld (∅ : fs) [].

Lemma statuses_list_every_language_witness :
  map ls_available (statuses table world).1 = [true; false]
  /\ let '(rows, w') := statuses table world in
     Forall2 (fun route row => exists w0, row_reports route (describe (ro_provider route) w0).1 row)
       (routes table) rows
     /\ map ls_language rows = languages table
     /\ w_fs w' = w_fs world
     /\ exists new, w_log w' = new ++ w_log world
                    /\ Forall (fun e => exists l, e = EvProvider l QDescribe) new.
Proof.
  split; [vm_compute; reflexivity|]. apply (statuses_list_every_language table world).
  repeat (constructor; [apply sample_provider_laws|]). constructor.
Defined.

Lemma prepare_environment_gated_witness :
  let request := EnvironmentPreparationRequest_new "/n/bin/node" "/env" in
  (Registry_prepare_environment table Language_nodejs request world).1
    = Ok (Some (MkEnvironmentPreparationPlan "/env/bin/node" []))
  /\ let '(r, w') := Registry_prepare_environment table Language_nodejs request world in
     w_fs w' = w_fs world
     /\ exists new, w_log w' = new ++ w_log world
        /\ ((exists l', EvProvider l' QPrepareEnvironment ∈ new)
            \/ (exists plan, r = Ok (Some plan)) ->
            exists route d, find_route table Language_nodejs = Some route
              /\ (describe (ro_provider route) world).1 = Ok d
              /\ (pd_contract_version d).1 = 1%N /\ PrepareEnvironment ∈ pd_capabilities d).
Proof.
  split; [vm_compute; reflexivity|].
  apply (prepare_environment_gated table Language_nodejs
           (EnvironmentPreparationRequest_new "/n/bin/node" "/env") world).
  repeat (constructor; [apply sample_provider_laws|]). constructor.
Defined.

End Samples.
