(* ===== verification/StubProvider.v ===== *)
(** * A provider that answers from memory: [provider/stub.rs]

    The provider the router is tested with, and one that never answers. Both are
    implementations of the contract [ProviderLaws], so what is proved of the resolver
    holds over them; the two counters of the first are counts of the questions in the
    history. *)

From S2P Require Import Prelude RustStd Identity Vocabulary Errors World Provider.

Open Scope rust_scope.

(** ** What a test supplies *)

Record StubProvider := MkStubProvider {
  sp_language : Language;
  sp_descriptor : ProviderDescriptor;
  sp_system : option RuntimeLayout;
  sp_distribution : option Distribution;
  sp_layout : option RuntimeLayout;
  sp_layout_marker : option string;
  sp_harness : option WorkerHarness;
  sp_layout_fails : bool
}.

Definition StubProvider_new (language : Language) : StubProvider := {|
  sp_language := language;
  sp_descriptor := ProviderDescriptor_new language "Stub" "1.0.0";
  sp_system := None;
  sp_distribution := None;
  sp_layout := None;
  sp_layout_marker := None;
  sp_harness := None;
  sp_layout_fails := false
|}.

Definition with_system (la : RuntimeLayout) (s : StubProvider) : StubProvider :=
  MkStubProvider (sp_language s) (sp_descriptor s) (Some la) (sp_distribution s) (sp_layout s)
    (sp_layout_marker s) (sp_harness s) (sp_layout_fails s).

Definition with_distribution (d : Distribution) (s : StubProvider) : StubProvider :=
  MkStubProvider (sp_language s) (sp_descriptor s) (sp_system s) (Some d) (sp_layout s)
    (sp_layout_marker s) (sp_harness s) (sp_layout_fails s).

Definition with_layout (la : RuntimeLayout) (s : StubProvider) : StubProvider :=
  MkStubProvider (sp_language s) (sp_descriptor s) (sp_system s) (sp_distribution s) (Some la)
    (sp_layout_marker s) (sp_harness s) (sp_layout_fails s).

Definition with_layout_when_present (marker : string) (la : RuntimeLayout) (s : StubProvider) : StubProvider :=
  with_layout la
    (MkStubProvider (sp_language s) (sp_descriptor s) (sp_system s) (sp_distribution s) (sp_layout s)
       (Some marker) (sp_harness s) (sp_layout_fails s)).

Definition with_harness (h : WorkerHarness) (s : StubProvider) : StubProvider :=
  MkStubProvider (sp_language s) (sp_descriptor s) (sp_system s) (sp_distribution s) (sp_layout s)
    (sp_layout_marker s) (Some h) (sp_layout_fails s).

Definition with_failing_layout (s : StubProvider) : StubProvider :=
  MkStubProvider (sp_language s) (sp_descriptor s) (sp_system s) (sp_distribution s) (sp_layout s)
    (sp_layout_marker s) (sp_harness s) true.

Definition with_contract (version : N * N) (s : StubProvider) : StubProvider :=
  let d := sp_descriptor s in
  MkStubProvider (sp_language s)
    (MkProviderDescriptor (pd_language d) (pd_display_name d) (pd_default_version d) version
       (pd_executables d) (pd_capabilities d))
    (sp_system s) (sp_distribution s) (sp_layout s) (sp_layout_marker s) (sp_harness s) (sp_layout_fails s).

(** The counters, which wrap as any [AtomicUsize] does. *)
Definition asked (l : Language) (q : question) (log : history) : N :=
  (N.of_nat (length (filter (fun e => e = EvProvider l q) log)) mod u64_modulus)%N.
Definition selections (s : StubProvider) (w : World) : N := asked (sp_language s) QSelectDistribution (w_log w).
Definition detections (s : StubProvider) (w : World) : N := asked (sp_language s) QDetectSystem (w_log w).

Section Stub.
Context `{Env}.

(** The stub's own look at the disk, which is no operation of the router. *)
Definition looks {A} (m : io World A) : io World A := fun w => (fst (m w), w).

(** *** [impl Provider for StubProvider] *)

Definition Stub_layout (s : StubProvider) (install_dir : string) : io World (result Error (option RuntimeLayout)) :=
  match sp_layout_marker s with
  | Some marker =>
      present <-- looks (exists_path (path_join (Path_new install_dir) (Path_new marker))) ;;
      io_ret (Ok (if present : bool then sp_layout s else None))
  | None => io_ret (Ok (sp_layout s))
  end.

Definition StubProvider_provider (s : StubProvider) : Provider :=
  let asking q : io World unit := emit (EvProvider (sp_language s) q) in
  {|
    describe := (_ <-- asking QDescribe ;; io_ret (Ok (sp_descriptor s)));
    detect_system _ := (_ <-- asking QDetectSystem ;; io_ret (Ok (sp_system s)));
    select_distribution _ :=
      (_ <-- asking QSelectDistribution ;;
       io_ret (ok_or (Download (sp_language s) "the stub was given nothing to install") (sp_distribution s)));
    layout d _ := (_ <-- asking (QLayout d) ;; Stub_layout s d);
    harness :=
      (_ <-- asking QHarness ;;
       io_ret (ok_or (ProviderUnavailable (sp_language s) "the stub was given no harness") (sp_harness s)));
    provider_prepare_environment := prepare_environment_default
  |}.

(** *** [DownProvider] *)

Definition down (l : Language) : Error := ProviderUnavailable l "the provider module is not loaded".

Definition DownProvider_provider (l : Language) : Provider :=
  let asking {A} q : io World (result Error A) := (_ <-- emit (EvProvider l q) ;; io_ret (Err (down l))) in
  {|
    describe := asking QDescribe;
    detect_system _ := asking QDetectSystem;
    select_distribution _ := asking QSelectDistribution;
    layout d _ := asking (QLayout d);
    harness := asking QHarness;
    provider_prepare_environment := prepare_environment_default
  |}.

(** *** They keep the contract *)

Lemma asks_emit {A} l q (k : unit -> io World A) :
  (forall w, (snd (k tt w)) = w) -> asks (eq q) (io_bind (emit (EvProvider l q)) k).
Proof.
  intros Hk w a w'. unfold io_bind, emit. intros E. pose proof (Hk (MkWorld (w_fs w) (EvProvider l q :: w_log w))) as Hw.
  rewrite E in Hw. cbn in Hw. subst w'. split; [done|]. exists [EvProvider l q]. split; [done|].
  constructor; [eauto|done].
Qed.

Lemma asks_nothing {A} (q : question -> Prop) (a : A) : asks q (io_ret a).
Proof. intros w b w' [= _ <-]. split; [done|]. by exists []. Qed.

#[export] Instance StubProvider_laws s : ProviderLaws (StubProvider_provider s).
Proof.
  constructor; intros; try by apply asks_emit. 2: apply asks_nothing.
  apply asks_emit. intros w. unfold Stub_layout. by destruct (sp_layout_marker s).
Qed.

#[export] Instance DownProvider_laws l : ProviderLaws (DownProvider_provider l).
Proof. constructor; intros; try by apply asks_emit. apply asks_nothing. Qed.

(** A failing layout is not one: what [with_failing_layout] sets, [layout] never reads. *)
Lemma failing_layout_does_not_fail s d settings w :
  layout (StubProvider_provider (with_failing_layout s)) d settings w
  = layout (StubProvider_provider s) d settings w.
Proof. done. Qed.

End Stub.
