(* ===== verification/Resolve.v ===== *)
(** * Turning a request into a toolchain: [resolve/{mod,reuse,install}.rs]

    The resolver's memo is passed explicitly; a provider is used through
    [ProviderLaws]. *)

From S2P Require Import Prelude RustStd Identity Vocabulary Errors World FsFacts.
From stdpp Require Import sorting.
From S2P Require Import Store Download Archive Provider.

Open Scope rust_scope.

(** ** The memo: [resolve/mod.rs] *)

Definition display_bool (b : bool) : string := if b then "true" else "false".

Definition memo_key (language : Language) (settings : RuntimeSettings) : string :=
  as_str language +:+ "|" +:+ rs_version settings +:+ "|" +:+ rs_maximum_version settings
  +:+ "|" +:+ rs_cache_dir settings +:+ "|" +:+ rs_release_tag settings
  +:+ "|" +:+ rs_preferred_command settings +:+ "|" +:+ display_bool (rs_prefer_system settings).

Definition managed (language : Language) (install_dir : Path) (la : RuntimeLayout)
  : ResolvedRuntime :=
  with_install_dir (path_display install_dir) (from_layout language Managed la).

(** [HashMap<String, ResolvedRuntime>] behind the resolver's mutex. *)
Abbreviation memo := (gmap string ResolvedRuntime).

Record Resolver := MkResolver { rv_registry : Registry; rv_resolved : memo }.

Definition Resolver_new (registry : Registry) : Resolver := MkResolver registry ∅.

Definition remember (key : string) (resolved : ResolvedRuntime) (self : Resolver) : Resolver :=
  MkResolver (rv_registry self) (<[key := resolved]> (rv_resolved self)).

Section Resolve.
Context `{Env} `{Sha256} `{Unpackers}.

(** ** Reusing what is installed: [resolve/reuse.rs] *)

(** The directories among the listed entries; unreadable ones are passed over. *)
Definition listed_directories (entries : list (result io_error (Path * result io_error node)))
  : list Path :=
  omap (fun entry => match entry with Ok (path, Ok NDir) => Some path | _ => None end) entries.

Fixpoint keep_inside (root : Path) (paths : list Path) : io World (list Path) :=
  match paths with
  | [] => io_ret []
  | path :: rest =>
      inside <-- is_inside root path ;;
      kept <-- keep_inside root rest ;;
      io_ret (if inside : bool then path :: kept else kept)
  end.

(** The [for] loop over the candidates. *)
Fixpoint first_accepted (language : Language) (settings : RuntimeSettings) (provider : Provider)
    (candidates : list Path) : io World (option ResolvedRuntime) :=
  match candidates with
  | [] => io_ret None
  | candidate :: rest =>
      answer <-- layout provider (path_display candidate) settings ;;
      match answer with
      | Ok (Some la) => io_ret (Some (managed language candidate la))
      | Ok None | Err _ => first_accepted language settings provider rest
      end
  end.

Definition scan (root : Path) (language : Language) (settings : RuntimeSettings)
    (provider : Provider) : io World (option ResolvedRuntime) :=
  entries <-- read_dir root ;;
  match entries with
  | Err _ => io_ret None
  | Ok entries =>
      candidates <-- keep_inside root
        (filter (fun path => is_staging path = false) (listed_directories entries)) ;;
      first_accepted language settings provider (rev (path_sort candidates))
  end.

(** ** Installing: [resolve/install.rs] *)

(** Best effort. *)
Definition remove_archive (path : Path) : io World unit := _ <-- remove_file path ;; io_ret tt.

(** From the download to the promotion, with the clean-up on every exit. *)
Definition provision (root install_dir : Path) (distribution : Distribution)
    (language : Language) : io World (result Error unit) :=
  let archive_path := path_join root (Path_new (di_archive_name distribution)) in
  _ <-? fetch distribution archive_path language ;;
  staging <-- staging_dir root ;;
  _ <-- discard staging ;;
  unpacked <-- extract archive_path staging (di_format distribution) language ;;
  match unpacked with
  | Err error =>
      _ <-- discard staging ;;
      _ <-- remove_archive archive_path ;;
      io_ret (Err error)
  | Ok unpacked =>
      promoted <-- promote unpacked install_dir language ;;
      _ <-- discard staging ;;
      _ <-- remove_archive archive_path ;;
      io_ret promoted
  end.

(** What is done while the lock is held. *)
Definition install_locked (root install_dir : Path) (distribution : Distribution)
    (language : Language) (settings : RuntimeSettings) (provider : Provider)
  : io World (result Error ResolvedRuntime) :=
  let install_path := path_display install_dir in
  found <-? layout provider install_path settings ;;
  match found with
  | Some la => io_ret (Ok (managed language install_dir la))
  | None =>
      _ <-? provision root install_dir distribution language ;;
      found <-? layout provider install_path settings ;;
      io_ret (ok_or (EmptyInstall language) (managed language install_dir <$> found))
  end.

Definition install_run (language : Language) (settings : RuntimeSettings) (provider : Provider)
  : io World (result Error ResolvedRuntime) :=
  distribution <-? select_distribution provider settings ;;
  let root := cache_root (settings_cache_dir settings) language in
  _ <-? ensure_root root ;;
  let install_dir := path_join root (Path_new (di_install_dir_name distribution)) in
  lock <-? InstallLock_acquire install_dir language ;;
  res <-- install_locked root install_dir distribution language settings provider ;;
  _ <-- InstallLock_drop lock ;;
  io_ret res.

(** ** Resolution *)

Definition without_network (language : Language) (settings : RuntimeSettings)
    (provider : Provider) : io World (result Error (option ResolvedRuntime)) :=
  system <-? (if rs_prefer_system settings then detect_system provider settings
              else io_ret (Ok None)) ;;
  match system with
  | Some la => io_ret (Ok (Some (from_layout language System la)))
  | None =>
      io_map Ok (scan (cache_root (settings_cache_dir settings) language) language settings provider)
  end.

(** The answer, with the resolution to remember if one was made. *)
Definition resolve_fresh (registry : Registry) (request : ResolveRequest)
  : io World (result Error (option ResolvedRuntime)) :=
  let language := rr_language request in
  let settings := rr_settings request in
  match Registry_provider registry language with
  | Err error => io_ret (Err error)
  | Ok provider =>
      descriptor <-? describe provider ;;
      match verify_contract language descriptor with
      | Err error => io_ret (Err error)
      | Ok _ =>
          found <-? without_network language settings provider ;;
          match found with
          | Some resolved => io_ret (Ok (Some resolved))
          | None =>
              if negb (rr_install request) then io_ret (Ok None)
              else io_map (result_map Some) (install_run language settings provider)
          end
      end
  end.

Definition resolve (self : Resolver) (request : ResolveRequest)
  : io World (result Error (option ResolvedRuntime) * Resolver) :=
  let language := rr_language request in
  let settings := rr_settings request in
  if negb (rs_enabled settings) then io_ret (Err (LanguageDisabled language), self)
  else
    let key := memo_key language settings in
    match rv_resolved self !! key with
    | Some existing => io_ret (Ok (Some existing), self)
    | None =>
        answer <-- resolve_fresh (rv_registry self) request ;;
        io_ret (answer, match answer with
                        | Ok (Some resolved) => remember key resolved self
                        | _ => self
                        end)
    end.

Definition require (self : Resolver) (request : ResolveRequest)
  : io World (result Error ResolvedRuntime * Resolver) :=
  resolved <-- resolve self request ;;
  let '(answer, self) := resolved in
  io_ret (found <-! answer ;; ok_or (NotProvisioned (rr_language request)) found, self).

End Resolve.

(** ** What resolving without installing records *)

(** An event of a probe: a question about what is there, or a look at the cache. *)
Definition offline (e : event) : Prop :=
  match e with
  | EvProvider _ (QDescribe | QDetectSystem | QLayout _) => True
  | EvIo (OpReadDir _ | OpCanonicalize _) => True
  | _ => False
  end.

#[local] Hint Extern 0 (offline _) => exact I : rust.

Section Facts.
Context `{Env} `{Sha256} `{Unpackers}.

Lemma asks_emits {A} (q : question -> Prop) (P : event -> Prop) (m : io World A) :
  asks q m -> (forall l k, q k -> P (EvProvider l k)) -> emits P m.
Proof.
  intros Hm HP w a w' E. destruct (Hm _ _ _ E) as (_ & new & L & F). exists new. split; [done|].
  eapply Forall_impl; [done|]. intros e (l & k & -> & ?). auto.
Qed.

Lemma asks_keeps {A} (q : question -> Prop) (m : io World A) : asks q m -> keeps m.
Proof. intros Hm w a w' E. by destruct (Hm _ _ _ E). Qed.

Lemma is_inside_emits P root p :
  P (EvIo (OpCanonicalize root)) -> P (EvIo (OpCanonicalize p)) -> emits P (is_inside root p).
Proof. intros. unfold is_inside, canonicalize. walk. Qed.

Lemma is_inside_keeps root p : keeps (is_inside root p).
Proof. unfold is_inside, canonicalize. walk. Qed.

Lemma keep_inside_emits P root ps :
  (forall p, P (EvIo (OpCanonicalize p))) -> emits P (keep_inside root ps).
Proof. intros HP. induction ps; cbn; walk; auto using is_inside_emits. Qed.

Lemma keep_inside_keeps root ps : keeps (keep_inside root ps).
Proof. induction ps; cbn; walk; auto using is_inside_keeps. Qed.

Section WithProvider.
Context (p : Provider) `{!ProviderLaws p}.

Lemma first_accepted_emits P l s cs :
  (forall l d, P (EvProvider l (QLayout d))) -> emits P (first_accepted l s p cs).
Proof.
  intros HP. induction cs; cbn; walk; auto.
  eapply asks_emits; [apply layout_asks|]. by intros ? ? <-.
Qed.

Lemma first_accepted_keeps l s cs : keeps (first_accepted l s p cs).
Proof. induction cs; cbn; walk; auto. eapply asks_keeps, layout_asks. Qed.

Lemma scan_offline root l s : emits offline (scan root l s p).
Proof.
  unfold scan. walk; [by apply keep_inside_emits|by apply first_accepted_emits].
Qed.

Lemma scan_keeps root l s : keeps (scan root l s p).
Proof. unfold scan. walk; [apply keep_inside_keeps|apply first_accepted_keeps]. Qed.

Lemma without_network_offline l s : emits offline (without_network l s p).
Proof.
  unfold without_network. walk; [|apply scan_offline].
  eapply asks_emits; [apply detect_system_asks|]. by intros ? ? <-.
Qed.

Lemma without_network_keeps l s : keeps (without_network l s p).
Proof.
  unfold without_network. walk; [|apply scan_keeps]. eapply asks_keeps, detect_system_asks.
Qed.

End WithProvider.

(** Every provider the table can answer with keeps the trait's promises. *)
Definition lawful (registry : Registry) : Prop :=
  Forall (fun route => ProviderLaws (ro_provider route)) (routes registry).

Lemma lawful_provider registry l p :
  lawful registry -> Registry_provider registry l = Ok p -> ProviderLaws p.
Proof.
  intros Hl. unfold Registry_provider, find_route. destruct (Language_is_empty l); [done|].
  destruct (find _ _) as [route|] eqn:Hr; [|done]. intros [= <-].
  apply find_some in Hr as [Hr _]. unfold lawful in Hl. rewrite Forall_forall in Hl.
  apply Hl. by apply list_elem_of_In.
Qed.

Lemma resolve_fresh_probe registry request :
  lawful registry -> rr_install request = false ->
  emits offline (resolve_fresh registry request) /\ keeps (resolve_fresh registry request).
Proof.
  intros Hl Hi. unfold resolve_fresh. rewrite Hi. cbn [negb].
  destruct (Registry_provider registry _) as [p|e] eqn:Hp; [|split; walk].
  pose proof (lawful_provider _ _ _ Hl Hp). split; walk.
  - eapply asks_emits; [apply describe_asks|]. by intros ? ? <-.
  - by apply without_network_offline.
  - eapply asks_keeps, describe_asks.
  - by apply without_network_keeps.
Qed.

(** C40. Asking whether a language is ready commits nobody to anything: a request that
    forbids installing changes nothing on disk, opens no connection, takes no lock
    and asks its provider only what it is, what the host has and what a cached
    directory holds; a disabled language is not even looked at. *)
Theorem probe_is_offline (self : Resolver) (request : ResolveRequest) (w : World) :
  lawful (rv_registry self) -> rr_install request = false ->
  let '(_, w') := resolve self request w in
  w_fs w' = w_fs w
  /\ (rs_enabled (rr_settings request) = false -> w' = w)
  /\ exists new, w_log w' = new ++ w_log w /\ Forall offline new.
Proof.
  intros Hl Hi. destruct (resolve self request w) as [out w'] eqn:E. unfold resolve in E.
  destruct (rs_enabled _) eqn:Hen; cbn in E.
  2:{ injection E as _ <-. split_and!; [done|done|]. by exists []. }
  destruct (rv_resolved self !! _).
  { injection E as _ <-. split_and!; [done|done|]. by exists []. }
  unfold io_bind in E. destruct (resolve_fresh _ _ w) as [answer w1] eqn:Er.
  injection E as _ <-. destruct (resolve_fresh_probe _ _ Hl Hi) as [He Hk].
  split_and!; [by eapply Hk|done|by eapply He].
Qed.

(** What a resolution can answer: nothing is only ever the answer to a request
    that forbade installing; an answer is remembered under the request's key and
    nothing else in the memo changes; a refusal is never remembered. *)
Theorem resolve_remembers (self : Resolver) (request : ResolveRequest) (w : World) :
  let key := memo_key (rr_language request) (rr_settings request) in
  let '((answer, self'), w') := resolve self request w in
  rv_registry self' = rv_registry self
  /\ match answer with
     | Ok (Some resolved) =>
         rv_resolved self' = <[key := resolved]> (rv_resolved self)
         /\ forall later, resolve self' request later = ((Ok (Some resolved), self'), later)
     | Ok None => rr_install request = false /\ self' = self
     | Err _ => self' = self
     end.
Proof.
  cbn zeta. destruct (resolve self request w) as [[answer self'] w'] eqn:E. unfold resolve in E.
  destruct (rs_enabled _) eqn:Hen; cbn in E; [|by injection E as <- <- _].
  destruct (rv_resolved self !! _) as [existing|] eqn:Hkey.
  - injection E as <- <- _. split; [done|]. split.
    + symmetry. by apply insert_id.
    + intros later. unfold resolve. by rewrite Hen, Hkey.
  - unfold io_bind in E. destruct (resolve_fresh _ _ w) as [fresh w1] eqn:Er.
    injection E as <- <- _. destruct fresh as [[resolved|]|e]; cbn; split; try done.
    + split; [done|]. intros later. unfold resolve. rewrite Hen. cbn.
      by rewrite lookup_insert_eq.
    + split; [|done]. revert Er. unfold resolve_fresh, io_try.
      destruct (Registry_provider _ _); [|done]. destruct (describe _ w) as [[]]; [|done].
      destruct (verify_contract _ _); [|done].
      destruct (without_network _ _ _ _) as [[[]|]]; [done| |done].
      destruct (rr_install request); [|done]. cbn. unfold io_map.
      by destruct (install_run _ _ _ _) as [[]].
Qed.

End Facts.

(** ** The memo's key *)

Definition bar : ascii := "|"%char.

Lemma display_bool_bar b : contains_byte bar (display_bool b) = false.
Proof. by destruct b. Qed.

Definition bars_free (l : Language) (s : RuntimeSettings) : bool :=
  negb (contains_byte bar (as_str l) || contains_byte bar (rs_version s)
        || contains_byte bar (rs_maximum_version s) || contains_byte bar (rs_cache_dir s)
        || contains_byte bar (rs_release_tag s)).

(** One caller is never answered from another's resolution: as long as no
    language, version, cache directory or release tag contains the separator, two
    requests share a memo entry exactly when they agree on every setting that can
    change which toolchain is resolved. *)
Theorem memo_key_separates (l l' : Language) (s s' : RuntimeSettings) :
  bars_free l s = true -> bars_free l' s' = true ->
  memo_key l s = memo_key l' s' <->
  l = l' /\ rs_version s = rs_version s' /\ rs_maximum_version s = rs_maximum_version s'
  /\ rs_cache_dir s = rs_cache_dir s' /\ rs_release_tag s = rs_release_tag s'
  /\ rs_preferred_command s = rs_preferred_command s'
  /\ rs_prefer_system s = rs_prefer_system s'.
Proof.
  unfold bars_free. intros Hs Hs'. reflect_bools. destruct_and?. split.
  2:{ intros (-> & Hv & Hm & Hc & Hr & Hp & Hb). unfold memo_key.
      by rewrite Hv, Hm, Hc, Hr, Hp, Hb. }
  unfold memo_key. intros Heq.
  apply string_split_unique in Heq as [Hl Heq]; [|done..].
  apply string_split_unique in Heq as [Hv Heq]; [|done..].
  apply string_split_unique in Heq as [Hm Heq]; [|done..].
  apply string_split_unique in Heq as [Hc Heq]; [|done..].
  apply string_split_unique in Heq as [Hr Heq]; [|done..].
  apply string_split_last in Heq as [Hp Hb]; [|apply display_bool_bar..].
  split_and!; try done.
  - destruct l, l'; cbn in Hl; by subst.
  - by destruct (rs_prefer_system s), (rs_prefer_system s').
Qed.

(** ** Scanning the cache *)

Section Scan.
Context `{Env} `{Sha256} `{Unpackers}.
Context (p : Provider) `{!ProviderLaws p}.

(** Why a candidate can be passed over: it is not really inside the cache root, or
    the provider, asked about it, does not accept it. *)
Definition passed_over (root : Path) (s : RuntimeSettings) (m : fs) (c : Path) : Prop :=
  exists w0, w_fs w0 = m
    /\ ((is_inside root c w0).1 = false
        \/ forall la, (layout p (path_display c) s w0).1 <> Ok (Some la)).

Lemma keep_inside_spec root ps w kept w' :
  keep_inside root ps w = (kept, w') ->
  (forall c, c ∈ kept -> c ∈ ps /\ exists w0, w_fs w0 = w_fs w /\ (is_inside root c w0).1 = true)
  /\ (forall c, c ∈ ps -> c ∈ kept
        \/ exists w0, w_fs w0 = w_fs w /\ (is_inside root c w0).1 = false).
Proof.
  revert w kept. induction ps as [|c ps IH]; intros w kept; cbn.
  { intros [= <- _]. split; intros c Hc; by apply elem_of_nil in Hc. }
  unfold io_bind. destruct (is_inside root c w) as [inside w1] eqn:Ei.
  destruct (keep_inside root ps w1) as [rest w2] eqn:Ek. intros [= <- <-].
  pose proof (is_inside_keeps _ _ _ _ _ Ei) as Hfs. destruct (IH _ _ Ek) as [Hin Hout].
  rewrite Hfs in Hin, Hout. split.
  - intros d Hd. destruct inside; [apply elem_of_cons in Hd as [->|Hd]|].
    + split; [left|]. exists w. by rewrite Ei.
    + destruct (Hin d Hd). split; [by right|done].
    + destruct (Hin d Hd). split; [by right|done].
  - intros d [->|Hd]%elem_of_cons.
    + destruct inside; [left; left|]. right. exists w. by rewrite Ei.
    + destruct (Hout d Hd) as [?|?]; [left|by right]. destruct inside; [by right|done].
Qed.

Lemma first_accepted_spec l s cs w found w' :
  first_accepted l s p cs w = (found, w') ->
  match found with
  | Some rt => exists before c after la w0, cs = before ++ c :: after /\ rt = managed l c la
      /\ w_fs w0 = w_fs w /\ (layout p (path_display c) s w0).1 = Ok (Some la)
      /\ forall d, d ∈ before -> exists w1, w_fs w1 = w_fs w
           /\ forall la, (layout p (path_display d) s w1).1 <> Ok (Some la)
  | None => forall d, d ∈ cs -> exists w1, w_fs w1 = w_fs w
      /\ forall la, (layout p (path_display d) s w1).1 <> Ok (Some la)
  end.
Proof.
  revert w. induction cs as [|c cs IH]; intros w; cbn.
  { intros [= <- _] d Hd. by apply elem_of_nil in Hd. }
  unfold io_bind. destruct (layout p (path_display c) s w) as [answer w1] eqn:El.
  assert (w_fs w1 = w_fs w) as Hfs by (by destruct (layout_asks _ _ _ _ _ El)).
  assert ((forall la, answer <> Ok (Some la)) -> exists w1, w_fs w1 = w_fs w
           /\ forall la, (layout p (path_display c) s w1).1 <> Ok (Some la)) as Hno.
  { intros Hno. exists w. by rewrite El. }
  destruct answer as [[la|]|e].
  { intros [= <- _]. exists [], c, cs, la, w. rewrite El. split_and!; [done..|].
    intros d Hd. by apply elem_of_nil in Hd. }
  all: intros Hr%IH; specialize (Hno ltac:(done)); rewrite Hfs in Hr; destruct found as [rt|].
  1, 3: destruct Hr as (before & c' & after & la & w0 & -> & -> & Hw0 & Hla & Hb);
    exists (c :: before), c', after, la, w0; (split_and!; [done..|]);
    intros d [->|Hd]%elem_of_cons; eauto.
  all: intros d [->|Hd]%elem_of_cons; eauto.
Qed.

Lemma elem_of_listed_directories entries c :
  c ∈ listed_directories entries <-> Ok (c, Ok NDir) ∈ entries.
Proof.
  unfold listed_directories. rewrite list_elem_of_omap. split.
  - intros ([[q [[]|]]|] & Hin & Hq); simplify_eq. done.
  - intros Hin. by exists (Ok (c, Ok NDir)).
Qed.

Lemma is_inside_true root c w :
  (is_inside root c w).1 = true ->
  exists r q, canonical (w_fs w) root = Some r /\ canonical (w_fs w) c = Some q
              /\ path_starts_with q r = true.
Proof.
  unfold is_inside, io_bind, canonicalize. destruct (syscall _ _ w) as [r1 w1] eqn:E1.
  pose proof (syscall_reading_fs _ _ _ _ _ E1) as Hfs. apply syscall_inv in E1 as [_ H1'].
  destruct (syscall _ _ w1) as [r2 w2] eqn:E2. apply syscall_inv in E2 as [_ H2'].
  destruct r1 as [r|]; [|done]. destruct r2 as [q|]; [|done]. cbn. intros Hs.
  unfold reading, result_map, ok_or in *. rewrite Hfs in H2'.
  destruct (canonical (w_fs w) root); [|done]. destruct (canonical (w_fs w) c); [|done].
  injection H1' as <- _. injection H2' as <- _. eauto.
Qed.

(** The candidates are tried from the greatest down. *)
Lemma greater_tried_first cs before c after d :
  rev (path_sort cs) = before ++ c :: after -> d ∈ cs -> path_le c d -> d <> c -> d ∈ before.
Proof.
  intros Hrev Hd Hle Hne. apply elem_of_path_sort in Hd.
  pose proof (StronglySorted_merge_sort path_le cs) as Hs. fold (path_sort cs) in Hs.
  apply (f_equal (@rev Path)) in Hrev. rewrite rev_involutive, rev_app_distr in Hrev. cbn in Hrev.
  rewrite Hrev in Hd, Hs. rewrite <- app_assoc in Hs, Hd. cbn in Hs, Hd.
  apply elem_of_app in Hd as [Hd|[->|Hd]%elem_of_cons]; [|done|by apply elem_of_rev].
  exfalso. apply Hne. apply (anti_symm path_le); [|done].
  eapply StronglySorted_app_1_elem_of; [exact Hs|done|left].
Qed.

(** C37. Reusing an installed toolchain is sound and deterministic: what the scan
    answers with is a real directory directly in the cache root (no link, no staging
    directory), resolved inside that root, which the provider accepted for these
    settings; every directory that sorts after it was tried before it and passed
    over; and it finds nothing only when every one was passed over. *)
Theorem scan_finds_the_greatest (root : Path) (l : Language) (s : RuntimeSettings) (w : World) :
  let '(found, w') := scan root l s p w in
  w_fs w' = w_fs w
  /\ match (read_dir root w).1 with
     | Err _ => found = None
     | Ok entries =>
         match found with
         | Some rt =>
             exists c la, rt = managed l c la
               /\ Ok (c, Ok NDir) ∈ entries /\ is_staging c = false
               /\ (exists r q, canonical (w_fs w) root = Some r /\ canonical (w_fs w) c = Some q
                              /\ path_starts_with q r = true)
               /\ (exists w0, w_fs w0 = w_fs w
                             /\ (layout p (path_display c) s w0).1 = Ok (Some la))
               /\ forall d, Ok (d, Ok NDir) ∈ entries -> is_staging d = false -> path_le c d ->
                           d = c \/ passed_over root s (w_fs w) d
         | None =>
             forall d, Ok (d, Ok NDir) ∈ entries -> is_staging d = false ->
                       passed_over root s (w_fs w) d
         end
     end.
Proof.
  destruct (scan root l s p w) as [found w'] eqn:E. split; [by eapply scan_keeps|].
  unfold scan, io_bind in E. destruct (read_dir root w) as [[entries|e] w1] eqn:Er; cbn.
  2:{ by injection E as <- _. }
  pose proof (keeps_read_dir _ _ _ _ Er) as Hfs1.
  destruct (keep_inside root _ w1) as [kept w2] eqn:Ek.
  pose proof (keep_inside_keeps _ _ _ _ _ Ek) as Hfs2.
  destruct (keep_inside_spec _ _ _ _ _ Ek) as [Hin Hout]. rewrite Hfs1 in Hfs2, Hin, Hout.
  apply first_accepted_spec in E. rewrite Hfs2 in E.
  assert (forall d, Ok (d, Ok NDir) ∈ entries -> is_staging d = false ->
            d ∈ kept \/ passed_over root s (w_fs w) d) as Hcase.
  { intros d Hd Hst. destruct (Hout d) as [?|(w0 & ? & ?)]; [|by left|right].
    - apply list_elem_of_filter. split; [done|]. by apply elem_of_listed_directories.
    - exists w0. eauto. }
  destruct found as [rt|].
  - destruct E as (before & c & after & la & w0 & Hrev & -> & Hw0 & Hla & Hb).
    assert (c ∈ kept) as Hc.
    { apply elem_of_path_sort, elem_of_rev. rewrite Hrev. apply elem_of_app. right. left. }
    destruct (Hin c Hc) as [Hc' (w3 & Hw3 & Hi)].
    apply list_elem_of_filter in Hc' as [Hst Hc'%elem_of_listed_directories].
    apply is_inside_true in Hi. rewrite Hw3 in Hi.
    exists c, la. split_and!; [done..|eauto|].
    intros d Hd Hdst Hle. destruct (decide (d = c)) as [|Hne]; [by left|right].
    destruct (Hcase d Hd Hdst) as [Hk|]; [|done].
    destruct (Hb d) as (w4 & ? & ?); [by eapply greater_tried_first|]. exists w4. eauto.
  - intros d Hd Hst. destruct (Hcase d Hd Hst) as [Hk|]; [|done].
    destruct (E d) as (w4 & ? & ?); [by apply elem_of_rev, elem_of_path_sort|]. exists w4. eauto.
Qed.

End Scan.

(** ** Installing *)

Definition is_get (e : event) : bool := match e with EvHttpGet _ _ => true | _ => false end.

(** An event of the provisioning itself: a transfer, or a change to files. *)
Definition provisioning (e : event) : bool :=
  match e with
  | EvHttpGet _ _ | EvUnpack _ _ => true
  | EvIo (OpCreate _ | OpWrite _ _ | OpRename _ _ | OpRemoveFile _ | OpRemoveDirAll _
          | OpSetPermissions _ _) => true
  | _ => false
  end.

Definition quiet (e : event) : Prop := provisioning e = false.

#[local] Hint Extern 0 (quiet _) => reflexivity : rust.
#[local] Hint Extern 0 (~ is_get _ = true) => done : rust.

Section InstallFacts.
Context `{Env} `{Sha256} `{Unpackers}.

Lemma storage_emits {A} P (m : io World (result io_error A)) : emits P m -> emits P (storage m).
Proof. apply emits_map. Qed.

Lemma fetch_one_get d t l : counts (fun e => is_get e = true) 1 (fetch d t l).
Proof.
  unfold fetch, stream_to_file. apply (counts_try _ 0 1).
  { apply counts_none. destruct (parent t); unfold storage, create_dir_all; walk. }
  intros _. apply (counts_bind _ 1 0).
  - apply (counts_bind _ 1 0).
    + apply counts_one with (EvHttpGet (di_url d) (USER_AGENT :: di_headers d)).
      by intros w a w' [= _ <-].
    + intros [e|chunks]; apply counts_none; [walk|].
      unfold storage, create_file, flush. walk.
      generalize (Sha256_new). induction chunks as [|[c|e] rest IH]; intros h; cbn;
        unfold storage, write_all; walk; auto.
  - intros answer. apply counts_none. unfold remove_partial, remove_file. walk.
Qed.

Lemma extract_gets_nothing a s f l : emits (fun e => ~ is_get e = true) (extract a s f l).
Proof.
  unfold extract, blocking_run, create_dir_all. apply emits_bind; [|intros; walk].
  apply emits_spawn_blocking; [done|]. apply emits_try; [walk|]. intros _. apply emits_try.
  - apply emits_map.
    assert (forall dec, emits (fun e => ~ is_get e = true)
              (file <-? open_file a ;; unpack_tar dec a file s)) as Htar.
    { intros dec. apply emits_try; [unfold open_file; walk|]. intros bytes w r w'.
      unfold unpack_tar. destruct (tar_unpack _ _ _ _). intros [= _ <-].
      exists [EvUnpack a s]. split; [done|]. by constructor. }
    destruct f; [apply Htar|apply Htar|]. unfold zip, open_file. walk.
    induction a1 as [|[entry|e] rest IH]; cbn; [walk| |walk].
    apply emits_try; [|done]. unfold zip_entry_unpack, create_dir_all_through, create_file_through, io_copy,
      write_all, set_permissions. walk.
  - intros _. unfold single_root. walk.
Qed.

Lemma promote_gets_nothing s d l : emits (fun e => ~ is_get e = true) (promote s d l).
Proof.
  unfold promote, blocking_run, promote_blocking, displace, land, create_dir_all, exists_path, rename.
  apply emits_bind; [|intros; walk]. apply emits_spawn_blocking; [done|]. walk.
Qed.

Lemma discard_gets_nothing q : emits (fun e => ~ is_get e = true) (discard q).
Proof. unfold discard. walk. Qed.

Lemma remove_archive_gets_nothing q : emits (fun e => ~ is_get e = true) (remove_archive q).
Proof. unfold remove_archive, remove_file. walk. Qed.

Lemma provision_one_get root d dist l :
  counts (fun e => is_get e = true) 1 (provision root d dist l).
Proof.
  unfold provision. apply (counts_try _ 1 0); [apply fetch_one_get|]. intros _.
  apply counts_none. unfold staging_dir. walk;
    auto using discard_gets_nothing, extract_gets_nothing, remove_archive_gets_nothing,
      promote_gets_nothing.
Qed.

Lemma InstallLock_acquire_ok d l w lock w' :
  InstallLock_acquire d l w = (Ok lock, w') ->
  lock = lock_path d
  /\ exists before, w_log w' = EvIo (OpLock lock) :: before ++ w_log w /\ Forall quiet before.
Proof.
  intros E.
  apply io_try_inv_ok in E as (u & w1 & E1 & E).
  unfold blocking_run, io_bind, spawn_blocking in E.
  destruct (env_join_error _); [done|].
  match type of E with
  | context [io_try ?m ?k ?w0] => destruct (io_try m k w0) as [[path|e] w2] eqn:E2
  end; [|done].
  injection E as <- <-.
  apply io_try_inv_ok in E2 as (u2 & w3 & E3 & E2). apply io_try_inv_ok in E2 as (u4 & w4 & E4 & [= <- <-]).
  split; [done|].
  assert (exists n1, w_log w1 = n1 ++ w_log w /\ Forall quiet n1) as (n1 & L1 & F1).
  { destruct (parent (lock_path d)); [|injection E1 as _ <-; by exists []].
    unfold io_map in E1. destruct (create_dir_all p w) as [r1 w1'] eqn:Ec. injection E1 as _ <-.
    apply syscall_inv in Ec as [-> _]. eexists [_]. split; [done|]. by repeat constructor. }
  unfold io_map in E3. destruct (open_lock _ _) as [r3 w3'] eqn:Eo. injection E3 as _ <-.
  apply syscall_inv in Eo as [Lo _].
  unfold io_map, lock_exclusive in E4. rewrite Lo in E4. cbn in E4.
  exists (EvIo (OpOpenLock (lock_path d)) :: EvBlocking :: n1). split.
  - destruct (env_fault _); [done|]. injection E4 as _ <-. cbn. by rewrite L1.
  - by repeat constructor.
Qed.

Lemma InstallLock_acquire_quiet d l : emits quiet (InstallLock_acquire d l).
Proof.
  unfold InstallLock_acquire, blocking_run, create_dir_all, open_lock. apply emits_try; [walk|].
  intros _. apply emits_bind; [|intros; walk]. apply emits_spawn_blocking; [done|]. walk.
Qed.

Context (p : Provider) `{!ProviderLaws p}.

Lemma asks_quiet {A} k (m : io World A) : asks (eq k) m -> emits quiet m.
Proof. intros Hm. eapply asks_emits; [exact Hm|]. done. Qed.

Lemma asks_not_get {A} k (m : io World A) : asks (eq k) m -> emits (fun e => ~ is_get e = true) m.
Proof. intros Hm. eapply asks_emits; [exact Hm|]. by intros ? ? _. Qed.

Lemma install_locked_one_get root d dist l s :
  counts (fun e => is_get e = true) 1 (install_locked root d dist l s p).
Proof.
  unfold install_locked. apply (counts_try _ 0 1).
  { eapply counts_none, asks_not_get, layout_asks. }
  intros [la|]; [eapply counts_weaken with 0%nat; [lia|]; apply counts_none; walk|].
  apply (counts_try _ 1 0); [apply provision_one_get|]. intros _. apply counts_none. walk.
  eapply asks_not_get, layout_asks.
Qed.

Lemma filter_quiet_gets new : Forall quiet new -> filter (fun e => is_get e = true) new = [].
Proof.
  induction 1 as [|e new He _ IH]; [done|]. rewrite filter_cons_False; [done|].
  unfold quiet in He. by destruct e as [[]| | | | |].
Qed.

(** C36. Two installs of one toolchain never both do the work: whatever an install
    transfers or changes on disk happens between taking and releasing the lock of
    its directory, and only after the provider, asked again with the lock held, said
    the toolchain was still not there; at most one archive is requested. *)
Theorem install_is_serialised (l : Language) (s : RuntimeSettings) (w : World) :
  let '(_, w') := install_run l s p w in
  exists new, w_log w' = new ++ w_log w
    /\ (length (filter (fun e => is_get e = true) new) <= 1)%nat
    /\ (Forall quiet new
        \/ exists dir inside before w1,
             new = EvUnlock (lock_path dir) :: inside ++ EvIo (OpLock (lock_path dir)) :: before
             /\ Forall quiet before
             /\ w_log w1 = EvIo (OpLock (lock_path dir)) :: before ++ w_log w
             /\ (layout p (path_display dir) s w1).1 = Ok None).
Proof.
  destruct (install_run l s p w) as [r w'] eqn:E.
  assert (forall w1, (exists new, w_log w1 = new ++ w_log w /\ Forall quiet new) ->
    exists new, w_log w1 = new ++ w_log w
      /\ (length (filter (fun e => is_get e = true) new) <= 1)%nat /\ Forall quiet new) as Hquiet.
  { intros w1 (new & L & F). exists new. rewrite (filter_quiet_gets _ F). split_and!; [done|cbn; lia|done]. }
  unfold install_run, io_try at 1 in E.
  destruct (select_distribution p s w) as [[dist|e] w1] eqn:E1.
  all: apply (asks_quiet _ _ (select_distribution_asks s)) in E1 as (n1 & L1 & F1).
  2:{ injection E as _ <-. destruct (Hquiet w1) as (new & ? & ? & ?); eauto 10. }
  unfold io_try at 1 in E. destruct (ensure_root _ w1) as [[[]|e] w2] eqn:E2.
  all: assert (emits quiet (ensure_root (cache_root (settings_cache_dir s) l))) as He
         by (unfold ensure_root, create_dir_all; walk).
  all: apply He in E2 as (n2 & L2 & F2).
  2:{ injection E as _ <-. destruct (Hquiet w2) as (new & ? & ? & ?); [|eauto 10].
      exists (n2 ++ n1). rewrite L2, L1, app_assoc. split; [done|by apply Forall_app]. }
  set (dir := path_join _ _) in E. unfold io_try at 1 in E.
  destruct (InstallLock_acquire dir l w2) as [[lock|e] w3] eqn:E3.
  2:{ injection E as _ <-. apply InstallLock_acquire_quiet in E3 as (n3 & L3 & F3).
      destruct (Hquiet w3) as (new & ? & ? & ?); [|eauto 10].
      exists (n3 ++ n2 ++ n1). rewrite L3, L2, L1, !app_assoc. split; [done|].
      rewrite !Forall_app. done. }
  apply InstallLock_acquire_ok in E3 as (-> & before & L3 & F3).
  unfold io_bind at 1 in E. destruct (install_locked _ _ _ _ _ _ w3) as [res w4] eqn:E4.
  injection E as _ <-. cbn.
  destruct (install_locked_one_get _ _ _ _ _ _ _ _ E4) as (n4 & L4 & C4).
  set (all := before ++ n2 ++ n1).
  assert (Forall quiet all) as Fall by (subst all; rewrite !Forall_app; done).
  assert (w_log w3 = EvIo (OpLock (lock_path dir)) :: all ++ w_log w) as L3'.
  { subst all. rewrite L3, L2, L1. by rewrite <- !app_assoc. }
  exists (EvUnlock (lock_path dir) :: n4 ++ EvIo (OpLock (lock_path dir)) :: all). split_and!.
  - rewrite L4, L3'. cbn. by rewrite <- app_assoc.
  - rewrite filter_cons_False by done. rewrite filter_app, filter_cons_False by done.
    rewrite (filter_quiet_gets _ Fall), app_nil_r. done.
  - unfold install_locked, io_try in E4.
    destruct (layout p (path_display dir) s w3) as [[[la|]|e] w5] eqn:E5.
    2:{ right. exists dir, n4, all, w3. rewrite E5. eauto. }
    all: left; injection E4 as _ <-; apply (asks_quiet _ _ (layout_asks _ _)) in E5 as (n5 & L5 & F5);
      rewrite L5 in L4; apply app_inv_tail in L4 as <-;
      (constructor; [done|]); apply Forall_app; (split; [done|]); by constructor.
Qed.

End InstallFacts.

(** ** A failed install *)

Lemma siblings_apart root x y rx ry : x <> y -> apart (below root (x :: rx)) (below root (y :: ry)).
Proof.
  assert (forall x y rx ry, x <> y -> under (below root (x :: rx)) (below root (y :: ry)) = false)
    as Hone; [|by split; auto].
  clear. intros x y rx ry Hne. apply not_true_iff_false. intros [rel Heq]%under_spec.
  unfold below in Heq. cbn in Heq. injection Heq as Heq. rewrite <- app_assoc in Heq.
  apply app_inv_head in Heq. cbn in Heq. congruence.
Qed.

Section FailedInstall.
Context `{Env} `{Hsha : Sha256} `{Hun : Unpackers} `{!UnpackersLaws Hun}.

(** A staging directory is filed under its own kind of name. *)
Lemma staging_name_path uuid :
  exists x rest, Path_new (staging_name env_pid uuid) = MkPath false (x :: rest)
                 /\ starts_with STAGING_PREFIX x = true.
Proof.
  unfold staging_name. destruct (split_on_prefix "/" STAGING_PREFIX
    (display_u64 env_pid +:+ "-" +:+ uuid) eq_refl) as (x & rest & Hs).
  exists (STAGING_PREFIX +:+ x), (filter (fun q => q <> "" /\ q <> ".") rest).
  split; [|apply starts_with_app]. unfold Path_new. rewrite Hs.
  rewrite filter_cons_True; [done|]. by split.
Qed.

Lemma staging_dir_apart root name w :
  starts_with STAGING_PREFIX name = false ->
  apart (below root [name]) (staging_dir root w).1.
Proof.
  intros Hname. cbn. destruct (staging_name_path (env_uuid (w_log w))) as (x & rest & -> & Hx).
  assert (path_join root (MkPath false (x :: rest)) = below root (x :: rest)) as ->.
  { destruct root as [r names]. apply path_join_names; [done|]. cbn. intros [= ->]. done. }
  apply siblings_apart. congruence.
Qed.

(** The names an install uses in the cache root: distinct, and none a staging name. *)
Record install_names (root install_dir : Path) (dist : Distribution) := {
  in_dir : string; in_archive : string; in_aside : string;
  in_dir_path : install_dir = below root [in_dir];
  in_archive_path : path_join root (Path_new (di_archive_name dist)) = below root [in_archive];
  in_aside_path : aside_path install_dir = below root [in_aside];
  in_distinct : in_dir <> in_archive /\ in_dir <> in_aside /\ in_archive <> in_aside;
  in_not_staging : starts_with STAGING_PREFIX in_dir = false
                   /\ starts_with STAGING_PREFIX in_aside = false
}.

(** What lies below [q] is unaffected by work below an apart path. *)
Lemma discard_same_tree s q w u w' :
  apart q s -> discard s w = (u, w') -> same_tree_at q (w_fs w) (w_fs w').
Proof.
  intros Ha. unfold discard, io_bind. destruct (remove_dir_all s w) as [r w1] eqn:E.
  intros [= _ <-] rel. eapply remove_dir_all_frame; [exact E|].
  apply (apart_under q); [done|apply under_below].
Qed.

Lemma remove_archive_same_tree a q w u w' :
  apart q a -> remove_archive a w = (u, w') -> same_tree_at q (w_fs w) (w_fs w').
Proof.
  intros Ha. unfold remove_archive, io_bind. destruct (remove_file a w) as [r w1] eqn:E.
  intros [= _ <-] rel. eapply remove_file_frame; [exact E|]. intros <-.
  destruct Ha as [Ha _]. by rewrite under_below in Ha.
Qed.

Lemma same_tree_trans q m1 m2 m3 :
  same_tree_at q m1 m2 -> same_tree_at q m2 m3 -> same_tree_at q m1 m3.
Proof. intros H12 H23 rel. by rewrite H23, H12. Qed.

Lemma fetch_same_tree d t l q w r w' :
  apart q t -> fetch d t l w = (r, w') -> same_tree_at q (w_fs w) (w_fs w').
Proof.
  intros [Hqt Htq] E rel. pose proof (fetch_failure_spec d t l w) as Hf. rewrite E in Hf.
  destruct Hf as [Hf _]. apply Hf.
  - intros Heq. by rewrite <- Heq, under_below in Hqt.
  - apply not_true_iff_false. intros Hu. apply not_true_iff_false in Hqt. apply Hqt.
    eapply under_trans; [apply under_below|exact Hu].
Qed.

Lemma extract_same_tree a s f l q w r w' :
  apart q s -> unlinked s (w_fs w) -> extract a s f l w = (r, w') -> same_tree_at q (w_fs w) (w_fs w').
Proof.
  intros Hap Hu E rel. pose proof (extract_spec a s f l w Hu) as Hf. rewrite E in Hf.
  destruct Hf as [Hf _]. destruct (Hf (below q rel)) as [?|(Hin & _)]; [|done|].
  - apply (apart_under q); [done|apply under_below].
  - apply elem_of_ancestors in Hin. destruct Hap as [Hap _].
    rewrite (under_trans q (below q rel) s) in Hap; [done|apply under_below|done].
Qed.

(** Neither a download nor a removal makes a link. *)
Definition makes_no_link {A} (m : io World A) : Prop :=
  forall w r w', m w = (r, w') -> adds_no_link (w_fs w) (w_fs w').

Lemma keeps_no_link {A} (m : io World A) : keeps m -> makes_no_link m.
Proof. intros Hm w r w' E q t. by rewrite (Hm _ _ _ E). Qed.

Lemma bind_no_link {A B} (m : io World A) (k : A -> io World B) :
  makes_no_link m -> (forall a, makes_no_link (k a)) -> makes_no_link (io_bind m k).
Proof.
  intros Hm Hk w r w'. unfold io_bind. destruct (m w) as [a w1] eqn:E. intros Hr q t Hq.
  by eapply Hm, Hk.
Qed.

Lemma map_no_link {A B} (f : A -> B) (m : io World A) : makes_no_link m -> makes_no_link (io_map f m).
Proof. intros Hm w r w'. unfold io_map. destruct (m w) as [a w1] eqn:E. intros [= _ <-]. by eapply Hm. Qed.

Lemma try_no_link {X A B} (m : io World (result X A)) (k : A -> io World (result X B)) :
  makes_no_link m -> (forall a, makes_no_link (k a)) -> makes_no_link (io_try m k).
Proof.
  intros Hm Hk w r w'. unfold io_try. destruct (m w) as [[a|e] w1] eqn:E.
  - intros Hr q t Hq. by eapply Hm, Hk.
  - intros [= _ <-]. by eapply Hm.
Qed.

(** A call that writes a file, or makes a directory. *)
Lemma syscall_no_link {A} op (act : fs -> result io_error (A * fs)) :
  (forall m a m', act m = Ok (a, m') -> adds_no_link m m') -> makes_no_link (syscall op act).
Proof.
  intros Hact w r w' [_ Hr]%syscall_inv. destruct r; [by eapply Hact|]. rewrite Hr. by intros q t.
Qed.

Lemma insert_no_link (m : fs) p n : (forall t, n <> NLink t) -> adds_no_link m (<[p := n]> m).
Proof. intros Hn q t [[_ ?]|[_ ?]]%lookup_insert_Some; [by destruct (Hn t)|done]. Qed.

Lemma create_dir_all_no_link p : makes_no_link (create_dir_all p).
Proof.
  intros w r w' E q t Hq. destruct (w_fs w !! q) as [n|] eqn:Hn.
  - by rewrite (create_dir_all_keeps _ _ _ _ _ _ E Hn) in Hq.
  - destruct (create_dir_all_new _ _ _ _ _ E Hn); congruence.
Qed.

Lemma create_file_no_link p : makes_no_link (create_file p).
Proof.
  intros w [u|e] w' E; [|apply syscall_inv in E as [_ ->]; by intros q t].
  apply create_file_ok in E as ->. by apply insert_no_link.
Qed.

Lemma write_all_no_link p bytes : makes_no_link (write_all p bytes).
Proof.
  intros w [u|e] w' E; [|apply syscall_inv in E as [_ ->]; by intros q t].
  apply write_all_ok in E as (old & _ & ->). by apply insert_no_link.
Qed.

Lemma remove_file_no_link p : makes_no_link (remove_file p).
Proof.
  apply syscall_no_link. intros m a m'. unfold changing, result_map, remove_leaf.
  destruct (m !! p) as [[]|]; intros [= _ <-] q t; rewrite ?lookup_delete_Some; tauto.
Qed.

Lemma remove_dir_all_no_link p : makes_no_link (remove_dir_all p).
Proof.
  intros w r w' E q t. revert E. unfold remove_dir_all, remove_tree.
  destruct (env_fault _); [|destruct (w_fs w !! p) as [[| |]|]];
    intros [= _ <-]; cbn; rewrite ?map_lookup_filter_Some, ?lookup_delete_Some; tauto.
Qed.

Lemma stream_chunks_no_link t l chunks h : makes_no_link (stream_chunks t l chunks h).
Proof.
  revert h. induction chunks as [|[c|e] rest IH]; intros h; cbn;
    [by apply keeps_no_link, keeps_ret| |by apply keeps_no_link, keeps_ret].
  apply try_no_link; [apply map_no_link, write_all_no_link|by intros _].
Qed.

Lemma fetch_no_link d t l : makes_no_link (fetch d t l).
Proof.
  assert (forall u, makes_no_link (_ <-- remove_partial t ;; io_ret (u : result Error unit))) as Hpartial.
  { intros u. apply bind_no_link; [|intros _; apply keeps_no_link, keeps_ret].
    apply bind_no_link; [apply remove_file_no_link|intros _; apply keeps_no_link, keeps_ret]. }
  unfold fetch. apply try_no_link.
  { destruct (parent t); [apply map_no_link, create_dir_all_no_link|apply keeps_no_link, keeps_ret]. }
  intros _. apply bind_no_link.
  - unfold stream_to_file. apply bind_no_link; [by intros w r w' [= _ <-] q x|].
    intros [e|chunks]; [apply keeps_no_link, keeps_ret|].
    apply try_no_link; [apply map_no_link, create_file_no_link|intros _].
    apply try_no_link; [apply stream_chunks_no_link|intros h].
    apply try_no_link; [|intros _; apply keeps_no_link, keeps_ret].
    apply map_no_link, keeps_no_link. intros w r w' E. by eapply flush_fs.
  - intros [digest|e]; [|apply Hpartial]. destruct (di_expected_sha256 d); [|apply keeps_no_link, keeps_ret].
    destruct (negb _); [apply Hpartial|apply keeps_no_link, keeps_ret].
Qed.

Lemma discard_no_link s : makes_no_link (discard s).
Proof. apply bind_no_link; [apply remove_dir_all_no_link|intros _; apply keeps_no_link, keeps_ret]. Qed.

(** The tidying up at the end of a provisioning. *)
Lemma tidied_same_tree {A} (q staging archive : Path) (a r : A) w w' :
  (_ <-- discard staging ;; _ <-- remove_archive archive ;; io_ret a) w = (r, w') ->
  apart q staging -> apart q archive -> r = a /\ same_tree_at q (w_fs w) (w_fs w').
Proof.
  unfold io_bind. destruct (discard staging w) as [u w1] eqn:E1.
  destruct (remove_archive archive w1) as [v w2] eqn:E2. intros [= <- <-] Hs Ha. split; [done|].
  eapply same_tree_trans; [eapply discard_same_tree; [|exact E1]|eapply remove_archive_same_tree; [|exact E2]]; done.
Qed.

(** C34. A failed upgrade leaves the working toolchain.  Provisioning, from the
    download to the clean-up, whatever fails and wherever, ends in one of three
    ways: it succeeds, and the install directory holds, whole, the one directory
    the archive unpacked to; it fails and the install directory is exactly what it
    was; or a failure was followed by a failure to restore, the error says so, and
    the previous toolchain is whole at the path it was moved aside to. The names of
    the install are the root's own ([install_names]), and no link is on the way to the
    staging directory or in it, whose name is a fresh one ([staged]): unpacking follows
    links. *)
Theorem provision_is_all_or_nothing (root d : Path) (dist : Distribution) (l : Language)
    (w : World) (names : install_names root d dist)
    (staged : forall log, unlinked (staging_dir root (MkWorld (w_fs w) log)).1 (w_fs w)) :
  let '(r, w') := provision root d dist l w in
  match r with
  | Ok _ =>
      exists staging unpacked w0 w1,
        extract (path_join root (Path_new (di_archive_name dist))) staging (di_format dist) l w0
          = (Ok unpacked, w1)
        /\ moved_tree unpacked d (w_fs w1) (w_fs w')
  | Err e =>
      same_tree_at d (w_fs w) (w_fs w')
      \/ unrestored l e /\ moved_tree d (aside_path d) (w_fs w) (w_fs w')
  end.
Proof.
  destruct names as [dn an xn Hd Ha Hx (Hda & Hdx & Hax) [Hds Hxs]].
  destruct (provision root d dist l w) as [r w'] eqn:E. unfold provision in E.
  rewrite Ha in E |- *. unfold io_try in E.
  assert (apart d (below root [an])) as Hd_a by (rewrite Hd; by apply siblings_apart).
  assert (apart (aside_path d) (below root [an])) as Hx_a.
  { rewrite Hx. apply siblings_apart. congruence. }
  assert (apart d (aside_path d)) as Hd_x by (rewrite Hx, Hd; by apply siblings_apart).
  destruct (fetch dist _ l w) as [[[]|e] w1] eqn:E1.
  all: pose proof (fetch_same_tree _ _ _ d _ _ _ Hd_a E1) as F1.
  2:{ injection E as <- <-. by left. }
  unfold io_bind in E at 1. destruct (staging_dir root w1) as [s w1'] eqn:Es.
  assert (w1' = w1) as -> by (by injection Es).
  assert (apart d s) as Hd_s.
  { rewrite Hd. pose proof (staging_dir_apart root dn w1 Hds) as Hst. by rewrite Es in Hst. }
  assert (apart (aside_path d) s) as Hx_s.
  { rewrite Hx. pose proof (staging_dir_apart root xn w1 Hxs) as Hst. by rewrite Es in Hst. }
  unfold io_bind in E at 1. destruct (discard s w1) as [u w2] eqn:E2.
  pose proof (discard_same_tree _ d _ _ _ Hd_s E2) as F2.
  assert (unlinked s (w_fs w2)) as Hs_real.
  { eapply unlinked_kept; [exact (discard_no_link _ _ _ _ E2)|].
    eapply unlinked_kept; [exact (fetch_no_link _ _ _ _ _ _ E1)|].
    injection Es as <-. apply (staged (w_log w1)). }
  unfold io_bind in E at 1. destruct (extract _ s _ l w2) as [[unpacked|e] w3] eqn:E3.
  all: pose proof (extract_same_tree _ _ _ _ d _ _ _ Hd_s Hs_real E3) as F3.
  all: pose proof (same_tree_trans _ _ _ _ F1 (same_tree_trans _ _ _ _ F2 F3)) as F123.
  2:{ apply (tidied_same_tree d) in E as [-> F]; [|done..]. left. by eapply same_tree_trans. }
  unfold io_bind in E at 1. destruct (promote unpacked d l w3) as [promoted w4] eqn:E4.
  assert (r = promoted) as -> by by eapply (tidied_same_tree d) in E as [-> _].
  assert (forall q, apart q s -> apart q (below root [an]) -> same_tree_at q (w_fs w4) (w_fs w')) as F46.
  { intros q Hs Haa. by apply (tidied_same_tree q) in E as [_ F]. }
  destruct (extract_inside _ _ _ _ _ _ _ E3) as [name Hun'].
  assert (apart unpacked d) as Hud.
  { subst unpacked. apply (apart_below s); [by apply apart_sym|apply under_below]. }
  assert (apart unpacked (aside_path d)) as Hux.
  { subst unpacked. apply (apart_below s); [by apply apart_sym|apply under_below]. }
  pose proof (promote_spec unpacked d l w3 Hud Hux Hd_x) as Hp. rewrite E4 in Hp.
  destruct promoted as [[]|e].
  - exists s, unpacked, w2, w3. split; [done|]. intros q. rewrite <- Hp.
    by apply (F46 d).
  - destruct Hp as [_ [Hp|[Hu Hp]]]; [left|right].
    + eapply same_tree_trans; [exact F123|]. eapply same_tree_trans; [exact Hp|]. by apply F46.
    + split; [done|]. intros q. rewrite (F46 _ Hx_s Hx_a q), (Hp q). apply F123.
Qed.

End FailedInstall.

(** ** The properties at work *)

(** Two requests the memo cannot tell apart: a separator moved from one field to
    the next. *)
Example memo_keys_collide :
  let s v m := MkRuntimeSettings true true v m "" "" "" in
  memo_key Language_nodejs (s "22|" "") = memo_key Language_nodejs (s "22" "|").
Proof. vm_compute. reflexivity. Qed.

Section Samples.
Let answer := HttpBody [Ok "zip"].
Let env := sample_env [] answer.
(** Accepts a directory once it holds [bin/node]. *)
Let node : Provider :=
  sample_provider Language_nodejs (Ok (ProviderDescriptor_new Language_nodejs "Node.js" "22")) None
    (with_install_dir_name "node" (Distribution_new "22" "node.zip" "https://x/node.zip" Zip))
    (fun d w => match w_fs w !! Path_new (d +:+ "/bin/node") with
                | Some _ => Ok (Some (RuntimeLayout_new "22" (d +:+ "/bin")))
                | None => Ok None
                end).
Let node_laws : ProviderLaws node := sample_provider_laws _ _ _ _ _.
Let table := register Language_nodejs "n" node Registry_new.
Let self := Resolver_new table.
Let settings := MkRuntimeSettings true true "22" "" "/c" "" "".
Let empty := MkWorld (list_to_map [(Path_new "/c", NDir)]) [].
Let stocked := MkWorld (list_to_map
  [(Path_new "/c", NDir); (Path_new "/c/a", NDir); (Path_new "/c/a/bin/node", NFile "");
   (Path_new "/c/b", NDir); (Path_new "/c/b/bin/node", NFile "");
   (Path_new "/c/z", NLink (Path_new "/c/a"))]) [].

Let ask install w :=
  @resolve env sample_sha256 sample_unpackers self
    (MkResolveRequest Language_nodejs settings install) w.

(** Installing from nothing ends with the archive unpacked in place. *)
Example resolve_installs :
  (ask true empty).1.1
    = Ok (Some (managed Language_nodejs (Path_new "/c/node") (RuntimeLayout_new "22" "/c/node/bin")))
  /\ w_fs (ask true empty).2 !! Path_new "/c/node/bin/node" = Some (NFile "elf").
Proof. vm_compute. done. Qed.

Lemma probe_is_offline_witness :
  (ask false empty).1.1 = Ok None
  /\ let '(_, w') := ask false empty in
     w_fs w' = w_fs empty
     /\ (rs_enabled settings = false -> w' = empty)
     /\ exists new, w_log w' = new ++ w_log empty /\ Forall offline new.
Proof.
  split; [vm_compute; reflexivity|].
  apply (@probe_is_offline env sample_sha256 sample_unpackers self
           (MkResolveRequest Language_nodejs settings false) empty); [|reflexivity].
  constructor; [apply sample_provider_laws|constructor].
Defined.

Lemma memo_key_separates_witness :
  memo_key Language_nodejs settings = memo_key Language_python settings <->
  Language_nodejs = Language_python /\ rs_version settings = rs_version settings
  /\ rs_maximum_version settings = rs_maximum_version settings
  /\ rs_cache_dir settings = rs_cache_dir settings
  /\ rs_release_tag settings = rs_release_tag settings
  /\ rs_preferred_command settings = rs_preferred_command settings
  /\ rs_prefer_system settings = rs_prefer_system settings.
Proof. apply memo_key_separates; vm_compute; reflexivity. Defined.

(** The newest-looking directory is taken, and the planted link is not. *)
Lemma scan_finds_the_greatest_witness :
  (@scan env (Path_new "/c") Language_nodejs settings node stocked).1
    = Some (managed Language_nodejs (Path_new "/c/b") (RuntimeLayout_new "22" "/c/b/bin"))
  /\ w_fs (@scan env (Path_new "/c") Language_nodejs settings node stocked).2 = w_fs stocked.
Proof.
  split; [vm_compute; reflexivity|].
  pose proof (@scan_finds_the_greatest env node node_laws (Path_new "/c")
                Language_nodejs settings stocked) as H.
  destruct (scan _ _ _ _ _) as [found w']. exact (proj1 H).
Defined.

Lemma install_is_serialised_witness :
  let '(r, w') := @install_run env sample_sha256 sample_unpackers Language_nodejs settings node empty in
  exists new, w_log w' = new ++ w_log empty
    /\ (length (filter (fun e => is_get e = true) new) <= 1)%nat
    /\ (Forall quiet new
        \/ exists dir inside before w1,
             new = EvUnlock (lock_path dir) :: inside ++ EvIo (OpLock (lock_path dir)) :: before
             /\ Forall quiet before
             /\ w_log w1 = EvIo (OpLock (lock_path dir)) :: before ++ w_log empty
             /\ (layout node (path_display dir) settings w1).1 = Ok None).
Proof.
  exact (@install_is_serialised env sample_sha256 sample_unpackers node node_laws
           Language_nodejs settings empty).
Defined.

(** The rename into place fails: what was installed before stays. *)
Let previous := MkWorld (list_to_map
  [(Path_new "/c", NDir); (Path_new "/c/node", NDir); (Path_new "/c/node/old", NFile "old")]) [].
Let dist := with_install_dir_name "node" (Distribution_new "22" "node.zip" "https://x/node.zip" Zip).

Lemma sample_names failing : @install_names (sample_env failing answer) (Path_new "/c") (Path_new "/c/node") dist.
Proof.
  refine (@Build_install_names (sample_env failing answer) _ _ _ "node" "node.zip" "node.replaced-77" _ _ _ _ _);
    vm_compute; repeat split; done.
Defined.

Lemma provision_is_all_or_nothing_witness :
  let E := sample_env [22%nat] answer in
  let out := @provision E sample_sha256 sample_unpackers (Path_new "/c") (Path_new "/c/node") dist
               Language_nodejs previous in
  EvIo (OpRename (Path_new "/c/.stage-77-0b5f/node") (Path_new "/c/node")) ∈ w_log out.2
  /\ w_fs out.2 !! Path_new "/c/node/old" = Some (NFile "old")
  /\ let '(r, w') := out in
     match r with
     | Ok _ =>
         exists staging unpacked w0 w1,
           @extract E sample_unpackers (path_join (Path_new "/c") (Path_new (di_archive_name dist)))
             staging (di_format dist) Language_nodejs w0 = (Ok unpacked, w1)
           /\ moved_tree unpacked (Path_new "/c/node") (w_fs w1) (w_fs w')
     | Err e =>
         same_tree_at (Path_new "/c/node") (w_fs previous) (w_fs w')
         \/ unrestored Language_nodejs e
            /\ moved_tree (Path_new "/c/node") (@aside_path E (Path_new "/c/node"))
                 (w_fs previous) (w_fs w')
     end.
Proof.
  split; [apply (bool_decide_unpack _); vm_compute; exact I|]. split; [vm_compute; reflexivity|].
  apply (@provision_is_all_or_nothing (sample_env [22%nat] answer) sample_sha256 sample_unpackers
           sample_unpackers_laws (Path_new "/c") (Path_new "/c/node") dist Language_nodejs previous
           (sample_names [22%nat])).
  intros log. apply linkless_unlinked; vm_compute; reflexivity.
Defined.

End Samples.
