(* ===== verification/ResolveLife.v ===== *)
(** * A resolver over its life

    Requests to one resolver, one after the other or at once: what is answered is of the
    language and by the settings asked for, and what is remembered is answered again. *)

From S2P Require Import Prelude RustStd Identity Vocabulary Errors World FsFacts.
From S2P Require Import Store Download Archive Provider StubProvider Resolve.

Open Scope rust_scope.

Definition key_of (q : ResolveRequest) : string := memo_key (rr_language q) (rr_settings q).

(** *** What a key tells of its request *)

(** No field contains the separator. *)
Definition separator_free (q : ResolveRequest) : bool :=
  bars_free (rr_language q) (rr_settings q)
  && negb (contains_byte bar (rs_preferred_command (rr_settings q))).

Fixpoint bars (s : string) : nat :=
  match s with
  | EmptyString => 0
  | String c s => (if Ascii.eqb bar c then 1 else 0) + bars s
  end.

Lemma bars_app a b : bars (a +:+ b) = (bars a + bars b)%nat.
Proof. induction a as [|c a IH]; [done|]. rewrite string_append_cons. cbn -[Ascii.eqb]. rewrite IH. lia. Qed.

Lemma bars_free_of s : contains_byte bar s = false <-> bars s = 0%nat.
Proof.
  unfold contains_byte. induction s as [|c s IH]; [done|]. cbn -[Ascii.eqb]. rewrite orb_false_iff, IH.
  destruct (Ascii.eqb bar c); cbn; split; intros; destruct_and?; try done; lia.
Qed.

Lemma key_of_bars q :
  bars (key_of q)
  = (6 + (bars (as_str (rr_language q)) + bars (rs_version (rr_settings q)) + bars (rs_maximum_version (rr_settings q))
          + bars (rs_cache_dir (rr_settings q)) + bars (rs_release_tag (rr_settings q))
          + bars (rs_preferred_command (rr_settings q))))%nat.
Proof.
  unfold key_of, memo_key. rewrite !bars_app.
  assert (bars (display_bool (rs_prefer_system (rr_settings q))) = 0%nat) as -> by (by destruct (rs_prefer_system _)).
  change (bars "|") with 1%nat. lia.
Qed.

Lemma separator_free_bars q : separator_free q = true <-> bars (key_of q) = 6%nat.
Proof.
  rewrite key_of_bars. unfold separator_free, bars_free.
  rewrite andb_true_iff, !negb_true_iff, !orb_false_iff, !bars_free_of.
  split; [intros; destruct_and?; lia|]. intros. split_and!; lia.
Qed.

(** A request without separators shares its key only with requests for the same. *)
Lemma separator_free_key q q0 :
  separator_free q = true -> key_of q0 = key_of q -> rs_enabled (rr_settings q0) = rs_enabled (rr_settings q) ->
  rr_language q0 = rr_language q /\ rr_settings q0 = rr_settings q.
Proof.
  intros Hq Hkey Hen. assert (separator_free q0 = true) as Hq0.
  { apply separator_free_bars. rewrite Hkey. by apply separator_free_bars. }
  unfold separator_free in Hq, Hq0. apply andb_true_iff in Hq as [Hq _], Hq0 as [Hq0 _].
  destruct (proj1 (memo_key_separates _ _ _ _ Hq0 Hq) Hkey) as (Hl & Hv & Hm & Hc & Hr & Hp & Hb).
  split; [done|]. destruct (rr_settings q0), (rr_settings q). cbn in *. congruence.
Qed.

Section Life.
Context `{Env} `{Sha256} `{Unpackers}.

(** *** What a request can be answered with *)

(** An entry of the cache root the settings name, or what a provider calls a directory
    of it. *)
Definition in_cache (l : Language) (s : RuntimeSettings) (dir : Path) : Prop :=
  (exists name, dir = below (cache_root (settings_cache_dir s) l) [name])
  \/ exists name, dir = path_join (cache_root (settings_cache_dir s) l) (Path_new name).

(** A toolchain the language's own provider said, under these very settings, the system
    has, when those are preferred, or a directory of the cache holds. *)
Definition fits (registry : Registry) (l : Language) (s : RuntimeSettings) (r : ResolvedRuntime) : Prop :=
  exists p w la, Registry_provider registry l = Ok p
  /\ ((rs_prefer_system s = true /\ (detect_system p s w).1 = Ok (Some la) /\ r = from_layout l System la)
      \/ exists dir, in_cache l s dir /\ (layout p (path_display dir) s w).1 = Ok (Some la) /\ r = managed l dir la).

Definition request_fits (registry : Registry) (q : ResolveRequest) (r : ResolvedRuntime) : Prop :=
  rs_enabled (rr_settings q) = true /\ fits registry (rr_language q) (rr_settings q) r.

(** ... for this request or, when their fields run together, for one with the same key. *)
Definition key_fits (registry : Registry) (key : string) (r : ResolvedRuntime) : Prop :=
  exists q, key_of q = key /\ request_fits registry q r.

(** Where there is an entry, it fits a request of its key. *)
Definition memo_typed (self : Resolver) : Prop :=
  forall key r, rv_resolved self !! key = Some r -> key_fits (rv_registry self) key r.

Definition typed (registry : Registry) (q : ResolveRequest) (answer : result Error (option ResolvedRuntime)) : Prop :=
  match answer with
  | Ok (Some r) =>
      rs_enabled (rr_settings q) = true /\ key_fits registry (key_of q) r
      /\ (separator_free q = true -> fits registry (rr_language q) (rr_settings q) r)
  | Ok None => rr_install q = false
  | Err _ => True
  end.

Lemma key_fits_typed registry q r :
  rs_enabled (rr_settings q) = true -> key_fits registry (key_of q) r -> typed registry q (Ok (Some r)).
Proof.
  intros Hen Hr. split_and!; [done..|]. intros Hq. destruct Hr as (q0 & Hkey & Hen0 & Hf).
  destruct (separator_free_key q q0 Hq Hkey) as [Hl Hs]; [congruence|]. by rewrite <- Hl, <- Hs.
Qed.

(** What happens to the world between requests. *)
Context (meanwhile : World -> World).

(** One request after the other. *)
Fixpoint resolve_all (requests : list ResolveRequest) (self : Resolver)
  : io World (list (result Error (option ResolvedRuntime)) * Resolver) :=
  match requests with
  | [] => io_ret ([], self)
  | q :: rest =>
      (fun w => (tt, meanwhile w)) ;;;
      answered <-- resolve self q ;;
      let '(answer, self) := answered in
      others <-- resolve_all rest self ;;
      let '(answers, self) := others in
      io_ret (answer :: answers, self)
  end.

Lemma first_accepted_answer l s p candidates w r w' :
  first_accepted l s p candidates w = (Some r, w') ->
  exists dir w0 la, dir ∈ candidates /\ (layout p (path_display dir) s w0).1 = Ok (Some la) /\ r = managed l dir la.
Proof.
  revert w. induction candidates as [|c rest IH]; intros w; cbn [first_accepted]; [done|]. unfold io_bind.
  destruct (layout p (path_display c) s w) as [[[la|]|] w1] eqn:El.
  1:{ intros [= <- _]. exists c, w, la. rewrite El. split_and!; [by left|done|done]. }
  all: intros (dir & w0 & la & Hin & ?)%IH; exists dir, w0, la; (split; [by right|done]).
Qed.

Lemma listed_below root found w (entries : list (result io_error (Path * result io_error node))) c :
  entries_of root (w_fs w) = Ok found -> entries = listing (w_log w) found ->
  c ∈ listed_directories entries -> exists name, c = below root [name].
Proof.
  intros Hf -> Hc%elem_of_listed_directories. apply elem_of_listing in Hc as [Hin _]. revert Hf.
  unfold entries_of. destruct (is_dir_following _ _); [|done]. destruct (canonical _ _) as [real|]; [|done].
  intros [= <-]. apply list_elem_of_omap in Hin as ([q n] & _ & Hq).
  destruct (parent q); [|done]. destruct (last (p_names q)) as [name|]; [|done].
  destruct (bool_decide _); [|done]. injection Hq as <- _. by exists name.
Qed.

Lemma scan_fits registry l s p w r w' :
  Registry_provider registry l = Ok p ->
  scan (cache_root (settings_cache_dir s) l) l s p w = (Some r, w') -> fits registry l s r.
Proof.
  intros Hp. set (root := cache_root _ _). unfold scan, io_bind.
  destruct (read_dir root w) as [[entries|] w1] eqn:Er; [|done].
  destruct (keep_inside root _ w1) as [cs w2] eqn:Ek.
  intros (dir & w0 & la & Hin & Hla & ->)%first_accepted_answer. exists p, w0, la. split; [done|]. right.
  exists dir. split; [left|done]. apply list_elem_of_In, in_rev, list_elem_of_In in Hin.
  rewrite elem_of_path_sort in Hin.
  apply keep_inside_spec in Ek as [Hkept _]. apply Hkept in Hin as [Hin _].
  apply list_elem_of_filter in Hin as [_ Hin].
  apply read_dir_inv in Er as (Hfs & _ & found & Hf & ->). rewrite <- Hfs in Hf. by eapply listed_below.
Qed.

Lemma install_run_fits registry l s p w r w' :
  Registry_provider registry l = Ok p -> install_run l s p w = (Ok r, w') -> fits registry l s r.
Proof.
  intros Hp. unfold install_run, io_try, io_bind. destruct (select_distribution p s w) as [[d|] w1]; [|done].
  destruct (ensure_root _ w1) as [[|] w2]; [|done]. destruct (InstallLock_acquire _ _ w2) as [[lock|] w3]; [|done].
  set (dir := path_join _ _). destruct (install_locked _ dir d l s p w3) as [res w4] eqn:E4.
  destruct (InstallLock_drop lock w4) as [u w5]. intros [= -> _]. revert E4.
  assert (forall wa la wb, layout p (path_display dir) s wa = (Ok (Some la), wb) -> fits registry l s (managed l dir la)) as Hfits.
  { intros wa la wb El. exists p, wa, la. split; [done|]. right. exists dir. rewrite El.
    split_and!; [right; by eexists|done|done]. }
  unfold install_locked, io_try. destruct (layout p _ s w3) as [[[la|]|] w6] eqn:El; [|..|done].
  - intros [= <- _]. by eapply Hfits.
  - destruct (provision _ _ _ _ w6) as [[|] w7]; [|done].
    destruct (layout p _ s w7) as [[[la|]|] w8] eqn:El2; [|done..]. intros [= <- _]. by eapply Hfits.
Qed.

Lemma without_network_fits registry l s p w r w' :
  Registry_provider registry l = Ok p ->
  without_network l s p w = (Ok (Some r), w') -> fits registry l s r.
Proof.
  intros Hp. unfold without_network, io_try. destruct (rs_prefer_system s) eqn:Hsys.
  - destruct (detect_system p s w) as [[[la|]|] w1] eqn:Ed; [|..|done].
    + intros [= <- _]. exists p, w, la. split; [done|]. left. by rewrite Ed.
    + unfold io_map. destruct (scan _ l s p w1) as [found w2] eqn:Es. intros [= -> _]. by eapply scan_fits.
  - cbn. unfold io_map. destruct (scan _ l s p w) as [found w2] eqn:Es. intros [= -> _]. by eapply scan_fits.
Qed.

Lemma resolve_fresh_fits registry q w r w' :
  resolve_fresh registry q w = (Ok (Some r), w') -> fits registry (rr_language q) (rr_settings q) r.
Proof.
  unfold resolve_fresh, io_try. destruct (Registry_provider _ _) as [p|] eqn:Hp; [|done].
  destruct (describe p w) as [[d|] w1]; [|done]. destruct (verify_contract _ d); [|done].
  destruct (without_network _ _ p w1) as [[[found|]|] w2] eqn:En; [|..|done].
  - intros [= <- _]. by eapply without_network_fits.
  - destruct (negb (rr_install q)); [done|]. unfold io_map. destruct (install_run _ _ p w2) as [[res|] w3] eqn:Ei; [|done].
    intros [= <- _]. by eapply install_run_fits.
Qed.

(** *** One request *)

Lemma resolve_typed self q w answer self' w' :
  memo_typed self -> resolve self q w = ((answer, self'), w') ->
  typed (rv_registry self) q answer /\ (memo_typed self' /\ rv_registry self' = rv_registry self)
  /\ (forall key r, rv_resolved self !! key = Some r -> rv_resolved self' !! key = Some r)
  /\ (forall r, answer = Ok (Some r) -> rv_resolved self' !! key_of q = Some r)
  /\ (forall r, rs_enabled (rr_settings q) = true -> rv_resolved self !! key_of q = Some r -> answer = Ok (Some r)).
Proof.
  intros Hm E. pose proof (resolve_remembers self q w) as Hr. cbn zeta in Hr. rewrite E in Hr.
  unfold resolve in E. destruct (rs_enabled (rr_settings q)) eqn:Hen; cbn [negb] in E.
  2:{ injection E as <- <- _. split_and!; try done. }
  fold (key_of q) in E, Hr. destruct (rv_resolved self !! key_of q) as [existing|] eqn:Hk.
  - injection E as <- <- _. split_and!; try done; [|by intros r [= <-]|by intros r _ [= <-]].
    apply key_fits_typed; [done|by apply Hm].
  - unfold io_bind in E. destruct (resolve_fresh _ q w) as [fresh w1] eqn:Ef. injection E as <- <- _.
    destruct fresh as [[r|]|e]; cbn [rv_resolved rv_registry remember] in *.
    + pose proof (resolve_fresh_fits _ _ _ _ _ Ef) as Hf.
      assert (key_fits (rv_registry self) (key_of q) r) as Hkey by (by exists q).
      split_and!; [by apply key_fits_typed| |done| | |by intros ? _ ?].
      * intros key r'. cbn. intros [[<- <-]|[_ Hl]]%lookup_insert_Some; [done|by apply Hm].
      * intros key r' Hl. rewrite lookup_insert_ne; [done|]. intros <-. congruence.
      * intros r' [= <-]. by rewrite lookup_insert_eq.
    + split_and!; try done. by apply Hr.
    + by split_and!.
Qed.

(** *** All of them *)

Lemma resolve_all_spec requests self w answers self' w' :
  memo_typed self -> resolve_all requests self w = ((answers, self'), w') ->
  Forall2 (typed (rv_registry self)) requests answers /\ memo_typed self'
  /\ (forall i q r, requests !! i = Some q -> rs_enabled (rr_settings q) = true ->
        rv_resolved self !! key_of q = Some r -> answers !! i = Some (Ok (Some r)))
  /\ (forall i j q q' r, i <= j -> requests !! i = Some q -> requests !! j = Some q' ->
        key_of q = key_of q' -> rs_enabled (rr_settings q') = true ->
        answers !! i = Some (Ok (Some r)) -> answers !! j = Some (Ok (Some r)))%nat.
Proof.
  revert self w answers. induction requests as [|q rest IH]; intros self w answers Hm; cbn [resolve_all].
  { intros [= <- <- <-]. by split_and!. }
  unfold io_bind. destruct (resolve self q (meanwhile w)) as [[answer self1] w1] eqn:E.
  destruct (resolve_all rest self1 w1) as [[others self2] w2] eqn:E2. intros [= <- <- <-].
  destruct (resolve_typed _ _ _ _ _ _ Hm E) as (Ht & [Hm1 Hreg] & Hkeep & Hnew & Hknown).
  destruct (IH _ _ _ Hm1 E2) as (Hts & Hm2 & Hold & Hlater). rewrite Hreg in Hts.
  split_and!; [by constructor|done|..].
  - intros [|i] q' r; cbn.
    + intros [= <-] Hen Hk. by rewrite (Hknown r Hen Hk).
    + intros Hi Hen Hk. eapply Hold; [done|done|by apply Hkeep].
  - intros [|i] [|j] q1 q2 r Hle; cbn.
    + intros [= <-] [= <-]. done.
    + intros [= <-] Hj Hkey Hen [= Ha]. eapply Hold; [done|done|]. rewrite <- Hkey. by apply Hnew.
    + lia.
    + intros Hi Hj. apply (Hlater i j); [lia|done|done].
Qed.

(** One caller: what was answered once is answered again. *)
Lemma resolved_once_and_for_all (registry : Registry) (requests : list ResolveRequest) (w : World) :
  let '((answers, _), _) := resolve_all requests (Resolver_new registry) w in
  Forall2 (typed registry) requests answers
  /\ (forall i j q q' r, i <= j -> requests !! i = Some q -> requests !! j = Some q' ->
        memo_key (rr_language q) (rr_settings q) = memo_key (rr_language q') (rr_settings q') ->
        rs_enabled (rr_settings q') = true ->
        answers !! i = Some (Ok (Some r)) -> answers !! j = Some (Ok (Some r)))%nat.
Proof.
  destruct (resolve_all requests (Resolver_new registry) w) as [[answers self] w'] eqn:E.
  assert (memo_typed (Resolver_new registry)) as Hm by (intros key r; cbn; by rewrite lookup_empty).
  destruct (resolve_all_spec _ _ _ _ _ _ Hm E) as (Ht & _ & _ & Hs). by split.
Qed.

End Life.

(** ** Several callers at once

    [resolve] lets go of the memo while it asks, and takes it again to remember: callers
    overlap there, and each may be dropped. *)

Inductive call :=
| Asking
| Remembering (resolved : ResolvedRuntime)
| Answered (answer : result Error (option ResolvedRuntime)).

Record Resolving := MkResolving {
  rg_resolver : Resolver;
  rg_calls : gmap nat (ResolveRequest * call)
}.

(** Up to the first answer or the first question. *)
Definition entering (self : Resolver) (q : ResolveRequest) : call :=
  if negb (rs_enabled (rr_settings q)) then Answered (Err (LanguageDisabled (rr_language q)))
  else match rv_resolved self !! key_of q with
       | Some existing => Answered (Ok (Some existing))
       | None => Asking
       end.

(** What the questions were answered with. *)
Definition asked_for (answer : result Error (option ResolvedRuntime)) : call :=
  match answer with Ok (Some resolved) => Remembering resolved | answer => Answered answer end.

Definition set_call (i : nat) (q : ResolveRequest) (c : call) (g : Resolving) : Resolving :=
  MkResolving (rg_resolver g) (<[i := (q, c)]> (rg_calls g)).

Section Interleaved.
Context `{Env} `{Sha256} `{Unpackers}.

Inductive resolving_step (g : Resolving) : Resolving -> Prop :=
| StepEnter i q :
    rg_calls g !! i = None -> resolving_step g (set_call i q (entering (rg_resolver g) q) g)
| StepAsked i q w :
    rg_calls g !! i = Some (q, Asking) ->
    resolving_step g (set_call i q (asked_for (resolve_fresh (rv_registry (rg_resolver g)) q w).1) g)
| StepRemember i q resolved :
    rg_calls g !! i = Some (q, Remembering resolved) ->
    resolving_step g
      (MkResolving (remember (key_of q) resolved (rg_resolver g))
         (<[i := (q, Answered (Ok (Some resolved)))]> (rg_calls g)))
| StepDropped i :
    resolving_step g (MkResolving (rg_resolver g) (delete i (rg_calls g))).

(** Nobody is asking yet. *)
Definition starts (registry : Registry) (g : Resolving) : Prop := g = MkResolving (Resolver_new registry) ∅.

(** A caller alone does what [resolve] does. *)
Lemma alone_resolves (g : Resolving) i q w :
  rg_calls g !! i = None ->
  let '((answer, self), _) := resolve (rg_resolver g) q w in
  exists g', rtc resolving_step g g' /\ rg_resolver g' = self /\ rg_calls g' !! i = Some (q, Answered answer).
Proof.
  intros Hi. unfold resolve. fold (key_of q).
  assert (resolving_step g (set_call i q (entering (rg_resolver g) q) g)) as Hin by (by constructor).
  unfold entering in Hin. destruct (negb (rs_enabled (rr_settings q))).
  { eexists. split; [by apply rtc_once|]. split; [done|]. apply lookup_insert_eq. }
  destruct (rv_resolved (rg_resolver g) !! key_of q) as [existing|].
  { eexists. split; [by apply rtc_once|]. split; [done|]. apply lookup_insert_eq. }
  unfold io_bind. destruct (resolve_fresh (rv_registry (rg_resolver g)) q w) as [answer w'] eqn:Ef.
  set (g1 := set_call i q Asking g) in *.
  assert (resolving_step g1 (set_call i q (asked_for answer) g1)) as Hask.
  { replace answer with (resolve_fresh (rv_registry (rg_resolver g1)) q w).1 by (cbn; by rewrite Ef).
    apply StepAsked. apply lookup_insert_eq. }
  destruct answer as [[resolved|]|e]; cbn.
  - eexists. split.
    + eapply rtc_l; [exact Hin|]. eapply rtc_l; [exact Hask|]. apply rtc_once.
      eapply (StepRemember _ i). apply lookup_insert_eq.
    + split; [done|]. apply lookup_insert_eq.
  - eexists. split; [eapply rtc_l; [exact Hin|]; apply rtc_once; exact Hask|]. split; [done|]. apply lookup_insert_eq.
  - eexists. split; [eapply rtc_l; [exact Hin|]; apply rtc_once; exact Hask|]. split; [done|]. apply lookup_insert_eq.
Qed.

(** *** The invariant *)

Definition call_typed (registry : Registry) (q : ResolveRequest) (c : call) : Prop :=
  match c with
  | Asking => rs_enabled (rr_settings q) = true
  | Remembering r => request_fits registry q r
  | Answered answer => typed registry q answer
  end.

Record resolving_typed (registry : Registry) (g : Resolving) : Prop := {
  gt_registry : rv_registry (rg_resolver g) = registry;
  gt_memo : memo_typed (rg_resolver g);
  gt_calls i q c : rg_calls g !! i = Some (q, c) -> call_typed registry q c
}.

Lemma resolve_fresh_nothing registry q w w' :
  resolve_fresh registry q w = (Ok None, w') -> rr_install q = false.
Proof.
  unfold resolve_fresh, io_try. destruct (Registry_provider _ _) as [p|]; [|done].
  destruct (describe p w) as [[d|] w1]; [|done]. destruct (verify_contract _ d); [|done].
  destruct (without_network _ _ p w1) as [[[found|]|] w2]; [done| |done].
  destruct (rr_install q); [|done]. cbn. unfold io_map. by destruct (install_run _ _ p w2) as [[res|] w3].
Qed.

Lemma entering_typed self q : memo_typed self -> call_typed (rv_registry self) q (entering self q).
Proof.
  intros Hm. unfold entering. destruct (rs_enabled (rr_settings q)) eqn:Hen; cbn [negb]; [|done].
  destruct (rv_resolved self !! key_of q) as [r|] eqn:Hk; [|done].
  apply key_fits_typed; [done|by apply Hm].
Qed.

Lemma step_typed registry g g' : resolving_typed registry g -> resolving_step g g' -> resolving_typed registry g'.
Proof.
  intros [Hreg Hm Hc] Hstep. destruct Hstep as [i q _|i q w Hi|i q r Hi|i]; constructor; cbn; try done.
  - intros j q' c [[<- [= <- <-]]|[_ Hj]]%lookup_insert_Some; [|by apply (Hc j)].
    rewrite <- Hreg. by apply entering_typed.
  - pose proof (Hc _ _ _ Hi) as Hen. intros j q' c [[<- [= <- <-]]|[_ Hj]]%lookup_insert_Some; [|by apply (Hc j)].
    rewrite Hreg. destruct (resolve_fresh _ q w) as [[[r|]|e] w'] eqn:Ef; cbn; [|by eapply resolve_fresh_nothing|done].
    split; [done|by eapply resolve_fresh_fits].
  - pose proof (Hc _ _ _ Hi) as Hf. intros key r'. cbn. rewrite Hreg.
    intros [[<- <-]|[_ Hl]]%lookup_insert_Some; [by exists q|]. rewrite <- Hreg. by apply Hm.
  - pose proof (Hc _ _ _ Hi) as Hf. intros j q' c [[<- [= <- <-]]|[_ Hj]]%lookup_insert_Some; [|by apply (Hc j)].
    apply key_fits_typed; [apply Hf|by exists q].
  - intros j q' c [_ Hj]%lookup_delete_Some. by apply (Hc j).
Qed.

Lemma reachable_typed registry g : reachable (starts registry) resolving_step g -> resolving_typed registry g.
Proof.
  apply reachable_invariant; [|by apply step_typed]. intros ? ->. constructor; [done|..].
  - intros key r. cbn. by rewrite lookup_empty.
  - intros i q c. cbn. by rewrite lookup_empty.
Qed.

(** What is remembered may be replaced, by what another caller was told, but not
    forgotten. *)
Lemma step_remembers g g' key :
  resolving_step g g' -> is_Some (rv_resolved (rg_resolver g) !! key) -> is_Some (rv_resolved (rg_resolver g') !! key).
Proof.
  intros Hstep [r Hr]. destruct Hstep as [| |i q r' Hi|]; cbn; [by exists r|by exists r| |by exists r].
  destruct (decide (key_of q = key)) as [->|Hne]; [rewrite lookup_insert_eq; by eexists|].
  rewrite lookup_insert_ne by done. by exists r.
Qed.

(** C39. What a resolver answers is well typed, over every interleaving of its callers, in
    every world and whatever its providers say. A toolchain is only answered to a request
    for an enabled language. It is what that language's own provider said, asked with all
    of the request's settings (version, cache directory, release tag and the rest): of the
    system, if those were preferred, or of a directory of the cache those settings name.
    When fields of requests contain the key's separator their keys can run together, and
    then all that is known is that the answer is such a one for some request of the same
    key; a request without separators shares its key with no other, whatever the others
    contain. Nothing is only answered to a request that forbade installing; what is
    remembered is of the request it is found by; and once something is remembered for a
    request, every later one like it is answered from the memo, at once. *)
Theorem answers_are_typed (registry : Registry) (g : Resolving) :
  reachable (starts registry) resolving_step g ->
  (forall i q answer, rg_calls g !! i = Some (q, Answered answer) -> typed registry q answer)
  /\ (forall key r, rv_resolved (rg_resolver g) !! key = Some r ->
        exists q, memo_key (rr_language q) (rr_settings q) = key /\ request_fits registry q r)
  /\ (forall g' q, rtc resolving_step g g' ->
        is_Some (rv_resolved (rg_resolver g) !! memo_key (rr_language q) (rr_settings q)) ->
        rs_enabled (rr_settings q) = true ->
        exists r, entering (rg_resolver g') q = Answered (Ok (Some r)) /\ typed registry q (Ok (Some r))).
Proof.
  intros Hg. destruct (reachable_typed _ _ Hg) as [Hreg Hm Hc]. split_and!.
  - intros i q answer Hi. exact (Hc _ _ _ Hi).
  - intros key r Hk. rewrite <- Hreg. by apply Hm.
  - intros g' q Hsteps Hk Hen.
    assert (resolving_typed registry g' /\ is_Some (rv_resolved (rg_resolver g') !! key_of q)) as [[Hreg' Hm' _] [r Hr]].
    { assert (resolving_typed registry g) as Ht by done. clear Hm Hc Hg Hreg.
      induction Hsteps as [g|g g1 g2 Hstep _ IH]; [done|].
      apply IH; [by eapply step_remembers|by eapply step_typed]. }
    pose proof (entering_typed _ q Hm') as Ht. unfold entering in *. rewrite Hen, Hr in *. cbn [negb] in *.
    exists r. split; [done|]. by rewrite <- Hreg'.
Qed.

End Interleaved.

(** ** The property at work *)

Section Samples.
Let env := sample_env [] (HttpBody [Ok "zip"]).
Let installed : RuntimeLayout := RuntimeLayout_new "22" "/usr/bin".
Let node := StubProvider_new Language_nodejs.
Let here := with_system installed node.
Let table (p : Provider) := register Language_nodejs "n" p Registry_new.
Let settings := MkRuntimeSettings true true "22" "" "/c" "" "".
Let request (install : bool) := MkResolveRequest Language_nodejs settings install.
Let disabled := MkResolveRequest Language_nodejs (MkRuntimeSettings false true "22" "" "/c" "" "") true.
Let world := MkWorld (list_to_map [(Path_new "/c", NDir)]) [].
Let asked_over (p : Provider) := @resolve_all env sample_sha256 sample_unpackers (fun w => w)
  [request false; request true; disabled] (Resolver_new (table p)) world.

(** The system's toolchain is detected once and remembered; nothing is selected. *)
Example detected_once :
  let '((answers, _), w) := asked_over (@StubProvider_provider env here) in
  answers = [Ok (Some (from_layout Language_nodejs System installed));
             Ok (Some (from_layout Language_nodejs System installed)); Err (LanguageDisabled Language_nodejs)]
  /\ detections here w = 1%N /\ selections here w = 0%N.
Proof. vm_compute. by split_and!. Qed.

(** Nothing on the host and nothing to install; a provider that is down; one from the
    future. *)
Example refusals_are_asked_again :
  let '((answers, _), w) := asked_over (@StubProvider_provider env node) in
  answers = [Ok None; Err (Download Language_nodejs "the stub was given nothing to install");
             Err (LanguageDisabled Language_nodejs)]
  /\ detections node w = 2%N /\ selections node w = 1%N
  /\ fst (fst (asked_over (DownProvider_provider Language_nodejs)))
     = [Err (down Language_nodejs); Err (down Language_nodejs); Err (LanguageDisabled Language_nodejs)]
  /\ fst (fst (asked_over (@StubProvider_provider env (with_contract (2, 0)%N here))))
     = [Err (ProviderContract Language_nodejs 2 0); Err (ProviderContract Language_nodejs 2 0);
        Err (LanguageDisabled Language_nodejs)].
Proof. vm_compute. by split_and!. Qed.

(** Two callers miss the memo and ask at the same time; the second to remember
    replaces what the first did. *)
Let g0 := MkResolving (Resolver_new (table (@StubProvider_provider env here))) ∅.
Let answer := (@resolve_fresh env sample_sha256 sample_unpackers (rv_registry (rg_resolver g0)) (request true) world).1.
Let g1 := set_call 1 (request true) (entering (rg_resolver g0) (request true)) g0.
Let g2 := set_call 2 (request true) (entering (rg_resolver g1) (request true)) g1.
Let g3 := set_call 1 (request true) (asked_for answer) g2.
Let g4 := set_call 2 (request true) (asked_for answer) g3.
Let found := from_layout Language_nodejs System installed.
Let g5 := MkResolving (remember (key_of (request true)) found (rg_resolver g4))
            (<[1%nat := (request true, Answered (Ok (Some found)))]> (rg_calls g4)).

Lemma answers_are_typed_witness :
  rg_calls g5 !! 1%nat = Some (request true, Answered (Ok (Some found)))
  /\ rg_calls g5 !! 2%nat = Some (request true, Remembering found)
  /\ @fits env (table (@StubProvider_provider env here)) Language_nodejs settings found.
Proof.
  assert (rg_calls g5 !! 1%nat = Some (request true, Answered (Ok (Some found)))) as H1 by (vm_compute; reflexivity).
  split; [exact H1|]. split; [vm_compute; reflexivity|].
  assert (reachable (starts (table (@StubProvider_provider env here)))
            (@resolving_step env sample_sha256 sample_unpackers) g5) as Hg.
  { apply (reachable_step _ _ g4).
    2:{ apply (StepRemember g4 1 (request true) found). vm_compute. reflexivity. }
    apply (reachable_step _ _ g3); [|apply (StepAsked g3 2 (request true) world); vm_compute; reflexivity].
    apply (reachable_step _ _ g2); [|apply (StepAsked g2 1 (request true) world); vm_compute; reflexivity].
    apply (reachable_step _ _ g1); [|apply (StepEnter g1 2); vm_compute; reflexivity].
    apply (reachable_step _ _ g0); [|apply (StepEnter g0 1); vm_compute; reflexivity].
    apply reachable_init. reflexivity. }
  destruct (@answers_are_typed env sample_sha256 sample_unpackers _ g5 Hg) as [Ht _].
  destruct (Ht _ _ _ H1) as (_ & _ & Hfits). apply Hfits. vm_compute. reflexivity.
Defined.

End Samples.
