(* ===== verification/PoolWorker.v ===== *)
(** * One warm worker: [pool/{worker,protocol,spawner,env}.rs]

    The child process, its two pipes and the clock are outside: what the worker's
    socket delivers is a list of arrivals with the time of each, what the operating
    system answers to a system call is an argument, and JSON is the [serde_json]
    parameter.  Times are milliseconds. *)

From S2P Require Import Prelude RustStd Identity Vocabulary Errors World Download.

Open Scope rust_scope.

(** ** [protocol.rs] *)

Record Handshake := MkHandshake {
  hs_ready : bool;
  hs_protocol : option N;
  hs_language : option string;
  hs_error : option string;
  hs_token : option string
}.

Record JobRequest := MkJobRequest {
  jq_id : string;
  jq_code : string;
  jq_cwd : option string;
  jq_timeout_ms : option N
}.

Record JobResponse := MkJobResponse {
  jr_id : option string;
  jr_ok : bool;
  jr_stdout : string;
  jr_stderr : string;
  jr_exit_code : option Z;
  jr_timed_out : bool;
  jr_elapsed_ms : N;
  jr_error : option string
}.

(** [serde_json] on the protocol's three messages. *)
Class PoolJson := {
  encode_job : JobRequest -> result string string;
  decode_job_response : string -> result string JobResponse;
  decode_handshake : string -> result string Handshake
}.

(** What [serde_json] documents of its compact form: it never contains a newline,
    so a frame is exactly one line. *)
Class PoolJsonLaw `(PoolJson) : Prop :=
  encode_job_one_line : forall request line,
    encode_job request = Ok line -> contains_byte "010"%char line = false.

(** ** [spawner.rs] *)

Record SpawnSpec := MkSpawnSpec {
  ss_program : Path;
  ss_args : list string;
  ss_env : list (string * string);
  ss_clear_env : bool
}.

(** [SpawnRefused(String)] *)
Record SpawnRefused := MkSpawnRefused { refused_reason : string }.

Definition SpawnRefused_display (e : SpawnRefused) : string :=
  "the spawner refused to start the process: " +:+ refused_reason e.

(** The trait [Spawner]: the host's code, behind an identity and one operation. *)
Record Spawner := MkSpawner {
  spawner_id : string;
  spawner_confine : SpawnSpec -> result SpawnRefused SpawnSpec
}.

Definition confine (spawner : option Spawner) (spec : SpawnSpec) : result SpawnRefused SpawnSpec :=
  match spawner with
  | Some spawner => spawner_confine spawner spec
  | None => Ok spec
  end.

(** The environment of the command a spec describes: later settings of a name win. *)
Definition to_command_env (inherited : gmap string string) (spec : SpawnSpec)
  : gmap string string :=
  fold_left (fun env '(name, value) => <[name := value]> env) (ss_env spec)
    (if ss_clear_env spec then ∅ else inherited).

(** ** [env.rs] *)

Definition INHERITED : list string :=
  ["HOME"; "TERM"; "LANG"; "LC_ALL"; "LC_CTYPE"; "USER"; "SHELL"; "TMPDIR"; "SystemRoot";
   "WINDIR"; "COMSPEC"; "PATHEXT"; "TEMP"; "TMP"; "USERPROFILE"; "APPDATA"; "LOCALAPPDATA";
   "ProgramFiles"; "ProgramFiles(x86)"; "ProgramW6432"].

(** [vars] is [std::env::var]: absent names and values that are not UTF-8 are [None]. *)
Definition env_build (vars : string -> option string) (bin_dir : Path)
    (extra : list (string * string)) : list (string * string) :=
  let inherited_path := default "" (vars "PATH") in
  let path :=
    if String.eqb inherited_path "" then path_display bin_dir
    else path_display bin_dir +:+ ":" +:+ inherited_path in
  [("PATH", path)]
  ++ omap (fun name => (fun value => (name, value)) <$> vars name) INHERITED
  ++ extra.

Section Materialise.
Context `{Env}.

Definition materialise (root : Path) (harness : WorkerHarness) : io World (result Error Path) :=
  _ <-? storage (create_dir_all root) ;;
  let path := path_join root (Path_new (wh_filename harness)) in
  _ <-? storage (write_file path (wh_source harness)) ;;
  io_ret (Ok path).

End Materialise.

(** ** [worker.rs]: launching *)

Definition DEFAULT_HANDSHAKE_TIMEOUT : N := 30000.

Record Launch := MkLaunch {
  lc_language : Language;
  lc_binary : Path;
  lc_args : list string;
  lc_env : list (string * string);
  lc_protocol_version : N;
  lc_handshake_timeout : N;
  lc_spawner : option Spawner
}.

Definition with_spawner (spawner : Spawner) (l : Launch) : Launch :=
  MkLaunch (lc_language l) (lc_binary l) (lc_args l) (lc_env l) (lc_protocol_version l)
    (lc_handshake_timeout l) (Some spawner).

(** [{:?}] of a list of strings and of a list of pairs of strings. *)
Class RustDebug := {
  debug_strings : list string -> string;
  debug_pairs : list (string * string) -> string
}.

Definition fingerprint `{RustDebug} (l : Launch) : string :=
  as_str (lc_language l) +:+ "|" +:+ path_display (lc_binary l) +:+ "|"
  +:+ debug_strings (lc_args l) +:+ "|" +:+ debug_pairs (lc_env l) +:+ "|"
  +:+ display_u64 (lc_protocol_version l) +:+ "|spawner="
  +:+ match lc_spawner l with Some spawner => spawner_id spawner | None => "direct" end.

(** ** Reading lines against the clock *)

(** What a socket delivers next, and when. *)
Inductive delivery :=
| DLine (text : string)
| DClosed
| DFailed (why : string).

Record arrival := MkArrival { ar_at : N; ar_what : delivery }.

(** The outcome of waiting for one delivery. *)
Inductive waited :=
| Arrived (now : N) (what : delivery) (rest : list arrival)
| TimedOut (now : N)
| Forever.

(** [timeout_at(deadline, next_line())]: the read is polled before the timer, so a
    line already there is delivered even past the deadline. *)
Definition next_line (deadline : option N) (now : N) (stream : list arrival) : waited :=
  match stream with
  | [] => match deadline with Some at' => TimedOut (N.max now at') | None => Forever end
  | a :: rest =>
      if (ar_at a <=? now)%N then Arrived now (ar_what a) rest
      else match deadline with
           | Some at' =>
               if (ar_at a <=? at')%N then Arrived (ar_at a) (ar_what a) rest
               else TimedOut (N.max now at')
           | None => Arrived (ar_at a) (ar_what a) rest
           end
  end.

Record SubmitFailure := MkSubmitFailure { sf_reason : string; sf_dispatched : bool }.

Definition SubmitFailure_pre (reason : string) : SubmitFailure := MkSubmitFailure reason false.
Definition SubmitFailure_post (reason : string) : SubmitFailure := MkSubmitFailure reason true.

(** The process a worker is, what its socket will deliver and what it was sent. *)
Record Worker := MkWorker {
  wk_process : nat;
  wk_language : Language;
  wk_received : string;
  wk_responses : list arrival;
  wk_jobs_done : N;
  wk_last_used : N
}.

Definition wk_deliver (bytes : string) (w : Worker) : Worker :=
  MkWorker (wk_process w) (wk_language w) (wk_received w +:+ bytes) (wk_responses w)
    (wk_jobs_done w) (wk_last_used w).
Definition wk_read (rest : list arrival) (w : Worker) : Worker :=
  MkWorker (wk_process w) (wk_language w) (wk_received w) rest (wk_jobs_done w) (wk_last_used w).
Definition wk_served (now : N) (w : Worker) : Worker :=
  MkWorker (wk_process w) (wk_language w) (wk_received w) (wk_responses w)
    (wrapping_add (wk_jobs_done w) 1) now.

(** A call that returned at a time, or one that never does. *)
Inductive timed (A : Type) : Type :=
| Returns (a : A) (now : N)
| Waits.
Arguments Returns {A} a now.
Arguments Waits {A}.

Definition read_failed (error : string) : string :=
  "the worker's reply could not be read: " +:+ error.

(** What the system answers to one [write_all] and one [flush], and after how long, if
    ever: a worker that does not read leaves a full socket blocked. A write that fails
    may have sent some, but not all, of the bytes. *)
Record socket := MkSocket {
  so_write : option (string * nat);
  so_flush : option string;
  so_write_takes : option N;
  so_flush_takes : option N
}.

(** Neither keeps the caller waiting. *)
Definition prompt_socket (write : option (string * nat)) (flush : option string) : socket :=
  MkSocket write flush (Some 0%N) (Some 0%N).

Section Worker.
Context `{PoolJson}.

(** The loop of [await_response], on the deliveries. *)
Fixpoint await_loop (deadline : option N) (id : string) (stream : list arrival) (now : N)
    (w : Worker) : timed (result SubmitFailure JobResponse * Worker) :=
  match next_line deadline now stream with
  | Forever => Waits
  | TimedOut now =>
      Returns (Err (SubmitFailure_post "the worker stopped answering and was discarded"),
               wk_read stream w) now
  | Arrived now DClosed rest =>
      Returns (Err (SubmitFailure_post "the worker closed its protocol stream"), wk_read rest w) now
  | Arrived now (DFailed error) rest =>
      Returns (Err (SubmitFailure_post (read_failed error)), wk_read rest w) now
  | Arrived now (DLine line) _ =>
      match stream with
      | [] => Waits
      | _ :: rest =>
          match decode_job_response line with
          | Err _ => await_loop deadline id rest now w
          | Ok response =>
              if negb (bool_decide (jr_id response = Some id)) then
                await_loop deadline id rest now w
              else Returns (Ok response, wk_served now (wk_read rest w)) now
          end
      end
  end.

Definition await_response (id : string) (hard_deadline : option N) (now : N) (w : Worker)
  : timed (result SubmitFailure JobResponse * Worker) :=
  await_loop ((fun budget => now + budget)%N <$> hard_deadline) id (wk_responses w) now w.

Definition newline : string := String "010"%char "".

Definition submit (sys : socket) (request : JobRequest) (hard_deadline : option N) (now : N)
    (w : Worker) : timed (result SubmitFailure JobResponse * Worker) :=
  match encode_job request with
  | Err error =>
      Returns (Err (SubmitFailure_pre ("the job could not be encoded: " +:+ error)), w) now
  | Ok encoded =>
      let line := encoded +:+ newline in
      match so_write_takes sys with
      | None => Waits
      | Some written =>
          let now := (now + written)%N in
          match so_write sys with
          | Some (error, sent) =>
              let sent := Nat.min sent (String.length encoded) in
              Returns (Err (SubmitFailure_pre ("the job could not be sent: " +:+ error)),
                       wk_deliver (String.substring 0 sent line) w) now
          | None =>
              match so_flush_takes sys with
              | None => Waits
              | Some flushed =>
                  let now := (now + flushed)%N in
                  let w := wk_deliver line w in
                  match so_flush sys with
                  | Some error =>
                      Returns (Err (SubmitFailure_post ("the job could not be flushed: " +:+ error)), w) now
                  | None => await_response (jq_id request) hard_deadline now w
                  end
              end
          end
      end
  end.

Definition should_recycle (budget : N) (w : Worker) : bool :=
  (0 <? budget)%N && (budget <=? wk_jobs_done w)%N.

Definition idle_expired (ttl now : N) (w : Worker) : bool := (ttl <=? now - wk_last_used w)%N.

(** [child.try_wait()]: an exit status, none yet, or a failure. *)
Definition has_exited (try_wait : result string (option Z)) : bool :=
  match try_wait with Ok None => false | Ok (Some _) | Err _ => true end.

(** ** Spawning *)

Definition read_handshake (responses : list arrival) (budget now : N)
  : result string (Handshake * list arrival) * N :=
  match next_line (Some (now + budget)%N) now responses with
  | Arrived now (DLine line) rest =>
      (result_map (fun h => (h, rest))
         (map_err (fun error => "the worker's handshake could not be read: " +:+ error)
            (decode_handshake line)), now)
  | Arrived now DClosed _ => (Err "the worker exited before its handshake", now)
  | Arrived now (DFailed error) _ =>
      (Err ("the worker's handshake could not be read: " +:+ error), now)
  | TimedOut now => (Err "the worker's handshake timed out", now)
  | Forever => (Err "the worker's handshake timed out", now)
  end.

Definition verify_handshake (handshake : Handshake) (launch : Launch) (token : string)
  : result string unit :=
  if negb (hs_ready handshake) then
    Err ("the worker failed to start: " +:+ default "no reason given" (hs_error handshake))
  else if negb (bool_decide (hs_token handshake = Some token)) then
    Err "the worker did not present the secret it was given"
  else match hs_protocol handshake with
       | Some version =>
           if (version =? lc_protocol_version launch)%N then Ok tt
           else Err ("the worker speaks protocol " +:+ display_u64 version +:+ ", not "
                     +:+ display_u64 (lc_protocol_version launch))
       | None => Err "the worker did not say which protocol it speaks"
       end.

(** What the system does for one spawn: the listener and its address, the secret,
    the child, and who connects when (nobody, or a refused or an open connection). *)
Record spawn_world := MkSpawnWorld {
  sw_bind : result string unit;
  sw_local_addr : result string string;
  sw_token : string;
  sw_process : SpawnSpec -> result string nat;
  sw_accept : option (N * result string (list arrival))
}.

(** What a spawn did to processes. *)
Inductive process_event := Started (spec : SpawnSpec) (process : nat) | Killed (process : nat).

Definition PROTOCOL_ADDR : string := "TINYRUNTIME_PROTOCOL_ADDR".
Definition PROTOCOL_TOKEN : string := "TINYRUNTIME_PROTOCOL_TOKEN".

Definition spawn_spec (launch : Launch) (address token : string) : SpawnSpec := {|
  ss_program := lc_binary launch;
  ss_args := lc_args launch;
  ss_env := lc_env launch ++ [(PROTOCOL_ADDR, address); (PROTOCOL_TOKEN, token)];
  ss_clear_env := true
|}.

(** [listener.accept()] under the handshake budget. *)
Definition accept_within (budget now : N) (connection : option (N * result string (list arrival)))
  : result string (list arrival) * N :=
  match connection with
  | None => (Err "the worker did not connect back in time", now + budget)%N
  | Some (at', answer) =>
      if (at' <=? now + budget)%N then
        (map_err (fun error => "the worker connection was refused: " +:+ error) answer, N.max now at')
      else (Err "the worker did not connect back in time", now + budget)%N
  end.

(** Every failure after the child exists drops it, which kills it. *)
Definition spawn (sys : spawn_world) (launch : Launch) (now : N)
  : result string Worker * list process_event * N :=
  match sw_bind sys with
  | Err error => (Err ("the protocol listener could not be opened: " +:+ error), [], now)
  | Ok _ =>
  match sw_local_addr sys with
  | Err error => (Err ("the worker protocol address could not be read: " +:+ error), [], now)
  | Ok address =>
  match confine (lc_spawner launch) (spawn_spec launch address (sw_token sys)) with
  | Err error =>
      (Err ("the worker could not be started: " +:+ SpawnRefused_display error), [], now)
  | Ok spec =>
  match sw_process sys spec with
  | Err error => (Err ("the worker could not be started: " +:+ error), [], now)
  | Ok process =>
      let dropped := [Started spec process; Killed process] in
      match accept_within (lc_handshake_timeout launch) now (sw_accept sys) with
      | (Err error, now) => (Err error, dropped, now)
      | (Ok responses, now) =>
          match read_handshake responses (lc_handshake_timeout launch) now with
          | (Err error, now) => (Err error, dropped, now)
          | (Ok (handshake, rest), now) =>
              match verify_handshake handshake launch (sw_token sys) with
              | Err error => (Err error, dropped, now)
              | Ok _ =>
                  (Ok (MkWorker process (lc_language launch) "" rest 0 now),
                   [Started spec process], now)
              end
          end
      end
  end end end end.

End Worker.

(** ** Lemmas *)

Lemma next_line_deadline at' now stream :
  match next_line (Some at') now stream with
  | Arrived t _ _ | TimedOut t => (now <= t <= N.max now at')%N
  | Forever => False
  end.
Proof.
  unfold next_line. destruct stream as [|a rest]; [lia|].
  destruct (N.leb_spec (ar_at a) now); [lia|]. destruct (N.leb_spec (ar_at a) at'); lia.
Qed.

Lemma next_line_rest d now stream t what rest :
  next_line d now stream = Arrived t what rest -> exists a, stream = a :: rest.
Proof.
  unfold next_line. destruct stream as [|a r]; [by destruct d|].
  destruct (_ <=? now)%N; [intros [= _ _ <-]; eauto|].
  destruct d as [at'|]; [destruct (_ <=? at')%N; [|done]|]; intros [= _ _ <-]; eauto.
Qed.

Lemma next_line_what d now stream t what rest :
  next_line d now stream = Arrived t what rest -> exists at', stream = MkArrival at' what :: rest.
Proof.
  unfold next_line. destruct stream as [|[at' what'] r]; [by destruct d|]. cbn.
  destruct (_ <=? now)%N; [intros [= _ <- <-]; eauto|].
  destruct d as [at''|]; [destruct (_ <=? at'')%N; [|done]|]; intros [= _ <- <-]; eauto.
Qed.

Section WorkerFacts.
Context `{PoolJson}.

(** The equation of the loop, by what arrives next. *)
Lemma await_loop_eq deadline id stream now w :
  await_loop deadline id stream now w
  = match next_line deadline now stream with
    | Forever => Waits
    | TimedOut now =>
        Returns (Err (SubmitFailure_post "the worker stopped answering and was discarded"),
                 wk_read stream w) now
    | Arrived now DClosed rest =>
        Returns (Err (SubmitFailure_post "the worker closed its protocol stream"), wk_read rest w) now
    | Arrived now (DFailed error) rest =>
        Returns (Err (SubmitFailure_post (read_failed error)), wk_read rest w) now
    | Arrived now (DLine line) rest =>
        match decode_job_response line with
        | Ok response =>
            if bool_decide (jr_id response = Some id)
            then Returns (Ok response, wk_served now (wk_read rest w)) now
            else await_loop deadline id rest now w
        | Err _ => await_loop deadline id rest now w
        end
    end.
Proof.
  destruct stream as [|a rest]; cbn [await_loop]; destruct (next_line _ _ _) as [t d r|t|] eqn:E;
    try done; apply next_line_rest in E as [a' Ha]; [done|].
  injection Ha as <- <-. destruct d; try done.
  destruct (decode_job_response text); [|done]. by destruct (bool_decide _).
Qed.

Lemma await_loop_spec deadline id stream now w r w' t :
  await_loop deadline id stream now w = Returns (r, w') t ->
  (now <= t)%N
  /\ (forall at', deadline = Some at' -> (t <= N.max now at')%N)
  /\ wk_received w' = wk_received w /\ wk_process w' = wk_process w
  /\ match r with
     | Ok response =>
         jr_id response = Some id /\ wk_jobs_done w' = wrapping_add (wk_jobs_done w) 1
         /\ wk_last_used w' = t
     | Err f => sf_dispatched f = true /\ wk_jobs_done w' = wk_jobs_done w
     end.
Proof.
  revert now. induction stream as [|a rest IH]; intros now; rewrite await_loop_eq.
  - cbn. destruct deadline as [at'|]; [|done]. intros [= <- <- <-].
    split_and!; try done; [lia|]. intros ? [= <-]. lia.
  - pose proof (fun at' => next_line_deadline at' now (a :: rest)) as Hd.
    destruct (next_line deadline now (a :: rest)) as [t1 d r1|t1|] eqn:E; [| |done].
    + assert ((now <= t1)%N /\ forall at', deadline = Some at' -> (t1 <= N.max now at')%N) as [Hle Hdl].
      { split; [|intros at' ->; specialize (Hd at'); rewrite E in Hd; lia].
        revert E. unfold next_line. destruct (N.leb_spec (ar_at a) now); [intros [= <- _ _]; lia|].
        destruct deadline as [at'|]; [destruct (_ <=? at')%N; [|done]|]; intros [= <- _ _]; lia. }
      destruct (next_line_rest _ _ _ _ _ _ E) as [a' [= -> <-]].
      assert (forall t, (t1 <= t)%N -> (forall at', deadline = Some at' -> (t <= N.max t1 at')%N) ->
                (now <= t)%N /\ forall at', deadline = Some at' -> (t <= N.max now at')%N) as Hmono.
      { intros t0 H1 H2. split; [lia|]. intros at' Hat. specialize (H2 at' Hat).
        specialize (Hdl at' Hat). lia. }
      destruct d; [destruct (decode_job_response text) as [resp|]; [case_bool_decide|]| |].
      * intros [= <- <- <-]. split_and!; done.
      * intros (H1 & H2 & H3)%IH. destruct (Hmono _ H1 H2). done.
      * intros (H1 & H2 & H3)%IH. destruct (Hmono _ H1 H2). done.
      * intros [= <- <- <-]. split_and!; done.
      * intros [= <- <- <-]. split_and!; done.
    + intros [= <- <- <-]. destruct deadline as [at'|]; [|by cbn in E; destruct (_ <=? _)%N].
      specialize (Hd at'). rewrite E in Hd. split_and!; try done; [lia|].
      intros ? [= <-]. lia.
Qed.

Lemma await_loop_returns at' id stream now w :
  exists r t, await_loop (Some at') id stream now w = Returns r t.
Proof.
  revert now. induction stream as [|a rest IH]; intros now; rewrite await_loop_eq; [by eexists _, _|].
  pose proof (next_line_deadline at' now (a :: rest)) as Hd.
  destruct (next_line _ now (a :: rest)) as [t d r|t|] eqn:E; [|by eexists _, _|done].
  destruct (next_line_rest _ _ _ _ _ _ E) as [a' [= -> <-]].
  destruct d; [|by eexists _, _..].
  destruct (decode_job_response text); [|apply IH]. case_bool_decide; [by eexists _, _|apply IH].
Qed.

(** Whether a byte string holds a complete frame. *)
Definition holds_frame (bytes : string) : bool := contains_byte "010"%char bytes.

Lemma substring_within s r n :
  (n <= String.length s)%nat -> exists rest, s = String.substring 0 n (s +:+ r) +:+ rest.
Proof.
  revert n. induction s as [|c s IH]; intros n Hn; cbn in Hn.
  - replace n with 0%nat by lia. exists "". by destruct r.
  - destruct n; [exists (String c s); by rewrite string_append_cons|].
    rewrite string_append_cons. cbn. destruct (IH n) as [rest Hr]; [lia|].
    exists rest. rewrite string_append_cons. by rewrite <- Hr.
Qed.

End WorkerFacts.

(** ** Properties *)

Section Properties.
Context `{Hjson : PoolJson}.

(** C9. A job is never answered with another job's reply and never lost silently:
    a submission that succeeds returns a reply carrying the job's own id, received
    after the whole job was sent, and counts one job served. *)
Theorem submit_answers_its_own_job (sys : socket) (request : JobRequest) (budget : option N)
    (now : N) (w : Worker) :
  match submit sys request budget now w with
  | Returns (Ok response, w') t =>
      jr_id response = Some (jq_id request) /\ (now <= t)%N
      /\ (exists line, encode_job request = Ok line
           /\ wk_received w' = wk_received w +:+ line +:+ newline)
      /\ wk_jobs_done w' = wrapping_add (wk_jobs_done w) 1
      /\ wk_last_used w' = t /\ wk_process w' = wk_process w
  | _ => True
  end.
Proof.
  destruct (submit _ _ _ _ _) as [[[response|] w'] t|] eqn:E; [|done..].
  unfold submit in E. destruct (encode_job request) as [line|] eqn:He; [|done].
  destruct (so_write_takes sys) as [d1|]; [|done]. destruct (so_write sys) as [[]|]; [done|].
  destruct (so_flush_takes sys) as [d2|]; [|done]. destruct (so_flush sys); [done|].
  unfold await_response in E. apply await_loop_spec in E as (Hle & _ & Hrec & Hp & Hid & Hj & Hl).
  split_and!; [done|lia| |done|done|by rewrite Hp]. exists line. by rewrite Hrec.
Qed.

(** How long the job takes to be written and flushed, or to fail at that, if it ever does. *)
Definition sending (sys : socket) (request : JobRequest) : option N :=
  match encode_job request, so_write_takes sys, so_write sys with
  | Err _, _, _ => Some 0%N
  | Ok _, None, _ => None
  | Ok _, Some written, Some _ => Some written
  | Ok _, Some written, None => (fun flushed => written + flushed)%N <$> so_flush_takes sys
  end.

(** C10. The hard deadline bounds the wait for the reply, and nothing else. Once the job is
    on its way, a submission with a budget returns within it: lines that are not replies,
    or reply to another job, cannot keep a wedged worker. But the deadline only starts
    then: a submission takes as long as the write and the flush do, and never returns,
    whatever its budget, when the worker has stopped reading and they never end. *)
Theorem submit_is_bounded (sys : socket) (request : JobRequest) (budget now : N) (w : Worker) :
  match sending sys request with
  | Some sent => exists r t, submit sys request (Some budget) now w = Returns r t
                   /\ (now + sent <= t <= now + sent + budget)%N
  | None => forall budget, submit sys request budget now w = Waits
  end.
Proof.
  unfold submit, sending. destruct (encode_job request) as [line|].
  2:{ eexists _, _. split; [done|lia]. }
  destruct (so_write_takes sys) as [written|]; [|done].
  destruct (so_write sys) as [[]|]; [eexists _, _; split; [done|lia]|].
  destruct (so_flush_takes sys) as [flushed|]; [cbn|done].
  destruct (so_flush sys); [eexists _, _; split; [done|lia]|].
  unfold await_response. cbn [fmap option_fmap option_map].
  destruct (await_loop_returns (now + written + flushed + budget) (jq_id request)
    (wk_responses (wk_deliver (line +:+ newline) w)) (now + written + flushed) (wk_deliver (line +:+ newline) w))
    as ([r w'] & t & E).
  exists (r, w'), t. split; [done|]. apply await_loop_spec in E as (Hle & Hdl & _).
  specialize (Hdl _ eq_refl). lia.
Qed.

End Properties.

Section Tagging.
Context `{Hjson : PoolJson} `{!PoolJsonLaw Hjson}.

(** C11. The tag that decides whether a job may be retried is right: a failure tagged
    as before dispatch has given the worker no complete frame, so the job cannot
    have run; a failure tagged as after dispatch comes from a job whose whole frame
    was written. *)
Theorem submit_failure_tag (sys : socket) (request : JobRequest) (budget : option N) (now : N)
    (w : Worker) :
  match submit sys request budget now w with
  | Returns (Err failure, w') _ =>
      exists sent, wk_received w' = wk_received w +:+ sent
        /\ holds_frame sent = sf_dispatched failure
        /\ (sf_dispatched failure = true ->
            exists line, encode_job request = Ok line /\ sent = line +:+ newline)
  | _ => True
  end.
Proof.
  destruct (submit _ _ _ _ _) as [[[|failure] w'] t|] eqn:E; [done| |done].
  unfold submit in E. destruct (encode_job request) as [line|] eqn:He.
  2:{ injection E as <- <- _. exists "". rewrite string_app_nil_r. done. }
  assert (forall sent, sent = line +:+ newline -> holds_frame sent = true) as Hwhole.
  { intros ? ->. unfold holds_frame. rewrite contains_byte_app. cbn. by rewrite orb_true_r. }
  destruct (so_write_takes sys); [|done]. destruct (so_write sys) as [[error sent]|].
  { injection E as <- <- _. cbn. eexists. split; [done|]. split; [|done].
    apply encode_job_one_line in He.
    destruct (substring_within line newline (Nat.min sent (String.length line)))
      as [rest Hr]; [lia|].
    rewrite Hr, contains_byte_app in He. apply orb_false_iff in He as [He _]. exact He. }
  destruct (so_flush_takes sys); [|done]. destruct (so_flush sys).
  { injection E as <- <- _. exists (line +:+ newline). cbn. rewrite Hwhole by done. eauto. }
  unfold await_response in E. apply await_loop_spec in E as (_ & _ & Hrec & _ & Hdisp & _).
  exists (line +:+ newline). rewrite Hrec, Hdisp, Hwhole by done. eauto.
Qed.

End Tagging.

Section Spawning.
Context `{Hjson : PoolJson}.

(** C12. Spawning fails closed and authenticates.  At most one process is started,
    always from the spec the host's confinement returned, with a cleared
    environment when none is installed; a refusal starts nothing.  A worker is only
    returned when the first thing its connection said, the one connection that was
    accepted and in time, is a line that presents the secret, declares the worker ready
    and speaks the expected protocol; what the worker answers later is what comes after
    that line, on the same connection. Every other process is killed. *)
Theorem spawn_fails_closed (sys : spawn_world) (launch : Launch) (now : N) :
  let '(r, events, t) := spawn sys launch now in
  match r with
  | Ok w =>
      exists address spec,
        confine (lc_spawner launch) (spawn_spec launch address (sw_token sys)) = Ok spec
        /\ events = [Started spec (wk_process w)]
        /\ (exists at' said line h,
             sw_accept sys = Some (at', Ok (MkArrival said (DLine line) :: wk_responses w))
             /\ (at' <= now + lc_handshake_timeout launch)%N
             /\ decode_handshake line = Ok h /\ hs_ready h = true
             /\ hs_token h = Some (sw_token sys) /\ hs_protocol h = Some (lc_protocol_version launch))
        /\ wk_received w = "" /\ wk_jobs_done w = 0%N /\ wk_last_used w = t
        /\ (t <= now + lc_handshake_timeout launch + lc_handshake_timeout launch)%N
  | Err _ =>
      events = []
      \/ exists address spec process,
           confine (lc_spawner launch) (spawn_spec launch address (sw_token sys)) = Ok spec
           /\ events = [Started spec process; Killed process]
  end.
Proof.
  unfold spawn. destruct (sw_bind sys); [|by left]. destruct (sw_local_addr sys) as [address|]; [|by left].
  destruct (confine _ _) as [spec|] eqn:Hc; [|by left].
  destruct (sw_process sys spec) as [process|]; [|by left].
  destruct (accept_within _ _ _) as [[responses|] t1] eqn:Ha; [|by right; eauto 10].
  destruct (read_handshake responses _ t1) as [[[h rest]|] t2] eqn:Hr; [|by right; eauto 10].
  destruct (verify_handshake h launch _) eqn:Hv; [|by right; eauto 10].
  exists address, spec. split; [done|]. split; [done|]. cbn [wk_received wk_jobs_done wk_last_used wk_responses].
  unfold verify_handshake in Hv. destruct (hs_ready h) eqn:Hready; [|done]. cbn in Hv.
  case_bool_decide as Ht; [|done]. cbn in Hv.
  destruct (hs_protocol h) as [v|] eqn:Hp; [|done]. destruct (N.eqb_spec v (lc_protocol_version launch)) as [->|]; [|done].
  assert (exists at', sw_accept sys = Some (at', Ok responses) /\ (at' <= now + lc_handshake_timeout launch)%N
            /\ t1 = N.max now at') as (at' & Haccept & Hat & Ht1).
  { unfold accept_within in Ha. destruct (sw_accept sys) as [[at' answer]|]; [|done].
    destruct (N.leb_spec at' (now + lc_handshake_timeout launch)); [|done].
    destruct answer; [|done]. injection Ha as -> <-. by exists at'. }
  unfold read_handshake in Hr.
  pose proof (next_line_deadline (t1 + lc_handshake_timeout launch) t1 responses) as Hd.
  destruct (next_line _ t1 responses) as [t3 d r3|t3|] eqn:Hn; [|done..].
  destruct d as [line| |]; [|done..].
  apply next_line_what in Hn as (said & ->).
  destruct (decode_handshake line) as [h'|] eqn:Hdec; [|done]. injection Hr as -> <- <-.
  split_and!; try done; [|lia]. by exists at', said, line, h.
Qed.

End Spawning.

(** A worker's environment is an allow-list: every variable it has is its own
    [PATH], a listed name with the host's value, or one the harness asked for; the
    toolchain's directory comes first on the path. *)
Theorem environment_is_an_allow_list (vars : string -> option string) (bin_dir : Path)
    (extra : list (string * string)) :
  (forall name value, (name, value) ∈ env_build vars bin_dir extra ->
     name = "PATH" \/ (name ∈ INHERITED /\ vars name = Some value) \/ (name, value) ∈ extra)
  /\ (exists rest, head (env_build vars bin_dir extra) = Some ("PATH", path_display bin_dir +:+ rest)
       /\ (rest = "" \/ exists inherited, vars "PATH" = Some inherited /\ rest = ":" +:+ inherited)).
Proof.
  split.
  - intros name value. unfold env_build. rewrite !elem_of_app, list_elem_of_singleton.
    intros [[= -> _]|[Hin|Hin]]; [by left| |by right; right].
    right. left. apply list_elem_of_omap in Hin as (x & Hx & Hv).
    destruct (vars x) eqn:Hvars; [|done]. injection Hv as -> ->. done.
  - unfold env_build. cbn [app head]. destruct (vars "PATH") as [p|] eqn:Hp.
    + destruct (String.eqb p "") eqn:He; cbn -[path_display String.eqb]; rewrite He.
      * exists "". split; [by rewrite (string_app_nil_r (path_display bin_dir))|by left].
      * exists (":" +:+ p). split; [done|]. right. by exists p.
    + exists "". split; [cbn; by rewrite (string_app_nil_r (path_display bin_dir))|by left].
Qed.

(** ** The properties at work *)

(** A stand-in for JSON, for evaluation: a reply is the id it answers, a handshake
    is its secret. *)
Definition sample_json : PoolJson := {|
  encode_job request :=
    if contains_byte "010"%char (jq_id request) then Err "unencodable" else Ok (jq_id request);
  decode_job_response line :=
    if String.eqb line "junk" then Err "expected value"
    else Ok (MkJobResponse (Some line) true "out" "" (Some 0%Z) false 1 None);
  decode_handshake line := Ok (MkHandshake true (Some 1%N) None None (Some line))
|}.

Lemma sample_json_law : PoolJsonLaw sample_json.
Proof.
  intros request line. cbn. destruct (contains_byte "010"%char (jq_id request)) eqn:E; [done|].
  by intros [= <-].
Qed.

Section Samples.
Let job := MkJobRequest "7" "1+1" None (Some 50%N).
Let worker := MkWorker 0 Language_nodejs ""
  [MkArrival 10 (DLine "junk"); MkArrival 20 (DLine "6"); MkArrival 30 (DLine "7")] 0 0.

(** Junk and another job's reply are passed over, then the answer is taken. *)
Example submit_skips_to_its_reply :
  match @submit sample_json (prompt_socket None None) job (Some 60%N) 5 worker with
  | Returns (Ok response, _) t => jr_id response = Some "7" /\ t = 30%N
  | _ => False
  end.
Proof. vm_compute. done. Qed.

(** The same lines, with a deadline that falls between them. *)
Example submit_gives_up_at_the_deadline :
  match @submit sample_json (prompt_socket None None) job (Some 20%N) 5 worker with
  | Returns (Err failure, _) t => sf_dispatched failure = true /\ t = 25%N
  | _ => False
  end.
Proof. vm_compute. done. Qed.

(** A worker that has stopped reading keeps the caller for ever, deadline or not. *)
Example submit_waits_to_be_read :
  @submit sample_json (MkSocket None None None (Some 0%N)) job (Some 20%N) 5 worker = Waits.
Proof. reflexivity. Qed.

Lemma submit_failure_tag_witness :
  match @submit sample_json (prompt_socket (Some ("broken pipe", 9)) None) job None 5 worker with
  | Returns (Err failure, w') _ =>
      sf_dispatched failure = false
      /\ exists sent, wk_received w' = wk_received worker +:+ sent
        /\ holds_frame sent = sf_dispatched failure
        /\ (sf_dispatched failure = true ->
            exists line, @encode_job sample_json job = Ok line /\ sent = line +:+ newline)
  | _ => False
  end.
Proof.
  pose proof (@submit_failure_tag sample_json sample_json_law
                (prompt_socket (Some ("broken pipe", 9)) None) job None 5 worker) as H.
  split; [reflexivity|exact H].
Defined.

(** A stranger connects first: no worker, and the child is killed. *)
Example spawn_refuses_strangers :
  let launch := MkLaunch Language_nodejs (Path_new "/n/bin/node") [] [] 1 1000 None in
  let sys := MkSpawnWorld (Ok tt) (Ok "127.0.0.1:9") "secret" (fun _ => Ok 3)
               (Some (5%N, Ok [MkArrival 6 (DLine "guess")])) in
  let '(r, events, _) := @spawn sample_json sys launch 0 in
  r = Err "the worker did not present the secret it was given"
  /\ events = [Started (spawn_spec launch "127.0.0.1:9" "secret") 3; Killed 3].
Proof. vm_compute. done. Qed.

End Samples.
