(* ===== verification/FakeWorker.v ===== *)
(** * The worker's end of the protocol: [pool/fake_worker.rs]

    The worker the pool is tested with: a process that connects back, presents the secret
    and answers the jobs it is sent, as the code of each directs. With it both ends of the
    protocol are here, and what [PoolWorker] makes of it can be said of whole
    conversations. *)

From Stdlib Require Import String Ascii.
From S2P Require Import Prelude RustStd Identity Vocabulary Errors World Download PoolWorker.

Open Scope rust_scope.

(** ** What it does with a job *)

Inductive Directive :=
| Echo (text : string)
| Fails (text : string)
| TimesOut
| HarnessError (message : string)
| Hang
| Die
| Misaddressed (text : string)
| Noise (text : string)
| ExitAfterReply
| Linger
| Prints (text : string).

Definition code (d : Directive) : string :=
  match d with
  | Echo text => "echo:" +:+ text
  | Fails text => "fail:" +:+ text
  | TimesOut => "timeout"
  | HarnessError message => "harness-error:" +:+ message
  | Hang => "hang"
  | Die => "die"
  | Misaddressed text => "misaddressed:" +:+ text
  | Noise text => "noise:" +:+ text
  | ExitAfterReply => "exit-after-reply"
  | Linger => "linger"
  | Prints text => "print:" +:+ text
  end.

(** ** Launching it *)

Definition WORKER_MARKER : string := "TINYRUNTIME_TEST_WORKER".

(** What the test binary sees of its own process: its path and its variables. A panic is
    an [Err] with its message. *)
Definition launch (current_exe : result string Path) (vars : string -> option string) (language : Language)
  : result string Launch :=
  binary <-! map_err (fun _ => "a test binary has a path") current_exe ;;
  dir <-! match parent binary with Some dir => Ok dir | None => Err "a test binary has a directory" end ;;
  Ok {|
    lc_language := language;
    lc_binary := binary;
    lc_args := ["--exact"; "pool::fake_worker::test::serves_as_a_worker_when_asked"; "--nocapture";
                "--test-threads=1"];
    lc_env := env_build vars dir
                [(WORKER_MARKER, "1"); ("RUST_BACKTRACE", default "" (vars "RUST_BACKTRACE"))];
    lc_protocol_version := WORKER_PROTOCOL_VERSION;
    lc_handshake_timeout := 20000;
    lc_spawner := None
  |}.

Definition launch_with_mode (current_exe : result string Path) (vars : string -> option string)
    (language : Language) (mode : string) : result string Launch :=
  l <-! launch current_exe vars language ;;
  Ok (MkLaunch (lc_language l) (lc_binary l) (lc_args l)
        (filter (fun '(name, _) => name <> WORKER_MARKER) (lc_env l) ++ [(WORKER_MARKER, mode)])
        (lc_protocol_version l) (lc_handshake_timeout l) (lc_spawner l)).

Inductive Mode := Serve | Silent | Garbage.

Definition Mode_of (marker : string) : Mode :=
  if String.eqb marker "silent" then Silent
  else if String.eqb marker "garbage" then Garbage
  else Serve.

(** ** The process *)

(** What it wrote to the pool and to its own output, whether it is to stay once its stream
    is gone, and how long it slept, in milliseconds. *)
Record Child := MkChild {
  ch_replies : string;
  ch_stdout : string;
  ch_linger : bool;
  ch_slept : N
}.

Definition fresh : Child := MkChild "" "" false 0.

Definition set_linger (linger : bool) (c : Child) : Child :=
  MkChild (ch_replies c) (ch_stdout c) linger (ch_slept c).

Definition HANG_FOR : N := 25000.

Definition sleep_for (ms : N) : io Child unit :=
  fun c => (tt, MkChild (ch_replies c) (ch_stdout c) (ch_linger c) (ch_slept c + ms)).

Definition println (text : string) : io Child unit :=
  fun c => (tt, MkChild (ch_replies c) (ch_stdout c +:+ text +:+ newline) (ch_linger c) (ch_slept c)).

(** How much of a write the stream takes, after what it took before: [None] all of it. *)
Class ReplyPipe := { taken : string -> string -> option nat }.

(** [serde_json] on the worker's side of the three messages. *)
Class WorkerSideJson := {
  encode_handshake : Handshake -> result string string;
  encode_job_response : JobResponse -> result string string;
  decode_job : string -> result string JobRequest
}.

(** [str::split_once] on one byte. *)
Fixpoint split_once (c : ascii) (s : string) : option (string * string) :=
  match s with
  | EmptyString => None
  | String d r =>
      if Ascii.eqb c d then Some ("", r)
      else (fun '(before, after) => (String d before, after)) <$> split_once c r
  end.

Definition expect {A} (what : string) (r : result string A) : result string A := map_err (fun _ => what) r.

Section Child.
Context `{ReplyPipe} `{WorkerSideJson}.

Definition write_all (bytes : string) : io Child unit :=
  fun c =>
    let out := ch_replies c in
    let written := match taken out bytes with Some n => String.substring 0 n bytes | None => bytes end in
    (tt, MkChild (out +:+ written) (ch_stdout c) (ch_linger c) (ch_slept c)).

(** Write one newline-terminated frame; what fails is not looked at. *)
Definition send (line : string) : io Child unit :=
  write_all line ;;; write_all newline.

Definition send_reply (reply : JobResponse) : io Child (result string unit) :=
  line <-? io_ret (expect "encodes" (encode_job_response reply)) ;;
  send line ;;; io_ret (Ok tt).

Definition plain_reply (request : JobRequest) : JobResponse :=
  MkJobResponse (Some (jq_id request)) true "" "" (Some 0%Z) false 1 None.

Definition with_stdout (text : string) (r : JobResponse) : JobResponse :=
  MkJobResponse (jr_id r) (jr_ok r) text (jr_stderr r) (jr_exit_code r) (jr_timed_out r)
    (jr_elapsed_ms r) (jr_error r).

(** Act on one job: [false] when it should stop serving. *)
Definition handle (request : JobRequest) : io Child (result string bool) :=
  let '(kind, payload) := default (jq_code request, "") (split_once ":"%char (jq_code request)) in
  let reply := plain_reply request in
  let answer reply := _ <-? send_reply reply ;; io_ret (Ok true) in
  if String.eqb kind "echo" then answer (with_stdout payload reply)
  else if String.eqb kind "fail" then
    answer (MkJobResponse (jr_id reply) true "" payload (Some 1%Z) false 1 None)
  else if String.eqb kind "timeout" then
    answer (MkJobResponse (jr_id reply) true "" "" None true 1 None)
  else if String.eqb kind "harness-error" then
    answer (MkJobResponse (jr_id reply) false "" "" (Some 0%Z) false 1 (Some payload))
  else if String.eqb kind "hang" then sleep_for HANG_FOR ;;; io_ret (Ok false)
  else if String.eqb kind "die" then io_ret (Ok false)
  else if String.eqb kind "misaddressed" then
    let stray := MkJobResponse (Some (jq_id request +:+ "-not-this-one")) true "stray" "" (Some 0%Z) false 1 None in
    _ <-? send_reply stray ;; answer (with_stdout payload reply)
  else if String.eqb kind "noise" then
    send "this is not json" ;;; answer (with_stdout payload reply)
  else if String.eqb kind "print" then
    println payload ;;; answer (with_stdout payload reply)
  else if String.eqb kind "exit-after-reply" then
    _ <-? send_reply reply ;; io_ret (Ok false)
  else if String.eqb kind "linger" then
    _ <-? send_reply reply ;; (fun c => (Ok false, set_linger true c))
  else answer (with_stdout (jq_code request) reply).

(** What reading a line answers, one after the other; then the pool has disconnected. *)
Fixpoint serve_loop (requests : list (result string string)) : io Child (result string unit) :=
  match requests with
  | [] => io_ret (Ok tt)
  | Err _ :: _ => io_ret (Ok tt)
  | Ok line :: rest =>
      if String.eqb line "" then io_ret (Ok tt)
      else
        let trimmed := trim line in
        if String.eqb trimmed "" then serve_loop rest
        else match decode_job trimmed with
             | Err _ => serve_loop rest
             | Ok request =>
                 stays <-? handle request ;;
                 if stays : bool then serve_loop rest else io_ret (Ok tt)
             end
  end.

Definition greeting (token : option string) : Handshake :=
  MkHandshake true (Some WORKER_PROTOCOL_VERSION) (Some "test") None token.

Definition serve_on (requests : list (result string string)) (token : option string)
  : io Child (result string unit) :=
  hello <-? io_ret (expect "encodes" (encode_handshake (greeting token))) ;;
  send hello ;;; serve_loop requests.

(** The socket to the pool: whether it connects, and whether it can be cloned. *)
Definition connect_and_serve (connect try_clone : result string unit)
    (requests : list (result string string)) (token : option string) (mode : Mode)
  : io Child (result string unit) :=
  (fun c => (tt, set_linger false c)) ;;;
  _ <-? io_ret (expect "the pool is listening" connect) ;;
  match mode with
  | Silent => io_ret (Ok tt)
  | Garbage =>
      _ <-? io_ret (expect "the socket clones" try_clone) ;;
      send "not a handshake at all" ;;; io_ret (Ok tt)
  | Serve =>
      _ <-? io_ret (expect "the socket clones" try_clone) ;;
      _ <-? serve_on requests token ;;
      linger <-- io_get ch_linger ;;
      if linger : bool then sleep_for HANG_FOR ;;; io_ret (Ok tt) else io_ret (Ok tt)
  end.

(** The re-executed child, from its environment. *)
Definition serve (vars : string -> option string) (connect : string -> result string unit)
    (try_clone : result string unit) (requests : list (result string string)) : io Child (result string unit) :=
  match vars PROTOCOL_ADDR with
  | None => io_ret (Err "the pool supplies an address")
  | Some address =>
      connect_and_serve (connect address) try_clone requests (vars PROTOCOL_TOKEN)
        (Mode_of (default "" (vars WORKER_MARKER)))
  end.

End Child.

(** ** What is documented of [serde_json], between the two ends *)

(** The compact form of an object is one line in braces, and each end reads what the
    other wrote; two texts that are not JSON are not read. *)
Class ProtocolLaws `(PoolJson) `(WorkerSideJson) : Prop := {
  job_carried q : exists body, encode_job q = Ok ("{" +:+ body +:+ "}")
    /\ contains_byte "010"%char body = false /\ decode_job ("{" +:+ body +:+ "}") = Ok q;
  reply_carried r : exists line, encode_job_response r = Ok line
    /\ contains_byte "010"%char line = false /\ decode_job_response line = Ok r;
  greeting_carried h : exists line, encode_handshake h = Ok line
    /\ contains_byte "010"%char line = false /\ decode_handshake line = Ok h;
  noise_not_read : exists e, decode_job_response "this is not json" = Err e;
  garbage_not_read : exists e, decode_handshake "not a handshake at all" = Err e
}.

(** The lines of a text, and the text of lines. *)
Definition text_of (lines : list string) : string := String.concat "" (map (fun line => line +:+ newline) lines).
Definition lines_of (text : string) : list string := removelast (split_on "010"%char text).

Definition one_line (line : string) : Prop := contains_byte "010"%char line = false.

Lemma text_of_cons line lines : text_of (line :: lines) = line +:+ newline +:+ text_of lines.
Proof. unfold text_of. cbn [map]. by rewrite string_concat_cons, string_app_assoc. Qed.

Lemma text_of_app a b : text_of (a ++ b) = text_of a +:+ text_of b.
Proof.
  induction a as [|line a IH]; [done|]. cbn [app]. by rewrite !text_of_cons, IH, !string_app_assoc.
Qed.

Lemma split_on_line line text :
  one_line line -> split_on "010"%char (line +:+ newline +:+ text) = line :: split_on "010"%char text.
Proof.
  intros Hl. induction line as [|c line IH].
  - done.
  - unfold one_line, contains_byte in Hl. cbn -[Ascii.eqb] in Hl. apply orb_false_iff in Hl as [Hc Hl].
    rewrite string_append_cons. cbn -[Ascii.eqb]. rewrite Hc. by rewrite IH.
Qed.

Lemma split_on_text lines : Forall one_line lines -> split_on "010"%char (text_of lines) = lines ++ [""].
Proof.
  induction 1 as [|line lines Hl Hls IH]; [done|]. rewrite text_of_cons, split_on_line by done. by rewrite IH.
Qed.

Lemma lines_of_text lines : Forall one_line lines -> lines_of (text_of lines) = lines.
Proof. intros Hl. unfold lines_of. by rewrite split_on_text, removelast_last. Qed.

(** An object and the newline after it, trimmed. *)
Lemma trim_object body : trim (("{" +:+ body +:+ "}") +:+ newline) = "{" +:+ body +:+ "}".
Proof.
  apply string_list_inj. unfold trim. rewrite list_ascii_of_string_of_list_ascii, !list_ascii_of_app.
  cbn [list_ascii_of_string newline]. set (b := list_ascii_of_string body).
  unfold trim_bytes. rewrite (trim_front_fix white_space) by done.
  replace (rev ((["{"%char] ++ b ++ ["}"%char]) ++ ["010"%char])) with ("010"%char :: "}"%char :: rev (["{"%char] ++ b))
    by (by rewrite app_assoc, !rev_app_distr).
  replace (length ((["{"%char] ++ b ++ ["}"%char]) ++ ["010"%char])) with (S (S (S (length b))))
    by (cbn; rewrite !length_app; cbn; lia).
  change (trim_front (map (@rev ascii) white_space) (S (S (S (length b)))) ("010"%char :: "}"%char :: rev (["{"%char] ++ b)))
    with (trim_front (map (@rev ascii) white_space) (S (S (length b))) ("}"%char :: rev (["{"%char] ++ b))).
  rewrite trim_front_fix by done. cbn [rev]. by rewrite rev_involutive, <- app_assoc.
Qed.

(** ** What a directive makes it do *)

Section Served.
Context `{Hpool : PoolJson} `{Hpipe : ReplyPipe} `{Hside : WorkerSideJson}.

(** The reply a directive calls for, if any. *)
Definition answer_to (id : string) (d : Directive) : option JobResponse :=
  let reply out := MkJobResponse (Some id) true out "" (Some 0%Z) false 1 None in
  match d with
  | Echo text | Misaddressed text | Noise text | Prints text => Some (reply text)
  | Fails text => Some (MkJobResponse (Some id) true "" text (Some 1%Z) false 1 None)
  | TimesOut => Some (MkJobResponse (Some id) true "" "" None true 1 None)
  | HarnessError message => Some (MkJobResponse (Some id) false "" "" (Some 0%Z) false 1 (Some message))
  | ExitAfterReply | Linger => Some (reply "")
  | Hang | Die => None
  end.

(** Whether it goes on serving. *)
Definition stays (d : Directive) : bool :=
  match d with Hang | Die | ExitAfterReply | Linger => false | _ => true end.

Definition line_of (r : JobResponse) : string :=
  match encode_job_response r with Ok line => line | Err _ => "" end.
Definition job_line (q : JobRequest) : string :=
  match encode_job q with Ok line => line | Err _ => "" end.

(** What it sends ahead of the reply. *)
Definition ahead_of (id : string) (d : Directive) : list string :=
  match d with
  | Misaddressed _ =>
      [line_of (MkJobResponse (Some (id +:+ "-not-this-one")) true "stray" "" (Some 0%Z) false 1 None)]
  | Noise _ => ["this is not json"]
  | _ => []
  end.

Definition frames_of (id : string) (d : Directive) : list string :=
  ahead_of id d ++ match answer_to id d with Some r => [line_of r] | None => [] end.

(** A job with its directive. *)
Definition directs (job : JobRequest * Directive) : Prop := jq_code (fst job) = code (snd job).

Fixpoint frames_served (jobs : list (JobRequest * Directive)) : list string :=
  match jobs with
  | [] => []
  | (q, d) :: rest => frames_of (jq_id q) d ++ if stays d then frames_served rest else []
  end.

Context (Hlaws : ProtocolLaws Hpool Hside) (Hopen : forall out bytes, taken out bytes = None).

Lemma line_of_spec r : encode_job_response r = Ok (line_of r) /\ one_line (line_of r)
  /\ decode_job_response (line_of r) = Ok r.
Proof. destruct (reply_carried r) as (line & He & Hl & Hd). unfold line_of. by rewrite He. Qed.

Lemma job_line_spec q : encode_job q = Ok (job_line q) /\ one_line (job_line q)
  /\ decode_job (trim (job_line q +:+ newline)) = Ok q /\ exists c rest, trim (job_line q +:+ newline) = String c rest.
Proof.
  destruct (job_carried q) as (body & He & Hl & Hd). unfold job_line. rewrite He, trim_object.
  split_and!; [done| |done|by exists "{"%char, (body +:+ "}")].
  unfold one_line. by rewrite !contains_byte_app, Hl.
Qed.

Lemma send_spec line c :
  send line c = (tt, MkChild (ch_replies c +:+ text_of [line]) (ch_stdout c) (ch_linger c) (ch_slept c)).
Proof.
  unfold send, write_all, io_bind. rewrite !Hopen. cbn [ch_replies ch_stdout ch_linger ch_slept].
  rewrite text_of_cons. change (text_of []) with "". by rewrite string_app_nil_r, string_app_assoc.
Qed.

Lemma send_reply_spec r c :
  send_reply r c = (Ok tt, MkChild (ch_replies c +:+ text_of [line_of r]) (ch_stdout c) (ch_linger c) (ch_slept c)).
Proof.
  unfold send_reply. destruct (line_of_spec r) as [He _]. rewrite He. unfold io_try, io_ret, expect, map_err, io_bind.
  by rewrite send_spec.
Qed.

(** A directive's name, and what it carries. *)
Definition kind_of (d : Directive) : string * string :=
  match d with
  | Echo text => ("echo", text)
  | Fails text => ("fail", text)
  | TimesOut => ("timeout", "")
  | HarnessError message => ("harness-error", message)
  | Hang => ("hang", "")
  | Die => ("die", "")
  | Misaddressed text => ("misaddressed", text)
  | Noise text => ("noise", text)
  | ExitAfterReply => ("exit-after-reply", "")
  | Linger => ("linger", "")
  | Prints text => ("print", text)
  end.

Lemma split_code d : default (code d, "") (split_once ":"%char (code d)) = kind_of d.
Proof. by destruct d. Qed.

(** The state after a job. *)
Definition after (id : string) (d : Directive) (c : Child) : Child :=
  MkChild (ch_replies c +:+ text_of (frames_of id d))
    (match d with Prints text => ch_stdout c +:+ text +:+ newline | _ => ch_stdout c end)
    (match d with Linger => true | _ => ch_linger c end)
    (match d with Hang => ch_slept c + HANG_FOR | _ => ch_slept c end).

Lemma handle_directive q d c :
  jq_code q = code d -> handle q c = (Ok (stays d), after (jq_id q) d c).
Proof.
  intros Hc. unfold handle. rewrite Hc, split_code. unfold after, frames_of.
  destruct d; cbn -[send_reply send line_of text_of newline String.append];
    unfold io_try, io_bind; rewrite ?send_reply_spec, ?send_spec; unfold io_ret, println, sleep_for;
    cbn -[send_reply line_of text_of newline String.append]; rewrite ?send_reply_spec;
    cbn -[line_of text_of newline String.append];
    rewrite ?string_app_assoc, <- ?text_of_app; try done.
  all: change (text_of []) with ""; rewrite string_app_nil_r; by destruct c.
Qed.

(** *** Serving *)

Definition request_lines (jobs : list (JobRequest * Directive)) : list string :=
  map (fun job => job_line (fst job) +:+ newline) jobs.

Lemma serve_loop_spec jobs c :
  Forall directs jobs ->
  exists c', serve_loop (map Ok (request_lines jobs)) c = (Ok tt, c')
    /\ ch_replies c' = ch_replies c +:+ text_of (frames_served jobs).
Proof.
  revert c. induction jobs as [|[q d] jobs IH]; intros c Hj.
  { exists c. split; [done|]. change (text_of _) with "". by rewrite string_app_nil_r. }
  apply Forall_cons in Hj as [Hd Hj]. destruct (job_line_spec q) as (_ & _ & Hdec & b & rest & Htrim).
  assert (String.eqb (job_line q +:+ newline) "" = false) as Hne by (by destruct (job_line q)).
  assert (String.eqb (trim (job_line q +:+ newline)) "" = false) as Hnt by (by rewrite Htrim).
  cbn [request_lines map serve_loop fst frames_served]. rewrite Hne. cbv zeta. rewrite Hnt, Hdec.
  unfold io_try. rewrite (handle_directive q d) by exact Hd. destruct (stays d).
  - destruct (IH (after (jq_id q) d c) Hj) as (c' & Hs & Hr). exists c'. split; [exact Hs|].
    by rewrite Hr, text_of_app, <- string_app_assoc.
  - eexists. split; [done|]. by rewrite app_nil_r.
Qed.

Definition hello_of (token : option string) : string :=
  match encode_handshake (greeting token) with Ok line => line | Err _ => "" end.

Lemma hello_spec token : encode_handshake (greeting token) = Ok (hello_of token) /\ one_line (hello_of token)
  /\ decode_handshake (hello_of token) = Ok (greeting token).
Proof. destruct (greeting_carried (greeting token)) as (line & He & Hl & Hd). unfold hello_of. by rewrite He. Qed.

Lemma serve_on_spec jobs token :
  Forall directs jobs ->
  exists c, serve_on (map Ok (request_lines jobs)) token fresh = (Ok tt, c)
    /\ ch_replies c = text_of (hello_of token :: frames_served jobs).
Proof.
  intros Hj. unfold serve_on. destruct (hello_spec token) as (He & _). rewrite He.
  unfold io_try, io_ret, expect, map_err, io_bind. rewrite send_spec.
  edestruct (serve_loop_spec jobs) as (c & Hs & Hr); [exact Hj|]. exists c. split; [exact Hs|].
  rewrite Hr. change (hello_of token :: frames_served jobs) with ([hello_of token] ++ frames_served jobs).
  by rewrite text_of_app.
Qed.

Lemma frames_one_line jobs : Forall one_line (frames_served jobs).
Proof.
  assert (forall r, one_line (line_of r)) as Hl by (intros r; apply line_of_spec).
  induction jobs as [|[q d] jobs IH]; cbn [frames_served]; [done|].
  rewrite !Forall_app. split; [|by destruct (stays d)].
  unfold frames_of. apply Forall_app. split; destruct d; by repeat constructor.
Qed.

End Served.

(** ** What the pool makes of it *)

(** Arrivals that are in time for a deadline. *)
Definition in_time (deadline : option N) (a : arrival) : Prop :=
  forall at', deadline = Some at' -> (ar_at a <= at')%N.

Lemma next_line_in_time deadline now a rest :
  in_time deadline a -> next_line deadline now (a :: rest) = Arrived (N.max now (ar_at a)) (ar_what a) rest.
Proof.
  intros Ht. cbn. destruct (N.leb_spec (ar_at a) now) as [Hle|Hlt]; [by rewrite N.max_l|].
  rewrite N.max_r by lia. destruct deadline as [at'|]; [|done]. specialize (Ht at' eq_refl).
  by destruct (N.leb_spec (ar_at a) at'); [|lia].
Qed.

Section Pool.
Context `{Hpool : PoolJson}.

(** A line the pool passes over while it waits for one job. *)
Definition passed_over (id : string) (line : string) : Prop :=
  match decode_job_response line with Ok r => jr_id r <> Some id | Err _ => True end.

Lemma await_past deadline id ahead arrivals rest now w :
  Forall (passed_over id) ahead -> map ar_what arrivals = map DLine ahead ->
  Forall (in_time deadline) arrivals ->
  exists now', (now <= now')%N
    /\ await_loop deadline id (arrivals ++ rest) now w = await_loop deadline id rest now' w.
Proof.
  revert arrivals now. induction ahead as [|line ahead IH]; intros [|a arrivals] now Hp Hm Ht; try done.
  { exists now. split; [lia|done]. }
  cbn in Hm. injection Hm as Ha Hm. apply Forall_cons in Hp as [Hline Hp]. apply Forall_cons in Ht as [Hta Ht].
  destruct (IH arrivals (N.max now (ar_at a)) Hp Hm Ht) as (now' & Hle & Heq). exists now'. split; [lia|].
  rewrite <- Heq. cbn [app]. rewrite await_loop_eq, next_line_in_time, Ha by done.
  unfold passed_over in Hline. destruct (decode_job_response line) as [r|]; [|done].
  by rewrite bool_decide_false.
Qed.

(** Jobs handed to one worker, one after the other. *)
Fixpoint submit_all (sys : socket) (qs : list JobRequest) (budget : option N) (now : N) (w : Worker)
  : timed (list (result SubmitFailure JobResponse) * Worker) :=
  match qs with
  | [] => Returns ([], w) now
  | q :: rest =>
      match submit sys q budget now w with
      | Waits => Waits
      | Returns (r, w) now =>
          match submit_all sys rest budget now w with
          | Waits => Waits
          | Returns (rs, w) now => Returns (r :: rs, w) now
          end
      end
  end.

(** When a submission must be answered. *)
Definition hard_deadline_of (budget : option N) (now : N) : option N := (fun budget => now + budget)%N <$> budget.

Lemma in_time_later budget now now' a :
  (now <= now')%N -> in_time (hard_deadline_of budget now) a -> in_time (hard_deadline_of budget now') a.
Proof.
  intros Hle Ht at' Hat. destruct budget as [b|]; [|done]. specialize (Ht _ eq_refl). injection Hat as <-. lia.
Qed.

Context `{Hside : WorkerSideJson} (Hlaws : ProtocolLaws Hpool Hside).

(** What becomes of a job: its directive's reply, or a failure that is known to be after
    the job was dispatched. *)
Definition outcome_of (job : JobRequest * Directive) (answer : result SubmitFailure JobResponse) : Prop :=
  match answer_to (jq_id (fst job)) (snd job) with
  | Some r => answer = Ok r
  | None => exists reason, answer = Err (SubmitFailure_post reason)
  end.

Lemma ahead_passed_over id d : Forall (passed_over id) (ahead_of id d).
Proof.
  destruct d; try constructor; [|done| |done].
  - unfold passed_over. destruct (line_of_spec Hlaws (MkJobResponse (Some (id +:+ "-not-this-one")) true "stray" ""
      (Some 0%Z) false 1 None)) as (_ & _ & ->). cbn. intros [= Heq].
    apply (f_equal String.length) in Heq. rewrite string_length_app in Heq. cbn in Heq. lia.
  - unfold passed_over. by destruct noise_not_read as [e ->].
Qed.

Lemma answer_id id d r : answer_to id d = Some r -> jr_id r = Some id.
Proof. by destruct d; intros [= <-]. Qed.

Lemma submit_sent sys q budget now w :
  sys = prompt_socket None None ->
  submit sys q budget now w
  = await_loop (hard_deadline_of budget now) (jq_id q) (wk_responses w) now
      (wk_deliver (job_line q +:+ newline) w).
Proof.
  intros ->. unfold submit. destruct (job_line_spec Hlaws q) as [-> _]. cbn [prompt_socket so_write so_flush so_write_takes
    so_flush_takes]. by rewrite !N.add_0_r.
Qed.

(** A job that is answered. *)
Lemma submit_answered q d r budget now w arrivals rest :
  answer_to (jq_id q) d = Some r -> wk_responses w = arrivals ++ rest ->
  map ar_what arrivals = map DLine (frames_of (jq_id q) d) ->
  Forall (in_time (hard_deadline_of budget now)) arrivals ->
  exists w' t, submit (prompt_socket None None) q budget now w = Returns (Ok r, w') t
    /\ (now <= t)%N /\ wk_responses w' = rest /\ wk_received w' = wk_received w +:+ job_line q +:+ newline
    /\ wk_last_used w' = t /\ wk_jobs_done w' = wrapping_add (wk_jobs_done w) 1.
Proof.
  intros Hr Hw Hm Ht. rewrite submit_sent, Hw by done. unfold frames_of in Hm. rewrite Hr, map_app in Hm.
  apply map_eq_app in Hm as (front & back & -> & Hf & Hb). apply Forall_app in Ht as [Ht1 Ht2].
  destruct back as [|a [|? ?]]; try done. injection Hb as Ha. apply Forall_cons in Ht2 as [Hta _].
  rewrite <- app_assoc. destruct (await_past (hard_deadline_of budget now) (jq_id q) (ahead_of (jq_id q) d) front
    ([a] ++ rest) now (wk_deliver (job_line q +:+ newline) w) (ahead_passed_over _ _) Hf Ht1) as (now' & Hle & ->).
  cbn [app].
  rewrite await_loop_eq, next_line_in_time, Ha by done.
  destruct (line_of_spec Hlaws r) as (_ & _ & ->). rewrite bool_decide_true by (by eapply answer_id).
  eexists _, _. split; [done|]. by split_and!; [lia|..].
Qed.

(** A job that is not, by a worker whose stream then ends. *)
Lemma submit_unanswered q budget now w closed :
  wk_responses w = [MkArrival closed DClosed] ->
  exists reason w' t, submit (prompt_socket None None) q budget now w = Returns (Err (SubmitFailure_post reason), w') t
    /\ wk_received w' = wk_received w +:+ job_line q +:+ newline.
Proof.
  intros Hw. rewrite submit_sent, Hw by done. rewrite await_loop_eq. unfold next_line. cbn [ar_at ar_what].
  destruct (_ <=? _)%N; [by eexists _, _, _|]. destruct (hard_deadline_of budget now); [|by eexists _, _, _].
  destruct (_ <=? _)%N; by eexists _, _, _.
Qed.

(** A worker that greets in time is accepted. *)
Lemma spawn_greeted (sys : spawn_world) (lc : Launch) (address : string) (process : nat) (at' now : N) hello rest :
  lc_spawner lc = None -> lc_protocol_version lc = WORKER_PROTOCOL_VERSION ->
  sw_bind sys = Ok tt -> sw_local_addr sys = Ok address ->
  sw_process sys (spawn_spec lc address (sw_token sys)) = Ok process ->
  sw_accept sys = Some (at', Ok (hello :: rest)) -> (at' <= now + lc_handshake_timeout lc)%N ->
  ar_what hello = DLine (hello_of (Some (sw_token sys))) ->
  in_time (Some (now + lc_handshake_timeout lc)%N) hello ->
  let t := N.max (N.max now at') (ar_at hello) in
  spawn sys lc now = (Ok (MkWorker process (lc_language lc) "" rest 0 t),
                      [Started (spawn_spec lc address (sw_token sys)) process], t).
Proof.
  intros Hspawner Hversion Hbind Haddr Hproc Haccept Hat Hh Hhello t.
  destruct (hello_spec Hlaws (Some (sw_token sys))) as (_ & _ & Hdec).
  unfold spawn, confine. rewrite Hbind, Haddr, Hspawner, Hproc, Haccept. unfold accept_within.
  destruct (N.leb_spec at' (now + lc_handshake_timeout lc)); [|lia]. cbn [map_err].
  unfold read_handshake. rewrite next_line_in_time, Hh, Hdec.
  2:{ intros ? [= <-]. specialize (Hhello _ eq_refl). lia. }
  cbn [map_err result_map]. unfold verify_handshake. cbn [hs_ready hs_token hs_protocol greeting negb].
  rewrite bool_decide_true by done. cbn [negb]. by rewrite Hversion, N.eqb_refl.
Qed.

(** Jobs of a worker that stays, and a last one of any kind. *)
Lemma submit_jobs jobs last budget now w arrivals closed :
  Forall (fun job => stays (snd job) = true) jobs ->
  wk_responses w = arrivals ++ [MkArrival closed DClosed] ->
  map ar_what arrivals = map DLine (frames_served (jobs ++ [last])) ->
  Forall (in_time (hard_deadline_of budget now)) arrivals ->
  exists answers w' t, submit_all (prompt_socket None None) (map fst (jobs ++ [last])) budget now w = Returns (answers, w') t
    /\ Forall2 outcome_of (jobs ++ [last]) answers
    /\ wk_received w' = wk_received w +:+ String.concat "" (request_lines (jobs ++ [last])).
Proof.
  revert now w arrivals. induction jobs as [|[q d] jobs IH]; intros now w arrivals Hs Hw Hm Ht.
  - destruct last as [q d]. cbn [app map fst submit_all frames_served request_lines] in *.
    assert (map ar_what arrivals = map DLine (frames_of (jq_id q) d)) as Hm'.
    { rewrite Hm. destruct (stays d); by rewrite app_nil_r. }
    rewrite string_concat_cons. change (String.concat "" []) with "". rewrite string_app_nil_r.
    destruct (answer_to (jq_id q) d) as [r|] eqn:Hr.
    + destruct (submit_answered _ _ _ _ _ _ _ _ Hr Hw Hm' Ht) as (w' & t & -> & _ & _ & Hrec & _).
      eexists _, _, _. split; [done|]. split; [|exact Hrec]. repeat constructor. unfold outcome_of. cbn. by rewrite Hr.
    + assert (arrivals = []) as ->.
      { unfold frames_of in Hm'. rewrite Hr in Hm'. destruct d; try done; by destruct arrivals. }
      destruct (submit_unanswered q budget now w closed Hw) as (reason & w' & t & -> & Hrec).
      eexists _, _, _. split; [done|]. split; [|exact Hrec]. repeat constructor. unfold outcome_of. cbn. rewrite Hr.
      by exists reason.
  - apply Forall_cons in Hs as [Hd Hs]. cbn [snd] in Hd.
    cbn [app map fst submit_all frames_served request_lines] in *. rewrite Hd, map_app in Hm.
    apply map_eq_app in Hm as (mine & others & -> & Hmine & Hothers). apply Forall_app in Ht as [Ht1 Ht2].
    rewrite <- app_assoc in Hw. destruct (answer_to (jq_id q) d) as [r|] eqn:Hr; [|by destruct d].
    destruct (submit_answered _ _ _ _ _ _ _ _ Hr Hw Hmine Ht1) as (w1 & t1 & -> & Hle & Hw1 & Hrec & _).
    edestruct (IH t1 w1 others Hs Hw1 Hothers) as (answers & w' & t & -> & Hall & Hrec').
    { eapply Forall_impl; [exact Ht2|]. intros a. by apply in_time_later. }
    eexists _, _, _. split; [done|]. split.
    + constructor; [|exact Hall]. unfold outcome_of. cbn. by rewrite Hr.
    + by rewrite Hrec', Hrec, string_concat_cons, !string_app_assoc.
Qed.

End Pool.

(** ** Properties *)

Section Properties.
Context `{Hpool : PoolJson} `{Hpipe : ReplyPipe} `{Hside : WorkerSideJson}.

(** C8. The two ends of the protocol fit. A worker that is launched, served by
    [serve_on] at one end of a socket that delivers what it is given in time, and driven by
    [spawn] and [submit] at the other, is accepted at once, and every job comes back with
    the reply that its directive calls for, through noise and replies to other jobs, until
    the first that makes the worker hang or end; that one fails as dispatched, and so is
    not run again. The bytes the pool sent are those the worker was serving. *)
Theorem both_ends_fit (sys : spawn_world) (lc : Launch) (address : string) (process : nat) (at' now : N)
    (budget : option N) (jobs : list (JobRequest * Directive)) (last : JobRequest * Directive)
    (arrivals : list arrival) (closed : N) :
  ProtocolLaws Hpool Hside -> (forall out bytes, taken out bytes = None) ->
  Forall (fun job => jq_code (fst job) = code (snd job)) (jobs ++ [last]) ->
  Forall (fun job => stays (snd job) = true) jobs ->
  lc_spawner lc = None -> lc_protocol_version lc = WORKER_PROTOCOL_VERSION ->
  sw_bind sys = Ok tt -> sw_local_addr sys = Ok address ->
  sw_process sys (spawn_spec lc address (sw_token sys)) = Ok process ->
  let '(served, child) := serve_on (map Ok (request_lines (jobs ++ [last]))) (Some (sw_token sys)) fresh in
  sw_accept sys = Some (at', Ok (arrivals ++ [MkArrival closed DClosed])) -> (at' <= now + lc_handshake_timeout lc)%N ->
  map ar_what arrivals = map DLine (lines_of (ch_replies child)) ->
  Forall (in_time (Some (now + lc_handshake_timeout lc)%N)) arrivals ->
  Forall (in_time (hard_deadline_of budget now)) arrivals ->
  served = Ok tt
  /\ exists w0 t0, spawn sys lc now = (Ok w0, [Started (spawn_spec lc address (sw_token sys)) process], t0)
  /\ exists answers w t, submit_all (prompt_socket None None) (map fst (jobs ++ [last])) budget t0 w0 = Returns (answers, w) t
  /\ Forall2 outcome_of (jobs ++ [last]) answers
  /\ wk_received w = String.concat "" (request_lines (jobs ++ [last])).
Proof.
  intros Hlaws Hopen Hj Hs Hspawner Hversion Hbind Haddr Hproc.
  destruct (serve_on_spec Hlaws Hopen (jobs ++ [last]) (Some (sw_token sys)) Hj) as (child & -> & Hreplies).
  intros Haccept Hat Hm Ht1 Ht2. split; [done|].
  destruct (hello_spec Hlaws (Some (sw_token sys))) as (_ & Hline & Hdec).
  rewrite Hreplies, lines_of_text in Hm by (constructor; [exact Hline|by apply frames_one_line]).
  destruct arrivals as [|hello arrivals]; [done|]. cbn [map] in Hm. injection Hm as Hh Hm.
  apply Forall_cons in Ht1 as [Hhello Ht1]. apply Forall_cons in Ht2 as [_ Ht2].
  set (t2 := N.max (N.max now at') (ar_at hello)).
  set (w0 := MkWorker process (lc_language lc) "" (arrivals ++ [MkArrival closed DClosed]) 0 t2).
  exists w0, t2. split.
  - by eapply (spawn_greeted Hlaws _ _ address process at' now hello).
  - destruct (submit_jobs Hlaws jobs last budget t2 w0 arrivals closed) as (answers & w & t & Hsub & Hall & Hrec).
    + exact Hs.
    + done.
    + exact Hm.
    + eapply Forall_impl; [exact Ht2|]. intros a. apply in_time_later. lia.
    + exists answers, w, t. split; [exact Hsub|]. split; [exact Hall|]. by rewrite Hrec.
Qed.

(** A worker that says nothing, or no handshake, is never used, and its process is
    killed. *)
Lemma misbehaving_worker_is_refused (sys : spawn_world) (lc : Launch) (address : string) (process : nat) (at' now : N)
    (requests : list (result string string)) (token : option string) (mode : Mode) (arrivals : list arrival) (closed : N) :
  ProtocolLaws Hpool Hside -> (forall out bytes, taken out bytes = None) ->
  mode <> Serve -> lc_spawner lc = None ->
  sw_bind sys = Ok tt -> sw_local_addr sys = Ok address ->
  sw_process sys (spawn_spec lc address (sw_token sys)) = Ok process ->
  let '(served, child) := connect_and_serve (Ok tt) (Ok tt) requests token mode fresh in
  sw_accept sys = Some (at', Ok (arrivals ++ [MkArrival closed DClosed])) ->
  map ar_what arrivals = map DLine (lines_of (ch_replies child)) ->
  served = Ok tt /\ exists reason t,
    spawn sys lc now = (Err reason, [Started (spawn_spec lc address (sw_token sys)) process; Killed process], t).
Proof.
  intros Hlaws Hopen Hmode Hspawner Hbind Haddr Hproc.
  assert (exists child, connect_and_serve (Ok tt) (Ok tt) requests token mode fresh = (Ok tt, child)
            /\ (ch_replies child = "" \/ ch_replies child = text_of ["not a handshake at all"])) as (child & -> & Hreplies).
  { unfold connect_and_serve, io_bind, io_try, io_ret, expect. cbn [map_err].
    destruct mode; [done|by eexists; split; [done|left]|]. rewrite (send_spec Hopen). by eexists; split; [done|right]. }
  intros Haccept Hm. split; [done|]. unfold spawn, confine. rewrite Hbind, Haddr, Hspawner, Hproc, Haccept.
  unfold accept_within. destruct (at' <=? _)%N; [|by eexists _, _]. cbn [map_err].
  unfold read_handshake. destruct Hreplies as [Hr|Hr]; rewrite Hr in Hm.
  - destruct arrivals; [|done]. cbn [app]. pose proof (next_line_deadline (N.max now at' + lc_handshake_timeout lc) (N.max now at')
      [MkArrival closed DClosed]) as Hd.
    destruct (next_line _ _ _) as [t what rest|t|] eqn:E; [|by eexists _, _|done].
    enough (what = DClosed) as -> by (by eexists _, _). revert E. unfold next_line. cbn [ar_what ar_at].
    repeat (destruct (_ <=? _)%N); by intros [= _ <- _].
  - rewrite lines_of_text in Hm by (repeat constructor). destruct arrivals as [|a [|? ?]]; try done. injection Hm as Ha.
    pose proof (next_line_deadline (N.max now at' + lc_handshake_timeout lc) (N.max now at')
      ([a] ++ [MkArrival closed DClosed])) as Hd.
    destruct (next_line _ _ _) as [t what rest|t|] eqn:E; [|by eexists _, _|done].
    enough (what = DLine "not a handshake at all") as ->.
    { destruct garbage_not_read as [e ->]. by eexists _, _. }
    rewrite <- Ha. revert E. unfold next_line. cbn [app].
    repeat (destruct (_ <=? _)%N); by intros [= _ <- _].
Qed.

End Properties.

(** ** The two ends at work *)

(** A codec with the laws: an object is its bits, in braces. *)
Fixpoint bits (p : positive) : string :=
  match p with
  | xH => ""
  | xO p => String "0" (bits p)
  | xI p => String "1" (bits p)
  end.

Fixpoint of_bits (s : string) : option positive :=
  match s with
  | String "0" r => xO <$> of_bits r
  | String "1" r => xI <$> of_bits r
  | String "}" EmptyString => Some xH
  | _ => None
  end.

Lemma of_bits_bits p : of_bits (bits p +:+ "}") = Some p.
Proof. induction p as [p IH|p IH|]; [..|done]; cbn [bits]; rewrite string_append_cons; cbn [of_bits]; by rewrite IH. Qed.

Lemma bits_one_line p : contains_byte "010"%char (bits p) = false.
Proof. by induction p. Qed.

Definition to_object `{Countable A} (a : A) : string := "{" +:+ bits (encode a) +:+ "}".
Definition of_object `{Countable A} (s : string) : result string A :=
  match s with
  | String "{" r => match of_bits r ≫= decode with Some a => Ok a | None => Err "expected value" end
  | _ => Err "expected value"
  end.

Lemma of_to_object `{Countable A} (a : A) : of_object (to_object a) = Ok a.
Proof.
  unfold to_object. rewrite string_append_cons. cbn [of_object].
  change ("" +:+ ?x) with x. rewrite of_bits_bits. cbn. by rewrite decode_encode.
Qed.

#[local] Instance JobRequest_eq_dec : EqDecision JobRequest.
Proof. solve_decision. Defined.
#[local] Instance JobRequest_countable : Countable JobRequest.
Proof.
  apply (inj_countable' (fun q => (jq_id q, jq_code q, jq_cwd q, jq_timeout_ms q))
           (fun '(a, b, c, d) => MkJobRequest a b c d)). by intros [].
Defined.
#[local] Instance JobResponse_eq_dec : EqDecision JobResponse.
Proof. solve_decision. Defined.
#[local] Instance JobResponse_countable : Countable JobResponse.
Proof.
  apply (inj_countable' (fun r => (jr_id r, jr_ok r, jr_stdout r, jr_stderr r, jr_exit_code r, jr_timed_out r,
                                   jr_elapsed_ms r, jr_error r))
           (fun '(a, b, c, d, e, f, g, h) => MkJobResponse a b c d e f g h)). by intros [].
Defined.
#[local] Instance Handshake_eq_dec : EqDecision Handshake.
Proof. solve_decision. Defined.
#[local] Instance Handshake_countable : Countable Handshake.
Proof.
  apply (inj_countable' (fun h => (hs_ready h, hs_protocol h, hs_language h, hs_error h, hs_token h))
           (fun '(a, b, c, d, e) => MkHandshake a b c d e)). by intros [].
Defined.

Definition object_json : PoolJson := {|
  encode_job q := Ok (to_object q);
  decode_job_response := of_object;
  decode_handshake := of_object
|}.
Definition object_side_json : WorkerSideJson := {|
  encode_handshake h := Ok (to_object h);
  encode_job_response r := Ok (to_object r);
  decode_job := of_object
|}.

Lemma to_object_one_line `{Countable A} (a : A) : contains_byte "010"%char (to_object a) = false.
Proof. unfold to_object. by rewrite !contains_byte_app, bits_one_line. Qed.

Lemma object_laws : ProtocolLaws object_json object_side_json.
Proof.
  constructor.
  - intros q. exists (bits (encode q)). split; [done|]. split; [apply bits_one_line|]. exact (of_to_object q).
  - intros r. exists (to_object r). split; [done|]. split; [apply to_object_one_line|apply of_to_object].
  - intros h. exists (to_object h). split; [done|]. split; [apply to_object_one_line|apply of_to_object].
  - by exists "expected value".
  - by exists "expected value".
Qed.

Section Samples.
#[local] Existing Instances object_json object_side_json.
#[local] Instance whole_writes : ReplyPipe := {| taken _ _ := None |}.

Let job (id : string) (d : Directive) : JobRequest * Directive := (MkJobRequest id (code d) None None, d).
Let jobs := [job "1" (Noise "x"); job "2" (Misaddressed "y:z")].
Let last := job "3" Die.

Example a_worker_is_launched :
  launch (Ok (Path_new "/t/deps/tests")) (fun _ => None) Language_nodejs
  = Ok (MkLaunch Language_nodejs (Path_new "/t/deps/tests")
          ["--exact"; "pool::fake_worker::test::serves_as_a_worker_when_asked"; "--nocapture"; "--test-threads=1"]
          [("PATH", "/t/deps"); ("TINYRUNTIME_TEST_WORKER", "1"); ("RUST_BACKTRACE", "")] 1 20000 None)
  /\ launch (Ok (Path_new "/")) (fun _ => None) Language_nodejs = Err "a test binary has a directory".
Proof. vm_compute. by split. Qed.

Let lc := MkLaunch Language_nodejs (Path_new "/t/deps/tests") [] [] 1 20000 None.
Let served := serve_on (map Ok (request_lines (jobs ++ [last]))) (Some "secret") fresh.
Let arrivals := map (fun line => MkArrival 5 (DLine line)) (lines_of (ch_replies (snd served))).
Let sys := MkSpawnWorld (Ok tt) (Ok "127.0.0.1:9") "secret" (fun _ => Ok 3)
             (Some (5%N, Ok (arrivals ++ [MkArrival 30 DClosed]))).

Lemma both_ends_fit_witness :
  exists w0 t0 answers w t, spawn sys lc 0 = (Ok w0, [Started (spawn_spec lc "127.0.0.1:9" "secret") 3], t0)
  /\ submit_all (prompt_socket None None) (map fst (jobs ++ [last])) (Some 100%N) t0 w0 = Returns (answers, w) t
  /\ Forall2 outcome_of (jobs ++ [last]) answers.
Proof.
  assert (forall lines, map ar_what (map (fun line => MkArrival 5 (DLine line)) lines) = map DLine lines) as Hstamped.
  { intros lines. rewrite map_map. by apply map_ext. }
  pose proof (both_ends_fit sys lc "127.0.0.1:9" 3 5 0 (Some 100%N) jobs last arrivals 30) as H.
  change (sw_token sys) with "secret" in H. fold served in H. rewrite (surjective_pairing served) in H.
  destruct H as (_ & w0 & t0 & Hspawn & answers & w & t & Hsub & Hall & _).
  - exact object_laws.
  - done.
  - by repeat constructor.
  - by repeat constructor.
  - done.
  - done.
  - done.
  - done.
  - done.
  - done.
  - done.
  - apply Hstamped.
  - apply Forall_map, Forall_true. intros line ? [= <-]. done.
  - apply Forall_map, Forall_true. intros line ? [= <-]. done.
  - exists w0, t0, answers, w, t. exact (conj Hspawn (conj Hsub Hall)).
Defined.

(** Run: noise and a stray reply are passed over, and the worker that ends is noticed. *)
Example a_conversation :
  match spawn sys lc 0 with
  | (Ok w, _, t) =>
      match submit_all (prompt_socket None None) (map fst (jobs ++ [last])) (Some 100%N) t w with
      | Returns ([Ok a; Ok b; Err c], _) t =>
          jr_stdout a = "x" /\ jr_stdout b = "y:z" /\ sf_dispatched c = true /\ t = 30%N
      | _ => False
      end
  | _ => False
  end.
Proof. vm_compute. by split_and!. Qed.

(** What a worker does to its process: output of its own, and staying behind. *)
Example a_process_outlives_its_stream :
  let child := snd (connect_and_serve (Ok tt) (Ok tt)
                 (map Ok (request_lines [job "1" (Prints "hi"); job "2" Linger; job "3" (Echo "unread")]))
                 (Some "secret") Serve (MkChild "" "" true 0)) in
  ch_stdout child = "hi" +:+ newline /\ ch_linger child = true /\ ch_slept child = 25000%N
  /\ length (lines_of (ch_replies child)) = 3%nat.
Proof. vm_compute. by split_and!. Qed.

End Samples.
