(* ===== verification/LangPool.v ===== *)
(** * The bounded pool of warm workers: [pool/lang_pool.rs]

    One operation of the code between two points where others can run is one
    definition on the pool; a call of [run] is a phase that the steps advance, so
    any number of calls, the idle reaper and cancellation interleave.  The clock,
    the socket and the operating system are chosen by the environment at each
    step. *)

From S2P Require Import Prelude RustStd Identity Vocabulary Errors PoolWorker.


Definition WEDGED_GRACE : N := 10000.
Definition MIN_REAP_INTERVAL : N := 5000.

(** ** The pool *)

(** [idle] is the vector with its last element first: [push] and [pop] act on the head. *)
Record LangPool := MkLangPool {
  lp_launch : Launch;
  lp_settings : PoolSettings;
  lp_runtime_version : string;
  lp_permits : N;
  lp_idle : list Worker;
  lp_inflight : N;
  lp_next_job : N;
  lp_jobs_total : N;
  lp_worker_spawns : N;
  lp_rejected : N
}.

Definition LangPool_start (launch : Launch) (settings : PoolSettings) (runtime_version : string)
  : LangPool := {|
  lp_launch := launch; lp_settings := settings; lp_runtime_version := runtime_version;
  lp_permits := effective_max_workers settings; lp_idle := [];
  lp_inflight := 0; lp_next_job := 0; lp_jobs_total := 0; lp_worker_spawns := 0;
  lp_rejected := 0
|}.

(** How often the reaper wakes, when there is one. *)
Definition reap_interval (settings : PoolSettings) : option N :=
  (fun ttl => N.max (ttl * 1000) MIN_REAP_INTERVAL)%N <$> idle_ttl_secs settings.

Definition set_permits (n : N) (p : LangPool) : LangPool :=
  MkLangPool (lp_launch p) (lp_settings p) (lp_runtime_version p) n (lp_idle p) (lp_inflight p)
    (lp_next_job p) (lp_jobs_total p) (lp_worker_spawns p) (lp_rejected p).
Definition set_idle (ws : list Worker) (p : LangPool) : LangPool :=
  MkLangPool (lp_launch p) (lp_settings p) (lp_runtime_version p) (lp_permits p) ws (lp_inflight p)
    (lp_next_job p) (lp_jobs_total p) (lp_worker_spawns p) (lp_rejected p).
Definition set_inflight (n : N) (p : LangPool) : LangPool :=
  MkLangPool (lp_launch p) (lp_settings p) (lp_runtime_version p) (lp_permits p) (lp_idle p) n
    (lp_next_job p) (lp_jobs_total p) (lp_worker_spawns p) (lp_rejected p).
Definition set_next_job (n : N) (p : LangPool) : LangPool :=
  MkLangPool (lp_launch p) (lp_settings p) (lp_runtime_version p) (lp_permits p) (lp_idle p)
    (lp_inflight p) n (lp_jobs_total p) (lp_worker_spawns p) (lp_rejected p).
Definition set_jobs_total (n : N) (p : LangPool) : LangPool :=
  MkLangPool (lp_launch p) (lp_settings p) (lp_runtime_version p) (lp_permits p) (lp_idle p)
    (lp_inflight p) (lp_next_job p) n (lp_worker_spawns p) (lp_rejected p).
Definition set_worker_spawns (n : N) (p : LangPool) : LangPool :=
  MkLangPool (lp_launch p) (lp_settings p) (lp_runtime_version p) (lp_permits p) (lp_idle p)
    (lp_inflight p) (lp_next_job p) (lp_jobs_total p) n (lp_rejected p).
Definition set_rejected (n : N) (p : LangPool) : LangPool :=
  MkLangPool (lp_launch p) (lp_settings p) (lp_runtime_version p) (lp_permits p) (lp_idle p)
    (lp_inflight p) (lp_next_job p) (lp_jobs_total p) (lp_worker_spawns p) n.

Definition stats (p : LangPool) : PoolStats :=
  with_idle_workers (N.of_nat (length (lp_idle p)))
    (with_counts (lp_jobs_total p) (lp_worker_spawns p) (lp_rejected p)
       (PoolStats_new (lc_language (lp_launch p)) (effective_max_workers (lp_settings p)))).

(** ** The parts of [run] *)

Record call := MkCall { cl_code : string; cl_cwd : option string; cl_timeout : option N }.

Definition capacity (p : LangPool) : N :=
  wrapping_add (effective_max_workers (lp_settings p)) (effective_max_queue_depth (lp_settings p)).

(** [fetch_add(1) + 1 > capacity]: whether the call is to be shed. *)
Definition count_in (p : LangPool) : LangPool * bool :=
  let counted := wrapping_add (lp_inflight p) 1 in
  (set_inflight counted p, (capacity p <? counted)%N).

Definition count_out (p : LangPool) : LangPool :=
  set_inflight (wrapping_sub (lp_inflight p) 1) p.

Definition shed (p : LangPool) : LangPool :=
  let p := count_out p in set_rejected (wrapping_add (lp_rejected p) 1) p.

Definition acquire (p : LangPool) : option LangPool :=
  if (0 <? lp_permits p)%N then Some (set_permits (lp_permits p - 1) p) else None.

Definition release (p : LangPool) : LangPool := set_permits (lp_permits p + 1) p.

Definition build_request (c : call) (p : LangPool) : JobRequest * LangPool :=
  ({| jq_id := display_u64 (lp_next_job p); jq_code := cl_code c; jq_cwd := cl_cwd c;
      jq_timeout_ms := N.min u64_max <$> cl_timeout c |},
   set_next_job (wrapping_add (lp_next_job p) 1) p).

Definition hard_deadline (c : call) : option N := (fun budget => budget + WEDGED_GRACE)%N <$> cl_timeout c.

(** The [while let] of [take_or_spawn]: [exited] is each child's [try_wait]. *)
Fixpoint take_parked (ttl : option N) (now : N) (exited : Worker -> bool) (idle : list Worker)
  : option Worker * list Worker :=
  match idle with
  | [] => (None, [])
  | w :: rest =>
      if match ttl with Some ttl => idle_expired (ttl * 1000) now w | None => false end
      then take_parked ttl now exited rest
      else if exited w then take_parked ttl now exited rest
      else (Some w, rest)
  end.

Definition take_or_spawn (now : N) (exited : Worker -> bool) (p : LangPool)
  : option Worker * LangPool :=
  let '(found, rest) := take_parked (idle_ttl_secs (lp_settings p)) now exited (lp_idle p) in
  let p := set_idle rest p in
  match found with
  | Some w => (Some w, p)
  | None => (None, set_worker_spawns (wrapping_add (lp_worker_spawns p) 1) p)
  end.

Definition spawn_error (p : LangPool) (reason : string) : Error :=
  PreDispatch (lc_language (lp_launch p)) reason.

Definition dispatch_error (p : LangPool) (failure : SubmitFailure) : Error :=
  if sf_dispatched failure then PostDispatch (lc_language (lp_launch p)) (sf_reason failure)
  else PreDispatch (lc_language (lp_launch p)) (sf_reason failure).

Definition retire_or_park (w : Worker) (p : LangPool) : LangPool :=
  if should_recycle (ps_recycle_after_jobs (lp_settings p)) w then p
  else set_idle (w :: lp_idle p) p.

Definition outcome (p : LangPool) (response : JobResponse) (elapsed queue_wait : N)
  : ExecResponse :=
  with_timings (N.min u64_max elapsed) (N.min u64_max queue_wait)
    (with_timed_out (jr_timed_out response)
       (ExecResponse_new (jr_stdout response) (jr_stderr response) (jr_exit_code response)
          (lp_runtime_version p))).

(** What the caller gets for a worker's reply. *)
Definition conclude (p : LangPool) (response : JobResponse) (elapsed queue_wait : N)
  : result Error ExecResponse :=
  match jr_error response with
  | Some error => Err (PostDispatch (lc_language (lp_launch p)) error)
  | None => Ok (outcome p response elapsed queue_wait)
  end.

Definition reap (now : N) (p : LangPool) : LangPool :=
  match idle_ttl_secs (lp_settings p) with
  | None => p
  | Some ttl =>
      set_idle (filter (fun w => idle_expired (ttl * 1000) now w = false) (lp_idle p)) p
  end.

(** ** Calls of [run] in flight *)

(** How a call ends: it returns, or its future is dropped. *)
Inductive ending :=
| Returned (r : result Error ExecResponse)
| Dropped.

Inductive phase :=
| Entering
| Shedding                                            (* counted, over capacity *)
| Queued                                              (* admitted, waiting for a permit *)
| Holding (queue_wait : N)                            (* has a permit *)
| Ready (queue_wait started : N) (request : JobRequest)
| Spawning (queue_wait started : N) (request : JobRequest)
| Running (queue_wait started : N) (request : JobRequest) (w : Worker)
| Parking (queue_wait elapsed : N) (response : JobResponse) (w : Worker)
| Releasing (e : ending)                              (* permit and count still held *)
| Leaving (e : ending)                                (* count still held *)
| Finished (e : ending).

(** [submitted]: the calls handed to a worker; [delivered]: those whose whole frame
    was written, latest first; [processes]: how many processes were started. *)
Record state := MkState {
  st_pool : LangPool;
  st_calls : gmap nat (call * phase);
  st_processes : nat;
  st_submitted : list nat;
  st_delivered : list nat
}.

Definition initial (launch : Launch) (settings : PoolSettings) (version : string) (s : state)
  : Prop := s = MkState (LangPool_start launch settings version) ∅ 0 [] [].

(** A call moves to another phase, with a new pool. *)
Definition advance (i : nat) (c : call) (ph : phase) (p : LangPool) (s : state) : state :=
  MkState p (<[i := (c, ph)]> (st_calls s)) (st_processes s) (st_submitted s) (st_delivered s).

Section Steps.
Context `{PoolJson}.

Definition frame_written (sys : socket) (request : JobRequest) : bool :=
  match encode_job request, so_write sys with Ok _, None => true | _, _ => false end.

(** What one call does next, by its phase. *)
Inductive call_step (i : nat) (c : call) (s : state) : phase -> state -> Prop :=
| CountIn p over :
    count_in (st_pool s) = (p, over) ->
    call_step i c s Entering (advance i c (if over : bool then Shedding else Queued) p s)
| Shed :
    call_step i c s Shedding
      (advance i c
         (Finished (Returned (Err (PoolSaturated (lc_language (lp_launch (st_pool s)))))))
         (shed (st_pool s)) s)
| Acquire queue_wait p :
    acquire (st_pool s) = Some p ->
    call_step i c s Queued (advance i c (Holding queue_wait) p s)
| Build queue_wait started request p :
    build_request c (st_pool s) = (request, p) ->
    call_step i c s (Holding queue_wait) (advance i c (Ready queue_wait started request) p s)
| TakeParked queue_wait started request now exited w p :
    take_or_spawn now exited (st_pool s) = (Some w, p) ->
    call_step i c s (Ready queue_wait started request)
      (MkState p (<[i := (c, Running queue_wait started request w)]> (st_calls s))
         (st_processes s) (i :: st_submitted s) (st_delivered s))
| StartSpawn queue_wait started request now exited p :
    take_or_spawn now exited (st_pool s) = (None, p) ->
    call_step i c s (Ready queue_wait started request)
      (advance i c (Spawning queue_wait started request) p s)
| SpawnDone queue_wait started request sys now w events t :
    spawn sys (lp_launch (st_pool s)) now = (Ok w, events, t) ->
    wk_process w = st_processes s ->
    call_step i c s (Spawning queue_wait started request)
      (MkState (st_pool s) (<[i := (c, Running queue_wait started request w)]> (st_calls s))
         (S (st_processes s)) (i :: st_submitted s) (st_delivered s))
| SpawnFailed queue_wait started request sys now reason events t :
    spawn sys (lp_launch (st_pool s)) now = (Err reason, events, t) ->
    call_step i c s (Spawning queue_wait started request)
      (MkState (st_pool s)
         (<[i := (c, Releasing (Returned (Err (spawn_error (st_pool s) reason))))]> (st_calls s))
         (S (st_processes s)) (st_submitted s) (st_delivered s))
| Replied queue_wait started request w sys now response w' t :
    submit sys request (hard_deadline c) now w = Returns (Ok response, w') t ->
    call_step i c s (Running queue_wait started request w)
      (MkState (set_jobs_total (wrapping_add (lp_jobs_total (st_pool s)) 1) (st_pool s))
         (<[i := (c, Parking queue_wait (t - started)%N response w')]> (st_calls s))
         (st_processes s) (st_submitted s) (i :: st_delivered s))
| SubmitFailed queue_wait started request w sys now failure w' t :
    submit sys request (hard_deadline c) now w = Returns (Err failure, w') t ->
    call_step i c s (Running queue_wait started request w)
      (MkState (st_pool s)
         (<[i := (c, Releasing (Returned (Err (dispatch_error (st_pool s) failure))))]> (st_calls s))
         (st_processes s) (st_submitted s)
         (if frame_written sys request then i :: st_delivered s else st_delivered s))
| Park queue_wait elapsed response w :
    call_step i c s (Parking queue_wait elapsed response w)
      (advance i c (Releasing (Returned (conclude (st_pool s) response elapsed queue_wait)))
         (retire_or_park w (st_pool s)) s)
| Release e :
    call_step i c s (Releasing e) (advance i c (Leaving e) (release (st_pool s)) s)
| Leave e :
    call_step i c s (Leaving e) (advance i c (Finished e) (count_out (st_pool s)) s).

(** Where a dropped future leaves its call: guards run, workers die, and a job that
    was being submitted may have been delivered. *)
Definition cancelled (ph : phase) : option phase :=
  match ph with
  | Queued => Some (Leaving Dropped)
  | Ready _ _ _ | Spawning _ _ _ | Running _ _ _ _ | Parking _ _ _ _ => Some (Releasing Dropped)
  | _ => None
  end.

Inductive step (s : state) : state -> Prop :=
| NewCall i c :
    st_calls s !! i = None -> step s (advance i c Entering (st_pool s) s)
| Advance i c ph t :
    st_calls s !! i = Some (c, ph) -> call_step i c s ph t -> step s t
| Cancel i c ph ph' :
    st_calls s !! i = Some (c, ph) -> cancelled ph = Some ph' ->
    step s
      (MkState (st_pool s) (<[i := (c, ph')]> (st_calls s)) (S (st_processes s)) (st_submitted s)
         (match ph with Running _ _ _ _ => i :: st_delivered s | _ => st_delivered s end))
| Reap now :
    step s (MkState (reap now (st_pool s)) (st_calls s) (st_processes s) (st_submitted s)
              (st_delivered s)).

End Steps.

(** ** Counting calls by phase *)

Definition tally (f : phase -> bool) (m : gmap nat (call * phase)) : nat := count_of (fun x => f x.2) m.

Lemma tally_new f m i c ph :
  m !! i = None -> tally f (<[i := (c, ph)]> m) = ((if f ph then 1 else 0) + tally f m)%nat.
Proof. intros Hi. by apply (count_new (fun x => f x.2)). Qed.

Lemma tally_update f m i c ph c' ph' :
  m !! i = Some (c, ph) ->
  (tally f (<[i := (c', ph')]> m) + (if f ph then 1 else 0)
   = tally f m + (if f ph' then 1 else 0))%nat.
Proof. intros Hi. by apply (count_update (fun x => f x.2) m i (c, ph)). Qed.

Lemma tally_zero f m : (forall i c ph, m !! i = Some (c, ph) -> f ph = false) -> tally f m = 0%nat.
Proof. intros Hf. apply count_zero. intros i [c ph]. apply Hf. Qed.

Lemma tally_le f g m : (forall ph, f ph = true -> g ph = true) -> (tally f m <= tally g m)%nat.
Proof. intros Hfg. apply count_le. intros [c ph]. apply Hfg. Qed.

Lemma tally_le_size f m : (tally f m <= size m)%nat.
Proof. apply count_le_size. Qed.

(** Calls the in-flight counter counts. *)
Definition counted (ph : phase) : bool :=
  match ph with Entering | Finished _ => false | _ => true end.
(** Calls let past the capacity check. *)
Definition admitted (ph : phase) : bool :=
  match ph with Entering | Shedding | Finished _ => false | _ => true end.
(** Calls that hold a semaphore permit. *)
Definition holding (ph : phase) : bool :=
  match ph with
  | Holding _ | Ready _ _ _ | Spawning _ _ _ | Running _ _ _ _ | Parking _ _ _ _ | Releasing _ => true
  | _ => false
  end.
(** Calls that have, or are starting, a worker of their own. *)
Definition busy (ph : phase) : bool :=
  match ph with Spawning _ _ _ | Running _ _ _ _ | Parking _ _ _ _ => true | _ => false end.
(** The worker a call is using. *)
Definition worker_of (ph : phase) : option Worker :=
  match ph with Running _ _ _ w | Parking _ _ _ w => Some w | _ => None end.

(** ** Lemmas on the operations *)

Lemma take_parked_suffix ttl now exited idle found rest :
  take_parked ttl now exited idle = (found, rest) ->
  match found with
  | Some w => exists retired, idle = retired ++ w :: rest
  | None => rest = []
  end.
Proof.
  induction idle as [|w idle IH]; cbn; [by intros [= <- <-]|].
  destruct (match ttl with Some _ => _ | None => _ end).
  - intros Hr%IH. destruct found; [|done]. destruct Hr as [retired ->]. by exists (w :: retired).
  - destruct (exited w).
    + intros Hr%IH. destruct found; [|done]. destruct Hr as [retired ->]. by exists (w :: retired).
    + intros [= <- <-]. by exists [].
Qed.

Lemma take_or_spawn_spec now exited p found p' :
  take_or_spawn now exited p = (found, p') ->
  lp_settings p' = lp_settings p /\ lp_permits p' = lp_permits p
  /\ lp_inflight p' = lp_inflight p /\ lp_launch p' = lp_launch p
  /\ match found with
     | Some w => exists retired, lp_idle p = retired ++ w :: lp_idle p'
     | None => lp_idle p' = []
     end.
Proof.
  unfold take_or_spawn. destruct (take_parked _ _ _ _) as [f rest] eqn:E.
  apply take_parked_suffix in E. destruct f; intros [= <- <-]; done.
Qed.

Section Invariant.
Context `{Hjson : PoolJson}.

(** The number of calls ever made fits the counter; beyond it the counter wraps. *)
Definition countable (s : state) : Prop := (N.of_nat (size (st_calls s)) < u64_modulus)%N.

Record pool_inv (s : state) : Prop := {
  inv_inflight : lp_inflight (st_pool s) = N.of_nat (tally counted (st_calls s));
  inv_permits :
    (lp_permits (st_pool s) + N.of_nat (tally holding (st_calls s))
     = effective_max_workers (lp_settings (st_pool s)))%N;
  inv_admitted : (N.of_nat (tally admitted (st_calls s)) <= capacity (st_pool s))%N;
  inv_workers :
    (N.of_nat (length (lp_idle (st_pool s)) + tally busy (st_calls s))
     <= effective_max_workers (lp_settings (st_pool s)))%N
}.

Lemma step_countable s t : step s t -> countable t -> countable s.
Proof.
  unfold countable. intros Hstep.
  enough (size (st_calls s) <= size (st_calls t))%nat by lia.
  destruct Hstep as [i c Hi|i c ph t Hi Hs|i c ph ph' Hi _|]; cbn; [| | |lia].
  - rewrite map_size_insert_None by done. lia.
  - destruct Hs; cbn; rewrite map_size_insert_Some by eauto; lia.
  - rewrite map_size_insert_Some by eauto. lia.
Qed.

Lemma wrapping_count n : (N.of_nat n + 1 < u64_modulus)%N ->
  wrapping_add (N.of_nat n) 1 = N.of_nat (S n).
Proof. intros Hn. unfold wrapping_add. rewrite N.mod_small by lia. lia. Qed.

Lemma wrapping_uncount n : (N.of_nat (S n) < u64_modulus)%N ->
  wrapping_sub (N.of_nat (S n)) 1 = N.of_nat n.
Proof.
  intros Hn. unfold wrapping_sub. rewrite (N.mod_small 1) by (unfold u64_modulus; lia).
  replace (N.of_nat (S n) + (u64_modulus - 1))%N with (N.of_nat n + 1 * u64_modulus)%N
    by (unfold u64_modulus in *; lia).
  rewrite N.Div0.mod_add. apply N.mod_small. lia.
Qed.

(** How the four tallies change when call [i] moves to another phase. *)
Ltac tallies :=
  match goal with
  | Hi : ?m !! ?i = Some (?c, ?ph) |- context [<[?i := (?c', ?ph')]> ?m] =>
      pose proof (tally_update counted m i c ph c' ph' Hi);
      pose proof (tally_update admitted m i c ph c' ph' Hi);
      pose proof (tally_update holding m i c ph c' ph' Hi);
      pose proof (tally_update busy m i c ph c' ph' Hi)
  end; cbn [counted admitted holding busy] in *.

Lemma counted_bound s : countable s -> (N.of_nat (tally counted (st_calls s)) < u64_modulus)%N.
Proof. unfold countable. pose proof (tally_le_size counted (st_calls s)). lia. Qed.

Lemma call_step_inv i c ph s t :
  st_calls s !! i = Some (c, ph) -> countable s -> countable t -> pool_inv s ->
  call_step i c s ph t -> pool_inv t.
Proof.
  intros Hi Hc Ht [Hin Hp Ha Hw] Hstep.
  pose proof (counted_bound _ Hc) as Hb. pose proof (counted_bound _ Ht) as Hbt.
  pose proof (tally_le admitted counted (st_calls s)) as Hac.
  specialize (Hac ltac:(by intros [])).
  destruct Hstep as
    [p over E| |q p E|q st r p E|q st r now ex w p E|q st r now ex p E|q st r sys now w ev t E Hw'
    |q st r sys now reason ev t E|q st r w sys now resp w' t E|q st r w sys now f w' t E
    |q el resp w|e|e].
  - unfold count_in in E. injection E as <- <-.
    destruct (N.ltb_spec (capacity (st_pool s)) (wrapping_add (lp_inflight (st_pool s)) 1)) as [Hov|Hov];
      revert Hbt; constructor; cbn in *; unfold capacity in *; cbn; tallies;
      rewrite ?Hin in *; rewrite ?wrapping_count in * by lia; lia.
  - constructor; cbn in *; unfold capacity in *; cbn; tallies; [|lia..].
    rewrite Hin. destruct (tally counted (st_calls s)) as [|n] eqn:Hn; [lia|].
    rewrite wrapping_uncount by lia. lia.
  - unfold acquire in E. destruct (N.ltb_spec 0 (lp_permits (st_pool s))); [|done].
    injection E as <-. constructor; cbn in *; unfold capacity in *; cbn; tallies; lia.
  - injection E as <- <-. constructor; cbn in *; unfold capacity in *; cbn; tallies; lia.
  - apply take_or_spawn_spec in E as (Hs & Hpm & Hif & _ & retired & Hidle).
    apply (f_equal length) in Hidle. rewrite length_app in Hidle. cbn in Hidle.
    constructor; cbn in *; unfold capacity in *; rewrite ?Hs, ?Hpm, ?Hif; tallies; lia.
  - apply take_or_spawn_spec in E as (Hs & Hpm & Hif & _ & Hidle).
    pose proof (tally_le busy holding (<[i := (c, Spawning q st r)]> (st_calls s))) as Hbh.
    specialize (Hbh ltac:(by intros [])).
    constructor; cbn in *; unfold capacity in *; rewrite ?Hs, ?Hpm, ?Hif, ?Hidle; tallies;
      cbn; lia.
  - constructor; cbn in *; tallies; lia.
  - constructor; cbn in *; tallies; lia.
  - constructor; cbn in *; unfold capacity in *; cbn; tallies; lia.
  - constructor; cbn in *; tallies; lia.
  - unfold retire_or_park. destruct (should_recycle _ _);
      constructor; cbn in *; unfold capacity in *; cbn; tallies; lia.
  - constructor; cbn in *; unfold capacity in *; cbn; tallies; lia.
  - constructor; cbn in *; unfold capacity in *; cbn; tallies; [|lia..].
    rewrite Hin. destruct (tally counted (st_calls s)) as [|n] eqn:Hn; [lia|].
    rewrite wrapping_uncount by lia. lia.
Qed.

Lemma step_inv s t : countable t -> pool_inv s -> step s t -> pool_inv t.
Proof.
  intros Ht Hs Hstep. pose proof (step_countable _ _ Hstep Ht) as Hc.
  destruct Hstep as [i c Hi|i c ph t Hi Hstep|i c ph ph' Hi Hph|now].
  - destruct Hs as [Hin Hp Ha Hw]. constructor; cbn in *; rewrite tally_new by done; cbn; lia.
  - by eapply call_step_inv.
  - destruct Hs as [Hin Hp Ha Hw]. destruct ph; cbn in Hph; try done; injection Hph as <-;
      constructor; cbn in *; tallies; lia.
  - destruct Hs as [Hin Hp Ha Hw]. unfold reap. destruct (idle_ttl_secs _); [|by constructor].
    constructor; cbn in *; try done.
    pose proof (length_filter (fun w => idle_expired (n * 1000) now w = false)
                  (lp_idle (st_pool s))). lia.
Qed.

Lemma initial_inv launch settings version s : initial launch settings version s -> pool_inv s.
Proof.
  intros ->. assert (forall f, tally f (∅ : gmap nat (call * phase)) = 0%nat) as H0.
  { intros f. apply tally_zero. intros i c ph. by rewrite lookup_empty. }
  constructor; cbn [st_pool st_calls]; rewrite H0; cbn; lia.
Qed.

(** ** Workers *)

(** No worker is in two places: parked twice, parked and in use, or in use by two
    calls; every process has a number already given out. *)
Record workers_inv (s : state) : Prop := {
  inv_idle_nodup : NoDup (wk_process <$> lp_idle (st_pool s));
  inv_idle_used i c ph w w' :
    st_calls s !! i = Some (c, ph) -> worker_of ph = Some w -> w' ∈ lp_idle (st_pool s) ->
    wk_process w <> wk_process w';
  inv_used i j c ph c' ph' w w' :
    st_calls s !! i = Some (c, ph) -> st_calls s !! j = Some (c', ph') ->
    worker_of ph = Some w -> worker_of ph' = Some w' -> wk_process w = wk_process w' -> i = j;
  inv_idle_started w : w ∈ lp_idle (st_pool s) -> (wk_process w < st_processes s)%nat;
  inv_used_started i c ph w :
    st_calls s !! i = Some (c, ph) -> worker_of ph = Some w -> (wk_process w < st_processes s)%nat;
  inv_idle_budget w :
    w ∈ lp_idle (st_pool s) ->
    should_recycle (ps_recycle_after_jobs (lp_settings (st_pool s))) w = false
}.

(** Parked workers are only taken out. *)
Definition kept_idle (before after : list Worker) : Prop :=
  NoDup (wk_process <$> before) ->
  NoDup (wk_process <$> after) /\ forall w, w ∈ after -> w ∈ before.

Lemma kept_idle_refl ws : kept_idle ws ws.
Proof. by intros Hnd. Qed.

Lemma kept_idle_app dropped ws : kept_idle (dropped ++ ws) ws.
Proof.
  intros Hnd. rewrite fmap_app in Hnd. apply NoDup_app in Hnd as (_ & _ & ?).
  split; [done|]. intros w Hw. apply elem_of_app. by right.
Qed.

Lemma kept_idle_filter (f : Worker -> bool) ws :
  kept_idle ws (filter (fun w => f w = false) ws).
Proof.
  intros Hnd. split; [|by intros w [_ ?]%list_elem_of_filter].
  induction ws as [|w ws IH]; [constructor|]. apply NoDup_cons in Hnd as [Hw Hnd].
  rewrite filter_cons. destruct (decide _); [|auto]. cbn. constructor; [|auto].
  intros (w' & Heq & Hin)%list_elem_of_fmap. apply Hw. rewrite Heq. apply list_elem_of_fmap_2.
  by apply list_elem_of_filter in Hin as [_ ?].
Qed.

Lemma submit_process sys request budget now w r w' t :
  submit sys request budget now w = Returns (r, w') t -> wk_process w' = wk_process w.
Proof.
  unfold submit. destruct (encode_job request); [|by intros [= <- <- <-]].
  destruct (so_write_takes sys); [|done]. destruct (so_write sys) as [[]|]; [by intros [= <- <- <-]|].
  destruct (so_flush_takes sys); [|done]. destruct (so_flush sys); [by intros [= <- <- <-]|].
  unfold await_response. intros (_ & _ & _ & Hp & _)%await_loop_spec. by rewrite Hp.
Qed.

(** A step that shrinks or keeps the parked workers and leaves call [i] with no
    worker, or with the one it had. *)
Lemma workers_inv_weaken s t i c ph c' ph' :
  workers_inv s -> st_calls s !! i = Some (c, ph) ->
  st_calls t = <[i := (c', ph')]> (st_calls s) ->
  lp_settings (st_pool t) = lp_settings (st_pool s) ->
  kept_idle (lp_idle (st_pool s)) (lp_idle (st_pool t)) ->
  (st_processes s <= st_processes t)%nat ->
  (forall w', worker_of ph' = Some w' ->
     exists w, worker_of ph = Some w /\ wk_process w' = wk_process w) ->
  workers_inv t.
Proof.
  intros [H1 H2 H3 H4 H5 H6] Hi Hcalls Hset Hidle Hproc Hw.
  destruct (Hidle H1) as [Hnd Hin].
  assert (forall j d qh w, st_calls t !! j = Some (d, qh) -> worker_of qh = Some w ->
            exists d0 qh0 w0, st_calls s !! j = Some (d0, qh0) /\ worker_of qh0 = Some w0
              /\ wk_process w = wk_process w0) as Hback.
  { intros j d qh w Hj Hq. rewrite Hcalls in Hj. destruct (decide (i = j)) as [<-|Hne].
    - rewrite lookup_insert_eq in Hj. injection Hj as <- <-.
      destruct (Hw w Hq) as (w0 & ? & ?). eauto 10.
    - rewrite lookup_insert_ne in Hj by done. eauto 10. }
  constructor.
  - exact Hnd.
  - intros j d qh w w' Hj Hq Hw'. destruct (Hback _ _ _ _ Hj Hq) as (d0 & qh0 & w0 & ? & ? & ->). eauto.
  - intros j k d qh d' qh' w w' Hj Hk Hq Hq' Heq.
    destruct (Hback _ _ _ _ Hj Hq) as (d0 & qh0 & w0 & ? & ? & E1).
    destruct (Hback _ _ _ _ Hk Hq') as (d1 & qh1 & w1 & ? & ? & E2).
    eapply H3; eauto. congruence.
  - intros w Hin'. specialize (H4 w (Hin w Hin')). lia.
  - intros j d qh w Hj Hq. destruct (Hback _ _ _ _ Hj Hq) as (d0 & qh0 & w0 & ? & ? & ->).
    enough (wk_process w0 < st_processes s)%nat by lia. eauto.
  - intros w Hin'. rewrite Hset. auto.
Qed.

(** A call takes a worker that nothing else has. *)
Lemma workers_inv_take s t i c ph c' ph' w :
  workers_inv s -> st_calls s !! i = Some (c, ph) ->
  st_calls t = <[i := (c', ph')]> (st_calls s) -> worker_of ph' = Some w ->
  lp_settings (st_pool t) = lp_settings (st_pool s) ->
  kept_idle (lp_idle (st_pool s)) (lp_idle (st_pool t)) ->
  (st_processes s <= st_processes t)%nat -> (wk_process w < st_processes t)%nat ->
  (forall w', w' ∈ lp_idle (st_pool t) -> wk_process w <> wk_process w') ->
  (forall j d qh w', st_calls s !! j = Some (d, qh) -> worker_of qh = Some w' ->
     wk_process w <> wk_process w') ->
  workers_inv t.
Proof.
  intros [H1 H2 H3 H4 H5 H6] Hi Hcalls Hq Hset Hidle Hproc Hwp Hfresh Hfresh'.
  destruct (Hidle H1) as [Hnd Hin].
  assert (forall j d qh w0, st_calls t !! j = Some (d, qh) -> worker_of qh = Some w0 ->
            (j = i /\ w0 = w) \/ (j <> i /\ st_calls s !! j = Some (d, qh))) as Hback.
  { intros j d qh w0 Hj Hq0. rewrite Hcalls in Hj. destruct (decide (i = j)) as [<-|Hne].
    - rewrite lookup_insert_eq in Hj. injection Hj as <- <-. left. split; [done|congruence].
    - rewrite lookup_insert_ne in Hj by done. right. done. }
  constructor.
  - exact Hnd.
  - intros j d qh w0 w' Hj Hq0 Hw'. destruct (Hback _ _ _ _ Hj Hq0) as [[-> ->]|[_ Hs]]; eauto.
  - intros j k d qh d' qh' w0 w' Hj Hk Hq0 Hq' Heq.
    destruct (Hback _ _ _ _ Hj Hq0) as [[-> ->]|[? Hs]], (Hback _ _ _ _ Hk Hq') as [[-> ->]|[? Hs']];
      [done| | |by eauto].
    + by destruct (Hfresh' _ _ _ _ Hs' Hq').
    + by destruct (Hfresh' _ _ _ _ Hs Hq0).
  - intros w0 Hin'. specialize (H4 w0 (Hin w0 Hin')). lia.
  - intros j d qh w0 Hj Hq0. destruct (Hback _ _ _ _ Hj Hq0) as [[-> ->]|[_ Hs]]; [done|].
    enough (wk_process w0 < st_processes s)%nat by lia. eauto.
  - intros w0 Hin'. rewrite Hset. auto.
Qed.

(** A call parks the worker it had. *)
Lemma workers_inv_park s i c q el resp w e :
  workers_inv s -> st_calls s !! i = Some (c, Parking q el resp w) ->
  should_recycle (ps_recycle_after_jobs (lp_settings (st_pool s))) w = false ->
  workers_inv (advance i c (Releasing e) (set_idle (w :: lp_idle (st_pool s)) (st_pool s)) s).
Proof.
  intros [H1 H2 H3 H4 H5 H6] Hi Hrec.
  assert (forall j d qh w0, <[i := (c, Releasing e)]> (st_calls s) !! j = Some (d, qh) ->
            worker_of qh = Some w0 -> i <> j /\ st_calls s !! j = Some (d, qh)) as Hback.
  { intros j d qh w0. destruct (decide (i = j)) as [<-|Hne].
    - rewrite lookup_insert_eq. by intros [= <- <-].
    - by rewrite lookup_insert_ne. }
  constructor; cbn.
  - constructor; [|done]. intros (w' & Heq & Hw')%list_elem_of_fmap. by eapply H2.
  - intros j d qh w0 w' Hj Hq. destruct (Hback _ _ _ _ Hj Hq) as [Hne Hs].
    intros [->|Hw']%elem_of_cons Heq; [|by eapply H2]. apply Hne. symmetry. by eapply H3.
  - intros j k d qh d' qh' w0 w' Hj Hk Hq Hq'.
    destruct (Hback _ _ _ _ Hj Hq), (Hback _ _ _ _ Hk Hq'). eauto.
  - intros w0 [->|Hw']%elem_of_cons; eauto.
  - intros j d qh w0 Hj Hq. destruct (Hback _ _ _ _ Hj Hq). eauto.
  - intros w0 [->|Hw']%elem_of_cons; eauto.
Qed.

(** The steps that take no worker. *)
Ltac keep_workers Hs Hi :=
  eapply workers_inv_weaken;
  [exact Hs|exact Hi|reflexivity|done|by apply kept_idle_refl|cbn; lia|try by intros ?].

Lemma new_call_workers s i c :
  workers_inv s -> st_calls s !! i = None -> workers_inv (advance i c Entering (st_pool s) s).
Proof.
  intros Hs Hi.
  destruct Hs as [H1 H2 H3 H4 H5 H6].
  assert (forall j d qh w, <[i := (c, Entering)]> (st_calls s) !! j = Some (d, qh) ->
            worker_of qh = Some w -> st_calls s !! j = Some (d, qh)) as Hback.
  { intros j d qh w. destruct (decide (i = j)) as [<-|Hne].
    - rewrite lookup_insert_eq. by intros [= <- <-].
    - by rewrite lookup_insert_ne. }
  constructor; cbn; eauto.
Qed.

Lemma call_step_workers s i c ph t :
  workers_inv s -> st_calls s !! i = Some (c, ph) -> call_step i c s ph t -> workers_inv t.
Proof.
  intros Hs Hi Hstep.
  destruct Hstep as
    [p over E| |q p E|q st r p E|q st r now ex w p E|q st r now ex p E|q st r sys now w ev t E Hw'
    |q st r sys now reason ev t E|q st r w sys now resp w' t E|q st r w sys now f w' t E
    |q el resp w|e|e].
  - unfold count_in in E. injection E as <- <-. by destruct (_ <? _)%N; keep_workers Hs Hi.
  - keep_workers Hs Hi.
  - unfold acquire in E. destruct (0 <? _)%N; [|done]. injection E as <-. keep_workers Hs Hi.
  - injection E as <- <-. keep_workers Hs Hi.
  - apply take_or_spawn_spec in E as (Hset & _ & _ & _ & retired & Hidle).
    pose proof Hs as [H1 H2 H3 H4 H5 H6].
    assert (w ∈ lp_idle (st_pool s)) as Hin.
    { rewrite Hidle. apply elem_of_app. right. left. }
    eapply workers_inv_take; [exact Hs|exact Hi|reflexivity|reflexivity|done| |cbn; lia|by apply H4| |].
    + cbn. rewrite Hidle. replace (retired ++ w :: lp_idle p) with ((retired ++ [w]) ++ lp_idle p)
        by by rewrite <- app_assoc. apply kept_idle_app.
    + cbn. intros w' Hw' Heq. rewrite Hidle, fmap_app in H1. cbn in H1.
      apply NoDup_app in H1 as (_ & _ & [H1 _]%NoDup_cons). apply H1.
      rewrite Heq. by apply list_elem_of_fmap_2.
    + intros j d qh w' Hj Hq Heq. by eapply H2.
  - apply take_or_spawn_spec in E as (Hset & _ & _ & _ & Hidle).
    eapply workers_inv_weaken; [exact Hs|exact Hi|reflexivity|done| |cbn; lia|done].
    cbn. rewrite Hidle. intros _. split; [constructor|]. by intros ? ?%elem_of_nil.
  - pose proof Hs as [H1 H2 H3 H4 H5 H6].
    eapply workers_inv_take; [exact Hs|exact Hi|reflexivity|reflexivity|done|by apply kept_idle_refl
      |cbn; lia|cbn; lia| |].
    + cbn. intros w' Hw0. specialize (H4 _ Hw0). lia.
    + intros j d qh w0 Hj Hq. specialize (H5 _ _ _ _ Hj Hq). lia.
  - keep_workers Hs Hi.
  - apply submit_process in E. keep_workers Hs Hi. intros ? [= <-]. eauto.
  - keep_workers Hs Hi.
  - unfold retire_or_park. destruct (should_recycle _ w) eqn:Hrec; [keep_workers Hs Hi|].
    by eapply workers_inv_park.
  - keep_workers Hs Hi.
  - keep_workers Hs Hi.
Qed.

Lemma step_workers s t : workers_inv s -> step s t -> workers_inv t.
Proof.
  intros Hs Hstep. destruct Hstep as [i c Hi|i c ph t Hi Hstep|i c ph ph' Hi Hph|now].
  - by apply new_call_workers.
  - by eapply call_step_workers.
  - destruct ph; cbn in Hph; try done; injection Hph as <-; keep_workers Hs Hi.
  - unfold reap. destruct (idle_ttl_secs _) as [ttl|]; [|by destruct s].
    destruct Hs as [H1 H2 H3 H4 H5 H6].
    destruct (kept_idle_filter (idle_expired (ttl * 1000) now) _ H1) as [Hnd Hin].
    constructor; cbn; eauto.
Qed.

(** ** Jobs *)

(** The phases a call can be in once it was handed to a worker. *)
Definition past_submission (ph : phase) : bool :=
  match ph with
  | Running _ _ _ _ | Parking _ _ _ _ | Releasing _ | Leaving _ | Finished _ => true
  | _ => false
  end.

Definition ending_of (ph : phase) : option ending :=
  match ph with Releasing e | Leaving e | Finished e => Some e | _ => None end.

Record jobs_inv (s : state) : Prop := {
  inv_submitted_once : NoDup (st_submitted s);
  inv_submitted_phase i :
    i ∈ st_submitted s ->
    exists c ph, st_calls s !! i = Some (c, ph) /\ past_submission ph = true;
  inv_delivered_submitted i : i ∈ st_delivered s -> i ∈ st_submitted s;
  inv_running i c q st r w :
    st_calls s !! i = Some (c, Running q st r w) -> i ∈ st_submitted s /\ i ∉ st_delivered s;
  inv_parking i c q el resp w :
    st_calls s !! i = Some (c, Parking q el resp w) -> i ∈ st_delivered s;
  inv_retryable i c ph e :
    st_calls s !! i = Some (c, ph) -> ending_of ph = Some (Returned (Err e)) ->
    is_retryable e = true -> i ∉ st_delivered s;
  inv_answered i c ph resp :
    st_calls s !! i = Some (c, ph) -> ending_of ph = Some (Returned (Ok resp)) ->
    i ∈ st_delivered s
}.

(** A failed submission is tagged by whether its frame was written. *)
Lemma submit_tag sys request budget now w failure w' t :
  submit sys request budget now w = Returns (Err failure, w') t ->
  sf_dispatched failure = frame_written sys request.
Proof.
  unfold submit, frame_written. destruct (encode_job request); [|by intros [= <- _ _]].
  destruct (so_write_takes sys); [|done]. destruct (so_write sys) as [[]|]; [by intros [= <- _ _]|].
  destruct (so_flush_takes sys); [|done]. destruct (so_flush sys); [by intros [= <- _ _]|].
  unfold await_response. by intros (_ & _ & _ & _ & ? & _)%await_loop_spec.
Qed.

Lemma not_submitted_before s i c ph :
  jobs_inv s -> st_calls s !! i = Some (c, ph) -> past_submission ph = false ->
  (i ∉ st_submitted s) /\ (i ∉ st_delivered s).
Proof.
  intros Hs Hi Hph. assert (i ∉ st_submitted s) as Hn.
  { intros Hin. destruct (inv_submitted_phase _ Hs _ Hin) as (c' & ph' & Hi' & ?). congruence. }
  split; [done|]. intros Hin%(inv_delivered_submitted _ Hs). done.
Qed.

Lemma elem_of_cons_if {A} (b : bool) (x i : A) l :
  x ∈ (if b then i :: l else l) <-> (b = true /\ x = i) \/ x ∈ l.
Proof. destruct b; rewrite ?elem_of_cons; intuition discriminate. Qed.

(** A call moves on; [sub] and [del] are the calls newly submitted and delivered. *)
Lemma jobs_inv_move s i c ph ph' p n (sub del : bool) :
  jobs_inv s -> st_calls s !! i = Some (c, ph) ->
  (past_submission ph = true -> past_submission ph' = true) ->
  (sub = true -> past_submission ph = false /\ past_submission ph' = true) ->
  (del = true -> past_submission ph = true /\ i ∈ st_submitted s) ->
  (forall q st r w, ph' = Running q st r w -> sub = true /\ del = false) ->
  (forall q el resp w, ph' = Parking q el resp w -> del = true) ->
  (forall e, ending_of ph' = Some (Returned (Err e)) -> is_retryable e = true ->
     del = false /\ i ∉ st_delivered s) ->
  (forall resp, ending_of ph' = Some (Returned (Ok resp)) -> i ∈ st_delivered s) ->
  jobs_inv (MkState p (<[i := (c, ph')]> (st_calls s)) n
              (if sub then i :: st_submitted s else st_submitted s)
              (if del then i :: st_delivered s else st_delivered s)).
Proof.
  intros Hs Hi Hpast Hsub Hdel Hrun Hpark Herr Hok.
  assert (forall j, j ∈ (if sub then i :: st_submitted s else st_submitted s)
            <-> (sub = true /\ j = i) \/ j ∈ st_submitted s) as Hins.
  { intros j. apply elem_of_cons_if. }
  assert (forall j, j ∈ (if del then i :: st_delivered s else st_delivered s)
            <-> (del = true /\ j = i) \/ j ∈ st_delivered s) as Hind.
  { intros j. apply elem_of_cons_if. }
  assert (forall j d qh, <[i := (c, ph')]> (st_calls s) !! j = Some (d, qh) ->
            (j = i /\ qh = ph') \/ (j <> i /\ st_calls s !! j = Some (d, qh))) as Hback.
  { intros j d qh. destruct (decide (i = j)) as [<-|Hne].
    - rewrite lookup_insert_eq. intros [= <- <-]. by left.
    - rewrite lookup_insert_ne by done. intros. by right. }
  constructor; cbn.
  - destruct sub; [|by apply Hs]. constructor; [|by apply Hs].
    destruct (Hsub eq_refl) as [Hph _]. by apply (not_submitted_before s i c ph).
  - intros j Hj. destruct (decide (j = i)) as [->|Hne].
    + exists c, ph'. rewrite lookup_insert_eq. split; [done|].
      apply Hins in Hj as [[Hst _]|Hj]; [by destruct (Hsub Hst)|].
      destruct (inv_submitted_phase _ Hs _ Hj) as (c0 & ph0 & Hi0 & ?).
      apply Hpast. congruence.
    + apply Hins in Hj as [[_ ->]|Hj]; [done|].
      rewrite lookup_insert_ne by done. by apply Hs.
  - intros j [[Hd ->]|Hj]%Hind; apply Hins; right; [by apply Hdel|by apply Hs].
  - intros j d q st r w [[-> Hq]|[Hne Hj]]%Hback.
    + symmetry in Hq. destruct (Hrun _ _ _ _ Hq) as [-> ->]. destruct (Hsub eq_refl) as [Hph _].
      split; [left|]. by apply (not_submitted_before s i c ph).
    + destruct (inv_running _ Hs _ _ _ _ _ _ Hj) as [? ?]. rewrite Hins, Hind.
      split; [by right|]. by intros [[_ ->]|?].
  - intros j d q el resp w [[-> Hq]|[Hne Hj]]%Hback; apply Hind.
    + symmetry in Hq. left. split; [by eapply Hpark|done].
    + right. by eapply Hs.
  - intros j d qh e [[-> ->]|[Hne Hj]]%Hback He Hr; rewrite Hind.
    + destruct (Herr _ He Hr) as [-> ?]. by intros [[? _]|?].
    + intros [[_ ->]|Hin]; [done|]. by eapply (inv_retryable _ Hs).
  - intros j d qh resp [[-> ->]|[Hne Hj]]%Hback He; apply Hind; right; [by eapply Hok|].
    eapply (inv_answered _ Hs); [exact Hj|exact He].
Qed.

(** Discharges the side conditions of [jobs_inv_move] for a concrete pair of phases. *)
Ltac move_job Hs Hi sub del :=
  eapply (jobs_inv_move _ _ _ _ _ _ _ sub del Hs Hi); cbn; try done;
  try (by intros; discriminate); try (by intros; split).

Lemma new_call_jobs s i c :
  jobs_inv s -> st_calls s !! i = None -> jobs_inv (advance i c Entering (st_pool s) s).
Proof.
  intros Hs Hi.
  assert (i ∉ st_submitted s) as Hn.
  { intros (c' & ph & Hi' & _)%(inv_submitted_phase _ Hs). congruence. }
  assert (forall j d qh, <[i := (c, Entering)]> (st_calls s) !! j = Some (d, qh) ->
            qh = Entering \/ st_calls s !! j = Some (d, qh)) as Hback.
  { intros j d qh. destruct (decide (i = j)) as [<-|Hne].
    - rewrite lookup_insert_eq. intros [= <- <-]. by left.
    - rewrite lookup_insert_ne by done. by right. }
  constructor; cbn; try apply Hs.
  - intros j Hj. destruct (decide (i = j)) as [<-|Hne]; [done|].
    rewrite lookup_insert_ne by done. by apply Hs.
  - intros j d q st r w [?|Hj]%Hback; [done|]. by eapply (inv_running _ Hs).
  - intros j d q el resp w [?|Hj]%Hback; [done|]. by eapply (inv_parking _ Hs).
  - intros j d qh e [->|Hj]%Hback; [done|]. by eapply (inv_retryable _ Hs).
  - intros j d qh resp [->|Hj]%Hback; [done|]. by eapply (inv_answered _ Hs).
Qed.

Lemma call_step_jobs s i c ph t :
  jobs_inv s -> st_calls s !! i = Some (c, ph) -> call_step i c s ph t -> jobs_inv t.
Proof.
  intros Hs Hi Hstep.
  destruct Hstep as
    [p over E| |q p E|q st r p E|q st r now ex w p E|q st r now ex p E|q st r sys now w ev t E Hw'
    |q st r sys now reason ev t E|q st r w sys now resp w' t E|q st r w sys now f w' t E
    |q el resp w|e|e].
  - destruct over; move_job Hs Hi false false.
  - move_job Hs Hi false false. intros e [= <-] _. split; [done|].
    by apply (not_submitted_before s i c Shedding).
  - move_job Hs Hi false false.
  - move_job Hs Hi false false.
  - move_job Hs Hi true false.
  - move_job Hs Hi false false.
  - move_job Hs Hi true false.
  - move_job Hs Hi false false. intros e [= <-] _. split; [done|].
    by apply (not_submitted_before s i c (Spawning q st r)).
  - destruct (inv_running _ Hs _ _ _ _ _ _ Hi). move_job Hs Hi false true.
  - destruct (inv_running _ Hs _ _ _ _ _ _ Hi) as [Hsub Hdel].
    pose proof (submit_tag _ _ _ _ _ _ _ _ E) as Htag.
    assert (forall e, dispatch_error (st_pool s) f = e -> is_retryable e = true ->
              frame_written sys r = false) as Hret.
    { intros e <-. unfold dispatch_error. rewrite Htag. by destruct (frame_written sys r). }
    destruct (frame_written sys r).
    + move_job Hs Hi false true. intros e [= <-] Hr. by specialize (Hret _ eq_refl Hr).
    + move_job Hs Hi false false.
  - pose proof (inv_parking _ Hs _ _ _ _ _ _ Hi) as Hdel.
    move_job Hs Hi false false. intros e [= He]. unfold conclude in He.
    destruct (jr_error resp); [|done]. by injection He as <-.
  - move_job Hs Hi false false.
    + intros e0 [= ->] Hr. split; [done|]. by eapply (inv_retryable _ Hs _ _ _ _ Hi).
    + intros resp [= ->]. by eapply (inv_answered _ Hs _ _ _ _ Hi).
  - move_job Hs Hi false false.
    + intros e0 [= ->] Hr. split; [done|]. by eapply (inv_retryable _ Hs _ _ _ _ Hi).
    + intros resp [= ->]. by eapply (inv_answered _ Hs _ _ _ _ Hi).
Qed.

Lemma step_jobs s t : jobs_inv s -> step s t -> jobs_inv t.
Proof.
  intros Hs Hstep. destruct Hstep as [i c Hi|i c ph t Hi Hstep|i c ph ph' Hi Hph|now].
  - by apply new_call_jobs.
  - by eapply call_step_jobs.
  - destruct ph; cbn in Hph; try done; injection Hph as <-; try by move_job Hs Hi false false.
    destruct (inv_running _ Hs _ _ _ _ _ _ Hi). move_job Hs Hi false true.
  - by destruct Hs.
Qed.

(** ** Reachable pools *)

Context (launch : Launch) (settings : PoolSettings) (version : string).

Definition reachable_pool : state -> Prop := reachable (initial launch settings version) step.

Lemma reachable_counts s : reachable_pool s -> countable s -> pool_inv s.
Proof.
  apply (reachable_invariant _ _ (fun s => countable s -> pool_inv s)).
  - intros s0 H0 _. by eapply initial_inv.
  - intros s0 t IH Hstep Ht. eapply step_inv; [done| |done]. apply IH. by eapply step_countable.
Qed.

Lemma reachable_workers s : reachable_pool s -> workers_inv s.
Proof.
  apply (reachable_invariant _ _ workers_inv); [|intros; by eapply step_workers].
  intros s0 ->. constructor; cbn.
  - constructor.
  - intros i c ph w w'. by rewrite lookup_empty.
  - intros i j c ph c' ph' w w'. by rewrite lookup_empty.
  - by intros w ?%elem_of_nil.
  - intros i c ph w. by rewrite lookup_empty.
  - by intros w ?%elem_of_nil.
Qed.

Lemma reachable_jobs s : reachable_pool s -> jobs_inv s.
Proof.
  apply (reachable_invariant _ _ jobs_inv); [|intros; by eapply step_jobs].
  intros s0 ->. constructor; cbn.
  - constructor.
  - by intros i ?%elem_of_nil.
  - by intros i ?%elem_of_nil.
  - intros *. by rewrite lookup_empty.
  - intros *. by rewrite lookup_empty.
  - intros *. by rewrite lookup_empty.
  - intros *. by rewrite lookup_empty.
Qed.

Lemma step_settings s t : step s t -> lp_settings (st_pool t) = lp_settings (st_pool s).
Proof.
  intros Hstep. destruct Hstep as [i c Hi|i c ph t Hi Hstep|i c ph ph' Hi Hph|now]; [done| |done|].
  - destruct Hstep; cbn; try done.
    + unfold count_in in *. by simplify_eq/=.
    + unfold acquire in *. destruct (0 <? _)%N; by simplify_eq/=.
    + unfold build_request in *. by simplify_eq/=.
    + match goal with H : take_or_spawn _ _ _ = _ |- _ => apply take_or_spawn_spec in H; by destruct H end.
    + match goal with H : take_or_spawn _ _ _ = _ |- _ => apply take_or_spawn_spec in H; by destruct H end.
    + unfold retire_or_park. by destruct (should_recycle _ _).
  - cbn. unfold reap. by destruct (idle_ttl_secs _).
Qed.

Lemma reachable_settings s : reachable_pool s -> lp_settings (st_pool s) = settings.
Proof.
  apply (reachable_invariant _ _ (fun s => lp_settings (st_pool s) = settings)).
  - by intros s0 ->.
  - intros s0 t IH Hstep%step_settings. congruence.
Qed.

End Invariant.

(** ** Properties *)

Section Properties.
Context `{Hjson : PoolJson} (launch : Launch) (settings : PoolSettings) (version : string).

(** C2. The pool is bounded, however many calls arrive, are cancelled or fail in
    whatever interleaving: the workers alive (parked, being started or in use) never
    outnumber the configured maximum; neither do the jobs holding a permit; the jobs
    let in never exceed the workers plus the queue; and the in-flight counter counts
    exactly the calls inside. *)
Theorem pool_is_bounded (s : state) :
  reachable_pool launch settings version s -> countable s ->
  (N.of_nat (length (lp_idle (st_pool s)) + tally busy (st_calls s)) <= effective_max_workers settings)%N
  /\ (N.of_nat (tally holding (st_calls s)) <= effective_max_workers settings)%N
  /\ ((effective_max_workers settings + effective_max_queue_depth settings <= usize_max)%N ->
      (N.of_nat (tally admitted (st_calls s))
       <= effective_max_workers settings + effective_max_queue_depth settings)%N)
  /\ lp_inflight (st_pool s) = N.of_nat (tally counted (st_calls s)).
Proof.
  intros Hs Hc. destruct (reachable_counts _ _ _ _ Hs Hc) as [Hin Hp Ha Hw].
  pose proof (reachable_settings _ _ _ _ Hs) as Hset. rewrite Hset in *. split_and!; [done|lia| |done].
  intros Hov. unfold capacity in Ha. rewrite Hset, wrapping_add_small in Ha by exact Hov. done.
Qed.

(** C5. Nothing leaks: once every call has ended, returned or dropped, every permit is
    back and nothing is counted in flight; and a waiting job waits only while as many
    jobs hold workers as there may be workers. *)
Theorem pool_leaks_nothing (s : state) :
  reachable_pool launch settings version s -> countable s ->
  ((forall i c ph, st_calls s !! i = Some (c, ph) -> exists e, ph = Finished e) ->
     lp_permits (st_pool s) = effective_max_workers settings /\ lp_inflight (st_pool s) = 0%N)
  /\ (acquire (st_pool s) = None ->
      N.of_nat (tally holding (st_calls s)) = effective_max_workers settings
      /\ (1 <= effective_max_workers settings)%N).
Proof.
  intros Hs Hc. destruct (reachable_counts _ _ _ _ Hs Hc) as [Hin Hp Ha Hw].
  rewrite (reachable_settings _ _ _ _ Hs) in *. split.
  - intros Hdone. rewrite (tally_zero holding), (tally_zero counted) in *; [split; [lia|done]|..];
      intros i c ph Hi; destruct (Hdone _ _ _ Hi) as [e ->]; done.
  - unfold acquire. destruct (N.ltb_spec 0 (lp_permits (st_pool s))); [done|]. intros _.
    split; [lia|]. unfold effective_max_workers. lia.
Qed.

(** C4. A worker runs one job at a time: no process serves two calls, no parked worker
    is in use, none is parked twice, and none is parked that has served its budget. *)
Theorem worker_serves_one_job (s : state) :
  reachable_pool launch settings version s ->
  (forall i j c ph c' ph' w w',
     st_calls s !! i = Some (c, ph) -> st_calls s !! j = Some (c', ph') ->
     worker_of ph = Some w -> worker_of ph' = Some w' -> wk_process w = wk_process w' -> i = j)
  /\ NoDup (wk_process <$> lp_idle (st_pool s))
  /\ (forall i c ph w w', st_calls s !! i = Some (c, ph) -> worker_of ph = Some w ->
       w' ∈ lp_idle (st_pool s) -> wk_process w <> wk_process w')
  /\ (forall w, w ∈ lp_idle (st_pool s) ->
       ps_recycle_after_jobs settings = 0%N \/ (wk_jobs_done w < ps_recycle_after_jobs settings)%N).
Proof.
  intros Hs. destruct (reachable_workers _ _ _ _ Hs) as [H1 H2 H3 H4 H5 H6].
  split_and!; [exact H3|done|exact H2|]. intros w Hw. apply H6 in Hw.
  rewrite (reachable_settings _ _ _ _ Hs) in Hw. unfold should_recycle in Hw. reflect_bools.
  destruct Hw as [Hw|Hw]; reflect_bools; [left|right]; lia.
Qed.

(** C1. A job runs at most once, and the error says which: no call is handed to a
    worker twice; a call that ends in a retryable error had no complete frame
    delivered to any worker, so retrying it cannot run it again; and only a call
    whose frame was delivered is answered. *)
Theorem retry_never_runs_a_job_twice (s : state) :
  reachable_pool launch settings version s ->
  NoDup (st_submitted s)
  /\ (forall i, i ∈ st_delivered s -> i ∈ st_submitted s)
  /\ (forall i c e, st_calls s !! i = Some (c, Finished (Returned (Err e))) ->
       is_retryable e = true -> i ∉ st_delivered s)
  /\ (forall i c resp, st_calls s !! i = Some (c, Finished (Returned (Ok resp))) ->
       i ∈ st_delivered s).
Proof.
  intros Hs. destruct (reachable_jobs _ _ _ _ Hs) as [H1 H2 H3 H4 H5 H6 H7].
  split_and!; [done|done| |].
  - intros i c e Hi Hr. by eapply H6.
  - intros i c resp Hi. by eapply H7.
Qed.

(** How far a call is from its end. *)
Definition remaining (ph : phase) : nat :=
  match ph with
  | Entering => 9
  | Queued => 8
  | Holding _ => 7
  | Ready _ _ _ => 6
  | Spawning _ _ _ => 5
  | Running _ _ _ _ => 4
  | Parking _ _ _ _ => 3
  | Releasing _ => 2
  | Shedding | Leaving _ => 1
  | Finished _ => 0
  end.

(** A call's own steps bring it nearer, and leave the others where they are. *)
Lemma call_step_moves s i c ph t :
  st_calls s !! i = Some (c, ph) -> call_step i c s ph t ->
  exists ph', st_calls t = <[i := (c, ph')]> (st_calls s) /\ (remaining ph' < remaining ph)%nat.
Proof.
  intros Hi Hstep. destruct Hstep as [p over E| | | | | | | | | | | |];
    try (eexists; split; [reflexivity|cbn; lia]).
  eexists. split; [reflexivity|]. destruct over; cbn; lia.
Qed.

Lemma cancelled_moves ph ph' : cancelled ph = Some ph' -> (remaining ph' < remaining ph)%nat.
Proof. destruct ph; intros [= <-]; cbn; lia. Qed.

(** Whatever happens, a call stays or comes nearer to its end. *)
Lemma step_nearer s t i c ph :
  st_calls s !! i = Some (c, ph) -> step s t ->
  exists ph', st_calls t !! i = Some (c, ph') /\ (ph' = ph \/ (remaining ph' < remaining ph)%nat).
Proof.
  intros Hi Hstep.
  assert (forall j d qh qh', st_calls s !! j = Some (d, qh) -> (remaining qh' < remaining qh)%nat ->
            exists ph', <[j := (d, qh')]> (st_calls s) !! i = Some (c, ph')
                        /\ (ph' = ph \/ (remaining ph' < remaining ph)%nat)) as Hmove.
  { intros j d qh qh' Hj Hlt. destruct (decide (j = i)) as [->|Hne].
    - rewrite Hi in Hj. injection Hj as <- <-. rewrite lookup_insert_eq. eauto.
    - rewrite lookup_insert_ne by done. eauto. }
  destruct Hstep as [j d Hj|j d qh t Hj Hs|j d qh qh' Hj Hq|now]; cbn.
  - rewrite lookup_insert_ne by congruence. eauto.
  - destruct (call_step_moves _ _ _ _ _ Hj Hs) as (qh' & -> & Hlt). by eapply Hmove.
  - eapply Hmove; [exact Hj|by apply cancelled_moves].
  - eauto.
Qed.

(** A call can move, or waits for a permit that is held by one that can. *)
Lemma call_progress (s : state) (i : nat) (c : call) (ph : phase) :
  reachable_pool launch settings version s -> countable s ->
  st_calls s !! i = Some (c, ph) -> (forall e, ph <> Finished e) ->
  (exists t, call_step i c s ph t)
  \/ ph = Queued
     /\ exists j c' ph' t, st_calls s !! j = Some (c', ph') /\ holding ph' = true
                          /\ call_step j c' s ph' t.
Proof.
  intros Hs Hc Hi Hph.
  assert (forall j c' ph', st_calls s !! j = Some (c', ph') -> holding ph' = true ->
            exists t, call_step j c' s ph' t) as Hmove.
  { intros j c' ph' Hj Hh. destruct ph'; try done.
    - destruct (build_request c' (st_pool s)) as [r p] eqn:E.
      eexists. by apply (Build _ _ _ _ 0%N).
    - destruct (take_or_spawn 0 (fun _ => false) (st_pool s)) as [[w|] p] eqn:E;
        eexists; [by eapply TakeParked|by eapply StartSpawn].
    - eexists. eapply (SpawnFailed _ _ _ _ _ _ (MkSpawnWorld (Err "") (Ok "") "" (fun _ => Err "") None) 0).
      done.
    - destruct (encode_job request) as [line|error] eqn:E.
      + eexists. eapply (SubmitFailed _ _ _ _ _ _ _ (prompt_socket (Some ("", 0%nat)) None) 0).
        unfold submit. by rewrite E.
      + eexists. eapply (SubmitFailed _ _ _ _ _ _ _ (prompt_socket None None) 0).
        unfold submit. by rewrite E.
    - eexists. apply Park.
    - eexists. apply Release. }
  destruct ph; try (left; by eapply Hmove).
  - left. destruct (count_in (st_pool s)) as [p over] eqn:E. eexists. by eapply CountIn.
  - left. eexists. apply Shed.
  - destruct (acquire (st_pool s)) as [p|] eqn:E; [left; eexists; by eapply (Acquire _ _ _ 0%N)|right].
    split; [done|]. destruct (reachable_counts _ _ _ _ Hs Hc) as [Hin Hp Ha Hw].
    assert (tally holding (st_calls s) <> 0)%nat as Hne.
    { unfold acquire in E. destruct (N.ltb_spec 0 (lp_permits (st_pool s))); [done|].
      unfold effective_max_workers in Hp. lia. }
    apply count_nonzero in Hne as (j & [c' ph'] & Hj & Hh).
    destruct (Hmove _ _ _ Hj Hh) as [t Ht]. eauto 10.
  - left. eexists. apply Leave.
  - by destruct (Hph e).
Qed.

(** One move of a call, as a step of the pool. *)
Lemma call_step_shrinks s i c ph t :
  reachable_pool launch settings version s -> countable s -> st_calls s !! i = Some (c, ph) -> call_step i c s ph t ->
  reachable_pool launch settings version t /\ countable t /\ step s t
  /\ (sum_of (fun x => remaining x.2) (st_calls t) < sum_of (fun x => remaining x.2) (st_calls s))%nat.
Proof.
  intros Hs Hc Hi Hstep. assert (step s t) as Hst by (by eapply Advance).
  destruct (call_step_moves _ _ _ _ _ Hi Hstep) as (ph' & Ht & Hlt). split_and!; [by eapply reachable_step| |done|].
  - unfold countable in *. rewrite Ht, map_size_insert_Some by eauto. done.
  - rewrite Ht. pose proof (sum_update (fun x : call * phase => remaining x.2) (st_calls s) i _ (c, ph') Hi) as Hsum.
    cbn in Hsum. lia.
Qed.

Lemma call_ends n : forall s i c ph,
  (sum_of (fun x => remaining x.2) (st_calls s) <= n)%nat ->
  reachable_pool launch settings version s -> countable s -> st_calls s !! i = Some (c, ph) ->
  exists t e, rtc step s t /\ st_calls t !! i = Some (c, Finished e).
Proof.
  induction n as [n IH] using lt_wf_ind. intros s i c ph Hn Hs Hc Hi.
  assert (forall e, ph = Finished e -> exists t e, rtc step s t /\ st_calls t !! i = Some (c, Finished e)) as Hdone.
  { intros e ->. by exists s, e. }
  assert (forall j d qh t, st_calls s !! j = Some (d, qh) -> call_step j d s qh t ->
            exists t e, rtc step s t /\ st_calls t !! i = Some (c, Finished e)) as Hgo.
  { intros j d qh t Hj Hstep. destruct (call_step_shrinks _ _ _ _ _ Hs Hc Hj Hstep) as (Ht & Hct & Hst & Hlt).
    destruct (step_nearer _ _ _ _ _ Hi Hst) as (ph' & Hi' & _).
    destruct (IH _ (Nat.lt_le_trans _ _ _ Hlt Hn) t i c ph' (le_n _) Ht Hct Hi') as (u & e & Hu & He).
    exists u, e. split; [by eapply rtc_l|done]. }
  destruct ph as [| | | | | | | | | |e0]; [..|by eapply Hdone].
  all: edestruct (call_progress s i c) as [[t Ht]|(_ & j & d & qh & t & Hj & _ & Ht)]; eauto; done.
Qed.

(** C6. Every call can go on to an end: from every state a pool can reach, there are steps
    of the pool after which the call has returned or was dropped, also when it waits for
    a permit that others hold. It cannot be kept from its end by going round: whatever
    happens next, in the pool or around it, a call keeps its phase or takes one of at most
    nine moves towards its end; and one that has not ended can take its next move at once,
    except one that waits for a permit while every permit is held, and then some call
    that holds one can. *)
Theorem no_call_is_stuck (s : state) (i : nat) (c : call) (ph : phase) :
  reachable_pool launch settings version s -> countable s -> st_calls s !! i = Some (c, ph) ->
  (exists t e, rtc step s t /\ st_calls t !! i = Some (c, Finished e))
  /\ (remaining ph <= 9)%nat
  /\ (forall t, step s t -> exists ph', st_calls t !! i = Some (c, ph')
                                       /\ (ph' = ph \/ (remaining ph' < remaining ph)%nat))
  /\ ((forall e, ph <> Finished e) ->
      (exists t, call_step i c s ph t)
      \/ ph = Queued
         /\ exists j c' ph' t, st_calls s !! j = Some (c', ph') /\ holding ph' = true
                              /\ call_step j c' s ph' t).
Proof.
  intros Hs Hc Hi. split_and!.
  - by eapply call_ends.
  - destruct ph; cbn; lia.
  - intros t. by apply step_nearer.
  - by apply call_progress.
Qed.

End Properties.

(** ** The properties at work *)

Section Samples.
Let launch := MkLaunch Language_nodejs (Path_new "/n/bin/node") ["w.js"] [] 1 1000 None.
Let one := with_max_queue_depth 0 (with_max_workers 1 PoolSettings_default).
Let job := MkCall "1+1" None None.

(** One call has a permit, a second was shed: the pool is full. *)
Let pool0 := LangPool_start launch one "22".
Let s0 := MkState pool0 ∅ 0 [] [].
Let s1 := advance 0 job Entering pool0 s0.
Let s2 := advance 0 job Queued (set_inflight 1 pool0) s1.
Let s3 := advance 0 job (Holding 0) (set_permits 0 (set_inflight 1 pool0)) s2.
Let s4 := advance 1 job Entering (st_pool s3) s3.
Let s5 := advance 1 job Shedding (set_inflight 2 (st_pool s3)) s4.

Let reachable_s5 : @reachable_pool sample_json launch one "22" s5.
Proof.
  apply reachable_step with s4; [apply reachable_step with s3; [apply reachable_step with s2;
    [apply reachable_step with s1; [apply reachable_step with s0; [by apply reachable_init|]|]|]|]|].
  - by apply (NewCall s0 0 job).
  - eapply Advance; [by apply lookup_insert_eq|]. by apply (CountIn 0 job s1 _ false).
  - eapply Advance; [by apply lookup_insert_eq|]. by apply (Acquire 0 job s2 0%N).
  - by apply (NewCall s3 1 job).
  - eapply Advance; [by apply lookup_insert_eq|]. by apply (CountIn 1 job s4 _ true).
Qed.

Let countable_s5 : countable s5.
Proof. vm_compute. reflexivity. Qed.

Lemma pool_is_bounded_witness :
  (N.of_nat (length (lp_idle (st_pool s5)) + tally busy (st_calls s5)) <= effective_max_workers one)%N
  /\ (N.of_nat (tally holding (st_calls s5)) <= effective_max_workers one)%N
  /\ ((effective_max_workers one + effective_max_queue_depth one <= usize_max)%N ->
      (N.of_nat (tally admitted (st_calls s5))
       <= effective_max_workers one + effective_max_queue_depth one)%N)
  /\ lp_inflight (st_pool s5) = N.of_nat (tally counted (st_calls s5)).
Proof. exact (@pool_is_bounded sample_json launch one "22" s5 reachable_s5 countable_s5). Defined.

Lemma pool_leaks_nothing_witness :
  acquire (st_pool s5) = None
  /\ N.of_nat (tally holding (st_calls s5)) = effective_max_workers one.
Proof.
  split; [reflexivity|].
  exact (proj1 (proj2 (@pool_leaks_nothing sample_json launch one "22" s5 reachable_s5 countable_s5)
                  eq_refl)).
Defined.

Lemma worker_serves_one_job_witness : NoDup (wk_process <$> lp_idle (st_pool s5)).
Proof.
  exact (proj1 (proj2 (@worker_serves_one_job sample_json launch one "22" s5 reachable_s5))).
Defined.

Lemma retry_never_runs_a_job_twice_witness : NoDup (st_submitted s5).
Proof.
  exact (proj1 (@retry_never_runs_a_job_twice sample_json launch one "22" s5 reachable_s5)).
Defined.

Lemma no_call_is_stuck_witness :
  (exists t e, rtc (@step sample_json) s5 t /\ st_calls t !! 1%nat = Some (job, Finished e))
  /\ exists t, @call_step sample_json 1 job s5 Shedding t.
Proof.
  destruct (@no_call_is_stuck sample_json launch one "22" s5 1 job Shedding reachable_s5 countable_s5)
    as (Hend & _ & _ & Hnext); [by vm_compute|].
  split; [exact Hend|]. destruct Hnext as [Ht|[Hq _]]; [done|exact Ht|discriminate Hq].
Defined.

(** A queue depth meant as "no limit" wraps the capacity around: two workers and the
    largest queue admit a single job at a time. *)
Example unlimited_queue_wraps :
  capacity (LangPool_start launch
    (with_max_queue_depth usize_max (with_max_workers 2 PoolSettings_default)) "22") = 1%N.
Proof. vm_compute. reflexivity. Qed.

End Samples.
