(* ===== verification/PoolServes.v ===== *)
(** * A pool and its worker, from the call to the answer

    [LangPool]'s calls, run against the worker of [FakeWorker]: every call that comes when
    nothing is in its way is answered as its code directs, and one process answers them
    all. *)

From stdpp Require Import fin_maps.
From S2P Require Import Prelude RustStd Identity Vocabulary Errors World Download PoolWorker FakeWorker LangPool.

Open Scope rust_scope.

Section Serves.
Context `{Hpool : PoolJson} `{Hside : WorkerSideJson} (Hlaws : ProtocolLaws Hpool Hside).
Context (lc : Launch) (settings : PoolSettings) (version : string).

(** *** Moving one call *)

Lemma advance_advance i c ph ph' p p' s : advance i c ph' p' (advance i c ph p s) = advance i c ph' p' s.
Proof. unfold advance. cbn. by rewrite insert_insert_eq. Qed.

Lemma move i c ph s t :
  reachable_pool lc settings version s -> st_calls s !! i = Some (c, ph) -> call_step i c s ph t ->
  reachable_pool lc settings version t.
Proof. intros Hs Hi Ht. eapply reachable_step; [exact Hs|]. by eapply Advance. Qed.

(** A call moved to a phase, with the pool it leaves and what is recorded. *)
Definition moved i c ph p (s : state) np sub del : state := MkState p (<[i := (c, ph)]> (st_calls s)) np sub del.

Lemma move_on i c ph p np sub del s ph' p' np' sub' del' t :
  reachable_pool lc settings version (moved i c ph p s np sub del) ->
  call_step i c (moved i c ph p s np sub del) ph t ->
  t = MkState p' (<[i := (c, ph')]> (<[i := (c, ph)]> (st_calls s))) np' sub' del' ->
  reachable_pool lc settings version (moved i c ph' p' s np' sub' del').
Proof.
  intros Hs Ht ->. unfold moved at 1. rewrite <- (insert_insert_eq (st_calls s) i (c, ph') (c, ph)).
  eapply move; [exact Hs| |exact Ht]. apply lookup_insert_eq.
Qed.

(** The pool when [k] jobs are behind it and nothing is going on, and inside the next. *)
Definition between (k : N) (idle : list Worker) (spawns : N) : LangPool :=
  MkLangPool lc settings version (effective_max_workers settings) idle 0 k k spawns 0.
Definition within (k jobs : N) (idle : list Worker) (spawns : N) : LangPool :=
  MkLangPool lc settings version (effective_max_workers settings - 1) idle 1 k jobs spawns 0.

Definition request_of (k : nat) (c : call) : JobRequest :=
  MkJobRequest (display_u64 (N.of_nat k)) (cl_code c) (cl_cwd c) (N.min u64_max <$> cl_timeout c).

Context (Hcap : (1 <= wrapping_add (effective_max_workers settings) (effective_max_queue_depth settings))%N).

(** Into the pool and up to a worker, when there is room. *)
Lemma entered i c k idle spawns s :
  reachable_pool lc settings version s -> st_calls s !! i = None ->
  (N.of_nat k + 1 < u64_modulus)%N -> st_pool s = between (N.of_nat k) idle spawns ->
  reachable_pool lc settings version
    (moved i c (Ready 0 0 (request_of k c)) (within (N.of_nat (S k)) (N.of_nat k) idle spawns) s
       (st_processes s) (st_submitted s) (st_delivered s)).
Proof.
  intros Hs Hi Hk Hp.
  assert (reachable_pool lc settings version
            (moved i c Entering (between (N.of_nat k) idle spawns) s (st_processes s) (st_submitted s) (st_delivered s)))
    as H1.
  { rewrite <- Hp. eapply reachable_step; [exact Hs|]. by apply NewCall. }
  set (p1 := set_inflight 1 (between (N.of_nat k) idle spawns)).
  assert (reachable_pool lc settings version
            (moved i c Queued p1 s (st_processes s) (st_submitted s) (st_delivered s))) as H2.
  { eapply move_on; [exact H1|apply (CountIn i c _ p1 false)|done]. unfold count_in, capacity. cbn [moved st_pool between
      lp_inflight lp_settings].
    change (wrapping_add 0 1) with 1%N. f_equal. by apply N.ltb_ge. }
  set (p2 := set_permits (effective_max_workers settings - 1) p1).
  assert (reachable_pool lc settings version
            (moved i c (Holding 0) p2 s (st_processes s) (st_submitted s) (st_delivered s))) as H3.
  { eapply move_on; [exact H2|apply (Acquire i c _ 0 p2)|done]. unfold acquire. cbn.
    destruct (N.ltb_spec 0 (effective_max_workers settings)); [done|]. unfold effective_max_workers in *. lia. }
  eapply move_on; [exact H3|by apply (Build i c _ 0 0)|]. cbn. unfold within. by rewrite wrapping_count.
Qed.

(** Whether a worker is kept after [k] jobs. *)
Definition kept (k : nat) : Prop :=
  ps_recycle_after_jobs settings = 0%N \/ (N.of_nat k < ps_recycle_after_jobs settings)%N.

(** From a worker to the end. *)
Lemma call_answered i c k d r w now spawns arrivals rest s np sub del :
  reachable_pool lc settings version
    (moved i c (Running 0 0 (request_of k c) w) (within (N.of_nat (S k)) (N.of_nat k) [] spawns) s np sub del) ->
  (N.of_nat k + 1 < u64_modulus)%N -> kept (S k) -> wk_jobs_done w = N.of_nat k ->
  answer_to (display_u64 (N.of_nat k)) d = Some r -> wk_responses w = arrivals ++ rest ->
  map ar_what arrivals = map DLine (frames_of (display_u64 (N.of_nat k)) d) ->
  Forall (in_time (hard_deadline_of (hard_deadline c) now)) arrivals ->
  exists w' elapsed, reachable_pool lc settings version
      (moved i c (Finished (Returned (conclude (LangPool_start lc settings version) r elapsed 0)))
         (between (N.of_nat (S k)) [w'] spawns) s np sub (i :: del))
    /\ wk_responses w' = rest /\ wk_jobs_done w' = N.of_nat (S k) /\ (now <= wk_last_used w')%N.
Proof.
  intros Hs Hk Hkept Hdone Hr Hw Hm Ht.
  destruct (submit_answered Hlaws (request_of k c) d r (hard_deadline c) now w arrivals rest Hr Hw Hm Ht)
    as (w' & t & Hsub & Hle & Hrest & _ & Hlast & Hdone').
  rewrite Hdone, wrapping_count in Hdone' by done.
  set (p1 := within (N.of_nat (S k)) (N.of_nat (S k)) [] spawns).
  assert (reachable_pool lc settings version (moved i c (Parking 0 (t - 0)%N r w') p1 s np sub (i :: del))) as H1.
  { eapply move_on; [exact Hs|by eapply Replied|]. cbn. unfold p1, within. by rewrite wrapping_count. }
  set (e := Returned (conclude (LangPool_start lc settings version) r (t - 0) 0)).
  set (p2 := within (N.of_nat (S k)) (N.of_nat (S k)) [w'] spawns).
  assert (reachable_pool lc settings version (moved i c (Releasing e) p2 s np sub (i :: del))) as H2.
  { eapply move_on; [exact H1|apply Park|]. unfold advance, retire_or_park, should_recycle. cbn [moved st_pool p1 within
      lp_settings]. rewrite Hdone'.
    replace ((0 <? ps_recycle_after_jobs settings) && (ps_recycle_after_jobs settings <=? N.of_nat (S k)))%N with false.
    - done.
    - symmetry. apply andb_false_iff. destruct Hkept; [left|right]; [by apply N.ltb_ge; lia|by apply N.leb_gt]. }
  set (p3 := set_permits (effective_max_workers settings) p2).
  assert (reachable_pool lc settings version (moved i c (Leaving e) p3 s np sub (i :: del))) as H3.
  { eapply move_on; [exact H2|apply Release|]. unfold advance, release. cbn [moved st_pool p2 within lp_permits].
    replace (effective_max_workers settings - 1 + 1)%N with (effective_max_workers settings); [done|].
    unfold effective_max_workers. lia. }
  exists w', (t - 0)%N. rewrite Hlast. split; [|by split_and!]. by eapply move_on; [exact H3|apply Leave|].
Qed.

(** *** One call after the other *)

(** [k] calls are behind [s], all served by [w]. *)
Record settled (k : nat) (w : Worker) (s : state) : Prop := {
  settled_reached : reachable_pool lc settings version s;
  settled_pool : st_pool s = between (N.of_nat k) [w] 1;
  settled_jobs : wk_jobs_done w = N.of_nat k;
  settled_processes : st_processes s = 1%nat;
  settled_submitted : st_submitted s = rev (seq 0 k);
  settled_delivered : st_delivered s = rev (seq 0 k);
  settled_calls : forall i, (k <= i)%nat -> st_calls s !! i = None
}.

(** What the worker is sent. *)
Fixpoint jobs_from (k : nat) (calls : list (call * Directive)) : list (JobRequest * Directive) :=
  match calls with
  | [] => []
  | (c, d) :: rest => (request_of k c, d) :: jobs_from (S k) rest
  end.

(** The call is over, with the answer its code directs. *)
Definition answered_as (s : state) (k : nat) (job : call * Directive) : Prop :=
  exists r elapsed, answer_to (display_u64 (N.of_nat k)) (snd job) = Some r
    /\ st_calls s !! k
       = Some (fst job, Finished (Returned (conclude (LangPool_start lc settings version) r elapsed 0))).

Lemma jobs_direct k calls :
  Forall (fun job => cl_code (fst job) = code (snd job)) calls -> Forall directs (jobs_from k calls).
Proof. intros Hc. revert k. induction Hc as [|[c d] calls Hd _ IH]; intros k; constructor; [exact Hd|apply IH]. Qed.

(** Arrivals that no call after [now] has to wait too long for. *)
Definition prompt (now : N) (arrivals : list arrival) (calls : list (call * Directive)) : Prop :=
  Forall (fun job => Forall (in_time (hard_deadline_of (hard_deadline (fst job)) now)) arrivals) calls.

Lemma prompt_later now now' arrivals calls : (now <= now')%N -> prompt now arrivals calls -> prompt now' arrivals calls.
Proof.
  intros Hle Hp. eapply Forall_impl; [exact Hp|]. intros [c d] Hc. eapply Forall_impl; [exact Hc|].
  intros a. by apply in_time_later.
Qed.

Lemma seq_latest k : k :: rev (seq 0 k) = rev (seq 0 (S k)).
Proof. by rewrite seq_S, rev_app_distr. Qed.

(** A call that got a worker, settled. *)
Lemma settles c k d w now arrivals rest s :
  reachable_pool lc settings version
    (moved k c (Running 0 0 (request_of k c) w) (within (N.of_nat (S k)) (N.of_nat k) [] 1) s 1
       (k :: rev (seq 0 k)) (rev (seq 0 k))) ->
  (N.of_nat k + 1 < u64_modulus)%N -> kept (S k) -> wk_jobs_done w = N.of_nat k -> stays d = true ->
  (forall i, (k <= i)%nat -> st_calls s !! i = None) ->
  wk_responses w = arrivals ++ rest ->
  map ar_what arrivals = map DLine (frames_of (display_u64 (N.of_nat k)) d) ->
  Forall (in_time (hard_deadline_of (hard_deadline c) now)) arrivals ->
  exists w' t, settled (S k) w' t /\ wk_responses w' = rest /\ (now <= wk_last_used w')%N /\ answered_as t k (c, d)
    /\ forall i, (i < k)%nat -> st_calls t !! i = st_calls s !! i.
Proof.
  intros Hs Hk Hkept Hdone Hd Hfree Hw Hm Ht.
  destruct (answer_to (display_u64 (N.of_nat k)) d) as [r|] eqn:Hr; [|by destruct d].
  destruct (call_answered k c k d r w now 1 arrivals rest s _ _ _ Hs Hk Hkept Hdone Hr Hw Hm Ht)
    as (w' & elapsed & Hreach & Hrest & Hdone' & Hle).
  eexists w', _. split_and!; [|exact Hrest|exact Hle| |].
  - constructor; [exact Hreach|done|done|done|apply seq_latest|apply seq_latest|].
    intros i Hi. cbn. rewrite lookup_insert_ne by lia. apply Hfree. lia.
  - exists r, elapsed. split; [exact Hr|]. cbn. by rewrite lookup_insert_eq.
  - intros i Hi. cbn. by rewrite lookup_insert_ne by lia.
Qed.

(** The next call, by the worker of the last. *)
Lemma next_served c k d w arrivals rest s :
  settled k w s -> (N.of_nat k + 1 < u64_modulus)%N -> kept (S k) -> stays d = true ->
  wk_responses w = arrivals ++ rest ->
  map ar_what arrivals = map DLine (frames_of (display_u64 (N.of_nat k)) d) ->
  Forall (in_time (hard_deadline_of (hard_deadline c) (wk_last_used w))) arrivals ->
  exists w' t, settled (S k) w' t /\ wk_responses w' = rest /\ (wk_last_used w <= wk_last_used w')%N /\ answered_as t k (c, d)
    /\ forall i, (i < k)%nat -> st_calls t !! i = st_calls s !! i.
Proof.
  intros [Hs Hp Hdone Hproc Hsub Hdel Hfree] Hk Hkept Hd. apply settles; try done.
  pose proof (entered k c k [w] 1 s Hs (Hfree k (le_n k)) Hk Hp) as He.
  rewrite Hproc, Hsub, Hdel in He.
  eapply move_on; [exact He|apply (TakeParked k c _ 0 0 _ (wk_last_used w) (fun _ => false))|done].
  unfold take_or_spawn. cbn. unfold idle_ttl_secs, idle_expired. rewrite N.sub_diag.
  destruct (N.eqb_spec (ps_idle_ttl_secs settings) 0); [done|].
  by destruct (N.leb_spec (ps_idle_ttl_secs settings * 1000) 0); [lia|].
Qed.

(** All the calls after the first. *)
Lemma rest_served calls k w arrivals rest s :
  settled k w s -> (N.of_nat (k + length calls) < u64_modulus)%N -> kept (k + length calls) ->
  Forall (fun job => stays (snd job) = true) calls ->
  wk_responses w = arrivals ++ rest ->
  map ar_what arrivals = map DLine (frames_served (jobs_from k calls)) -> prompt (wk_last_used w) arrivals calls ->
  exists w' t, settled (k + length calls) w' t
    /\ (forall j job, calls !! j = Some job -> answered_as t (k + j) job)
    /\ forall i, (i < k)%nat -> st_calls t !! i = st_calls s !! i.
Proof.
  revert k w arrivals s. induction calls as [|[c d] calls IH]; intros k w arrivals s Hs Hk Hkept Hst Hw Hm Hp.
  { exists w, s. cbn [length]. by rewrite Nat.add_0_r. }
  cbn [length] in *. rewrite <- Nat.add_succ_comm in *.
  apply Forall_cons in Hst as [Hd Hst]. cbn [snd] in Hd.
  cbn [jobs_from frames_served jq_id request_of] in Hm. rewrite Hd, map_app in Hm.
  apply map_eq_app in Hm as (mine & others & -> & Hmine & Hothers). rewrite <- app_assoc in Hw.
  apply Forall_cons in Hp as [Hmine_t Hp]. apply Forall_app in Hmine_t as [Hmine_t _].
  destruct (next_served c k d w mine (others ++ rest) s Hs) as (w1 & s1 & Hs1 & Hw1 & Hle & Ha1 & Hold1); try done.
  { lia. }
  { unfold kept in *. lia. }
  destruct (IH (S k) w1 others s1 Hs1 Hk Hkept Hst Hw1 Hothers) as (w2 & s2 & Hs2 & Ha2 & Hold2).
  { eapply prompt_later; [exact Hle|]. eapply Forall_impl; [exact Hp|]. intros job. rewrite Forall_app. tauto. }
  exists w2, s2. split_and!; [exact Hs2| |].
  - intros [|j] job Hj; cbn in Hj.
    + injection Hj as <-. rewrite Nat.add_0_r. destruct Ha1 as (r & elapsed & Hr & Hc). exists r, elapsed.
      split; [exact Hr|]. rewrite <- Hc. apply Hold2. lia.
    + rewrite <- Nat.add_succ_comm. by apply Ha2.
  - intros i Hi. rewrite Hold2 by lia. by apply Hold1.
Qed.

(** The first call, which starts the worker. *)
Lemma first_starts sys address at' hello rest c :
  lc_spawner lc = None -> lc_protocol_version lc = WORKER_PROTOCOL_VERSION ->
  sw_bind sys = Ok tt -> sw_local_addr sys = Ok address ->
  sw_process sys (spawn_spec lc address (sw_token sys)) = Ok 0%nat ->
  sw_accept sys = Some (at', Ok (hello :: rest)) -> (at' <= lc_handshake_timeout lc)%N ->
  ar_what hello = DLine (hello_of (Some (sw_token sys))) -> in_time (Some (lc_handshake_timeout lc)) hello ->
  let t := N.max (N.max 0 at') (ar_at hello) in
  let w := MkWorker 0 (lc_language lc) "" rest 0 t in
  reachable_pool lc settings version
    (moved 0 c (Running 0 0 (request_of 0 c) w) (within 1 0 [] 1)
       (MkState (LangPool_start lc settings version) ∅ 0 [] []) 1 [0%nat] []).
Proof.
  intros Hspawner Hversion Hbind Haddr Hproc Haccept Hat Hh Hhello t w.
  set (s0 := MkState (LangPool_start lc settings version) ∅ 0 [] []).
  assert (reachable_pool lc settings version s0) as Hs0 by (by apply reachable_init).
  pose proof (entered 0 c 0 [] 0 s0 Hs0 (lookup_empty _) eq_refl eq_refl) as He.
  assert (reachable_pool lc settings version (moved 0 c (Spawning 0 0 (request_of 0 c)) (within 1 0 [] 1) s0 0 [] []))
    as H1.
  { eapply move_on; [exact He|apply (StartSpawn 0 c _ 0 0 _ 0 (fun _ => false))|done]. done. }
  eapply move_on; [exact H1|eapply (SpawnDone 0 c _ 0 0 _ sys 0)|done].
  - eapply (spawn_greeted Hlaws sys lc address 0 at' 0 hello rest); try done.
  - done.
Qed.

End Serves.

(** ** The property *)

(** C7. A pool serves calls with a warm worker. Calls that are made one after the other of
    a pool with room, whose worker runs [serve_on] at the other end of a prompt socket, can
    each be carried through to the answer that its code directs, with the id the pool gave
    it; one process is started, at the first call, and is used again for every other within
    the recycling budget, through noise and replies to other jobs; and afterwards the worker
    is idle and every permit is back. *)
Theorem one_process_serves_them_all `{Hpool : PoolJson} `{Hpipe : ReplyPipe} `{Hside : WorkerSideJson}
    (lc : Launch) (settings : PoolSettings) (version : string) (sys : spawn_world) (address : string) (at' : N)
    (job : call * Directive) (jobs : list (call * Directive)) (arrivals rest : list arrival) :
  ProtocolLaws Hpool Hside -> (forall out bytes, taken out bytes = None) ->
  (1 <= wrapping_add (effective_max_workers settings) (effective_max_queue_depth settings))%N ->
  (N.of_nat (length (job :: jobs)) < u64_modulus)%N -> kept settings (length (job :: jobs)) ->
  Forall (fun job => cl_code (fst job) = code (snd job) /\ stays (snd job) = true) (job :: jobs) ->
  lc_spawner lc = None -> lc_protocol_version lc = WORKER_PROTOCOL_VERSION ->
  sw_bind sys = Ok tt -> sw_local_addr sys = Ok address ->
  sw_process sys (spawn_spec lc address (sw_token sys)) = Ok 0%nat ->
  let '(_, child) := serve_on (map Ok (request_lines (jobs_from 0 (job :: jobs)))) (Some (sw_token sys)) fresh in
  sw_accept sys = Some (at', Ok (arrivals ++ rest)) -> (at' <= lc_handshake_timeout lc)%N ->
  map ar_what arrivals = map DLine (lines_of (ch_replies child)) ->
  Forall (in_time (Some (lc_handshake_timeout lc))) arrivals -> prompt 0 arrivals (job :: jobs) ->
  exists w s, reachable_pool lc settings version s
    /\ (forall k job', (job :: jobs) !! k = Some job' -> answered_as lc settings version s k job')
    /\ st_processes s = 1%nat /\ lp_worker_spawns (st_pool s) = 1%N /\ lp_idle (st_pool s) = [w]
    /\ st_submitted s = rev (seq 0 (length (job :: jobs))) /\ st_delivered s = st_submitted s
    /\ lp_permits (st_pool s) = effective_max_workers settings /\ lp_inflight (st_pool s) = 0%N.
Proof.
  intros Hlaws Hopen Hcap Hlen Hkept Hjobs Hspawner Hversion Hbind Haddr Hproc.
  apply Forall_and in Hjobs as [Hcode Hst].
  edestruct (serve_on_spec Hlaws Hopen (jobs_from 0 (job :: jobs)) (Some (sw_token sys))) as (child & -> & Hreplies).
  { by apply jobs_direct. }
  intros Haccept Hat Hm Ht Hp. destruct (hello_spec Hlaws (Some (sw_token sys))) as (_ & Hline & _).
  rewrite Hreplies, lines_of_text in Hm by (constructor; [exact Hline|by apply frames_one_line]).
  destruct arrivals as [|hello arrivals]; [done|]. cbn [map] in Hm. injection Hm as Hh Hm.
  apply Forall_cons in Ht as [Hhello Ht]. destruct job as [c d].
  pose proof (first_starts Hlaws lc settings version Hcap sys address at' hello (arrivals ++ rest) c
    Hspawner Hversion Hbind Haddr Hproc Haccept Hat Hh Hhello) as Hstart. cbv zeta in Hstart.
  apply Forall_cons in Hst as [Hd Hst]. cbn [snd] in Hd.
  cbn [jobs_from frames_served jq_id request_of] in Hm. rewrite Hd, map_app in Hm.
  apply map_eq_app in Hm as (mine & others & -> & Hmine & Hothers). rewrite <- app_assoc in Hstart.
  apply (Forall_impl _ (fun j => Forall (in_time (hard_deadline_of (hard_deadline (fst j)) 0)) (mine ++ others))) in Hp;
    [|by intros j [_ Hj]%Forall_cons].
  apply Forall_cons in Hp as [Hmine_t Hp]. apply Forall_app in Hmine_t as [Hmine_t _].
  set (w0 := MkWorker 0 (lc_language lc) "" (mine ++ others ++ rest) 0 _) in Hstart.
  destruct (settles Hlaws lc settings version Hcap c 0 d w0 0 mine (others ++ rest)
    (MkState (LangPool_start lc settings version) ∅ 0 [] [])) as (w1 & s1 & Hs1 & Hw1 & Hle & Ha1 & _).
  - exact Hstart.
  - done.
  - unfold kept in *. cbn [length] in Hkept. lia.
  - done.
  - exact Hd.
  - intros i _. apply lookup_empty.
  - done.
  - exact Hmine.
  - exact Hmine_t.
  - destruct (rest_served Hlaws lc settings version Hcap jobs 1 w1 others rest s1 Hs1 Hlen Hkept Hst Hw1 Hothers)
      as (w & s & Hs & Ha & Hold).
    { eapply prompt_later; [exact (N.le_0_l _)|]. eapply Forall_impl; [exact Hp|]. intros j. rewrite Forall_app. tauto. }
    exists w, s. destruct Hs as [Hreach Hpool' _ Hprocs Hsub Hdel _]. rewrite Hpool', Hsub, Hdel.
    split_and!; try done. intros [|k] job' Hk; cbn in Hk.
    + injection Hk as <-. destruct Ha1 as (r & elapsed & Hr & Hc). exists r, elapsed.
      split; [exact Hr|]. rewrite <- Hc. apply Hold. lia.
    + by apply Ha.
Qed.

(** ** Three calls *)

Section Samples.
#[local] Existing Instances object_json object_side_json.
#[local] Instance whole_writes : ReplyPipe := {| taken _ _ := None |}.

Let lc := MkLaunch Language_nodejs (Path_new "/t/deps/tests") [] [] 1 20000 None.
Let settings := MkPoolSettings true 2 300 100 4.
Let ask (d : Directive) (timeout : option N) : call * Directive := (MkCall (code d) None timeout, d).
Let first := ask (Echo "a") (Some 50%N).
Let others := [ask (Misaddressed "b") None; ask (Fails "c") (Some 60%N)].
Let served := serve_on (map Ok (request_lines (jobs_from 0 (first :: others)))) (Some "secret") fresh.
Let arrivals := map (fun line => MkArrival 5 (DLine line)) (lines_of (ch_replies (snd served))).
Let sys := MkSpawnWorld (Ok tt) (Ok "127.0.0.1:9") "secret" (fun _ => Ok 0%nat)
             (Some (5%N, Ok (arrivals ++ [MkArrival 30 DClosed]))).

Lemma one_process_serves_them_all_witness :
  exists w s, reachable_pool lc settings "22" s
    /\ (forall k job', (first :: others) !! k = Some job' -> answered_as lc settings "22" s k job')
    /\ st_processes s = 1%nat /\ lp_idle (st_pool s) = [w].
Proof.
  pose proof (one_process_serves_them_all lc settings "22" sys "127.0.0.1:9" 5 first others arrivals
    [MkArrival 30 DClosed]) as H.
  change (sw_token sys) with "secret" in H. fold served in H. rewrite (surjective_pairing served) in H.
  destruct H as (w & s & Hs & Ha & Hproc & _ & Hidle & _).
  - exact object_laws.
  - done.
  - done.
  - done.
  - by right.
  - by repeat constructor.
  - done.
  - done.
  - done.
  - done.
  - done.
  - done.
  - done.
  - unfold arrivals. rewrite map_map. by apply map_ext.
  - apply Forall_map, Forall_true. intros line ? [= <-]. done.
  - repeat (apply Forall_cons; split; [apply Forall_map, Forall_true; intros line ? [= <-]; done|]). done.
  - exists w, s. exact (conj Hs (conj Ha (conj Hproc Hidle))).
Defined.

End Samples.
