(* ===== verification/PoolSpec.v ===== *)
(** * What a pool promises its callers

    An abstract bounded executor: so many jobs at work, so many inside, each sent to a
    worker once or not at all; and the refinement: every step of [LangPool] is some steps
    of that executor, or none. It has no counter, no semaphore and no workers, so what the
    code does with those is what is left to prove. *)

From stdpp Require Import fin_maps.
From S2P Require Import Prelude RustStd Identity Vocabulary Errors PoolWorker LangPool.

Open Scope rust_scope.

(** ** The abstract machine *)

(** [sent] is whether a worker was sent the whole job. *)
Inductive job_stage :=
| Asked
| TurnedAway
| Waiting
| AtWork (sent : bool)
| Done (sent : bool) (e : ending)      (* its place at work is still taken *)
| Left (sent : bool) (e : ending)      (* its room is still taken *)
| Gone (sent : bool) (e : ending).

Definition at_work (st : job_stage) : bool :=
  match st with AtWork _ | Done _ _ => true | _ => false end.
Definition inside (st : job_stage) : bool :=
  match st with Asked | Gone _ _ => false | _ => true end.
Definition let_in (st : job_stage) : bool :=
  match st with Asked | TurnedAway | Gone _ _ => false | _ => true end.

(** What a job may end with. Only a job that was not sent is offered for another try,
    and only one that was sent is answered. *)
Inductive concludes : bool -> ending -> Prop :=
| WasDropped sent : concludes sent Dropped
| WasAnswered r : (forall e, r = Err e -> is_retryable e = false) -> concludes true (Returned r)
| WasNotSent e : is_retryable e = true -> concludes false (Returned (Err e)).

(** [workers] may be at work at once, and [room] is how many may be inside. *)
Inductive exec_step (workers room : N) (x : gmap nat job_stage) : gmap nat job_stage -> Prop :=
| Ask i : x !! i = None -> exec_step workers room x (<[i := Asked]> x)
| Admit i :
    x !! i = Some Asked -> (N.of_nat (count_of inside x) < room)%N ->
    exec_step workers room x (<[i := Waiting]> x)
| Refuse i :
    x !! i = Some Asked -> (room <= N.of_nat (count_of inside x))%N ->
    exec_step workers room x (<[i := TurnedAway]> x)
| Tell i lang :
    x !! i = Some TurnedAway ->
    exec_step workers room x (<[i := Gone false (Returned (Err (PoolSaturated lang)))]> x)
| Begin i :
    x !! i = Some Waiting -> (N.of_nat (count_of at_work x) < workers)%N ->
    exec_step workers room x (<[i := AtWork false]> x)
| Send i : x !! i = Some (AtWork false) -> exec_step workers room x (<[i := AtWork true]> x)
| Conclude i sent e :
    x !! i = Some (AtWork sent) -> concludes sent e -> exec_step workers room x (<[i := Done sent e]> x)
| GiveUp i : x !! i = Some Waiting -> exec_step workers room x (<[i := Left false Dropped]> x)
| MakeWay i sent e : x !! i = Some (Done sent e) -> exec_step workers room x (<[i := Left sent e]> x)
| GoAway i sent e : x !! i = Some (Left sent e) -> exec_step workers room x (<[i := Gone sent e]> x).

(** ** What it promises *)

Section Promises.
Context (workers room : N).

Record exec_inv (x : gmap nat job_stage) : Prop := {
  ex_workers : (N.of_nat (count_of at_work x) <= workers)%N;
  ex_room : (N.of_nat (count_of let_in x) <= room)%N;
  ex_ended i sent e :
    x !! i = Some (Done sent e) \/ x !! i = Some (Left sent e) \/ x !! i = Some (Gone sent e) -> concludes sent e
}.

(** The stage of one job changes. *)
Lemma exec_inv_move x i st :
  exec_inv x ->
  (N.of_nat (count_of at_work (<[i := st]> x)) <= workers)%N ->
  (N.of_nat (count_of let_in (<[i := st]> x)) <= room)%N ->
  (forall sent e, st = Done sent e \/ st = Left sent e \/ st = Gone sent e -> concludes sent e) ->
  exec_inv (<[i := st]> x).
Proof.
  intros [Hw Hr He] Hw' Hr' Hst. constructor; [done|done|]. intros j sent e.
  destruct (decide (i = j)) as [<-|Hne]; [rewrite lookup_insert_eq|rewrite lookup_insert_ne by done; apply He].
  intros H. apply Hst. by destruct H as [[= ->]|[[= ->]|[= ->]]]; auto.
Qed.

Lemma exec_step_inv x y : exec_inv x -> exec_step workers room x y -> exec_inv y.
Proof.
  intros Hx Hstep. pose proof Hx as [Hw Hr He].
  assert (count_of let_in x <= count_of inside x)%nat as Hle by (by apply count_le; intros []).
  destruct Hstep as [i Hi|i Hi Hroom|i Hi Hroom|i lang Hi|i Hi Hroom|i Hi|i sent e Hi Hc|i Hi|i sent e Hi|i sent e Hi].
  1: { apply exec_inv_move; [done|rewrite count_new by done; cbn; lia|rewrite count_new by done; cbn; lia|].
       by intros sent e [?|[?|?]]. }
  all: pose proof (fun st => count_update at_work x i _ st Hi) as Cw; pose proof (fun st => count_update let_in x i _ st Hi) as Cr;
    apply exec_inv_move; [done| | |].
  all: try (match goal with |- (N.of_nat (count_of _ (<[_ := ?st]> _)) <= _)%N =>
        specialize (Cw st); specialize (Cr st); cbn in Cw, Cr; lia end).
  all: intros sent' e' [Heq|[Heq|Heq]]; try discriminate Heq.
  - injection Heq as <- <-. by constructor.
  - injection Heq as <- <-. exact Hc.
  - injection Heq as <- <-. constructor.
  - injection Heq as <- <-. eauto.
  - injection Heq as <- <-. eauto.
Qed.

Lemma exec_inv_empty : exec_inv ∅.
Proof.
  constructor; [rewrite count_zero; [lia|done]|rewrite count_zero; [lia|done]|]. intros i sent e. rewrite lookup_empty.
  by intros [?|[?|?]].
Qed.

End Promises.

(** ** The pool, seen as the executor *)

Definition stage_of (sent : bool) (ph : phase) : job_stage :=
  match ph with
  | Entering => Asked
  | Shedding => TurnedAway
  | Queued => Waiting
  | Holding _ | Ready _ _ _ | Spawning _ _ _ | Running _ _ _ _ | Parking _ _ _ _ => AtWork sent
  | Releasing e => Done sent e
  | Leaving e => Left sent e
  | Finished e => Gone sent e
  end.

Definition is_sent (s : state) (i : nat) : bool := bool_decide (i ∈ st_delivered s).

Definition view (s : state) : gmap nat job_stage :=
  map_imap (fun i '(_, ph) => Some (stage_of (is_sent s i) ph)) (st_calls s).

Lemma lookup_view s i : view s !! i = (fun x => stage_of (is_sent s i) x.2) <$> st_calls s !! i.
Proof. unfold view. rewrite map_lookup_imap. by destruct (st_calls s !! i) as [[c ph]|]. Qed.

Lemma view_work s : count_of at_work (view s) = tally holding (st_calls s).
Proof. apply count_same. intros i. rewrite lookup_view. by destruct (st_calls s !! i) as [[c []]|]. Qed.

Lemma view_inside s : count_of inside (view s) = tally counted (st_calls s).
Proof. apply count_same. intros i. rewrite lookup_view. by destruct (st_calls s !! i) as [[c []]|]. Qed.

(** One call moves, and may have been sent. *)
Lemma view_move s i c ph p n sub del :
  (forall j, j <> i -> j ∈ del <-> j ∈ st_delivered s) ->
  view (MkState p (<[i := (c, ph)]> (st_calls s)) n sub del) = <[i := stage_of (bool_decide (i ∈ del)) ph]> (view s).
Proof.
  intros Hdel. apply map_eq. intros j. rewrite lookup_view. cbn. destruct (decide (i = j)) as [<-|Hne].
  - by rewrite !lookup_insert_eq.
  - rewrite !lookup_insert_ne, lookup_view by done. unfold is_sent. cbn.
    destruct (st_calls s !! j); cbn; [|done]. do 2 f_equal. apply bool_decide_ext, Hdel. congruence.
Qed.

(** ... and was not. *)
Lemma view_quiet s i c ph p n sub :
  view (MkState p (<[i := (c, ph)]> (st_calls s)) n sub (st_delivered s)) = <[i := stage_of (is_sent s i) ph]> (view s).
Proof. by apply view_move. Qed.

(** ... and was. *)
Lemma view_sent s i c ph p n sub :
  view (MkState p (<[i := (c, ph)]> (st_calls s)) n sub (i :: st_delivered s)) = <[i := stage_of true ph]> (view s).
Proof.
  rewrite view_move.
  - by rewrite bool_decide_true by (by left).
  - intros j Hj. rewrite elem_of_cons. intuition congruence.
Qed.

Section Refines.
Context `{Hjson : PoolJson} (launch : Launch) (settings : PoolSettings) (version : string).

Let workers : N := effective_max_workers settings.
Let room : N := (effective_max_workers settings + effective_max_queue_depth settings)%N.

Context (Hfits : (room <= usize_max)%N).

(** The environment's part of an outcome. *)
Lemma spawn_concludes p reason : concludes false (Returned (Err (spawn_error p reason))).
Proof. by apply WasNotSent. Qed.

Lemma answer_concludes p resp elapsed queue_wait : concludes true (Returned (conclude p resp elapsed queue_wait)).
Proof. apply WasAnswered. unfold conclude. destruct (jr_error resp); by intros e [= <-]. Qed.

Lemma failure_concludes sys request budget now w failure w' t p :
  submit sys request budget now w = Returns (Err failure, w') t ->
  concludes (frame_written sys request) (Returned (Err (dispatch_error p failure))).
Proof.
  intros Htag%submit_tag. unfold dispatch_error. rewrite Htag. destruct (frame_written sys request).
  - apply WasAnswered. by intros e [= <-].
  - by apply WasNotSent.
Qed.

Lemma running_unsent s i c queue_wait started r w :
  jobs_inv s -> st_calls s !! i = Some (c, Running queue_wait started r w) -> is_sent s i = false.
Proof. intros Hj Hi. apply bool_decide_false. by destruct (inv_running _ Hj _ _ _ _ _ _ Hi). Qed.

(** A job at work that is first sent and then ends. *)
Lemma send_and_conclude x i e :
  x !! i = Some (AtWork false) -> concludes true e -> rtc (exec_step workers room) x (<[i := Done true e]> x).
Proof.
  intros Hi He. eapply rtc_l; [by apply Send|]. rewrite <- (insert_insert_eq x i (Done true e) (AtWork true)).
  apply rtc_once. eapply Conclude; [apply lookup_insert_eq|done].
Qed.

Lemma call_step_refines s i c ph t :
  pool_inv s -> jobs_inv s -> countable s -> lp_settings (st_pool s) = settings ->
  countable t -> st_calls s !! i = Some (c, ph) -> call_step i c s ph t ->
  rtc (exec_step workers room) (view s) (view t).
Proof.
  intros [Hin Hp Ha _] Hj Hc Hset Hct Hi Hstep.
  pose proof (lookup_view s i) as Hv. rewrite Hi in Hv. cbn [fmap option_fmap option_map snd] in Hv.
  assert (past_submission ph = false -> is_sent s i = false) as Hunsent.
  { intros Hph. apply bool_decide_false. by apply (not_submitted_before s i c ph). }
  rewrite Hset in Hp. pose proof (view_inside s) as Hinside. pose proof (view_work s) as Hwork.
  assert (capacity (st_pool s) = room) as Hcap.
  { unfold capacity. rewrite Hset. by apply wrapping_add_small. }
  destruct Hstep as
    [p over E| |q p E|q st r p E|q st r now ex w p E|q st r now ex p E|q st r sys now w ev t E Hw'
    |q st r sys now reason ev t E|q st r w sys now resp w' t E|q st r w sys now f w' t E
    |q el resp w|e|e].
  all: unfold advance; cbn [stage_of] in Hv; try rewrite (Hunsent eq_refl) in Hv.
  - rewrite view_quiet, (Hunsent eq_refl). apply rtc_once.
    unfold count_in in E. injection E as <- <-. rewrite Hcap, Hin, wrapping_count.
    2:{ apply counted_bound in Hct. cbn in Hct. rewrite Hin in Hct.
        pose proof (tally_update counted (st_calls s) i c Entering c Queued Hi) as Hup.
        pose proof (tally_update counted (st_calls s) i c Entering c Shedding Hi) as Hup'. cbn in Hup, Hup'.
        destruct (_ <? _)%N in Hct; lia. }
    destruct (N.ltb_spec room (N.of_nat (S (tally counted (st_calls s))))).
    + apply Refuse; [done|lia].
    + apply Admit; [done|lia].
  - rewrite view_quiet, (Hunsent eq_refl). apply rtc_once. by apply Tell.
  - rewrite view_quiet, (Hunsent eq_refl). apply rtc_once. apply Begin; [done|].
    unfold acquire in E. destruct (N.ltb_spec 0 (lp_permits (st_pool s))); [|done]. lia.
  - by rewrite view_quiet, (Hunsent eq_refl), insert_id.
  - rewrite view_quiet, (Hunsent eq_refl), insert_id; [done|exact Hv].
  - by rewrite view_quiet, (Hunsent eq_refl), insert_id.
  - rewrite view_quiet, (Hunsent eq_refl), insert_id; [done|exact Hv].
  - rewrite view_quiet, (Hunsent eq_refl). apply rtc_once. eapply Conclude; [exact Hv|apply spawn_concludes].
  - pose proof (running_unsent _ _ _ _ _ _ _ Hj Hi) as Hnot. rewrite Hnot in Hv. rewrite view_sent. by apply rtc_once, Send.
  - pose proof (running_unsent _ _ _ _ _ _ _ Hj Hi) as Hnot. rewrite Hnot in Hv. pose proof (failure_concludes _ _ _ _ _ _ _ _ (st_pool s) E) as Hend.
    destruct (frame_written sys r).
    + rewrite view_sent. by apply send_and_conclude.
    + rewrite view_quiet, Hnot. apply rtc_once. by eapply Conclude.
  - assert (is_sent s i = true) as Hyes by (apply bool_decide_true; by eapply inv_parking).
    rewrite Hyes in Hv. rewrite view_quiet, Hyes. apply rtc_once.
    eapply Conclude; [exact Hv|apply answer_concludes].
  - rewrite view_quiet. by apply rtc_once, MakeWay.
  - rewrite view_quiet. by apply rtc_once, GoAway.
Qed.

Lemma cancel_refines s i c ph ph' n sub :
  jobs_inv s -> st_calls s !! i = Some (c, ph) -> cancelled ph = Some ph' ->
  rtc (exec_step workers room) (view s)
    (view (MkState (st_pool s) (<[i := (c, ph')]> (st_calls s)) n sub
             (match ph with Running _ _ _ _ => i :: st_delivered s | _ => st_delivered s end))).
Proof.
  intros Hj Hi Hph. pose proof (lookup_view s i) as Hv. rewrite Hi in Hv. cbn [fmap option_fmap option_map snd] in Hv.
  assert (past_submission ph = false -> is_sent s i = false) as Hunsent.
  { intros Hpast. apply bool_decide_false. by apply (not_submitted_before s i c ph). }
  destruct ph; try discriminate Hph; injection Hph as <-; cbn [stage_of] in Hv.
  - rewrite view_quiet, (Hunsent eq_refl). by apply rtc_once, GiveUp.
  - rewrite view_quiet. eapply rtc_once, Conclude; [exact Hv|constructor].
  - rewrite view_quiet. eapply rtc_once, Conclude; [exact Hv|constructor].
  - pose proof (running_unsent _ _ _ _ _ _ _ Hj Hi) as Hnot. rewrite Hnot in Hv. rewrite view_sent.
    apply send_and_conclude; [done|constructor].
  - rewrite view_quiet. eapply rtc_once, Conclude; [exact Hv|constructor].
Qed.

Lemma step_refines s t :
  reachable_pool launch settings version s -> countable t -> step s t ->
  rtc (exec_step workers room) (view s) (view t).
Proof.
  intros Hs Ht Hstep. pose proof (step_countable _ _ Hstep Ht) as Hc.
  pose proof (reachable_jobs _ _ _ _ Hs) as Hj.
  destruct Hstep as [i c Hi|i c ph t Hi Hstep|i c ph ph' Hi Hph|now].
  - assert (is_sent s i = false) as Hnot.
    { apply bool_decide_false. intros Hin%(inv_delivered_submitted _ Hj).
      destruct (inv_submitted_phase _ Hj _ Hin) as (c' & ph & Hi' & _). congruence. }
    unfold advance. rewrite view_quiet. apply rtc_once, Ask. by rewrite lookup_view, Hi.
  - eapply call_step_refines; try done; [by eapply reachable_counts|by eapply reachable_settings].
  - by apply cancel_refines.
  - done.
Qed.

Lemma run_refines s : reachable_pool launch settings version s -> countable s -> rtc (exec_step workers room) ∅ (view s).
Proof.
  intros Hs. induction Hs as [s ->|s t Hs IH Hstep]; intros Hc; [done|].
  eapply rtc_trans; [apply IH; by eapply step_countable|by apply step_refines].
Qed.

End Refines.

(** ** The property *)

(** C3. A pool is a bounded executor. Whatever the calls, the workers, the reaper and the
    operating system do, every step of a pool is a sequence of steps, perhaps empty, of a
    machine that has neither counters nor permits nor workers: it lets a job in only if
    fewer than workers and queue together are inside and refuses one only if they are; it
    begins one only if fewer than the workers are at work; it sends a job once or never,
    answers only a job it sent, and offers for another try only one it did not. A pool's
    whole history is therefore one of that machine, and what the machine keeps, the pool
    keeps. *)
Theorem pool_refines_executor `{PoolJson} (launch : Launch) (settings : PoolSettings) (version : string) (s : state) :
  let workers := effective_max_workers settings in
  let room := (effective_max_workers settings + effective_max_queue_depth settings)%N in
  (room <= usize_max)%N -> reachable_pool launch settings version s -> countable s ->
  rtc (exec_step workers room) ∅ (view s)
  /\ (forall t, step s t -> countable t -> rtc (exec_step workers room) (view s) (view t))
  /\ exec_inv workers room (view s).
Proof.
  intros workers room Hfits Hs Hc. pose proof (run_refines launch settings version Hfits s Hs Hc) as Hrun.
  split_and!; [exact Hrun|intros t Hstep Ht; by eapply step_refines|].
  remember ∅ as x eqn:Hx. assert (exec_inv workers room x) as Hinv by (rewrite Hx; apply exec_inv_empty).
  clear Hx. induction Hrun as [x|x y z Hxy _ IH]; [exact Hinv|]. apply IH. by eapply exec_step_inv.
Qed.

(** ** A full pool *)

Section Samples.
Let launch := MkLaunch Language_nodejs (Path_new "/n/bin/node") ["w.js"] [] 1 1000 None.
Let one := MkPoolSettings true 1 0 0 0.
Let job := MkCall "1+1" None (Some 5%N).

(** One call is at work and a second is turned away, and then the first is dropped. *)
Let pool0 := LangPool_start launch one "22".
Let s0 := MkState pool0 ∅ 0 [] [].
Let s1 := advance 0 job Entering pool0 s0.
Let s2 := advance 0 job Queued (set_inflight 1 pool0) s1.
Let s3 := advance 0 job (Holding 3) (set_permits 0 (set_inflight 1 pool0)) s2.
Let s4 := advance 0 job (Ready 3 3 (MkJobRequest "0" "1+1" None (Some 5%N))) (set_next_job 1 (st_pool s3)) s3.
Let s5 := advance 1 job Entering (st_pool s4) s4.
Let s6 := advance 1 job Shedding (set_inflight 2 (st_pool s4)) s5.
Let s7 := MkState (st_pool s6) (<[0%nat := (job, Releasing Dropped)]> (st_calls s6)) 1 [] [].

Let reachable_s6 : @reachable_pool sample_json launch one "22" s6.
Proof.
  apply reachable_step with s5; [apply reachable_step with s4; [apply reachable_step with s3;
    [apply reachable_step with s2; [apply reachable_step with s1; [apply reachable_step with s0;
    [by apply reachable_init|]|]|]|]|]|].
  - by apply (NewCall s0 0 job).
  - eapply Advance; [by apply lookup_insert_eq|]. by apply (CountIn 0 job s1 _ false).
  - eapply Advance; [by apply lookup_insert_eq|]. by apply (Acquire 0 job s2 3%N).
  - eapply Advance; [by apply lookup_insert_eq|]. by apply (Build 0 job s3 3%N 3%N).
  - by apply (NewCall s4 1 job).
  - eapply Advance; [by apply lookup_insert_eq|]. by apply (CountIn 1 job s5 _ true).
Qed.

Let countable_s6 : countable s6.
Proof. vm_compute. reflexivity. Qed.
Let countable_s7 : countable s7.
Proof. vm_compute. reflexivity. Qed.

Lemma pool_refines_executor_witness :
  rtc (exec_step 1 1) ∅ (view s6) /\ rtc (exec_step 1 1) (view s6) (view s7) /\ exec_inv 1 1 (view s6).
Proof.
  assert (@step sample_json s6 s7) as Hstep.
  { exact (Cancel s6 0 job (Ready 3 3 (MkJobRequest "0" "1+1" None (Some 5%N))) (Releasing Dropped) eq_refl eq_refl). }
  destruct (@pool_refines_executor sample_json launch one "22" s6) as (Hrun & Hnext & Hinv).
  - vm_compute. discriminate.
  - exact reachable_s6.
  - exact countable_s6.
  - split; [exact Hrun|]. split; [|exact Hinv]. exact (Hnext s7 Hstep countable_s7).
Defined.

Example a_full_pool_seen :
  view s6 !! 0%nat = Some (AtWork false) /\ view s6 !! 1%nat = Some TurnedAway
  /\ view s7 !! 0%nat = Some (Done false Dropped) /\ count_of at_work (view s7) = 1%nat.
Proof. vm_compute. by split_and!. Qed.

End Samples.
