(* ===== verification/WorkerTypes.v ===== *)
(** * Persistent worker payloads: [tinyruntime-bus/src/worker] *)

From S2P Require Import Prelude RustStd Identity Vocabulary.

(** [serde_json::Value]: a JSON document, compared and printed by the crate. *)
Class JsonValue := {
  Value : Type;
  Value_eq_dec :: EqDecision Value
}.

(** ** [worker/types.rs] *)

Record WorkerHandle := MkWorkerHandle { handle_id : string }.

#[global] Instance WorkerHandle_eq_dec : EqDecision WorkerHandle.
Proof. solve_decision. Defined.
#[global] Program Instance WorkerHandle_countable : Countable WorkerHandle :=
  inj_countable' handle_id MkWorkerHandle _.
Next Obligation. by intros []. Qed.

Record WorkerPlan := MkWorkerPlan {
  wp_source : string;
  wp_command : WorkerCommand;
  wp_preparation : list WorkerCommand;
  wp_backends : list string;
  wp_startup_timeout_ms : N;
  wp_request_timeout_ms : N;
  wp_idle_backend : option string;
  wp_idle_timeout_ms : N
}.

#[global] Instance WorkerPlan_eq_dec : EqDecision WorkerPlan.
Proof. solve_decision. Defined.

Record WorkerPrepare := MkWorkerPrepare { wpr_handle : WorkerHandle; wpr_plan : WorkerPlan }.

Inductive WorkerOutcomeKind :=
| Complete | Response | Closed | Busy | Invalid | UnknownHandle | Expired | Failed.

#[global] Instance WorkerOutcomeKind_eq_dec : EqDecision WorkerOutcomeKind.
Proof. solve_decision. Defined.

Inductive WorkerPhase := Reserved | Preparing | Prepared | Starting | RunningPhase | FailedPhase | ClosedPhase.

#[global] Instance WorkerPhase_eq_dec : EqDecision WorkerPhase.
Proof. solve_decision. Defined.

(** ** [worker/status.rs] *)

Record BackendStatus := MkBackendStatus {
  bs_id : string; bs_enabled : bool; bs_ready : bool; bs_message : option string
}.

Record ServerStatus := MkServerStatus {
  sst_enabled : bool; sst_running : bool; sst_backends : list BackendStatus;
  sst_message : option string
}.

Definition ServerStatus_disabled (message : string) : ServerStatus :=
  MkServerStatus false false [] (Some message).

Record WorkerStatus := MkWorkerStatus { wst_phase : WorkerPhase; wst_server : ServerStatus }.

(** ** [worker/protocol.rs] *)

Definition PROTOCOL_VERSION : N := 1.

Record ReadyLine := MkReadyLine {
  rl_ready : bool; rl_protocol : option N; rl_backends : list string; rl_error : option string
}.

Record ServerError := MkServerError { se_code : string; se_message : string }.

Section Messages.
Context `{JsonValue}.

Record WorkerRequest := MkWorkerRequest {
  wr_handle : WorkerHandle;
  wr_operation : N;
  wr_method : string;
  wr_params : Value
}.

Record ServerRequest := MkServerRequest { sr_id : string; sr_method : string; sr_params : Value }.

Record ServerResponse := MkServerResponse {
  sp_id : option string; sp_ok : bool; sp_result : option Value; sp_error : option ServerError
}.

Record WorkerOutcome := MkWorkerOutcome {
  wo_kind : WorkerOutcomeKind; wo_response : option ServerResponse; wo_reason : option string
}.

End Messages.

(** ** [worker/cache.rs] *)

Record WorkerCacheScope := MkWorkerCacheScope { cs_id : string; cs_root : string }.

(** [bytes] is a byte vector: a byte string here. *)
Record CacheArtifact := MkCacheArtifact { ca_path : string; ca_bytes : string }.

#[global] Instance CacheArtifact_eq_dec : EqDecision CacheArtifact.
Proof. solve_decision. Defined.

Inductive CacheEntryKind := FileEntry | DirectoryEntry | AnyEntry.

#[global] Instance CacheEntryKind_eq_dec : EqDecision CacheEntryKind.
Proof. solve_decision. Defined.

Record CacheEntry := MkCacheEntry { ce_path : string; ce_kind : CacheEntryKind }.

#[global] Instance CacheEntry_eq_dec : EqDecision CacheEntry.
Proof. solve_decision. Defined.

Inductive CacheAdoptionPolicy := Strict | AdoptVerifiedLegacy.

#[global] Instance CacheAdoptionPolicy_eq_dec : EqDecision CacheAdoptionPolicy.
Proof. solve_decision. Defined.

Record CacheRecipe := MkCacheRecipe {
  cr_scope : string;
  cr_artifacts : list CacheArtifact;
  cr_steps : list WorkerCommand;
  cr_required : list CacheEntry;
  cr_marker : CacheArtifact;
  cr_adoption : CacheAdoptionPolicy;
  cr_timeout_ms : N
}.

#[global] Instance CacheRecipe_eq_dec : EqDecision CacheRecipe.
Proof. solve_decision. Defined.

Record WorkerPrepareCached := MkWorkerPrepareCached {
  wpc_handle : WorkerHandle; wpc_plan : WorkerPlan; wpc_recipe : CacheRecipe
}.
