(* ===== verification/Engine.v ===== *)
(** * The engine, the pool set, the module's configuration and its bus adapter

    [exec/mod.rs], [pool/mod.rs], [config/mod.rs], [tinybus_module/mod.rs]. *)

From stdpp Require Import sorting.
From S2P Require Import Prelude RustStd Identity Vocabulary Errors World FsFacts.
From S2P Require Import Store Download Archive Provider Resolve PoolWorker LangPool WorkerTypes.

Open Scope rust_scope.

(** ** The live pools: [pool/mod.rs] *)

(** A pool is referred to by the number it was started under ([Arc<LangPool>]). *)
Record Entry := MkEntry { en_fingerprint : string; en_pool : nat }.

Record Pools := MkPools {
  live : gmap Language Entry;
  (** every pool ever started, with what it was started for *)
  started : list (Launch * PoolSettings * string)
}.

Definition Pools_new : Pools := MkPools ∅ [].

Section Pools.
Context `{RustDebug}.

Definition pool_fingerprint (launch : Launch) (settings : PoolSettings) : string :=
  fingerprint launch +:+ "|workers=" +:+ display_u64 (effective_max_workers settings)
  +:+ "|ttl=" +:+ display_u64 (ps_idle_ttl_secs settings)
  +:+ "|recycle=" +:+ display_u64 (ps_recycle_after_jobs settings)
  +:+ "|queue=" +:+ display_u64 (ps_max_queue_depth settings).

Definition ensure (launch : Launch) (settings : PoolSettings) (runtime_version : string)
    (self : Pools) : nat * Pools :=
  let fp := pool_fingerprint launch settings in
  let language := lc_language launch in
  let rebuild :=
    let pool := length (started self) in
    (pool, MkPools (<[language := MkEntry fp pool]> (live self))
             (started self ++ [(launch, settings, runtime_version)])) in
  match live self !! language with
  | Some entry => if String.eqb (en_fingerprint entry) fp then (en_pool entry, self) else rebuild
  | None => rebuild
  end.

End Pools.

Definition language_le (a b : Language) : Prop := String.le (as_str a) (as_str b).
#[global] Instance language_le_dec a b : Decision (language_le a b).
Proof. unfold language_le. apply _. Defined.

(** The counters of the live pools, in language order; [counters] reads one pool. *)
Definition Pools_stats (counters : nat -> PoolStats) (self : Pools) : list PoolStats :=
  map (fun entry => counters (en_pool entry.2))
    (merge_sort (fun a b => language_le a.1 b.1) (map_to_list (live self))).

(** ** The module's configuration: [config/mod.rs] *)

Record ProviderRoute := MkProviderRoute { prt_language : Language; prt_bus_name : string }.

Record ModuleConfig := MkModuleConfig {
  mc_providers : list ProviderRoute;
  mc_harness_dir : string;
  mc_worker_cache_scopes : list WorkerCacheScope
}.

Definition ModuleConfig_default : ModuleConfig := {|
  mc_providers := [MkProviderRoute Language_nodejs providers_NODEJS;
                   MkProviderRoute Language_python providers_PYTHON];
  mc_harness_dir := "";
  mc_worker_cache_scopes := []
|}.

(** The configuration document: [null], an object whose fields may each be absent,
    or something the decoder refuses. *)
Inductive document :=
| DNull
| DObject (providers : option (list ProviderRoute)) (harness_dir : option string)
    (worker_cache_scopes : option (list WorkerCacheScope))
| DRefused (error : string).

(** [Wire] fills each absent field from the defaults. *)
Definition Wire_of (providers : option (list ProviderRoute)) (harness_dir : option string)
    (scopes : option (list WorkerCacheScope)) : ModuleConfig := {|
  mc_providers := default (mc_providers ModuleConfig_default) providers;
  mc_harness_dir := default (mc_harness_dir ModuleConfig_default) harness_dir;
  mc_worker_cache_scopes := default (mc_worker_cache_scopes ModuleConfig_default) scopes
|}.

Definition ModuleConfig_deserialize (d : document) : result string ModuleConfig :=
  match d with
  | DNull => Ok ModuleConfig_default
  | DObject p h s => Ok (Wire_of p h s)
  | DRefused error => Err error
  end.

Definition harness_root `{Env} (config : ModuleConfig) : Path :=
  let configured := trim (mc_harness_dir config) in
  if negb (String.eqb configured "") then Path_new configured
  else path_join (path_join (default (Path_new ".") env_cache_dir) (Path_new "tinyruntime"))
         (Path_new "harnesses").

(** ** The engine: [exec/mod.rs] *)

Record Engine := MkEngine {
  eg_resolver : Resolver;
  eg_pools : Pools;
  eg_harness_root : Path;
  eg_spawner : option Spawner
}.

Definition Engine_new (registry : Registry) (harness_root : Path) : Engine :=
  MkEngine (Resolver_new registry) Pools_new harness_root None.

Definition Engine_with_spawner (spawner : Spawner) (self : Engine) : Engine :=
  MkEngine (eg_resolver self) (eg_pools self) (eg_harness_root self) (Some spawner).

Definition Engine_registry (self : Engine) : Registry := rv_registry (eg_resolver self).

Section Engine.
Context `{Env} `{Sha256} `{Unpackers} `{RustDebug}.

(** [vars] is this process's environment. *)
Context (vars : string -> option string).

Definition Engine_resolve (self : Engine) (request : ResolveRequest)
  : io World (result Error (option ResolvedRuntime) * Engine) :=
  answer <-- resolve (eg_resolver self) request ;;
  let '(r, resolver) := answer in
  io_ret (r, MkEngine resolver (eg_pools self) (eg_harness_root self) (eg_spawner self)).

Definition Engine_prepare_environment (self : Engine) (language : Language)
    (request : EnvironmentPreparationRequest)
  : io World (result Error (option EnvironmentPreparationPlan)) :=
  Registry_prepare_environment (Engine_registry self) language request.

Definition launch_for (self : Engine) (runtime : ResolvedRuntime) (language : Language)
  : io World (result Error Launch) :=
  match Registry_provider (Engine_registry self) language with
  | Err error => io_ret (Err error)
  | Ok provider =>
      h <-? harness provider ;;
      match runtime_executable (wh_executable h) runtime with
      | None => io_ret (Err (EmptyInstall language))
      | Some binary =>
          script <-? materialise (path_join (eg_harness_root self) (Path_new (as_str language))) h ;;
          io_ret (Ok {|
            lc_language := language;
            lc_binary := Path_new binary;
            lc_args := command_args (path_display script) h;
            lc_env := env_build vars (Path_new (rt_bin_dir runtime)) (wh_env h);
            lc_protocol_version := wh_protocol_version h;
            lc_handshake_timeout := DEFAULT_HANDSHAKE_TIMEOUT;
            lc_spawner := eg_spawner self
          |})
      end
  end.

(** [execute], up to the call of [LangPool::run]: the pool chosen and the job given
    to it, with the engine the other requests see. *)
Definition execute (self : Engine) (request : ExecRequest)
  : io World (result Error (nat * call) * Engine) :=
  resolved <-- require (eg_resolver self)
                 (ResolveRequest_new (er_language request) (er_settings request)) ;;
  let '(answer, resolver) := resolved in
  let self := MkEngine resolver (eg_pools self) (eg_harness_root self) (eg_spawner self) in
  match answer with
  | Err error => io_ret (Err error, self)
  | Ok runtime =>
      launched <-- launch_for self runtime (er_language request) ;;
      match launched with
      | Err error => io_ret (Err error, self)
      | Ok launch =>
          let '(pool, pools) := ensure launch (er_pool request) (rt_version runtime) (eg_pools self) in
          io_ret (Ok (pool, MkCall (er_code request) (er_cwd request) (er_timeout_ms request)),
                  MkEngine (eg_resolver self) pools (eg_harness_root self) (eg_spawner self))
      end
  end.

(** ** The bus adapter: [tinybus_module/mod.rs] *)

(** [tinybus::Error::failed] of the rendering. *)
Definition failed (error : Error) : string := Error_display error.

Definition service_languages (engine : Engine) : io World (result string LanguagesResponse) :=
  io_map (fun rows => Ok (MkLanguagesResponse rows)) (statuses (Engine_registry engine)).

Definition service_resolve (engine : Engine) (request : ResolveRequest)
  : io World (result string ResolveResponse * Engine) :=
  answer <-- Engine_resolve engine request ;;
  let '(r, engine) := answer in
  io_ret (match r with
          | Ok (Some runtime) => Ok (ResolveResponse_found runtime)
          | Ok None => Ok ResolveResponse_missing
          | Err error => Err (failed error)
          end, engine).

Definition service_execute (engine : Engine) (request : ExecRequest)
  : io World (result string (nat * call) * Engine) :=
  answer <-- execute engine request ;;
  let '(r, engine) := answer in io_ret (map_err failed r, engine).

Definition service_pool_stats (counters : nat -> PoolStats) (engine : Engine)
  : result string PoolStatsResponse :=
  Ok (MkPoolStatsResponse (Pools_stats counters (eg_pools engine))).

Definition service_prepare_environment (engine : Engine) (request : PrepareEnvironmentRequest)
  : io World (result string (option EnvironmentPreparationPlan)) :=
  io_map (map_err failed)
    (Engine_prepare_environment engine (per_language request) (per_preparation request)).

(** [setup]: the routing table from the configuration, then the object is served and
    the name claimed ([serve_at] and [request_name] of the connection). *)
Definition setup_registry `{Bus} (config : ModuleConfig) : Registry :=
  fold_left
    (fun registry route =>
       register (prt_language route) (prt_bus_name route)
         (BusProvider_provider (BusProvider_new (prt_language route) (prt_bus_name route))) registry)
    (mc_providers config) Registry_new.

Definition setup `{Bus} (serve_at : string -> result string unit)
    (request_name : string -> result string unit) (config : ModuleConfig)
  : result string Engine :=
  let engine := Engine_new (setup_registry config) (harness_root config) in
  _ <-! serve_at OBJECT_PATH ;;
  _ <-! request_name INTERFACE ;;
  Ok engine.

End Engine.

(** ** The pools, over every history of requests *)

Section PoolFacts.
Context `{RustDebug}.

(** Every live entry points at a started pool, of its own language, under the
    fingerprint of what that pool was started with. *)
Definition Pools_wf (self : Pools) : Prop :=
  forall l entry, live self !! l = Some entry ->
  exists launch settings version,
    started self !! en_pool entry = Some (launch, settings, version)
    /\ lc_language launch = l /\ en_fingerprint entry = pool_fingerprint launch settings.

Lemma Pools_new_wf : Pools_wf Pools_new.
Proof. intros l entry. cbn. by rewrite lookup_empty. Qed.

Lemma ensure_wf launch settings version self :
  Pools_wf self -> Pools_wf (ensure launch settings version self).2.
Proof.
  intros Hwf. unfold ensure. set (fp := pool_fingerprint launch settings).
  set (rebuilt := MkPools (<[lc_language launch := MkEntry fp (length (started self))]> (live self))
                    (started self ++ [(launch, settings, version)])).
  assert (Pools_wf rebuilt) as Hnew.
  { intros l entry. cbn [rebuilt live started]. intros [[<- <-]|[Hne He]]%lookup_insert_Some.
    - exists launch, settings, version. cbn [en_pool en_fingerprint].
      by rewrite list_lookup_middle.
    - destruct (Hwf _ _ He) as (l0 & s0 & v0 & Hs & Hl & Hf). exists l0, s0, v0.
      split; [|done]. by apply lookup_app_l_Some. }
  destruct (live self !! _) as [entry|]; [destruct (String.eqb _ _)|]; done.
Qed.

(** Two launches with one fingerprint are launched and tuned alike. *)
Definition tuned_alike (a b : Launch * PoolSettings) : Prop :=
  fingerprint a.1 = fingerprint b.1
  /\ effective_max_workers a.2 = effective_max_workers b.2
  /\ ps_idle_ttl_secs a.2 = ps_idle_ttl_secs b.2
  /\ ps_recycle_after_jobs a.2 = ps_recycle_after_jobs b.2
  /\ ps_max_queue_depth a.2 = ps_max_queue_depth b.2.

(** The fields are told apart by their separators. *)
Lemma field_inj a b name m n :
  contains_byte bar name = false ->
  (a +:+ String bar name) +:+ display_u64 m = (b +:+ String bar name) +:+ display_u64 n ->
  a = b /\ m = n.
Proof.
  intros Hname Heq. rewrite !string_app_assoc, !string_append_cons in Heq. apply string_split_last in Heq as [Ha Hb].
  - split; [done|]. apply display_u64_inj. by apply (inj (String.append name)) in Hb.
  - by rewrite contains_byte_app, Hname, display_u64_without.
  - by rewrite contains_byte_app, Hname, display_u64_without.
Qed.

Lemma pool_fingerprint_separates launch launch' settings settings' :
  pool_fingerprint launch settings = pool_fingerprint launch' settings' ->
  tuned_alike (launch, settings) (launch', settings').
Proof.
  unfold pool_fingerprint, tuned_alike. rewrite <- !string_app_assoc.
  intros Hq. apply (field_inj _ _ "queue=") in Hq as [Hr Hq]; [|done].
  apply (field_inj _ _ "recycle=") in Hr as [Ht Hr]; [|done].
  apply (field_inj _ _ "ttl=") in Ht as [Hw Ht]; [|done].
  by apply (field_inj _ _ "workers=") in Hw as [Hf Hw].
Qed.

Lemma ensure_spec (launch : Launch) (settings : PoolSettings) (version : string)
    (before : Pools) :
  Pools_wf before ->
  let '(pool, after) := ensure launch settings version before in
  Pools_wf after
  /\ (exists launch0 settings0 version0,
        started after !! pool = Some (launch0, settings0, version0)
        /\ lc_language launch0 = lc_language launch
        /\ tuned_alike (launch0, settings0) (launch, settings))
  /\ (after = before \/ pool = length (started before)
                        /\ started after = started before ++ [(launch, settings, version)])
  /\ en_pool <$> live after !! lc_language launch = Some pool
  /\ (forall l, l <> lc_language launch -> live after !! l = live before !! l)
  /\ forall version', ensure launch settings version' after = (pool, after).
Proof.
  intros Hwf. pose proof (ensure_wf launch settings version before Hwf) as Hafter.
  destruct (ensure launch settings version before) as [pool after] eqn:E. cbn [snd] in Hafter.
  split; [done|].
  assert (pool_fingerprint launch settings
            = default "" (en_fingerprint <$> live after !! lc_language launch)
          /\ en_pool <$> live after !! lc_language launch = Some pool
          /\ (after = before \/ pool = length (started before)
                /\ started after = started before ++ [(launch, settings, version)])
          /\ forall l, l <> lc_language launch -> live after !! l = live before !! l)
    as (Hfp & Hpool & Hcase & Hothers).
  { unfold ensure in E. destruct (live before !! _) as [entry|] eqn:He;
      [destruct (String.eqb_spec (en_fingerprint entry) (pool_fingerprint launch settings))|];
      injection E as <- <-; [by rewrite He; eauto| |]; cbn [live started];
      rewrite lookup_insert_eq; (split_and!; [done|done|by right|]);
      intros l Hl; by rewrite lookup_insert_ne. }
  destruct (live after !! lc_language launch) as [entry|] eqn:He; [|done].
  cbn in Hfp, Hpool. injection Hpool as <-.
  destruct (Hafter _ _ He) as (l0 & s0 & v0 & Hs & Hl & Hf0). split.
  { exists l0, s0, v0. split_and!; [done..|]. apply pool_fingerprint_separates. congruence. }
  split_and!; [done|done|done|]. intros version'. unfold ensure. rewrite He, Hfp.
  by rewrite String.eqb_refl.
Qed.

(** A job is given to a pool that was started for the very launch it needs: over
    every history of requests, the pool handed out is of the same language and was
    started with the same interpreter, arguments, environment and protocol (their
    fingerprint) and the same tuning; it is the one already live, or a new one
    started for this launch; no other language's pool is touched; asking again,
    whatever version is reported, gives the same pool; and every live entry
    describes the pool it holds. *)
Theorem ensure_matches_the_launch (launch : Launch) (settings : PoolSettings) (version : string)
    (before : Pools) :
  Pools_wf before ->
  let '(pool, after) := ensure launch settings version before in
  Pools_wf after
  /\ (exists launch0 settings0 version0,
        started after !! pool = Some (launch0, settings0, version0)
        /\ lc_language launch0 = lc_language launch
        /\ tuned_alike (launch0, settings0) (launch, settings))
  /\ (after = before \/ pool = length (started before)
                        /\ started after = started before ++ [(launch, settings, version)])
  /\ en_pool <$> live after !! lc_language launch = Some pool
  /\ (forall l, l <> lc_language launch -> live after !! l = live before !! l)
  /\ forall version', ensure launch settings version' after = (pool, after).
Proof. apply ensure_spec. Qed.

#[local] Instance entry_le_total : Total (fun a b : Language * Entry => language_le a.1 b.1).
Proof.
  intros a b. unfold language_le. destruct (total String.le (as_str a.1) (as_str b.1)); auto.
Qed.

(** The counters reported are those of the live pools and no others, one row per
    language, in language order. *)
Theorem stats_cover_the_live_pools (counters : nat -> PoolStats) (self : Pools) :
  exists rows : list (Language * Entry),
    Pools_stats counters self = map (fun row => counters (en_pool row.2)) rows
    /\ Sorted (fun a b => language_le a.1 b.1) rows
    /\ NoDup rows.*1
    /\ forall l entry, (l, entry) ∈ rows <-> live self !! l = Some entry.
Proof.
  exists (merge_sort (fun a b => language_le a.1 b.1) (map_to_list (live self))).
  split; [done|]. split; [apply (Sorted_merge_sort _)|].
  pose proof (merge_sort_Permutation (fun a b : Language * Entry => language_le a.1 b.1)
                (map_to_list (live self))) as Hp. split.
  - rewrite Hp. apply NoDup_fst_map_to_list.
  - intros l entry. rewrite Hp. apply elem_of_map_to_list.
Qed.

End PoolFacts.

(** ** What a request for execution does *)

Section EngineFacts.
Context `{Env} `{Sha256} `{Unpackers} `{RustDebug}.
Context (vars : string -> option string).

Lemma materialise_ok root h w path w' :
  materialise root h w = (Ok path, w') ->
  path = path_join root (Path_new (wh_filename h))
  /\ w_fs w' !! path = Some (NFile (wh_source h)).
Proof.
  unfold materialise, storage, write_file, io_try, io_map, io_ret.
  destruct (create_dir_all root w) as [[]w1]; cbn; [|done].
  destruct (create_file _ w1) as [[] w2] eqn:Ec; cbn; [|done].
  destruct (write_all _ _ w2) as [[] w3] eqn:Ew; cbn; [|done].
  intros [= <- <-]. split; [done|].
  apply create_file_ok in Ec. apply write_all_ok in Ew as (old & Hold & ->).
  rewrite Ec, lookup_insert_eq in Hold. injection Hold as <-. by rewrite lookup_insert_eq.
Qed.

Lemma create_file_frame p w r w' q :
  create_file p w = (r, w') -> q <> p -> w_fs w' !! q = w_fs w !! q.
Proof.
  intros Hc Hq. destruct r as [[]|e].
  - apply create_file_ok in Hc as ->. by apply lookup_insert_ne.
  - apply syscall_inv in Hc as [_ ->]. done.
Qed.

Lemma write_all_frame p bytes w r w' q :
  write_all p bytes w = (r, w') -> q <> p -> w_fs w' !! q = w_fs w !! q.
Proof.
  intros Hc Hq. destruct r as [[]|e].
  - apply write_all_ok in Hc as (old & _ & ->). by apply lookup_insert_ne.
  - apply syscall_inv in Hc as [_ ->]. done.
Qed.

(** Writing a harness out touches its own file and the directories above it. *)
Lemma materialise_frame root h w r w' q :
  materialise root h w = (r, w') ->
  q ∉ ancestors root -> q <> path_join root (Path_new (wh_filename h)) ->
  w_fs w' !! q = w_fs w !! q.
Proof.
  unfold materialise, storage, write_file, io_try, io_map, io_ret. intros E Hq Hp.
  destruct (create_dir_all root w) as [r1 w1] eqn:Ed.
  pose proof (create_dir_all_frame _ _ _ _ _ Ed Hq) as <-. destruct r1; cbn in E.
  2:{ by injection E as _ <-. }
  destruct (create_file _ w1) as [r2 w2] eqn:Ec. rewrite <- (create_file_frame _ _ _ _ _ Ec Hp).
  destruct r2; cbn in E; [|by injection E as _ <-].
  destruct (write_all _ _ w2) as [r3 w3] eqn:Ew. rewrite <- (write_all_frame _ _ _ _ _ _ Ew Hp).
  destruct r3; cbn in E; by injection E as _ <-.
Qed.

(** The worker a request is given is launched as its provider said: for a resolved
    runtime, the program is the executable the harness names among those the runtime
    has, run on a script which is on disk with exactly the harness's source, in the
    environment built for it, under this engine's spawner; on disk nothing changes
    but that script and the directories it is in; and when the runtime lacks the
    executable, nothing is written and nothing is launched. *)
Theorem launch_runs_the_harness (self : Engine) (runtime : ResolvedRuntime) (l : Language)
    (w : World) :
  lawful (Engine_registry self) ->
  let root := path_join (eg_harness_root self) (Path_new (as_str l)) in
  let '(r, w') := launch_for vars self runtime l w in
  match r with
  | Ok launch =>
      exists p h w1 binary,
        Registry_provider (Engine_registry self) l = Ok p
        /\ harness p w = (Ok h, w1)
        /\ runtime_executable (wh_executable h) runtime = Some binary
        /\ let script := path_join root (Path_new (wh_filename h)) in
           w_fs w' !! script = Some (NFile (wh_source h))
           /\ (forall q, q ∉ ancestors root -> q <> script -> w_fs w' !! q = w_fs w !! q)
           /\ launch = MkLaunch l (Path_new binary) (command_args (path_display script) h)
                (env_build vars (Path_new (rt_bin_dir runtime)) (wh_env h))
                (wh_protocol_version h) 30000 (eg_spawner self)
  | Err e =>
      (w_fs w' = w_fs w
       \/ exists p h w1 binary reason,
            Registry_provider (Engine_registry self) l = Ok p
            /\ harness p w = (Ok h, w1)
            /\ runtime_executable (wh_executable h) runtime = Some binary
            /\ e = Storage reason)
      /\ (forall p h w1, Registry_provider (Engine_registry self) l = Ok p ->
          harness p w = (Ok h, w1) -> runtime_executable (wh_executable h) runtime = None ->
          e = EmptyInstall l)
  end.
Proof.
  intros Hl root. destruct (launch_for vars self runtime l w) as [r w'] eqn:E.
  unfold launch_for in E. fold root in E.
  destruct (Registry_provider _ l) as [p|e] eqn:Hp; [|injection E as <- <-; split; [by left|done]].
  pose proof (lawful_provider _ _ _ Hl Hp) as Hlaws. unfold io_try in E.
  destruct (harness p w) as [h w1] eqn:Eh. destruct (harness_asks _ _ _ Eh) as [Hf _].
  destruct h as [h|e]; [|injection E as <- <-; split; [by left|intros ??? [= <-]; by rewrite Eh]].
  destruct (runtime_executable _ _) as [binary|] eqn:Hb.
  2:{ injection E as <- <-. split; [by left|done]. }
  destruct (materialise root h w1) as [[path|e] w2] eqn:Em.
  - injection E as <- <-. exists p, h, w1, binary. split_and!; [done..|].
    destruct (materialise_ok _ _ _ _ _ Em) as [-> Hs]. split_and!; [done| |done].
    intros q Hq Hqs. rewrite <- Hf. by eapply materialise_frame.
  - injection E as <- <-. split.
    + right. assert (exists reason, e = Storage reason) as [reason ->]; [|by eauto 10].
      revert Em. unfold materialise, storage, io_try, io_map, io_ret.
      destruct (create_dir_all root w1) as [[] w3]; cbn; [|intros [= <- _]; eauto].
      destruct (write_file _ _ w3) as [[] w4]; cbn; [done|]. intros [= <- _]. eauto.
    + intros p0 h0 w0 [= <-]. rewrite Eh. intros [= <- <-]. by rewrite Hb.
Qed.

Lemma launch_for_language (self : Engine) runtime l w launch w' :
  launch_for vars self runtime l w = (Ok launch, w') -> lc_language launch = l.
Proof.
  unfold launch_for, io_try, io_ret. intros E. break. done.
Qed.

(** C33. Executing touches one language's pool and no other: a disabled language is
    refused before anything is asked or started; any other refusal leaves every pool
    as it was; and a job that is accepted goes, unchanged, to the live pool of its
    own language, tuned as the request asks. *)
Theorem execute_stays_in_its_language (self : Engine) (request : ExecRequest) (w : World) :
  Pools_wf (eg_pools self) ->
  let '((answer, self'), w') := execute vars self request w in
  Engine_registry self' = Engine_registry self
  /\ eg_harness_root self' = eg_harness_root self
  /\ eg_spawner self' = eg_spawner self
  /\ Pools_wf (eg_pools self')
  /\ (rs_enabled (er_settings request) = false ->
      answer = Err (LanguageDisabled (er_language request)) /\ self' = self /\ w' = w)
  /\ match answer with
     | Err _ => eg_pools self' = eg_pools self
     | Ok (pool, job) =>
         job = MkCall (er_code request) (er_cwd request) (er_timeout_ms request)
         /\ en_pool <$> live (eg_pools self') !! er_language request = Some pool
         /\ (exists launch settings version,
               started (eg_pools self') !! pool = Some (launch, settings, version)
               /\ lc_language launch = er_language request
               /\ effective_max_workers settings = effective_max_workers (er_pool request)
               /\ ps_max_queue_depth settings = ps_max_queue_depth (er_pool request))
         /\ forall l, l <> er_language request ->
            live (eg_pools self') !! l = live (eg_pools self) !! l
     end.
Proof.
  intros Hwf. destruct (execute vars self request w) as [[answer self'] w'] eqn:E.
  unfold execute, require, io_bind in E.
  destruct (resolve (eg_resolver self) _ w) as [[found resolver] w1] eqn:Er.
  pose proof Er as Hreg. cbn [io_ret] in E.
  assert (rv_registry resolver = rv_registry (eg_resolver self)) as Hr.
  { clear E. unfold resolve, io_bind, io_ret in Hreg. break; done. }
  assert (rs_enabled (er_settings request) = false ->
          found = Err (LanguageDisabled (er_language request)) /\ resolver = eg_resolver self
          /\ w1 = w) as Hdis.
  { intros Hen. clear E Hr Hreg. unfold resolve in Er. cbn in Er. rewrite Hen in Er. cbn in Er.
    by injection Er as <- <- <-. }
  unfold Engine_registry. unfold io_ret in E.
  destruct (result_bind found _) as [runtime|e] eqn:Hfound.
  2:{ injection E as <- <- <-. cbn. split_and!; try done. intros (-> & -> & ->)%Hdis.
      cbn in Hfound. injection Hfound as <-. by destruct self. }
  assert (rs_enabled (er_settings request) = false -> False) as Hen.
  { intros (-> & _)%Hdis. done. }
  destruct (launch_for _ _ _ _ w1) as [[launch|e] w2] eqn:El; cbn in E.
  2:{ injection E as <- <- <-. cbn. split_and!; try done. }
  apply launch_for_language in El.
  pose proof (ensure_spec launch (er_pool request) (rt_version runtime) _ Hwf) as Hens.
  destruct (ensure _ _ _ _) as [pool after]. injection E as <- <- <-. cbn.
  destruct Hens as (Hw & (l0 & s0 & v0 & Hs & Hl & _ & Hm & _ & _ & Hq) & _ & Hlive & Hothers & _).
  rewrite El in *. split_and!; try done. by eauto 10.
Qed.

End EngineFacts.

(** ** What the module serves once it is set up *)

Section SetupFacts.
Context `{Env} `{Sha256} `{Unpackers} `{RustDebug} `{Bus}.

Definition registration_of (route : ProviderRoute) : Registration :=
  MkRegistration (prt_language route) (prt_bus_name route)
    (BusProvider_provider (BusProvider_new (prt_language route) (prt_bus_name route))).

Lemma setup_registry_all (config : ModuleConfig) :
  setup_registry config = register_all (map registration_of (mc_providers config)) Registry_new.
Proof.
  unfold setup_registry, register_all. generalize Registry_new.
  induction (mc_providers config) as [|route rest IH]; intros r; [done|]. cbn. by rewrite IH.
Qed.

Lemma setup_find_route (config : ModuleConfig) l :
  ro_provider <$> find_route (setup_registry config) l
  = (fun route => BusProvider_provider (BusProvider_new l (prt_bus_name route)))
    <$> find (fun route => bool_decide (prt_language route = l)) (rev (mc_providers config)).
Proof.
  rewrite setup_registry_all.
  induction (mc_providers config) as [|route rest IH] using rev_ind; [done|].
  rewrite map_app. cbn [map]. rewrite register_all_snoc, find_route_register, rev_unit. cbn.
  case_bool_decide as Hl; destruct (decide _); try done. cbn. by rewrite Hl.
Qed.

Lemma register_in_Forall (P : Route -> Prop) rs route :
  Forall P rs -> P route -> Forall P (register_in rs route).
Proof.
  intros Hrs Hp. induction Hrs as [|r rs Hr Hrs IH]; cbn; [by constructor|].
  destruct (decide _); by constructor.
Qed.

Lemma setup_lawful (config : ModuleConfig) : lawful (setup_registry config).
Proof.
  unfold lawful. rewrite setup_registry_all.
  induction (mc_providers config) as [|route rest IH] using rev_ind; [constructor|].
  rewrite map_app. cbn [map]. rewrite register_all_snoc.
  apply register_in_Forall; [done|]. apply BusProvider_laws.
Qed.

(** A module that loads serves what its configuration says: it has exported its
    object and claimed its name, it starts with no pool and no spawner, and each
    language is answered by the bus name of its last route, any other being unknown;
    a document that names no providers ([null], [{}] or a partial object) gives the
    two first-party ones. *)
Theorem setup_serves_the_configuration (d : document) (config : ModuleConfig)
    (serve_at request_name : string -> result string unit) (engine : Engine) :
  ModuleConfig_deserialize d = Ok config ->
  setup serve_at request_name config = Ok engine ->
  serve_at OBJECT_PATH = Ok tt /\ request_name INTERFACE = Ok tt
  /\ eg_pools engine = Pools_new /\ eg_spawner engine = None
  /\ lawful (Engine_registry engine)
  /\ (forall l, Registry_provider (Engine_registry engine) l =
       if Language_is_empty l then Err LanguageMissing
       else match find (fun route => bool_decide (prt_language route = l))
                    (rev (mc_providers config)) with
            | Some route => Ok (BusProvider_provider (BusProvider_new l (prt_bus_name route)))
            | None => Err (UnknownLanguage l)
            end)
  /\ (match d with DNull | DObject None _ _ => True | _ => False end ->
      languages (Engine_registry engine) = [Language_nodejs; Language_python]
      /\ Registry_provider (Engine_registry engine) Language_nodejs
         = Ok (BusProvider_provider (BusProvider_new Language_nodejs providers_NODEJS))
      /\ Registry_provider (Engine_registry engine) Language_python
         = Ok (BusProvider_provider (BusProvider_new Language_python providers_PYTHON))).
Proof.
  intros Hd. unfold setup. destruct (serve_at OBJECT_PATH) as [[]|]; [|done].
  destruct (request_name INTERFACE) as [[]|]; [|done]. cbn [result_bind]. intros [= <-].
  split_and!; [done..|apply setup_lawful| |].
  - intros l. unfold Registry_provider. destruct (Language_is_empty l); [done|].
    change (Engine_registry _) with (setup_registry config). rewrite setup_find_route.
    by destruct (find _ _).
  - intros Hnone. assert (mc_providers config = mc_providers ModuleConfig_default) as Hp.
    { destruct d as [|[]|]; try done; by injection Hd as <-. }
    change (Engine_registry _) with (setup_registry config).
    unfold setup_registry. rewrite Hp. split_and!; reflexivity.
Qed.

End SetupFacts.

(** ** The properties at work *)

(** A stand-in for [{:?}]. *)
Definition sample_debug : RustDebug := {|
  debug_strings := String.concat ",";
  debug_pairs pairs := String.concat "," (map (fun p => p.1 +:+ "=" +:+ p.2) pairs)
|}.

(** A bus on which no provider answers. *)
Definition sample_bus : Bus := {|
  bus_payload := unit;
  bus_proxy _ _ _ := Ok tt;
  bus_call _ _ _ _ _ := Err "no reply";
  decode_descriptor _ := Err "not a descriptor";
  decode_layout _ := Err "not a layout";
  decode_distribution _ := Err "not a distribution";
  decode_harness _ := Err "not a harness";
  decode_plan _ := Err "not a plan"
|}.

Section Samples.
#[local] Existing Instance sample_debug.
Let env := sample_env [] (HttpBody [Ok "zip"]).
Let vars := fun name => if String.eqb name "PATH" then Some "/usr/bin" else None.
(** A host toolchain is found at once. *)
Let node : Provider :=
  sample_provider Language_nodejs (Ok (ProviderDescriptor_new Language_nodejs "Node.js" "22"))
    (Some (layout_with_executable "node" "/opt/node/bin/node" (RuntimeLayout_new "22" "/opt/node/bin")))
    (Distribution_new "22" "node.zip" "https://x/node.zip" Zip) (fun _ _ => Ok None).
Let engine := Engine_new (register Language_nodejs "n" node Registry_new) (Path_new "/h").
Let engine_lawful : lawful (Engine_registry engine).
Proof. constructor; [apply sample_provider_laws|constructor]. Defined.
Let empty := MkWorld (list_to_map [(Path_new "/h", NDir)]) [].
Let runtime := from_layout Language_nodejs System
  (layout_with_executable "node" "/opt/node/bin/node" (RuntimeLayout_new "22" "/opt/node/bin")).
Let settings := MkRuntimeSettings true true "22" "" "/c" "" "".
Let request :=
  MkExecRequest Language_nodejs settings PoolSettings_default "1+1" None (Some 50%N).
Let launch := MkLaunch Language_nodejs (Path_new "/opt/node/bin/node") [] [] 1 1000 None.

(** A second request at another version, launched the same way: the first pool serves
    it, and goes on reporting the first version. *)
Example pool_keeps_its_version :
  let '(first, pools) := ensure launch PoolSettings_default "22.1" Pools_new in
  let '(second, pools') := ensure launch PoolSettings_default "22.2" pools in
  first = second /\ (fun p => p.2) <$> started pools' = ["22.1"].
Proof. vm_compute. done. Qed.

(** A retuned pool replaces the old one. *)
Example retuned_pool_is_new :
  let '(first, pools) := ensure launch PoolSettings_default "22" Pools_new in
  let '(second, pools') := ensure launch (with_max_workers 5 PoolSettings_default) "22" pools in
  first = 0%nat /\ second = 1%nat.
Proof. vm_compute. done. Qed.

Lemma ensure_matches_the_launch_witness :
  Pools_wf Pools_new
  /\ let '(pool, after) := ensure launch PoolSettings_default "22" Pools_new in
     Pools_wf after
     /\ (exists launch0 settings0 version0,
           started after !! pool = Some (launch0, settings0, version0)
           /\ lc_language launch0 = lc_language launch
           /\ tuned_alike (launch0, settings0) (launch, PoolSettings_default))
     /\ (after = Pools_new \/ pool = length (started Pools_new)
           /\ started after = started Pools_new ++ [(launch, PoolSettings_default, "22")])
     /\ en_pool <$> live after !! lc_language launch = Some pool
     /\ (forall l, l <> lc_language launch -> live after !! l = live Pools_new !! l)
     /\ forall version', ensure launch PoolSettings_default version' after = (pool, after).
Proof.
  split; [exact Pools_new_wf|].
  exact (ensure_matches_the_launch launch PoolSettings_default "22" Pools_new Pools_new_wf).
Defined.

(** The harness is written out and the system interpreter is launched on it. *)
Lemma launch_runs_the_harness_witness :
  let out := @launch_for env vars engine runtime Language_nodejs empty in
  w_fs out.2 !! Path_new "/h/nodejs/worker.js" = Some (NFile "//")
  /\ let root := path_join (eg_harness_root engine) (Path_new (as_str Language_nodejs)) in
     let '(r, w') := out in
     match r with
     | Ok launch =>
         exists p h w1 binary,
           Registry_provider (Engine_registry engine) Language_nodejs = Ok p
           /\ harness p empty = (Ok h, w1)
           /\ runtime_executable (wh_executable h) runtime = Some binary
           /\ let script := path_join root (Path_new (wh_filename h)) in
              w_fs w' !! script = Some (NFile (wh_source h))
              /\ (forall q, q ∉ ancestors root -> q <> script -> w_fs w' !! q = w_fs empty !! q)
              /\ launch = MkLaunch Language_nodejs (Path_new binary)
                   (command_args (path_display script) h)
                   (env_build vars (Path_new (rt_bin_dir runtime)) (wh_env h))
                   (wh_protocol_version h) 30000 (eg_spawner engine)
     | Err e =>
         (w_fs w' = w_fs empty
          \/ exists p h w1 binary reason,
               Registry_provider (Engine_registry engine) Language_nodejs = Ok p
               /\ harness p empty = (Ok h, w1)
               /\ runtime_executable (wh_executable h) runtime = Some binary
               /\ e = Storage reason)
         /\ (forall p h w1, Registry_provider (Engine_registry engine) Language_nodejs = Ok p ->
             harness p empty = (Ok h, w1) -> runtime_executable (wh_executable h) runtime = None ->
             e = EmptyInstall Language_nodejs)
     end.
Proof.
  split; [vm_compute; reflexivity|].
  exact (@launch_runs_the_harness env vars engine runtime Language_nodejs empty engine_lawful).
Defined.

Lemma execute_stays_in_its_language_witness :
  let out := @execute env sample_sha256 sample_unpackers sample_debug vars engine request empty in
  out.1.1 = Ok (0%nat, MkCall "1+1" None (Some 50%N))
  /\ Pools_wf (eg_pools engine) /\ Pools_wf (eg_pools out.1.2).
Proof.
  split; [vm_compute; reflexivity|]. split; [exact Pools_new_wf|].
  pose proof (@execute_stays_in_its_language env sample_sha256 sample_unpackers sample_debug vars
                engine request empty Pools_new_wf) as H.
  destruct (execute vars engine request empty) as [[answer self'] w'].
  exact (proj1 (proj2 (proj2 (proj2 H)))).
Defined.

Lemma setup_serves_the_configuration_witness :
  let served := @setup_registry sample_bus ModuleConfig_default in
  ModuleConfig_deserialize (DObject None (Some "/h") None)
    = Ok (MkModuleConfig (mc_providers ModuleConfig_default) "/h" [])
  /\ languages served = [Language_nodejs; Language_python].
Proof.
  split; [reflexivity|].
  destruct (@setup_serves_the_configuration env sample_bus (DObject None None None)
              ModuleConfig_default (fun _ => Ok tt) (fun _ => Ok tt)
              (Engine_new (@setup_registry sample_bus ModuleConfig_default)
                 (@harness_root env ModuleConfig_default)) eq_refl eq_refl)
    as (_ & _ & _ & _ & _ & _ & H).
  exact (proj1 (H I)).
Defined.

End Samples.
