(* ===== verification/WorkerValidate.v ===== *)
(** * Checks before anything is started or cached: [worker/validate.rs] and
    [worker/cache/validate.rs]

    Every bound on what a persistent worker may be asked to run, and every check on
    the cache locations and files a recipe may name. *)

From S2P Require Import Prelude RustStd Identity Vocabulary World FsFacts WorkerTypes.

Open Scope rust_scope.

(** ** Size checks: [worker/validate.rs] *)

Definition MAX_LINE : N := 256 * 1024.
Definition MAX_SCRIPT : N := 1024 * 1024.

Definition nul : ascii := "000"%char.

Definition total_len (l : list string) : N := N.of_nat (sum_list_with String.length l).

Definition too_long {A} (limit : N) (l : list A) : bool := (limit <? N.of_nat (length l))%N.

Definition command (c : WorkerCommand) : result string unit :=
  if negb (is_absolute (Path_new (wc_executable c)))
     || (4096 <? str_len (wc_executable c))%N
     || contains_byte nul (wc_executable c)
     || too_long 64 (wc_args c)
     || too_long 64 (wc_env c)
  then Err "command_limit"
  else if match wc_timeout_ms c with
          | Some timeout => (timeout =? 0)%N || (30 * 60 * 1000 <? timeout)%N
          | None => false
          end
  then Err "command_limit"
  else
    let bytes := (total_len (wc_args c)
                  + total_len (map (fun '(k, v) => k +:+ v) (wc_env c)))%N in
    if (64 * 1024 <? bytes)%N
       || existsb (contains_byte nul) (wc_args c)
       || existsb (fun '(k, v) => String.eqb k "" || (contains_byte nul k || contains_byte "=" k)
                                  || contains_byte nul v) (wc_env c)
    then Err "command_limit"
    else Ok tt.

(** The [for] loops that check every element in turn. *)
Fixpoint check_all {A} (check : A -> result string unit) (l : list A) : result string unit :=
  match l with
  | [] => Ok tt
  | a :: rest => _ <-! check a ;; check_all check rest
  end.

Definition plan (p : WorkerPlan) : result string unit :=
  if (MAX_SCRIPT <? str_len (wp_source p))%N
     || too_long 16 (wp_preparation p)
     || too_long 32 (wp_backends p)
     || existsb (fun s => 128 <? str_len s)%N (wp_backends p)
     || (wp_startup_timeout_ms p =? 0)%N
     || (30 * 60 * 1000 <? wp_startup_timeout_ms p)%N
     || (wp_request_timeout_ms p =? 0)%N
     || (60 * 1000 <? wp_request_timeout_ms p)%N
     || (24 * 60 * 60 * 1000 <? wp_idle_timeout_ms p)%N
     || match wp_idle_backend p with Some s => (128 <? str_len s)%N | None => false end
     || match wc_timeout_ms (wp_command p) with Some _ => true | None => false end
  then Err "plan_limit"
  else
    _ <-! command (wp_command p) ;;
    check_all command (wp_preparation p).

(** The counting writer: the bytes it was given so far, or its refusal. *)
Definition Count_write (count : N) (bytes : string) : result string N :=
  let count := saturating_add count (str_len bytes) in
  if (MAX_LINE <=? count)%N then Err "file too large" else Ok count.

(** The serializer's [write_all] calls, one by one; nothing is written for an empty
    piece. *)
Fixpoint to_writer (count : N) (pieces : list string) : result string N :=
  match pieces with
  | [] => Ok count
  | piece :: rest =>
      if String.eqb piece "" then to_writer count rest
      else count <-! Count_write count piece ;; to_writer count rest
  end.

Section Request.
Context `{JsonValue}.
(** The pieces [serde_json] writes a message in. *)
Context (encode : ServerRequest -> list string).

Definition request (r : WorkerRequest) : result string unit :=
  if (wr_operation r =? 0)%N || (64 <? str_len (handle_id (wr_handle r)))%N
     || (256 <? str_len (wr_method r))%N
  then Err "request_limit"
  else
    _ <-! map_err (fun _ => "request_limit")
            (to_writer 1 (encode (MkServerRequest (display_u64 (wr_operation r)) (wr_method r)
                                    (wr_params r)))) ;;
    Ok tt.

End Request.

(** ** Cache scopes and paths: [worker/cache/validate.rs] *)

Definition MAX_FILE : N := 64 * 1024.

Definition forbidden_names : list string := [".ssh"; ".gnupg"; ".aws"; ".azure"; ".kube"; ".config"].

Definition forbidden (value : string) : bool :=
  bool_decide (to_ascii_lowercase value ∈ forbidden_names).

Definition id (s : string) : bool :=
  negb (String.eqb s "") && (str_len s <=? 64)%N
  && string_forallb (fun b => is_ascii_alphanumeric b || Ascii.eqb b "-" || Ascii.eqb b "_") s.

Definition system_roots : list string :=
  ["/etc"; "/proc"; "/sys"; "/dev"; "/bin"; "/sbin"; "/usr"; "/boot"].

(** The loop over a scope's components; the answer is how many are names. *)
Fixpoint scope_components (cs : list Component) (count : nat) : result string nat :=
  match cs with
  | [] => Ok count
  | Normal value :: rest =>
      if forbidden value then Err "cache_scope_forbidden" else scope_components rest (S count)
  | RootDir :: rest => scope_components rest count
  | _ => Err "cache_scope_invalid"
  end.

Section Scope.
(** [dirs::home_dir()] *)
Context (home_dir : option Path).

Definition scope (s : WorkerCacheScope) : result string unit :=
  let path := Path_new (cs_root s) in
  if negb (id (cs_id s)) || (4096 <? str_len (cs_root s))%N || negb (is_absolute path)
     || contains_byte nul (cs_root s)
  then Err "cache_scope_invalid"
  else
    count <-! scope_components (components path) 0 ;;
    if (count <? 2)%nat || bool_decide (home_dir = Some path) then Err "cache_scope_forbidden"
    else if existsb (fun root => path_starts_with path (Path_new root)) system_roots
    then Err "cache_scope_forbidden"
    else Ok tt.

End Scope.

Definition reserved_stem (stem : string) : bool :=
  bool_decide (stem ∈ ["CON"; "PRN"; "AUX"; "NUL"])
  || (str_len stem =? 4)%N && (starts_with "COM" stem || starts_with "LPT" stem)
     && match String.get 3 stem with Some c => is_ascii_digit c | None => false end.

Definition unsafe_part (part : string) : bool :=
  let stem := to_ascii_uppercase (default "" (head (split_on "." part))) in
  String.eqb part "" || String.eqb part "." || String.eqb part ".." || forbidden part
  || (ends_with_byte "." part || ends_with_byte " " part) || reserved_stem stem.

Definition safe_relative (path : string) : result string unit :=
  if String.eqb path "" || (512 <? str_len path)%N
     || (contains_byte "\" path || contains_byte ":" path) || contains_control path
  then Err "cache_path_invalid"
  else if existsb unsafe_part (split_on "/" path) then Err "cache_path_invalid"
  else Ok tt.

(** The names the cache keeps for its own files. *)
Definition router_owned (part : string) : bool :=
  starts_with ".tinyruntime-" (to_ascii_lowercase part).

Definition relative (path : string) : result string unit :=
  _ <-! safe_relative path ;;
  if existsb router_owned (split_on "/" path) then Err "cache_path_invalid" else Ok tt.

(** The loop over the artifacts and the marker: the paths seen, and their bytes. *)
Fixpoint check_artifacts (artifacts : list CacheArtifact) (paths : gset string) (bytes : N)
  : result string N :=
  match artifacts with
  | [] => Ok bytes
  | a :: rest =>
      _ <-! relative (ca_path a) ;;
      if (MAX_FILE <? str_len (ca_bytes a))%N || bool_decide (ca_path a ∈ paths)
      then Err "cache_artifact_limit"
      else check_artifacts rest ({[ca_path a]} ∪ paths) (saturating_add bytes (str_len (ca_bytes a)))
  end.

Definition recipe (r : CacheRecipe) : result string unit :=
  if negb (id (cr_scope r)) || too_long 16 (cr_artifacts r) || too_long 32 (cr_required r)
     || too_long 16 (cr_steps r) || (cr_timeout_ms r =? 0)%N
     || (4 * 60 * 60 * 1000 <? cr_timeout_ms r)%N
  then Err "cache_recipe_limit"
  else
    bytes <-! check_artifacts (cr_artifacts r ++ [cr_marker r]) ∅ 0 ;;
    if (1024 * 1024 <? bytes)%N then Err "cache_artifact_limit"
    else
      _ <-! check_all (fun required => relative (ce_path required)) (cr_required r) ;;
      check_all command (cr_steps r).

(** ** What passing the checks means *)

Lemma check_all_Forall {A} (check : A -> result string unit) l :
  check_all check l = Ok tt <-> Forall (fun a => check a = Ok tt) l.
Proof.
  induction l as [|a l IH]; cbn; [split; [constructor|done]|].
  destruct (check a) as [[]|e] eqn:E; cbn.
  - rewrite IH, Forall_cons. tauto.
  - split; [done|]. intros [Hc _]%Forall_cons. congruence.
Qed.

Lemma too_long_false {A} limit (l : list A) :
  too_long limit l = false <-> (N.of_nat (length l) <= limit)%N.
Proof. unfold too_long. apply N.ltb_ge. Qed.

Lemma existsb_Forall {A} (f : A -> bool) l : existsb f l = false <-> Forall (fun a => f a = false) l.
Proof.
  induction l as [|a l IH]; cbn; [split; [constructor|done]|].
  by rewrite orb_false_iff, IH, Forall_cons.
Qed.

Definition command_size (c : WorkerCommand) : N :=
  str_len (wc_executable c) + total_len (wc_args c)
  + total_len (map (fun '(k, v) => k +:+ v) (wc_env c)).

(** A command the operating system can be given as it is. *)
Record command_ok (c : WorkerCommand) : Prop := {
  ok_absolute : is_absolute (Path_new (wc_executable c)) = true;
  ok_size : (command_size c <= 4096 + 64 * 1024)%N;
  ok_args : (N.of_nat (length (wc_args c)) <= 64)%N;
  ok_env : (N.of_nat (length (wc_env c)) <= 64)%N;
  ok_nul : contains_byte nul (wc_executable c) = false
           /\ Forall (fun s => contains_byte nul s = false) (wc_args c);
  ok_names : Forall (fun '(k, v) => k <> "" /\ contains_byte nul k = false
                                    /\ contains_byte "=" k = false /\ contains_byte nul v = false)
               (wc_env c);
  ok_timeout timeout : wc_timeout_ms c = Some timeout -> (1 <= timeout <= 1800000)%N
}.

Ltac reflect_checks :=
  repeat match goal with
  | H : _ \/ _ |- _ => fail 1
  | _ => progress reflect_bools
  | H : too_long _ _ = false |- _ => apply too_long_false in H
  | H : existsb _ _ = false |- _ => apply existsb_Forall in H
  end.

Lemma command_sound c : command c = Ok tt -> command_ok c.
Proof.
  unfold command. cbv zeta. destruct (_ || _)%bool eqn:Hbase; [done|].
  destruct (match wc_timeout_ms c with Some _ => _ | None => _ end) eqn:Hto; [done|].
  destruct (64 * 1024 <? _)%N eqn:Hb; [done|].
  destruct (existsb (contains_byte nul) (wc_args c)) eqn:Ha; [done|].
  destruct (existsb _ (wc_env c)) eqn:He; [done|]. intros _. reflect_checks.
  constructor; [done|unfold command_size; lia|done|done|by split| |].
  - eapply Forall_impl; [eassumption|]. intros [k v] Hk. cbn in Hk. reflect_checks. done.
  - intros timeout Ht. rewrite Ht in Hto. reflect_checks. lia.
Qed.

(** Everything a plan carries, in bytes. *)
Definition plan_size (p : WorkerPlan) : N :=
  str_len (wp_source p) + command_size (wp_command p)
  + N.of_nat (sum_list_with (fun c => N.to_nat (command_size c)) (wp_preparation p))
  + total_len (wp_backends p) + str_len (default "" (wp_idle_backend p)).

Lemma sum_list_bound {A} (f : A -> nat) limit l :
  Forall (fun a => (N.of_nat (f a) <= limit)%N) l ->
  (N.of_nat (sum_list_with f l) <= limit * N.of_nat (length l))%N.
Proof. induction 1; cbn; lia. Qed.

(** A plan that passes is bounded as a whole: at most two and a quarter megabytes,
    every command absolute and free of anything the operating system would cut short,
    every deadline finite and positive, and only preparation steps, never the server
    itself, with a deadline of their own. *)
Theorem plan_bounded (p : WorkerPlan) :
  plan p = Ok tt ->
  (plan_size p <= 2236544)%N
  /\ Forall command_ok (wp_command p :: wp_preparation p)
  /\ (length (wp_preparation p) <= 16)%nat
  /\ (1 <= wp_startup_timeout_ms p <= 1800000)%N
  /\ (1 <= wp_request_timeout_ms p <= 60000)%N
  /\ (wp_idle_timeout_ms p <= 86400000)%N
  /\ wc_timeout_ms (wp_command p) = None.
Proof.
  unfold plan. destruct (wc_timeout_ms (wp_command p)) eqn:Ht; [by rewrite orb_true_r|].
  rewrite orb_false_r. destruct (_ || _)%bool eqn:Hb; [done|].
  destruct (command (wp_command p)) as [[]|] eqn:Hc; [|done]. cbn [result_bind].
  intros Hall%check_all_Forall. apply command_sound in Hc.
  assert (Forall command_ok (wp_preparation p)) as Hprep.
  { eapply Forall_impl; [exact Hall|]. apply command_sound. }
  apply orb_false_iff in Hb as [Hb Hidle].
  assert (str_len (default "" (wp_idle_backend p)) <= 128)%N as Hib.
  { destruct (wp_idle_backend p); [|done]. by apply N.ltb_ge. }
  reflect_checks.
  assert (N.of_nat (sum_list_with (fun c => N.to_nat (command_size c)) (wp_preparation p))
          <= 69632 * N.of_nat (length (wp_preparation p)))%N as Hs.
  { apply sum_list_bound. eapply Forall_impl; [exact Hprep|]. intros c' Hc'.
    pose proof (ok_size _ Hc'). lia. }
  assert (N.of_nat (sum_list_with String.length (wp_backends p))
          <= 128 * N.of_nat (length (wp_backends p)))%N as Hbk.
  { apply sum_list_bound. eapply Forall_impl; [eassumption|]. cbn. unfold str_len.
    intros s Hlen%N.ltb_ge. done. }
  pose proof (ok_size _ Hc). unfold plan_size, total_len, MAX_SCRIPT in *.
  split_and!; try lia; try done. by constructor.
Qed.

Lemma to_writer_spec pieces count :
  (count < MAX_LINE)%N ->
  to_writer count pieces
  = if (count + total_len pieces <? MAX_LINE)%N then Ok (count + total_len pieces)%N
    else Err "file too large".
Proof.
  unfold total_len. revert count. induction pieces as [|s pieces IH]; intros count Hc; cbn.
  - rewrite N.add_0_r. by rewrite (proj2 (N.ltb_lt _ _) Hc).
  - destruct (String.eqb_spec s "") as [->|_]; [by apply IH|].
    unfold Count_write, saturating_add, str_len.
    assert (N.min u64_max (count + N.of_nat (String.length s)) < MAX_LINE
            <-> count + N.of_nat (String.length s) < MAX_LINE)%N as Hmin.
    { unfold u64_max, u64_modulus, MAX_LINE. lia. }
    destruct (N.leb_spec MAX_LINE (N.min u64_max (count + N.of_nat (String.length s)))); cbn.
    + destruct (N.ltb_spec (count + N.of_nat (String.length s + sum_list_with String.length pieces))
                  MAX_LINE); [lia|done].
    + rewrite IH by done. rewrite N.min_r by (unfold u64_max, u64_modulus, MAX_LINE in *; lia).
      by rewrite <- N.add_assoc, <- Nat2N.inj_add.
Qed.

Section RequestFacts.
Context `{JsonValue}.
Context (encode : ServerRequest -> list string).

(** A request is sent exactly when its frame fits: whatever pieces the serializer
    cuts it into, and without the frame ever being built, the check passes if and
    only if the operation is numbered, its handle and method are short and the
    encoded message with its newline stays under the line limit. *)
Theorem request_accepts_what_fits (r : WorkerRequest) :
  let message := MkServerRequest (display_u64 (wr_operation r)) (wr_method r) (wr_params r) in
  request encode r = Ok tt <->
  (0 < wr_operation r)%N
  /\ (str_len (handle_id (wr_handle r)) <= 64)%N
  /\ (str_len (wr_method r) <= 256)%N
  /\ (str_len (String.concat "" (encode message) +:+ String "010" "") < MAX_LINE)%N.
Proof.
  cbn zeta. unfold request. set (pieces := encode _).
  assert (forall l, str_len (String.concat "" l +:+ String "010" "") = 1 + total_len l)%N as Hlen.
  { intros l. unfold str_len, total_len. rewrite string_length_app. cbn [String.length].
    enough (String.length (String.concat "" l) = sum_list_with String.length l) by lia.
    induction l as [|s l IH]; [done|]. rewrite string_concat_cons, string_length_app. cbn. lia. }
  rewrite Hlen, to_writer_spec by done.
  destruct (N.eqb_spec (wr_operation r) 0) as [->|Hop]; [split; [done|lia]|].
  destruct (N.ltb_spec 64 (str_len (handle_id (wr_handle r)))); [split; [done|lia]|].
  destruct (N.ltb_spec 256 (str_len (wr_method r))); [split; [done|lia]|].
  destruct (N.ltb_spec (1 + total_len pieces) MAX_LINE); cbn; split; try done; lia.
Qed.

End RequestFacts.

(** ** Where a recipe's files can be *)

Lemma split_on_nonempty c s : split_on c s <> [].
Proof. destruct s as [|d s]; cbn; [done|]. destruct (Ascii.eqb c d), (split_on c s); done. Qed.

Lemma filter_all {A} (P : A -> Prop) `{!forall a, Decision (P a)} l : Forall P l -> filter P l = l.
Proof. induction 1 as [|a l Ha Hl IH]; [done|]. rewrite filter_cons_True by done. by rewrite IH. Qed.

(** A path that passes is read by the operating system as written. *)
Lemma safe_relative_path path :
  safe_relative path = Ok tt ->
  Path_new path = MkPath false (split_on "/" path)
  /\ Forall (fun part => unsafe_part part = false) (split_on "/" path).
Proof.
  unfold safe_relative. destruct (_ || _)%bool; [done|].
  destruct (existsb _ _) eqn:Hp; [done|]. intros _. apply existsb_Forall in Hp. split; [|done].
  assert (Forall (fun part => part <> "" /\ part <> ".") (split_on "/" path)) as Hn.
  { eapply Forall_impl; [exact Hp|]. intros part. unfold unsafe_part. intros Hu.
    reflect_bools. done. }
  unfold Path_new. rewrite filter_all by done.
  pose proof (split_on_nonempty "/" path) as Hne.
  destruct (split_on "/" path) as [|x rest]; [done|].
  apply Forall_cons in Hn as [[H1 H2] _].
  repeat (match goal with |- context [match ?x with _ => _ end] => destruct x end; try done).
Qed.

Lemma scope_components_spec names count n :
  scope_components (map component_of names) count = Ok n ->
  n = (count + length names)%nat
  /\ Forall (fun name => forbidden name = false /\ name <> "..") names.
Proof.
  revert count. induction names as [|name names IH]; intros count; cbn.
  - intros [= <-]. split; [lia|constructor].
  - unfold component_of at 1. destruct (String.eqb_spec name ".."); [done|].
    destruct (String.eqb_spec name "."); [done|]. destruct (forbidden name) eqn:Hf; [done|].
    intros [-> Hall]%IH. split; [cbn; lia|]. by constructor.
Qed.

Lemma system_root_under root target names :
  (2 <= length (p_names root))%nat -> target = below root names ->
  Forall (fun sys => path_starts_with root (Path_new sys) = false) system_roots ->
  Forall (fun sys => under (Path_new sys) target = false) system_roots.
Proof.
  intros Hlen -> Hall. destruct root as [r [|x [|y l]]]; cbn in Hlen; [lia..|].
  unfold system_roots in *. repeat (apply Forall_cons in Hall as [? Hall]).
  repeat constructor; assumption.
Qed.

(** Every path a recipe names. *)
Definition recipe_paths (r : CacheRecipe) : list string :=
  map ca_path (cr_artifacts r ++ [cr_marker r]) ++ map ce_path (cr_required r).

Lemma check_artifacts_spec artifacts paths bytes total :
  check_artifacts artifacts paths bytes = Ok total ->
  Forall (fun a => relative (ca_path a) = Ok tt /\ (str_len (ca_bytes a) <= MAX_FILE)%N) artifacts
  /\ NoDup (map ca_path artifacts)
  /\ (forall a, a ∈ artifacts -> ca_path a ∉ paths)
  /\ total = fold_left saturating_add (map (fun a => str_len (ca_bytes a)) artifacts) bytes.
Proof.
  revert paths bytes. induction artifacts as [|a rest IH]; intros paths bytes; cbn.
  - intros [= <-]. split_and!; try constructor. intros a Ha. by apply elem_of_nil in Ha.
  - destruct (relative (ca_path a)) as [[]|] eqn:Hr; [|done]. cbn [result_bind].
    destruct (_ || _)%bool eqn:Hb; [done|]. reflect_checks.
    intros (Hall & Hnd & Hnew & ->)%IH. split_and!; [by constructor| | |done].
    + constructor; [|done]. intros (b & Hb & Hin)%list_elem_of_In%in_map_iff.
      apply list_elem_of_In in Hin. apply (Hnew _ Hin). rewrite Hb. by apply elem_of_union_l, elem_of_singleton.
    + intros b [->|Hin]%elem_of_cons; [done|]. intros Hp. apply (Hnew _ Hin).
      by apply elem_of_union_r.
Qed.

Lemma recipe_sound r :
  recipe r = Ok tt ->
  Forall (fun path => relative path = Ok tt) (recipe_paths r)
  /\ Forall command_ok (cr_steps r)
  /\ NoDup (map ca_path (cr_artifacts r ++ [cr_marker r]))
  /\ Forall (fun a => (str_len (ca_bytes a) <= MAX_FILE)%N) (cr_artifacts r ++ [cr_marker r])
  /\ (fold_left saturating_add
        (map (fun a => str_len (ca_bytes a)) (cr_artifacts r ++ [cr_marker r])) 0 <= 1048576)%N
  /\ (length (cr_required r) <= 32)%nat /\ (length (cr_steps r) <= 16)%nat
  /\ (1 <= cr_timeout_ms r <= 14400000)%N.
Proof.
  unfold recipe. destruct (_ || _)%bool eqn:Hb; [done|].
  destruct (check_artifacts _ _ _) as [total|] eqn:Ha; [|done]. cbn [result_bind].
  destruct (1024 * 1024 <? total)%N eqn:Ht; [done|].
  destruct (check_all _ (cr_required r)) as [[]|] eqn:Hq; [|done]. cbn [result_bind].
  intros Hs%check_all_Forall. apply check_all_Forall in Hq.
  apply check_artifacts_spec in Ha as (Hall & Hnd & _ & ->). reflect_checks.
  split_and!; try lia; try done.
  - unfold recipe_paths. apply Forall_app. rewrite !List.Forall_map. split; [|done].
    eapply Forall_impl; [exact Hall|]. by intros ? [? _].
  - eapply Forall_impl; [exact Hs|]. apply command_sound.
  - eapply Forall_impl; [exact Hall|]. by intros ? [_ ?].
Qed.

Lemma scope_sound home s :
  scope home s = Ok tt ->
  let root := Path_new (cs_root s) in
  p_root root = true /\ (2 <= length (p_names root))%nat /\ home <> Some root
  /\ Forall (fun name => forbidden name = false /\ name <> "..") (p_names root)
  /\ Forall (fun sys => path_starts_with root (Path_new sys) = false) system_roots.
Proof.
  unfold scope. cbn zeta. destruct (_ || _)%bool eqn:Hb; [done|]. reflect_checks.
  assert (p_root (Path_new (cs_root s)) = true) as Hroot by done.
  unfold components. rewrite Hroot. cbn [app scope_components].
  destruct (scope_components _ 0) as [n|] eqn:Hc; [|done]. cbn [result_bind].
  apply scope_components_spec in Hc as [-> Hnames].
  destruct (_ || _)%bool eqn:Hcount; [done|]. destruct (existsb _ _) eqn:Hsys; [done|]. intros _.
  apply orb_false_iff in Hcount as [Hcount Hhome]. apply Nat.ltb_ge in Hcount.
  apply bool_decide_eq_false in Hhome. apply existsb_Forall in Hsys. done.
Qed.

(** C32. A recipe can only name files strictly inside the location the host approved,
    whatever the paths say: for an accepted scope and an accepted recipe, every
    artifact, marker and required path, joined to the scope, is below the scope's
    root by its own parts, climbs nowhere, is in no system directory, passes through
    no credential or configuration directory, and is none of the cache's own files;
    nor is the scope the home directory or a whole filesystem. *)
Theorem recipe_stays_in_scope (home : option Path) (s : WorkerCacheScope) (r : CacheRecipe)
    (path : string) :
  scope home s = Ok tt -> recipe r = Ok tt -> path ∈ recipe_paths r ->
  let root := Path_new (cs_root s) in
  let parts := split_on "/" path in
  let target := path_join root (Path_new path) in
  is_absolute root = true /\ (2 <= length (p_names root))%nat /\ home <> Some root
  /\ parts <> [] /\ target = below root parts
  /\ Forall (fun name => forbidden name = false /\ name <> "..") (p_names target)
  /\ Forall (fun part => router_owned part = false) parts
  /\ Forall (fun sys => under (Path_new sys) target = false) system_roots.
Proof.
  intros (Habs & Hlen & Hhome & Hnames & Hsys)%scope_sound (Hrel & _)%recipe_sound Hin.
  cbn zeta in *. rewrite Forall_forall in Hrel. specialize (Hrel _ Hin). unfold relative in Hrel.
  destruct (safe_relative path) as [[]|] eqn:Hsafe; [|done]. cbn [result_bind] in Hrel.
  destruct (existsb router_owned _) eqn:Hown; [done|]. apply existsb_Forall in Hown.
  apply safe_relative_path in Hsafe as [Hpath Hparts].
  assert (path_join (Path_new (cs_root s)) (Path_new path)
          = below (Path_new (cs_root s)) (split_on "/" path)) as Htarget.
  { rewrite Hpath. unfold path_join, below. cbn [p_root p_names]. f_equal. f_equal.
    destruct (split_on "/" path) as [|x rest]; [done|].
    apply Forall_cons in Hparts as [Hx _]. unfold unsafe_part in Hx. reflect_bools.
    repeat (match goal with |- context [match ?x with _ => _ end] => destruct x end; try done). }
  split_and!; [done|done|done|apply split_on_nonempty|done| |done|].
  - rewrite Htarget. cbn [p_names below]. apply Forall_app. split; [done|].
    eapply Forall_impl; [exact Hparts|]. intros part. unfold unsafe_part. intros Hu.
    reflect_bools. done.
  - by eapply system_root_under.
Qed.

Lemma fold_saturating_total l :
  (fold_left saturating_add l 0 <= 1048576)%N -> (fold_left N.add l 0 <= 1048576)%N.
Proof.
  assert (forall l a b, (a = b \/ u64_max <= a)%N ->
            fold_left saturating_add l a = fold_left N.add l b
            \/ (u64_max <= fold_left saturating_add l a)%N) as Hgen.
  { clear l. induction l as [|x l IH]; intros a b Hab; cbn; [done|]. apply IH.
    unfold saturating_add. destruct Hab as [->|Hab]; lia. }
  intros Hl. destruct (Hgen l 0%N 0%N (or_introl eq_refl)) as [<-|Hmax]; [done|].
  unfold u64_max, u64_modulus in Hmax. lia.
Qed.

(** An accepted recipe is small and unambiguous: no two of its files share a path,
    each is at most 64 KiB and all of them together at most a megabyte (the count
    never wraps), its commands are sound, and it ends within four hours. *)
Theorem recipe_bounded (r : CacheRecipe) :
  recipe r = Ok tt ->
  NoDup (map ca_path (cr_artifacts r ++ [cr_marker r]))
  /\ Forall (fun a => (str_len (ca_bytes a) <= 65536)%N) (cr_artifacts r ++ [cr_marker r])
  /\ (fold_left N.add (map (fun a => str_len (ca_bytes a)) (cr_artifacts r ++ [cr_marker r])) 0
      <= 1048576)%N
  /\ Forall command_ok (cr_steps r)
  /\ (length (cr_required r) <= 32)%nat /\ (length (cr_steps r) <= 16)%nat
  /\ (1 <= cr_timeout_ms r <= 14400000)%N.
Proof.
  intros (_ & Hsteps & Hnd & Hsize & Htotal & Hreq & Hn & Ht)%recipe_sound.
  split; [done|]. split; [exact Hsize|]. split; [by apply fold_saturating_total|].
  repeat split; try done; lia.
Qed.

(** ** The properties at work *)

Section Samples.
Let python := MkWorkerCommand "/opt/venv/bin/python" ["-m"; "server"] [("LANG", "C")] None.
Let sample_plan := MkWorkerPlan "print()" python [python] ["text"] 30000 5000 None 0.
Let sample_scope := MkWorkerCacheScope "models" "/var/cache/models".
Let sample_recipe := MkCacheRecipe "models" [MkCacheArtifact "bin/run.py" "print()"] [python]
  [MkCacheEntry "venv/bin/python" FileEntry] (MkCacheArtifact "ready" "1") Strict 60000.

Example climbing_paths_are_refused :
  map relative ["a/../b"; "/etc/passwd"; "a//b"; "x/.SSH/key"; ".TinyRuntime-lock"; "com1.txt"; "ok/f"]
  = [Err "cache_path_invalid"; Err "cache_path_invalid"; Err "cache_path_invalid";
     Err "cache_path_invalid"; Err "cache_path_invalid"; Err "cache_path_invalid"; Ok tt].
Proof. vm_compute. reflexivity. Qed.

Example wide_scopes_are_refused :
  map (fun root => scope (Some (Path_new "/home/me")) (MkWorkerCacheScope "s" root))
    ["/"; "/var"; "/home/me"; "/home/me/.config/x"; "/usr/local/x"; "/srv/../etc"; "/home/me/cache"]
  = [Err "cache_scope_forbidden"; Err "cache_scope_forbidden"; Err "cache_scope_forbidden";
     Err "cache_scope_forbidden"; Err "cache_scope_forbidden"; Err "cache_scope_invalid"; Ok tt].
Proof. vm_compute. reflexivity. Qed.

Lemma plan_bounded_witness :
  plan sample_plan = Ok tt
  /\ (plan_size sample_plan <= 2236544)%N
  /\ Forall command_ok (wp_command sample_plan :: wp_preparation sample_plan)
  /\ (length (wp_preparation sample_plan) <= 16)%nat
  /\ (1 <= wp_startup_timeout_ms sample_plan <= 1800000)%N
  /\ (1 <= wp_request_timeout_ms sample_plan <= 60000)%N
  /\ (wp_idle_timeout_ms sample_plan <= 86400000)%N
  /\ wc_timeout_ms (wp_command sample_plan) = None.
Proof.
  split; [vm_compute; reflexivity|]. apply (plan_bounded sample_plan). vm_compute. reflexivity.
Defined.

Lemma recipe_stays_in_scope_witness :
  let root := Path_new "/var/cache/models" in
  let parts := ["venv"; "bin"; "python"] in
  let target := path_join root (Path_new "venv/bin/python") in
  is_absolute root = true /\ (2 <= length (p_names root))%nat
  /\ Some (Path_new "/home/me") <> Some root
  /\ parts <> [] /\ target = below root parts
  /\ Forall (fun name => forbidden name = false /\ name <> "..") (p_names target)
  /\ Forall (fun part => router_owned part = false) parts
  /\ Forall (fun sys => under (Path_new sys) target = false) system_roots.
Proof.
  apply (recipe_stays_in_scope (Some (Path_new "/home/me")) sample_scope sample_recipe
           "venv/bin/python"); [vm_compute; reflexivity..|].
  apply (bool_decide_unpack _). vm_compute. exact I.
Defined.

Lemma recipe_bounded_witness :
  NoDup (map ca_path (cr_artifacts sample_recipe ++ [cr_marker sample_recipe]))
  /\ Forall (fun a => (str_len (ca_bytes a) <= 65536)%N)
       (cr_artifacts sample_recipe ++ [cr_marker sample_recipe])
  /\ (fold_left N.add (map (fun a => str_len (ca_bytes a))
        (cr_artifacts sample_recipe ++ [cr_marker sample_recipe])) 0 <= 1048576)%N
  /\ Forall command_ok (cr_steps sample_recipe)
  /\ (length (cr_required sample_recipe) <= 32)%nat /\ (length (cr_steps sample_recipe) <= 16)%nat
  /\ (1 <= cr_timeout_ms sample_recipe <= 14400000)%N.
Proof. apply (recipe_bounded sample_recipe). vm_compute. reflexivity. Defined.

End Samples.
