(* ===== verification/Native.v ===== *)
(** * A persistent worker's process: [worker/native.rs]

    Frames read from its output, the handshake, a request and its reply, and who owns
    the process group until the operating system has given it up. *)

From S2P Require Import Prelude RustStd Identity Vocabulary Errors World PoolWorker WorkerTypes.
From S2P Require Import WorkerValidate.

Open Scope rust_scope.

Definition MAX_OPERATION_BYTES : N := 1024 * 1024.

(** ** Reading frames *)

(** One [fill_buf] of a pipe: bytes (none at end of file), or a failure. A list that
    ends says nothing more has arrived yet. *)
Inductive fill := Chunk (bytes : string) | FillFailed.

Definition newline_byte : ascii := "010"%char.

(** The text up to and including the first newline, and what follows it. *)
Fixpoint cut_line (s : string) : option (string * string) :=
  match s with
  | EmptyString => None
  | String c r =>
      if Ascii.eqb c newline_byte then Some (String c "", r)
      else (fun '(taken, more) => (String c taken, more)) <$> cut_line r
  end.

Definition put_back (more : string) (reader : list fill) : list fill :=
  if String.eqb more "" then reader else Chunk more :: reader.

(** [line], with the bytes held so far: [None] while it still waits. *)
Fixpoint line_loop (reader : list fill) (bytes : string)
  : option (result string string * list fill) :=
  match reader with
  | [] => None
  | FillFailed :: rest => Some (Err "read_failed", rest)
  | Chunk chunk :: rest =>
      if String.eqb chunk "" then Some (Err "worker_closed", reader)
      else
        let '(taken, more, complete) :=
          match cut_line chunk with
          | Some (taken, more) => (taken, more, true)
          | None => (chunk, "", false)
          end in
        if (MAX_LINE - str_len bytes <? str_len taken)%N then Some (Err "frame_limit", reader)
        else
          let bytes := bytes +:+ taken in
          if complete : bool then Some (Ok bytes, put_back more rest)
          else if (str_len bytes =? MAX_LINE)%N then Some (Err "frame_limit", rest)
          else line_loop rest bytes
  end.

Definition line (reader : list fill) : option (result string string * list fill) :=
  line_loop reader "".

(** ** Deadlines and the command *)

Definition command_deadline (plan : WorkerCommand) (enclosing now : N) : N :=
  match wc_timeout_ms plan with
  | Some timeout => N.min enclosing (now + timeout)
  | None => enclosing
  end.

(** Where the child starts: in a directory held open, or in one found by its path. *)
Inductive start_in (Dir : Type) := Held (d : Dir) | ByPath (root : Path).
Arguments Held {Dir} d.
Arguments ByPath {Dir} root.

Definition command {Dir : Type} (vars : string -> option string) (plan : WorkerCommand)
    (root : Path) (directory : option Dir) (spawner : option Spawner) (trailing : option Path)
  : result io_error (SpawnSpec * start_in Dir) :=
  let bin := default (Path_new ".") (parent (Path_new (wc_executable plan))) in
  let args := wc_args plan ++ match trailing with Some t => [path_display t] | None => [] end in
  spec <-! map_err (fun error => MkIoError OtherIo (SpawnRefused_display error))
             (confine spawner {|
                ss_program := Path_new (wc_executable plan);
                ss_args := args;
                ss_env := env_build vars bin (wc_env plan);
                ss_clear_env := true
              |}) ;;
  Ok (spec, match directory with Some d => Held d | None => ByPath root end).

(** ** Handshake and requests *)

Section Protocol.
Context `{JsonValue}.

Class WorkerJson := {
  encode_request : ServerRequest -> result string string;
  decode_ready : string -> option ReadyLine;
  decode_response : string -> option ServerResponse
}.
Context `{WorkerJson}.

Definition handshake (reader : list fill) : option (result string ReadyLine * list fill) :=
  match line reader with
  | None => None
  | Some (Err e, reader) => Some (Err e, reader)
  | Some (Ok bytes, reader) =>
      Some (match decode_ready bytes with
            | None => Err "invalid_ready"
            | Some ready =>
                if negb (rl_ready ready) then Err "worker_not_ready"
                else if bool_decide (rl_protocol ready = Some PROTOCOL_VERSION) then Ok ready
                else Err "protocol_mismatch"
            end, reader)
  end.

(** The reading loop of [request]; each turn reads a line, so as many turns as there
    are bytes are enough. *)
Fixpoint read_response (fuel : nat) (id : string) (remaining : N) (reader : list fill)
  : option (result string ServerResponse * list fill) :=
  match fuel with
  | O => None
  | S fuel =>
      match line reader with
      | None => None
      | Some (Err e, reader) => Some (Err e, reader)
      | Some (Ok bytes, reader) =>
          if (remaining <? str_len bytes)%N then Some (Err "output_limit", reader)
          else
            let remaining := (remaining - str_len bytes)%N in
            match decode_response bytes with
            | Some response =>
                if bool_decide (sp_id response = Some id) then Some (Ok response, reader)
                else read_response fuel id remaining reader
            | None => read_response fuel id remaining reader
            end
      end
  end.

Definition stream_size (reader : list fill) : nat :=
  sum_list_with (fun f => match f with Chunk s => String.length s | FillFailed => 0 end) reader.

(** [stdin]: whether the write and the flush succeed. The answer says whether anything
    may have been written. *)
Definition Process_request (stdin : result string unit) (r : ServerRequest) (reader : list fill)
  : option (result string ServerResponse * list fill) :=
  match encode_request r with
  | Err _ => Some (Err "encode_failed", reader)
  | Ok bytes =>
      if (MAX_LINE <=? str_len bytes)%N then Some (Err "request_limit", reader)
      else match stdin with
           | Err _ => Some (Err "write_failed", reader)
           | Ok _ => read_response (S (stream_size reader)) (sr_id r) MAX_OPERATION_BYTES reader
           end
  end.

End Protocol.

(** ** Who owns the process group *)

(** The task that waits for a killed group: running, or lost with the runtime. *)
Inductive Reaper := Waiting | Lost.

(** The group is held here, by the task, or by nobody; [killed] and [waited] record what
    has been done to it. *)
Record ownership := MkOwnership {
  ow_child : bool;
  ow_reaping : option Reaper;
  ow_killed : bool;
  ow_waited : bool
}.

Definition spawned : ownership := MkOwnership true None false false.

(** How the awaited task ends: the group was waited for, the wait failed (the group
    comes back), or the task was aborted. *)
Inductive task_end := Waited | WaitFailed | Aborted.

(** The part of [reap] that runs at once: kill, and hand the group to a task. *)
Definition begin_reap (o : ownership) : ownership :=
  match ow_reaping o with
  | None => if ow_child o then MkOwnership false (Some Waiting) true (ow_waited o) else o
  | Some _ => o
  end.

(** [reap]: [task] is [None] when the future is dropped while it waits. *)
Definition reap (task : option task_end) (o : ownership)
  : option (result string unit) * ownership :=
  let o := begin_reap o in
  match ow_reaping o with
  | None => (Some (Ok tt), o)
  | Some Lost => (Some (Err "reap_task_failed"), o)
  | Some Waiting =>
      match task with
      | None => (None, o)
      | Some Waited => (Some (Ok tt), MkOwnership (ow_child o) None (ow_killed o) true)
      | Some WaitFailed => (Some (Err "reap_failed"), MkOwnership true None (ow_killed o) (ow_waited o))
      | Some Aborted => (Some (Err "reap_task_failed"),
                         MkOwnership (ow_child o) (Some Lost) (ow_killed o) (ow_waited o))
      end
  end.

(** [try_wait] of the child says it still runs. *)
Definition is_alive (try_wait : result string (option Z)) (o : ownership) : bool :=
  match ow_reaping o with
  | Some _ => false
  | None => ow_child o && match try_wait with Ok None => true | _ => false end
  end.

(** A process: its group, the output not yet read, and whether its standard error is
    still being drained. *)
Record Process := MkProcess {
  pc_group : ownership;
  pc_stdout : list fill;
  pc_stderr : bool
}.

Definition Process_spawned (stdout : list fill) : Process := MkProcess spawned stdout true.

Definition Process_cleanup (task : option task_end) (p : Process)
  : option (result string unit) * Process :=
  let '(r, group) := reap task (pc_group p) in
  match r with
  | Some (Ok _) => (r, MkProcess group (pc_stdout p) false)
  | _ => (r, MkProcess group (pc_stdout p) (pc_stderr p))
  end.

(** ** Preparation steps *)

(** What a pipe gives next: some bytes, its end, or a failure. *)
Inductive pipe_read := PipeBytes (count : N) | PipeEnd | PipeFailed.

(** The two [drain_bounded] of [execute], sharing a counter, under [try_join]: the
    reads in the order they happen ([true] for standard output), the pipes still open.
    [None] while one is open and silent. *)
Fixpoint drain_pipes (reads : list (bool * pipe_read)) (out err : bool) (total : N)
  : option (result string unit) :=
  if negb out && negb err then Some (Ok tt)
  else match reads with
       | [] => None
       | (which, r) :: rest =>
           if (if which : bool then out else err) then
             match r with
             | PipeFailed => Some (Err "prepare_read_failed")
             | PipeEnd =>
                 drain_pipes rest (if which then false else out) (if which then err else false) total
             | PipeBytes count =>
                 let total := (total + count)%N in
                 if (MAX_OPERATION_BYTES <? total)%N then Some (Err "prepare_output_limit")
                 else drain_pipes rest out err total
             end
           else drain_pipes rest out err total
       end.

(** A [select] of the stop signal, a deadline and some work, in that order. *)
Inductive raced (A : Type) := Canceled | TimedOut | Done (a : A).
Arguments Canceled {A}.
Arguments TimedOut {A}.
Arguments Done {A} a.

Record Preparation := MkPreparation {
  pr_group : ownership;
  pr_pipes : bool     (* both pipes still held *)
}.

Definition Preparation_spawned : Preparation := MkPreparation spawned true.

Definition Preparation_cleanup (task : option task_end) (p : Preparation)
  : option (result string unit) * Preparation :=
  let '(r, group) := reap task (pr_group p) in
  match r with
  | Some (Ok _) => (r, MkPreparation group false)
  | Some (Err _) => (Some (Err "prepare_reap_failed"), MkPreparation group (pr_pipes p))
  | None => (None, MkPreparation group (pr_pipes p))
  end.

Definition kill (o : ownership) : ownership :=
  MkOwnership (ow_child o) (ow_reaping o) true (ow_waited o).

(** [execute]: the reading raced, then the direct child's wait raced (its status, when
    the wait succeeds), then the reap if that wait did not end. *)
Definition execute (reading : raced (result string unit)) (waiting : raced (result string bool))
    (task : option task_end) (p : Preparation)
  : option (result string unit) * Preparation :=
  if negb (pr_pipes p) then (Some (Err "stdout_missing"), p)
  else
    let p := MkPreparation (pr_group p) false in
    let result := match reading with
                  | Canceled => Err "canceled"
                  | TimedOut => Err "prepare_timeout"
                  | Done r => r
                  end in
    if negb (ow_child (pr_group p)) then (Some (Err "prepare_closed"), p)
    else
      let p := match result with
               | Err _ => MkPreparation (kill (pr_group p)) (pr_pipes p)
               | Ok _ => p
               end in
      let wait := match waiting with
                  | Canceled => Err "canceled"
                  | TimedOut => Err "prepare_timeout"
                  | Done (Err _) => Err "prepare_reap_failed"
                  | Done (Ok status) => Ok status
                  end in
      let '(cleaned, p) :=
        match wait with
        | Err _ => Preparation_cleanup task p
        | Ok _ => (Some (Ok tt), p)
        end in
      match cleaned with
      | None => (None, p)
      | Some (Err e) => (Some (Err e), p)
      | Some (Ok _) =>
          (Some (_ <-! result ;; status <-! wait ;;
                 if status : bool then Ok tt else Err "prepare_failed"), p)
      end.

(** Dropping the owner kills what it still holds and, where a runtime is left to do it,
    waits for it in the background. *)
Definition cleanup_on_drop (runtime : bool) (o : ownership) : ownership :=
  let o := if ow_child o then kill o else o in
  if runtime && ow_child o then MkOwnership false (Some Waiting) (ow_killed o) (ow_waited o) else o.

(** ** Frames *)

Lemma string_app_inj_l (a b c : string) : a +:+ b = a +:+ c -> b = c.
Proof. apply (inj (String.append a)). Qed.

Lemma cut_line_spec s taken more :
  cut_line s = Some (taken, more) ->
  s = taken +:+ more /\ cut_line taken = Some (taken, "") /\ taken <> "".
Proof.
  revert taken more. induction s as [|c s IH]; intros taken more; cbn -[Ascii.eqb]; [done|].
  destruct (Ascii.eqb c newline_byte) eqn:Hc.
  - intros [= <- <-]. cbn -[Ascii.eqb]. by rewrite Hc.
  - destruct (cut_line s) as [[t l]|] eqn:E; cbn; [|done]. intros [= <- <-].
    destruct (IH _ _ eq_refl) as (-> & Ht & _). rewrite string_append_cons.
    cbn -[Ascii.eqb]. by rewrite Hc, Ht.
Qed.

Lemma cut_line_app a b :
  cut_line (a +:+ b)
  = match cut_line a with
    | Some (taken, more) => Some (taken, more +:+ b)
    | None => (fun '(taken, more) => (a +:+ taken, more)) <$> cut_line b
    end.
Proof.
  induction a as [|c a IH].
  - change ("" +:+ b) with b. cbn. by destruct (cut_line b) as [[]|].
  - rewrite string_append_cons. cbn -[Ascii.eqb]. destruct (Ascii.eqb c newline_byte); [done|].
    rewrite IH. destruct (cut_line a) as [[]|]; [done|]. by destruct (cut_line b) as [[]|].
Qed.

(** The bytes a reader will give before its end. *)
Fixpoint text (reader : list fill) : string :=
  match reader with
  | Chunk s :: rest => if String.eqb s "" then "" else s +:+ text rest
  | _ => ""
  end.

Lemma text_put_back more reader : text (put_back more reader) = more +:+ text reader.
Proof. unfold put_back. destruct (String.eqb_spec more "") as [->|Hne]; [done|]. cbn.
  destruct (String.eqb_spec more ""); done. Qed.

Lemma stream_size_chunk s reader :
  stream_size (Chunk s :: reader) = (String.length s + stream_size reader)%nat.
Proof. done. Qed.

Lemma size_put_back more reader :
  stream_size (put_back more reader) = (String.length more + stream_size reader)%nat.
Proof. unfold put_back. by destruct (String.eqb_spec more "") as [->|Hne]. Qed.

(** A whole line within the limit. *)
Definition is_frame (s : string) : Prop := cut_line s = Some (s, "") /\ (str_len s <= MAX_LINE)%N.

Lemma line_loop_ok reader bytes frame reader' :
  cut_line bytes = None -> (str_len bytes <= MAX_LINE)%N ->
  line_loop reader bytes = Some (Ok frame, reader') ->
  is_frame frame
  /\ bytes +:+ text reader = frame +:+ text reader'
  /\ (stream_size reader + String.length bytes = String.length frame + stream_size reader')%nat
  /\ (length reader' <= length reader)%nat.
Proof.
  revert bytes. induction reader as [|[chunk|] rest IH]; intros bytes Hb Hlen; cbn [line_loop text];
    [done| |done].
  destruct (String.eqb_spec chunk "") as [->|Hne]; [done|].
  destruct (cut_line chunk) as [[taken more]|] eqn:Hcut.
  - destruct (N.ltb_spec (MAX_LINE - str_len bytes) (str_len taken)) as [|Hfit]; [done|].
    intros [= <- <-]. destruct (cut_line_spec _ _ _ Hcut) as (-> & Ht & _).
    rewrite text_put_back, size_put_back, stream_size_chunk, string_app_assoc. unfold is_frame.
    rewrite cut_line_app, Hb, Ht. unfold str_len in *. rewrite !string_length_app.
    split; [split; [done|lia]|]. split; [by rewrite !string_app_assoc|]. split; [lia|].
    unfold put_back. destruct (String.eqb more ""); cbn; lia.
  - destruct (N.ltb_spec (MAX_LINE - str_len bytes) (str_len chunk)) as [|Hfit]; [done|].
    destruct (N.eqb_spec (str_len (bytes +:+ chunk)) MAX_LINE); [done|].
    intros Hr. apply IH in Hr as (Hf & Ht & Hs & Hl);
      [|by rewrite cut_line_app, Hb, Hcut|unfold str_len in *; rewrite string_length_app; lia].
    rewrite string_length_app in Hs. rewrite <- string_app_assoc, stream_size_chunk. split_and!; [done|done|lia|cbn; lia].
Qed.

Lemma cut_line_long s taken more :
  cut_line s = Some (taken, more) -> String.length s = (String.length taken + String.length more)%nat.
Proof. intros (-> & _ & _)%cut_line_spec. apply string_length_app. Qed.

Definition nonempty (s : string) : Prop := s <> "".

(** What a reader says once its bytes are used up. *)
Definition at_end (tail : list fill) : option (result string string * list fill) :=
  match tail with
  | [] => None
  | FillFailed :: rest => Some (Err "read_failed", rest)
  | Chunk _ :: _ => Some (Err "worker_closed", tail)
  end.

Definition ended (tail : list fill) : Prop :=
  match tail with Chunk s :: _ => s = "" | _ => True end.

Lemma line_loop_chunks (cs : list string) (tail : list fill) (bytes : string) :
  Forall nonempty cs -> ended tail -> cut_line bytes = None -> (str_len bytes < MAX_LINE)%N ->
  match cut_line (String.concat "" cs) with
  | Some (taken, more) =>
      if (str_len bytes + str_len taken <=? MAX_LINE)%N then
        exists cs', line_loop (map Chunk cs ++ tail) bytes = Some (Ok (bytes +:+ taken), map Chunk cs' ++ tail)
                    /\ String.concat "" cs' = more /\ Forall nonempty cs'
      else exists r, line_loop (map Chunk cs ++ tail) bytes = Some (Err "frame_limit", r)
  | None =>
      if (MAX_LINE <=? str_len bytes + str_len (String.concat "" cs))%N
      then exists r, line_loop (map Chunk cs ++ tail) bytes = Some (Err "frame_limit", r)
      else line_loop (map Chunk cs ++ tail) bytes = at_end tail
  end.
Proof.
  intros Hcs Htail. revert bytes. induction Hcs as [|c cs Hc Hcs IH]; intros bytes Hb Hlen.
  - cbn -[MAX_LINE]. destruct (N.leb_spec MAX_LINE (str_len bytes + str_len "")) as [Hm|_].
    { unfold str_len in *. cbn in Hm. lia. }
    destruct tail as [|[s|] tail]; cbn; [done| |done]. cbn in Htail. by subst.
  - rewrite string_concat_cons, cut_line_app. cbn [map app line_loop].
    destruct (String.eqb_spec c "") as [|_]; [done|].
    destruct (cut_line c) as [[taken more]|] eqn:Hcut.
    + destruct (N.leb_spec (str_len bytes + str_len taken) MAX_LINE);
        destruct (N.ltb_spec (MAX_LINE - str_len bytes) (str_len taken)); try lia; [|eauto].
      unfold put_back. destruct (String.eqb_spec more "") as [->|Hne].
      * by exists cs.
      * exists (more :: cs). split_and!; [done|by rewrite string_concat_cons|by constructor].
    + assert (str_len (bytes +:+ c) = str_len bytes + str_len c)%N as Hbc.
      { unfold str_len. rewrite string_length_app. lia. }
      assert (forall t, str_len (c +:+ t) = str_len c + str_len t)%N as Hct.
      { intros t. unfold str_len. rewrite string_length_app. lia. }
      rewrite Hbc. destruct (N.ltb_spec (MAX_LINE - str_len bytes) (str_len c)) as [Hover|Hfit].
      * destruct (cut_line (String.concat "" cs)) as [[t l]|]; cbn [fmap option_fmap option_map];
          rewrite Hct; [destruct (N.leb_spec (str_len bytes + (str_len c + str_len t)) MAX_LINE)
                       |destruct (N.leb_spec MAX_LINE (str_len bytes + (str_len c + str_len (String.concat "" cs))))];
          try lia; eauto.
      * destruct (N.eqb_spec (str_len bytes + str_len c) MAX_LINE) as [Heq|Hne].
        { destruct (cut_line (String.concat "" cs)) as [[t l]|] eqn:Ht;
            cbn [fmap option_fmap option_map]; rewrite Hct.
          - apply cut_line_spec in Ht as (_ & _ & Ht).
            assert (0 < str_len t)%N. { unfold str_len. destruct t; cbn; [done|lia]. }
            destruct (N.leb_spec (str_len bytes + (str_len c + str_len t)) MAX_LINE); [lia|eauto].
          - destruct (N.leb_spec MAX_LINE (str_len bytes + (str_len c + str_len (String.concat "" cs))));
              [eauto|lia]. }
        specialize (IH (bytes +:+ c)). rewrite cut_line_app, Hb, Hcut, Hbc in IH.
        specialize (IH eq_refl ltac:(lia)).
        destruct (cut_line (String.concat "" cs)) as [[t l]|]; cbn [fmap option_fmap option_map];
          rewrite Hct, N.add_assoc; [|done]. by rewrite string_app_assoc in IH.
Qed.

(** C30. Frames do not depend on how the pipe cuts the bytes: whatever non-empty pieces a
    text arrives in, the reader takes exactly its first line when that is within the
    limit and leaves exactly the rest, refuses a longer one, and otherwise reports what
    came after the bytes (its end, a failure, or nothing yet). *)
Theorem line_ignores_chunking (cs : list string) (tail : list fill) :
  Forall nonempty cs -> ended tail ->
  match cut_line (String.concat "" cs) with
  | Some (frame, more) =>
      if (str_len frame <=? MAX_LINE)%N then
        exists cs', line (map Chunk cs ++ tail) = Some (Ok frame, map Chunk cs' ++ tail)
                    /\ String.concat "" cs' = more /\ Forall nonempty cs'
      else exists r, line (map Chunk cs ++ tail) = Some (Err "frame_limit", r)
  | None =>
      if (MAX_LINE <=? str_len (String.concat "" cs))%N
      then exists r, line (map Chunk cs ++ tail) = Some (Err "frame_limit", r)
      else line (map Chunk cs ++ tail) = at_end tail
  end.
Proof. intros Hcs Htail. by apply (line_loop_chunks cs tail "" Hcs Htail). Qed.

(** ** Requests *)

Section RequestFacts.
Context `{JsonValue} `{!WorkerJson}.

Definition answers (id frame : string) : Prop :=
  exists response, decode_response frame = Some response /\ sp_id response = Some id.

Lemma read_response_ok fuel id remaining reader response reader' :
  read_response fuel id remaining reader = Some (Ok response, reader') ->
  exists skipped frame,
    text reader = String.concat "" (skipped ++ [frame]) +:+ text reader'
    /\ Forall is_frame (skipped ++ [frame])
    /\ (total_len (skipped ++ [frame]) <= remaining)%N
    /\ Forall (fun s => ~ answers id s) skipped
    /\ decode_response frame = Some response /\ sp_id response = Some id.
Proof.
  revert remaining reader. induction fuel as [|fuel IH]; intros remaining reader; cbn; [done|].
  destruct (line reader) as [[[frame|e] rest]|] eqn:Hl; [|done..].
  apply line_loop_ok in Hl as (Hf & Ht & _ & _); [|done..].
  change ("" +:+ text reader) with (text reader) in Ht.
  destruct (N.ltb_spec remaining (str_len frame)) as [|Hfit]; [done|].
  assert (forall skip, read_response fuel id (remaining - str_len frame) rest
                       = Some (Ok response, reader') -> skip = frame -> ~ answers id skip ->
          exists skipped last,
            text reader = String.concat "" (skipped ++ [last]) +:+ text reader'
            /\ Forall is_frame (skipped ++ [last])
            /\ (total_len (skipped ++ [last]) <= remaining)%N
            /\ Forall (fun s => ~ answers id s) skipped
            /\ decode_response last = Some response /\ sp_id response = Some id) as Hskip.
  { intros skip (skipped & last & Hr & Hfs & Hlen & Hno & Hd & Hid)%IH -> Hskip.
    exists (frame :: skipped), last. cbn [app]. rewrite string_concat_cons, string_app_assoc, <- Hr.
    split_and!; [done|by constructor| |by constructor|done..].
    unfold total_len, str_len in *. cbn [sum_list_with]. lia. }
  destruct (decode_response frame) as [got|] eqn:Hd.
  - case_bool_decide as Hid.
    + intros [= <- <-]. exists [], frame. cbn [app]. rewrite string_concat_cons. cbn [String.concat].
      rewrite string_app_nil_r. split_and!; [done|by constructor| |constructor|done..].
      unfold total_len, str_len in *. cbn. lia.
    + intros Hr. eapply Hskip; [done..|]. intros (? & Hd' & Hid'). congruence.
  - intros Hr. eapply Hskip; [done..|]. intros (? & Hd' & _). congruence.
Qed.

(** The reader's bytes stop: its end or a failure is in it. *)
Definition ends (reader : list fill) : Prop := Chunk "" ∈ reader \/ FillFailed ∈ reader.

Lemma line_loop_ends reader bytes :
  ends reader -> exists r reader', line_loop reader bytes = Some (r, reader')
    /\ (ends reader' \/ exists e, r = Err e).
Proof.
  revert bytes. induction reader as [|[chunk|] rest IH]; intros bytes He; cbn.
  - destruct He as [He|He]; by apply elem_of_nil in He.
  - destruct (String.eqb_spec chunk "") as [->|Hne]; [eauto 6|].
    assert (ends rest) as Hrest.
    { destruct He as [He|He]; apply elem_of_cons in He as [He|He]; first [congruence | by left | by right]. }
    destruct (cut_line chunk) as [[taken more]|]; (destruct (_ <? _)%N; [eauto 6|]).
    + eexists _, _. split; [done|]. left. unfold put_back.
      destruct (String.eqb more ""); [done|].
      destruct Hrest; [left|right]; by apply elem_of_cons; right.
    + destruct (_ =? _)%N; [eauto 6|]. by apply IH.
  - eauto 6.
Qed.

Lemma read_response_ends fuel id remaining reader :
  ends reader -> (stream_size reader < fuel)%nat ->
  exists r reader', read_response fuel id remaining reader = Some (r, reader').
Proof.
  revert remaining reader. induction fuel as [|fuel IH]; intros remaining reader He Hf; [lia|].
  cbn. destruct (line_loop_ends reader "" He) as (r & rest & Hl & Hr). unfold line. rewrite Hl.
  destruct r as [frame|e]; [|eauto]. destruct Hr as [Hr|[e He']]; [|done].
  pose proof (line_loop_ok _ "" _ _ eq_refl ltac:(done) Hl) as ([Hcut _] & _ & Hsize & _).
  assert (0 < String.length frame)%nat. { destruct frame; [done|cbn; lia]. }
  destruct (_ <? _)%N; [eauto|].
  assert (exists r reader', read_response fuel id (remaining - str_len frame) rest = Some (r, reader'))
    as Hgo. { apply IH; [done|]. cbn in Hsize. lia. }
  destruct (decode_response frame); [case_bool_decide; eauto|done].
Qed.

(** C31. A worker is answered by its own reply or not at all, within bounds: a request
    that returns a reply sent one whole frame below the line limit and took the first
    line, of those the worker wrote, that answers its id, every line within the limit
    and all of them together within a megabyte; and whatever the worker writes, once
    its output ends the request returns. *)
Theorem request_is_answered_within_bounds (stdin : result string unit) (r : ServerRequest)
    (reader : list fill) :
  match Process_request stdin r reader with
  | Some (Ok response, reader') =>
      sp_id response = Some (sr_id r)
      /\ (exists bytes, encode_request r = Ok bytes /\ (str_len bytes < MAX_LINE)%N /\ is_ok stdin = true)
      /\ exists skipped frame,
           text reader = String.concat "" (skipped ++ [frame]) +:+ text reader'
           /\ decode_response frame = Some response
           /\ Forall (fun s => ~ answers (sr_id r) s) skipped
           /\ Forall is_frame (skipped ++ [frame])
           /\ (total_len (skipped ++ [frame]) <= 1048576)%N
  | Some (Err _, _) => True
  | None => ~ ends reader
  end.
Proof.
  unfold Process_request. destruct (encode_request r) as [bytes|]; [|done].
  destruct (N.leb_spec MAX_LINE (str_len bytes)); [done|]. destruct stdin; [|done].
  destruct (read_response _ _ _ reader) as [[[response|e] reader']|] eqn:Hr; [|done|].
  - apply read_response_ok in Hr as (skipped & frame & Ht & Hf & Hlen & Hno & Hd & Hid).
    split_and!; [done|by exists bytes|]. by exists skipped, frame.
  - intros He. destruct (read_response_ends (S (stream_size reader)) (sr_id r)
      MAX_OPERATION_BYTES reader He) as (? & ? & ?); [lia|congruence].
Qed.

End RequestFacts.

(** ** Ownership *)

(** What a process's owner does to its group, in any order: ask for it to be reaped
    (with what becomes of the wait), or kill it. *)
Inductive group_op := Reap (task : option task_end) | Kill.

Definition apply_op (o : ownership) (op : group_op) : ownership :=
  match op with Reap task => (reap task o).2 | Kill => if ow_child o then kill o else o end.

(** The group is in one place: held, with the task, lost with it, or waited for. *)
Definition one_owner (o : ownership) : Prop :=
  match ow_reaping o with
  | Some _ => ow_child o = false /\ ow_killed o = true /\ ow_waited o = false
  | None => if ow_child o then ow_waited o = false else ow_killed o = true /\ ow_waited o = true
  end.

Lemma reap_one_owner task o : one_owner o -> one_owner (reap task o).2.
Proof.
  destruct o as [[] [[]|] [] []], task as [[]|]; unfold one_owner; cbn;
    intuition congruence.
Qed.

Lemma apply_op_one_owner o op : one_owner o -> one_owner (apply_op o op).
Proof.
  destruct op; [apply reap_one_owner|]. destruct o as [[] [[]|] [] []]; unfold one_owner; cbn;
    intuition congruence.
Qed.

(** A child is never forgotten and never reported gone before it is: whatever is
    asked of its owner, in any order, with waits that fail, are interrupted or are
    aborted, the process group is always in exactly one place; cleaning up answers
    success only once the group has been killed and waited for, and then always; a
    failed wait gives the group back so that a later one can succeed; only an aborted
    wait is final, and that is never a success. *)
Theorem cleanup_never_forgets_a_child (ops : list group_op) (task : option task_end) :
  let o := fold_left apply_op ops spawned in
  let '(r, o') := reap task o in
  one_owner o /\ one_owner o'
  /\ (r = Some (Ok tt) <-> ow_killed o' = true /\ ow_waited o' = true)
  /\ (r = None -> ow_reaping o' = Some Waiting)
  /\ (ow_waited o' = false -> ow_reaping o' <> Some Lost ->
      (reap (Some Waited) o').1 = Some (Ok tt))
  /\ (ow_reaping o = Some Lost -> r = Some (Err "reap_task_failed") /\ o' = o).
Proof.
  cbn zeta. set (o := fold_left apply_op ops spawned).
  assert (one_owner o) as Ho.
  { subst o. assert (one_owner spawned) as Hs by done. revert Hs. generalize spawned.
    induction ops as [|op ops IH]; intros o Hs; [done|]. cbn. by apply IH, apply_op_one_owner. }
  pose proof (reap_one_owner task o Ho) as Ho'. destruct (reap task o) as [r o'] eqn:E.
  split; [done|]. split; [done|]. clearbody o. clear ops.
  destruct o as [[] [[]|] [] []]; unfold one_owner in Ho; cbn in Ho; destruct_and?; try done;
    destruct task as [[]|]; injection E as <- <-; cbn in *;
    (split_and!; [split|..]; intros; destruct_and?; first [done|congruence]).
Qed.

(** ** The output of a preparation step *)

Lemma drain_pipes_spec outs errs reads total (out err : bool) :
  omap (fun '(w, r) => if w : bool then Some r else None) reads
    = (if out then map PipeBytes outs ++ [PipeEnd] else []) ->
  omap (fun '(w, r) => if w : bool then None else Some r) reads
    = (if err then map PipeBytes errs ++ [PipeEnd] else []) ->
  (total <= MAX_OPERATION_BYTES)%N ->
  drain_pipes reads out err total
  = if (total + fold_right N.add 0 (if out then outs else [])
        + fold_right N.add 0 (if err then errs else []) <=? MAX_OPERATION_BYTES)%N
    then Some (Ok tt) else Some (Err "prepare_output_limit").
Proof.
  revert outs errs total out err. induction reads as [|[[] r] reads IH];
    intros outs errs total out err; cbn [omap list_omap]; intros Ho He Ht.
  - destruct out; [by destruct outs|]. destruct err; [by destruct errs|]. cbn.
    by rewrite !N.add_0_r, (proj2 (N.leb_le _ _) Ht).
  - destruct out; [|done]. cbn -[MAX_OPERATION_BYTES]. destruct outs as [|n outs].
    + injection Ho as -> Ho. rewrite (IH [] errs) by done. cbn -[MAX_OPERATION_BYTES].
      done.
    + injection Ho as -> Ho. cbn -[MAX_OPERATION_BYTES].
      destruct (N.ltb_spec MAX_OPERATION_BYTES (total + n)).
      * destruct (N.leb_spec (total + (n + fold_right N.add 0 outs)
          + fold_right N.add 0 (if err then errs else []))%N MAX_OPERATION_BYTES); [lia|done].
      * rewrite (IH outs errs) by done. cbn -[MAX_OPERATION_BYTES]. by rewrite N.add_assoc.
  - destruct err; [|done]. cbn -[MAX_OPERATION_BYTES]. rewrite andb_false_r.
    destruct errs as [|n errs].
    + injection He as -> He. rewrite (IH outs []) by done. cbn -[MAX_OPERATION_BYTES]. done.
    + injection He as -> He. cbn -[MAX_OPERATION_BYTES].
      destruct (N.ltb_spec MAX_OPERATION_BYTES (total + n)).
      * destruct (N.leb_spec (total + fold_right N.add 0 (if out then outs else [])
          + (n + fold_right N.add 0 errs))%N MAX_OPERATION_BYTES); [lia|done].
      * rewrite (IH outs errs) by done. cbn -[MAX_OPERATION_BYTES].
        by replace (total + n + fold_right N.add 0 (if out then outs else [])
                    + fold_right N.add 0 errs)%N
          with (total + fold_right N.add 0 (if out then outs else [])
                + (n + fold_right N.add 0 errs))%N by lia.
Qed.

(** The limit on a preparation step's output is on both pipes together, however their
    reads interleave: both drained to the end exactly when they hold at most a
    megabyte between them. *)
Lemma output_limit_ignores_interleaving (outs errs : list N) (reads : list (bool * pipe_read)) :
  omap (fun '(w, r) => if w : bool then Some r else None) reads = map PipeBytes outs ++ [PipeEnd] ->
  omap (fun '(w, r) => if w : bool then None else Some r) reads = map PipeBytes errs ++ [PipeEnd] ->
  drain_pipes reads true true 0
  = if (fold_right N.add 0 outs + fold_right N.add 0 errs <=? MAX_OPERATION_BYTES)%N
    then Some (Ok tt) else Some (Err "prepare_output_limit").
Proof. intros Ho He. by rewrite (drain_pipes_spec outs errs reads 0 true true). Qed.

(** A step only succeeds when both pipes were drained in time and the command said so;
    a step whose output or wait went wrong has been killed. *)
Lemma execute_succeeds_honestly reading waiting task p p' :
  execute reading waiting task p = (Some (Ok tt), p') ->
  reading = Done (Ok tt) /\ waiting = Done (Ok true) /\ p' = MkPreparation (pr_group p) false.
Proof.
  unfold execute. destruct (pr_pipes p); cbn; [|done].
  destruct (ow_child (pr_group p)) eqn:Hc; cbn; [|done].
  destruct reading as [| |[[]|]], waiting as [| |[[]|]]; cbn; try done;
    try (unfold Preparation_cleanup; destruct (reap _ _) as [[[[]|]|] ?]; done).
  by intros [= <-].
Qed.

(** ** The properties at work *)

Section Samples.

(** A line in three pieces, the next one begun in the last of them. *)
Lemma line_ignores_chunking_witness :
  let cs := ["{a"; "}"; String newline_byte "{b"] in
  let frame := "{a}" +:+ String newline_byte "" in
  cut_line (String.concat "" cs) = Some (frame, "{b")
  /\ exists cs', line (map Chunk cs ++ [FillFailed]) = Some (Ok frame, map Chunk cs' ++ [FillFailed])
                 /\ String.concat "" cs' = "{b" /\ Forall nonempty cs'.
Proof.
  split; [vm_compute; reflexivity|].
  apply (line_ignores_chunking ["{a"; "}"; String newline_byte "{b"] [FillFailed]); [|exact I].
  repeat constructor; unfold nonempty; discriminate.
Defined.

Example overlong_lines_are_refused :
  is_frame ("x" +:+ String newline_byte "")
  /\ line [Chunk "no end"; Chunk ""] = Some (Err "worker_closed", [Chunk ""]).
Proof. split; [split; [reflexivity|done]|reflexivity]. Qed.

(** A wait that fails once, then succeeds. *)
Example reap_can_be_retried :
  let o := (reap (Some WaitFailed) spawned).2 in
  ow_child o = true /\ (reap (Some Waited) o).1 = Some (Ok tt).
Proof. vm_compute. done. Qed.

End Samples.
