(* ===== verification/Actor.v ===== *)
(** * The supervisor of one persistent worker: [worker/actor.rs]

    One task owns the worker's process, its preparation steps and its cache session.
    Whatever the clock, the stop signal, the operating system and the worker itself do
    is an [ActorEnv]: functions of the history of what the supervisor did, so a theorem
    over every [ActorEnv] holds for every timing. A future that is dropped at an
    [await] by an enclosing deadline is [None]. *)

From S2P Require Import Prelude RustStd Identity Vocabulary Errors World PoolWorker WorkerTypes.
From S2P Require Import WorkerValidate Native.

Open Scope rust_scope.

Definition REPLAY_WINDOW : N := 8.
Definition BACKOFF : N := 300000.

(** ** The outside *)

(** What is asked of the cache of a recipe: [worker/cache]. *)
Inductive cache_op :=
| CacheAcquire | CacheCheckBinding | CacheInstall | CacheAdopt | CachePublish | CacheCleanup.

Section Events.
Context `{JsonValue}.

Inductive aevent :=
| AeNow
| AeStop
| AeSpawn (c : WorkerCommand)
| AeHandshake (timeout : N)
| AeSend (message : ServerRequest) (deadline : N)
| AeTryWait
| AeReapStep
| AeReapProcess
| AeInstallScript
| AeStep (c : WorkerCommand)
| AeStepRun (deadline : N)
| AeCache (op : cache_op).

Abbreviation alog := (list aevent).

(** What [Session::acquire] found: already provisioned, to be adopted, or neither. *)
Record session := MkSession { se_cached : bool; se_legacy : bool }.

Class ActorEnv := {
  ae_now : alog -> N;
  ae_stop : alog -> bool;
  (** the process started, as the output it goes on to write *)
  ae_spawn : alog -> result string (list fill);
  (** the wait for the handshake is dropped, stopped, too late, or takes place *)
  ae_handshake : alog -> option (raced unit);
  (** an exchange that was begun is stopped, too late, or takes place *)
  ae_exchange : alog -> raced unit;
  ae_stdin : alog -> result string unit;
  ae_try_wait : alog -> result string (option Z);
  ae_reap : alog -> option task_end;
  ae_install_script : alog -> result string unit;
  ae_step_spawn : alog -> result string unit;
  ae_step_reading : alog -> raced (result string unit);
  ae_step_waiting : alog -> raced (result string bool);
  ae_acquire : alog -> result string session;
  ae_cache : alog -> result string unit
}.

(** ** The state a supervisor publishes and the one it keeps *)

Definition outcome (kind : WorkerOutcomeKind) (reason : option string) : WorkerOutcome :=
  MkWorkerOutcome kind None reason.

Record State := MkState {
  sa_status : WorkerStatus;
  sa_prepared : option WorkerOutcome;
  sa_closed : bool;
  sa_cleanup_failed : bool
}.

Definition State_new (phase : WorkerPhase) : State :=
  MkState (MkWorkerStatus phase (ServerStatus_disabled "worker_not_started")) None false false.

Record Cached := MkCached { cc_recipe : CacheRecipe; cc_root : Path }.

#[global] Instance Cached_eq_dec : EqDecision Cached.
Proof. solve_decision. Defined.

Record Actor := MkActor {
  ac_plan : WorkerPlan;
  ac_cached : option Cached;
  ac_process : option Process;
  ac_preparation : option Preparation;
  ac_cache : option session;
  ac_ready_backends : list string;
  ac_last_used : N;
  ac_retry_after : option N;
  ac_state : State;
  ac_replies : gmap N (WorkerRequest * WorkerOutcome);
  ac_highest : N
}.

Definition Actor_new (plan : WorkerPlan) (cached : option Cached) (now : N) (state : State) : Actor :=
  MkActor plan cached None None None [] now None state ∅ 0.

Definition set_process (p : option Process) (a : Actor) : Actor :=
  MkActor (ac_plan a) (ac_cached a) p (ac_preparation a) (ac_cache a) (ac_ready_backends a)
    (ac_last_used a) (ac_retry_after a) (ac_state a) (ac_replies a) (ac_highest a).
Definition set_preparation (p : option Preparation) (a : Actor) : Actor :=
  MkActor (ac_plan a) (ac_cached a) (ac_process a) p (ac_cache a) (ac_ready_backends a)
    (ac_last_used a) (ac_retry_after a) (ac_state a) (ac_replies a) (ac_highest a).
Definition set_cache (c : option session) (a : Actor) : Actor :=
  MkActor (ac_plan a) (ac_cached a) (ac_process a) (ac_preparation a) c (ac_ready_backends a)
    (ac_last_used a) (ac_retry_after a) (ac_state a) (ac_replies a) (ac_highest a).
Definition set_ready_backends (b : list string) (a : Actor) : Actor :=
  MkActor (ac_plan a) (ac_cached a) (ac_process a) (ac_preparation a) (ac_cache a) b
    (ac_last_used a) (ac_retry_after a) (ac_state a) (ac_replies a) (ac_highest a).
Definition set_last_used (t : N) (a : Actor) : Actor :=
  MkActor (ac_plan a) (ac_cached a) (ac_process a) (ac_preparation a) (ac_cache a)
    (ac_ready_backends a) t (ac_retry_after a) (ac_state a) (ac_replies a) (ac_highest a).
Definition set_retry_after (t : option N) (a : Actor) : Actor :=
  MkActor (ac_plan a) (ac_cached a) (ac_process a) (ac_preparation a) (ac_cache a)
    (ac_ready_backends a) (ac_last_used a) t (ac_state a) (ac_replies a) (ac_highest a).
Definition set_state (s : State) (a : Actor) : Actor :=
  MkActor (ac_plan a) (ac_cached a) (ac_process a) (ac_preparation a) (ac_cache a)
    (ac_ready_backends a) (ac_last_used a) (ac_retry_after a) s (ac_replies a) (ac_highest a).
Definition set_replies (highest : N) (r : gmap N (WorkerRequest * WorkerOutcome)) (a : Actor) : Actor :=
  MkActor (ac_plan a) (ac_cached a) (ac_process a) (ac_preparation a) (ac_cache a)
    (ac_ready_backends a) (ac_last_used a) (ac_retry_after a) (ac_state a) r highest.

Record AW := MkAW { aw_actor : Actor; aw_log : alog }.

(** ** Computations that may be dropped while they wait *)

Definition act (A : Type) : Type := io AW (option A).

Definition done {A} (a : A) : act A := io_ret (Some a).
Definition dropped {A} : act A := io_ret None.
Definition act_bind {A B} (m : act A) (k : A -> act B) : act B :=
  fun w => match m w with (Some a, w') => k a w' | (None, w') => (None, w') end.
Definition try_act {E A B} (m : act (result E A)) (k : A -> act (result E B)) : act (result E B) :=
  act_bind m (fun r => match r with Ok a => k a | Err e => done (Err e) end).
Definition modify (f : Actor -> Actor) : act unit :=
  fun w => (Some tt, MkAW (f (aw_actor w)) (aw_log w)).
Definition reading_actor {A} (f : Actor -> A) : act A := fun w => (Some (f (aw_actor w)), w).

(** One thing asked of the outside. *)
Definition ask {A} (e : aevent) (answer : alog -> A) : act A :=
  fun w => (Some (answer (e :: aw_log w)), MkAW (aw_actor w) (e :: aw_log w)).

End Events.

Notation "x <-a m ;; k" := (act_bind m (fun x => k))
  (at level 60, m at next level, right associativity) : rust_scope.
Notation "x <-t m ;; k" := (try_act m (fun x => k))
  (at level 60, m at next level, right associativity) : rust_scope.

Section Operations.
Context `{JsonValue} `{!WorkerJson} `{!ActorEnv}.

Definition now : act N := ask AeNow ae_now.
Definition stopped : act bool := ask AeStop ae_stop.

(** ** Cleaning up *)

Definition prepared_complete (s : State) : bool :=
  match sa_prepared s with
  | Some result => bool_decide (wo_kind result = Complete)
  | None => false
  end.

Definition mark_phase (phase : WorkerPhase) (s : State) : State :=
  MkState (MkWorkerStatus phase (wst_server (sa_status s))) (sa_prepared s) (sa_closed s)
    (sa_cleanup_failed s).

(** Neither running nor ready, in the phase preparation left. *)
Definition mark_down (s : State) : State :=
  let server := wst_server (sa_status s) in
  MkState
    (MkWorkerStatus (if prepared_complete s then Prepared else FailedPhase)
       (MkServerStatus (sst_enabled server) false
          (map (fun b => MkBackendStatus (bs_id b) (bs_enabled b) false (bs_message b))
             (sst_backends server))
          (sst_message server)))
    (sa_prepared s) (sa_closed s) (sa_cleanup_failed s).

(** A step of the owned group's reaping, seen from a future that may be dropped. *)
Definition clean_preparation : act (result string unit) :=
  p <-a reading_actor ac_preparation ;;
  match p with
  | None => done (Ok tt)
  | Some p =>
      task <-a ask AeReapStep ae_reap ;;
      let '(r, p) := Preparation_cleanup task p in
      _ <-a modify (set_preparation (Some p)) ;;
      io_ret r
  end.

Definition clean_process : act (result string unit) :=
  p <-a reading_actor ac_process ;;
  match p with
  | None => done (Ok tt)
  | Some p =>
      task <-a ask AeReapProcess ae_reap ;;
      let '(r, p) := Process_cleanup task p in
      _ <-a modify (set_process (Some p)) ;;
      io_ret r
  end.

Definition clean_cache : act (result string unit) :=
  c <-a reading_actor ac_cache ;;
  match c with
  | None => done (Ok tt)
  | Some _ => ask (AeCache CacheCleanup) ae_cache
  end.

Definition cleanup : act (result string unit) :=
  _ <-a modify (fun a => set_state (mark_down (ac_state a)) a) ;;
  _ <-t clean_preparation ;;
  _ <-a modify (set_preparation None) ;;
  _ <-t clean_cache ;;
  _ <-a modify (set_cache None) ;;
  _ <-t clean_process ;;
  _ <-a modify (set_process None) ;;
  _ <-a modify (set_ready_backends []) ;;
  _ <-a modify (fun a => set_state (mark_down (ac_state a)) a) ;;
  done (Ok tt).

(** ** Preparing *)

(** How a step ends: it never started, it could not be reaped and is still owned, or it
    ran and was reaped. *)
Inductive step_end := NotSpawned (reason : string) | NotReaped (reason : string)
| Ran (result : result string unit).

(** One step: run it under its deadline, then reap it whatever happened. *)
Definition run_step (step : WorkerCommand) (enclosing : N) : act step_end :=
  spawned <-a ask (AeStep step) ae_step_spawn ;;
  match spawned with
  | Err reason => done (NotSpawned reason)
  | Ok _ =>
      _ <-a modify (set_preparation (Some Preparation_spawned)) ;;
      t <-a now ;;
      run <-a ask (AeStepRun (command_deadline step enclosing t))
                (fun log => (ae_step_reading log, ae_step_waiting log, ae_reap log)) ;;
      let '(reading, waiting, task) := run in
      let '(result, p) := execute reading waiting task Preparation_spawned in
      _ <-a modify (set_preparation (Some p)) ;;
      match result with
      | None => dropped
      | Some result =>
          cleaned <-a clean_preparation ;;
          match cleaned with
          | Err reason => done (NotReaped reason)
          | Ok _ => _ <-a modify (set_preparation None) ;; done (Ran result)
          end
      end
  end.

(** The loop over a recipe's steps, then publishing. *)
Fixpoint cache_steps (deadline : N) (steps : list WorkerCommand) : act (result string unit) :=
  stop <-a stopped ;;
  if stop : bool then done (Err "canceled")
  else
    t <-a now ;;
    if (deadline <=? t)%N then done (Err "cache_timeout")
    else
      match steps with
      | [] => ask (AeCache CachePublish) ae_cache
      | step :: rest =>
          _ <-t ask (AeCache CacheCheckBinding) ae_cache ;;
          ran <-a run_step step deadline ;;
          match ran with
          | NotSpawned reason | NotReaped reason | Ran (Err reason) => done (Err reason)
          | Ran (Ok _) => cache_steps deadline rest
          end
      end.

Definition provision_cache (cached : Cached) (deadline : N) : act (result string unit) :=
  c <-a reading_actor ac_cache ;;
  match c with
  | None => done (Err "cache_session_missing")
  | Some s =>
      if se_legacy s then ask (AeCache CacheAdopt) ae_cache
      else if se_cached s then done (Ok tt)
      else
        _ <-t ask (AeCache CacheInstall) ae_cache ;;
        cache_steps deadline (cr_steps (cc_recipe cached))
  end.

Definition prepare_cache : act (result string unit) :=
  c <-a reading_actor ac_cached ;;
  match c with
  | None => done (Ok tt)
  | Some cached =>
      t <-a now ;;
      let deadline := (t + cr_timeout_ms (cc_recipe cached))%N in
      s <-t ask (AeCache CacheAcquire) ae_acquire ;;
      _ <-a modify (set_cache (Some s)) ;;
      result <-a provision_cache cached deadline ;;
      _ <-t clean_preparation ;;
      _ <-a modify (set_preparation None) ;;
      _ <-t clean_cache ;;
      _ <-a modify (set_cache None) ;;
      done result
  end.

(** The plan's own steps: a step that cannot be reaped is a failed cleanup. *)
Fixpoint plan_steps (deadline : N) (steps : list WorkerCommand) : act WorkerOutcome :=
  match steps with
  | [] =>
      stop <-a stopped ;;
      done (if stop : bool then outcome Closed (Some "canceled") else outcome Complete None)
  | step :: rest =>
      ran <-a run_step step deadline ;;
      match ran with
      | NotReaped _ => done (outcome Failed (Some "cleanup_failed"))
      | NotSpawned reason | Ran (Err reason) => done (outcome Failed (Some reason))
      | Ran (Ok _) => plan_steps deadline rest
      end
  end.

Definition prepare : act WorkerOutcome :=
  cache <-a prepare_cache ;;
  match cache with
  | Err reason => done (outcome Failed (Some reason))
  | Ok _ =>
      plan <-a reading_actor ac_plan ;;
      t <-a now ;;
      let deadline := (t + wp_startup_timeout_ms plan)%N in
      installed <-a ask AeInstallScript ae_install_script ;;
      match installed with
      | Err _ => done (outcome Failed (Some "install_failed"))
      | Ok _ => plan_steps deadline (wp_preparation plan)
      end
  end.

(** ** Starting the worker *)

Definition handshake : act (result string (list string)) :=
  p <-a reading_actor ac_process ;;
  match p with
  | None => done (Err "worker_closed")
  | Some p =>
      plan <-a reading_actor ac_plan ;;
      race <-a ask (AeHandshake (wp_startup_timeout_ms plan)) ae_handshake ;;
      match race with
      | None => dropped
      | Some Canceled => done (Err "canceled")
      | Some TimedOut => done (Err "handshake_timeout")
      | Some (Done _) =>
          match Native.handshake (pc_stdout p) with
          | None => done (Err "handshake_timeout")
          | Some (r, stdout) =>
              _ <-a modify (set_process (Some (MkProcess (pc_group p) stdout (pc_stderr p)))) ;;
              done (result_map rl_backends r)
          end
      end
  end.

Definition alive (p : Process) : act bool :=
  ask AeTryWait (fun log => is_alive (ae_try_wait log) (pc_group p)).

Definition running_server (plan : WorkerPlan) (backends : list string) : ServerStatus :=
  MkServerStatus true true
    (map (fun id => MkBackendStatus id true (bool_decide (id ∈ backends)) None) (wp_backends plan))
    None.

Definition idle_configured (plan : WorkerPlan) : bool :=
  (0 <? wp_idle_timeout_ms plan)%N
  && match wp_idle_backend plan with
     | Some id => bool_decide (id ∈ wp_backends plan)
     | None => false
     end.

(** The end of [start], once the process was spawned and shook hands, or did not. *)
Definition start_finish (result : result string (list string)) : act WorkerOutcome :=
  stop <-a match result with Ok _ => stopped | Err _ => done false end ;;
  match result, stop : bool with
  | Ok backends, false =>
      plan <-a reading_actor ac_plan ;;
      t <-a now ;;
      _ <-a modify (set_ready_backends backends) ;;
      _ <-a modify (set_last_used t) ;;
      _ <-a modify (set_retry_after None) ;;
      _ <-a modify (fun a => set_state (MkState (MkWorkerStatus RunningPhase (running_server plan backends))
             (sa_prepared (ac_state a)) (sa_closed (ac_state a)) (sa_cleanup_failed (ac_state a))) a) ;;
      done (outcome Complete None)
  | _, _ =>
      cleaned <-a cleanup ;;
      match cleaned with
      | Err _ => done (outcome Failed (Some "cleanup_failed"))
      | Ok _ =>
          t <-a now ;;
          _ <-a modify (set_retry_after (Some (t + BACKOFF)%N)) ;;
          _ <-a modify (fun a => set_state (mark_phase FailedPhase (ac_state a)) a) ;;
          done (outcome Failed (Some match result with Err e => e | Ok _ => "canceled" end))
      end
  end.

(** Spawning a worker and shaking hands with it. *)
Definition start_spawn : act WorkerOutcome :=
  _ <-a modify (fun a => set_state (mark_phase Starting (ac_state a)) a) ;;
  plan <-a reading_actor ac_plan ;;
  spawned <-a ask (AeSpawn (wp_command plan)) ae_spawn ;;
  result <-a match spawned with
             | Ok stdout => _ <-a modify (set_process (Some (Process_spawned stdout))) ;; handshake
             | Err reason => done (Err reason)
             end ;;
  start_finish result.

(** The rest of [start], when no usable process is held. *)
Definition start_new : act WorkerOutcome :=
  retry_after <-a reading_actor ac_retry_after ;;
  t <-a now ;;
  if match retry_after with Some after => (t <? after)%N | None => false end
  then done (outcome Failed (Some "startup_backoff"))
  else start_spawn.

Definition start : act WorkerOutcome :=
  stop <-a stopped ;;
  if stop : bool then done (outcome Closed None)
  else
    ready <-a reading_actor (fun a => prepared_complete (ac_state a)) ;;
    if negb ready then done (outcome Failed (Some "prepare_failed"))
    else
      plan <-a reading_actor ac_plan ;;
      last_used <-a reading_actor ac_last_used ;;
      t <-a now ;;
      idle_cleaned <-a (if idle_configured plan && (wp_idle_timeout_ms plan <=? t - last_used)%N
                        then cleanup else done (Ok tt)) ;;
      match idle_cleaned with
      | Err _ => done (outcome Failed (Some "cleanup_failed"))
      | Ok _ =>
          held <-a reading_actor ac_process ;;
          match held with
          | None => start_new
          | Some p =>
              running <-a reading_actor (fun a => sst_running (wst_server (sa_status (ac_state a)))) ;;
              usable <-a (if running : bool then alive p else done false) ;;
              if usable : bool then done (outcome Complete None)
              else
                cleaned <-a cleanup ;;
                match cleaned with
                | Err _ => done (outcome Failed (Some "cleanup_failed"))
                | Ok _ => start_new
                end
          end
      end.

(** ** Requests *)

(** One exchange, after a successful start: what came of it, and whether it was begun
    (the stop signal is looked at first). *)
Definition exchange (p : Process) (wire : ServerRequest) (deadline : N)
  : act (result string ServerResponse * bool) :=
  stop <-a stopped ;;
  if stop : bool then done (Err "canceled", false)
  else
    raced <-a ask (AeSend wire deadline) (fun log => (ae_exchange log, ae_stdin log)) ;;
    let '(race, stdin) := raced in
    match race with
    | Canceled => done (Err "canceled", true)
    | TimedOut => done (Err "request_timeout", true)
    | Done _ =>
        match Process_request stdin wire (pc_stdout p) with
        | None => done (Err "request_timeout", true)
        | Some (r, stdout) =>
            _ <-a modify (set_process (Some (MkProcess (pc_group p) stdout (pc_stderr p)))) ;;
            done (r, true)
        end
    end.

(** A future under a deadline that drops it. *)
Definition under_deadline {A} (m : act A) : act (option A) :=
  fun w => let '(a, w') := m w in (Some a, w').

(** The loop of [dispatch]: how many attempts are left, whether one was begun, and why
    the last one failed. *)
Fixpoint attempts (remaining : nat) (wire : ServerRequest) (deadline : N) (attempted : bool)
    (reason : string) : act (WorkerOutcome * bool) :=
  match remaining with
  | O => done (outcome Failed (Some reason), attempted)
  | S remaining =>
      started <-a under_deadline start ;;
      match started with
      | None =>
          cleaned <-a cleanup ;;
          done (outcome Failed (Some (if is_ok cleaned then "request_timeout" else "cleanup_failed")),
                attempted)
      | Some started =>
          if negb (bool_decide (wo_kind started = Complete)) then done (started, attempted)
          else
            held <-a reading_actor ac_process ;;
            match held with
            | None => done (outcome Failed (Some "worker_closed"), attempted)
            | Some p =>
                exchanged <-a exchange p wire deadline ;;
                let '(result, begun) := exchanged in
                let attempted := attempted || begun in
                let answered response :=
                  done (MkWorkerOutcome Response (Some response) None, attempted) in
                let failed reason :=
                  cleaned <-a cleanup ;;
                  match cleaned with
                  | Err _ => done (outcome Failed (Some "cleanup_failed"), attempted)
                  | Ok _ =>
                      stop <-a stopped ;;
                      if stop : bool then done (outcome Failed (Some reason), attempted)
                      else
                        t <-a now ;;
                        if (deadline <=? t)%N then done (outcome Failed (Some reason), attempted)
                        else attempts remaining wire deadline attempted reason
                  end in
                match result with
                | Ok response =>
                    if sp_ok response then
                      t <-a now ;;
                      _ <-a modify (set_last_used t) ;;
                      answered response
                    else if (remaining =? 0)%nat then answered response
                    else failed "remote_failed"
                | Err error => failed error
                end
            end
      end
  end.

Definition dispatch (r : WorkerRequest) (deadline : N) : act (WorkerOutcome * bool) :=
  let wire := MkServerRequest (display_u64 (wr_operation r)) (wr_method r) (wr_params r) in
  t <-a now ;;
  if (deadline <=? t)%N then done (outcome Failed (Some "request_timeout"), false)
  else attempts 2 wire deadline false "worker_closed".

Definition remember (r : WorkerRequest) (result : WorkerOutcome) (a : Actor) : Actor :=
  let highest := N.max (ac_highest a) (wr_operation r) in
  set_replies highest
    (<[wr_operation r := (r, result)]>
       (filter (fun '(op, _) => (highest - REPLAY_WINDOW < op)%N) (ac_replies a))) a.

Definition request (r : WorkerRequest) (deadline : N) : act WorkerOutcome :=
  t <-a now ;;
  if (deadline <=? t)%N then done (outcome Failed (Some "request_timeout"))
  else
    a <-a reading_actor (fun a => a) ;;
    match ac_replies a !! wr_operation r with
    | Some (previous, result) =>
        if bool_decide (wr_method previous = wr_method r)
           && bool_decide (wr_params previous = wr_params r)
        then done result
        else done (outcome Invalid (Some "operation_conflict"))
    | None =>
        if (wr_operation r <=? ac_highest a - REPLAY_WINDOW)%N then done (outcome Expired None)
        else
          answered <-a dispatch r deadline ;;
          let '(result, attempted) := answered in
          _ <-a modify (if attempted : bool then remember r result else fun a => a) ;;
          done result
    end.

(** ** The supervising loop *)

Definition published_prepared (plan : WorkerPlan) (prepared : WorkerOutcome) (s : State) : State :=
  if bool_decide (wo_kind prepared = Complete) then
    MkState
      (MkWorkerStatus Prepared
         (MkServerStatus true false
            (map (fun id => MkBackendStatus id true false None) (wp_backends plan)) None))
      (Some prepared) (sa_closed s) (sa_cleanup_failed s)
  else
    MkState (MkWorkerStatus FailedPhase (wst_server (sa_status s))) (Some prepared) (sa_closed s)
      (sa_cleanup_failed s).

Definition serve_prepare : act unit :=
  prepared <-a prepare ;;
  modify (fun a => set_state (published_prepared (ac_plan a) prepared (ac_state a)) a).

(** The supervision tick: a dead process, or what a failed preparation left, is cleaned
    up. *)
Definition supervise : act unit :=
  a <-a reading_actor (fun a => a) ;;
  unusable <-a match ac_process a with
               | Some p => running <-a alive p ;; done (negb running)
               | None => done false
               end ;;
  let failed_preparation :=
    negb (prepared_complete (ac_state a))
    && (match ac_preparation a with Some _ => true | None => false end
        || match ac_cache a with Some _ => true | None => false end) in
  if (unusable : bool) || failed_preparation then _ <-a cleanup ;; done tt else done tt.

(** What the loop takes up next. *)
Inductive command := Tick | CmdStart | CmdRequest (r : WorkerRequest) (deadline : N) (gone : bool).

Definition serve_one (c : command) : act (option WorkerOutcome) :=
  match c with
  | Tick => _ <-a supervise ;; done None
  | CmdStart => result <-a start ;; done (Some result)
  | CmdRequest r deadline gone =>
      if gone : bool then done None
      else result <-a request r deadline ;; done (Some result)
  end.

Fixpoint serve (cs : list command) : act (list (option WorkerOutcome)) :=
  match cs with
  | [] => done []
  | c :: rest =>
      answer <-a serve_one c ;;
      others <-a serve rest ;;
      done (answer :: others)
  end.

(** One turn of the closing loop: [true] once nothing is left. *)
Definition close_once (remove_dir_all : result io_error unit) : act bool :=
  cleaned <-a cleanup ;;
  match cleaned, remove_dir_all with
  | Ok _, Ok _ | Ok _, Err (MkIoError NotFound _) =>
      _ <-a modify (fun a =>
             let s := ac_state a in
             let server := wst_server (sa_status s) in
             set_state
               (MkState (MkWorkerStatus ClosedPhase
                           (MkServerStatus (sst_enabled server) false (sst_backends server)
                              (sst_message server)))
                  (sa_prepared s) true (sa_cleanup_failed s)) a) ;;
      done true
  | _, _ =>
      _ <-a modify (fun a =>
             let s := ac_state a in
             set_state (MkState (sa_status s) (sa_prepared s) (sa_closed s) true) a) ;;
      done false
  end.

(** The closing loop: turns until one leaves nothing, over what removing the root answers
    in each; [false] when it still goes on. *)
Fixpoint close (removals : list (result io_error unit)) : act bool :=
  match removals with
  | [] => done false
  | removal :: rest =>
      closed <-a close_once removal ;;
      if closed : bool then done true else close rest
  end.

End Operations.
