(* ===== verification/ActorFacts.v ===== *)
(** * What a supervisor may record

    A small calculus over [Actor]'s computations: what each part of the supervisor may
    add to the history. It carries the invariants of [ActorMemory], [ActorProcess] and
    [ActorBackoff]. *)

From S2P Require Import Prelude RustStd Identity Vocabulary Errors World PoolWorker WorkerTypes.
From S2P Require Import WorkerValidate Native Actor.

Open Scope rust_scope.

(** ** What each part of the supervisor leaves alone *)

Section Frames.
Context `{JsonValue} `{!WorkerJson} `{!ActorEnv}.

(** What only [request] changes. *)
Definition memory (a : Actor) := (ac_plan a, ac_replies a, ac_highest a).

(** [m] records only events of [P], and touches neither the plan nor the replies. *)
Definition frames {A} (P : aevent -> Prop) (m : act A) : Prop :=
  forall w r w', m w = (r, w') ->
  memory (aw_actor w') = memory (aw_actor w)
  /\ exists new, aw_log w' = new ++ aw_log w /\ Forall P new.

Section Combinators.
Context (P : aevent -> Prop).

Lemma frames_ret {A} (r : option A) : frames P (io_ret r).
Proof. intros w r' w' [= _ <-]. split_and!; try done. by exists []. Qed.

Lemma frames_done {A} (a : A) : frames P (done a).
Proof. apply frames_ret. Qed.

Lemma frames_reading {A} (f : Actor -> A) : frames P (reading_actor f).
Proof. intros w r' w' [= _ <-]. split_and!; try done. by exists []. Qed.

Lemma frames_ask {A} e (answer : list aevent -> A) : P e -> frames P (ask e answer).
Proof. intros He w r' w' [= _ <-]. split_and!; try done. exists [e]. split; [done|by constructor]. Qed.

Lemma frames_modify f :
  (forall a, memory (f a) = memory a) ->
  frames P (modify f).
Proof.
  intros Hf w r' w' [= _ <-]. split; [apply Hf|]. by exists [].
Qed.

Lemma frames_bind {A B} (m : act A) (k : A -> act B) :
  frames P m -> (forall a, frames P (k a)) -> frames P (act_bind m k).
Proof.
  intros Hm Hk w r w'. unfold act_bind. destruct (m w) as [[a|] w1] eqn:E.
  - intros Hr. destruct (Hm _ _ _ E) as (Ma & n1 & La & Fa).
    destruct (Hk a _ _ _ Hr) as (Mb & n2 & Lb & Fb). split; [congruence|].
    exists (n2 ++ n1). rewrite Lb, La, app_assoc. split; [done|]. by apply Forall_app.
  - intros [= _ <-]. by eapply Hm.
Qed.

Lemma frames_try {E A B} (m : act (result E A)) (k : A -> act (result E B)) :
  frames P m -> (forall a, frames P (k a)) -> frames P (try_act m k).
Proof. intros Hm Hk. apply frames_bind; [done|]. intros [a|e]; [apply Hk|apply frames_done]. Qed.

End Combinators.

Lemma frames_weaken {A} (P Q : aevent -> Prop) (m : act A) :
  (forall e, P e -> Q e) -> frames P m -> frames Q m.
Proof.
  intros HPQ Hm w r w' E. destruct (Hm _ _ _ E) as (? & new & ? & ?). split; [done|].
  exists new. split; [done|]. by eapply Forall_impl.
Qed.

Lemma frames_under_deadline {A} P (m : act A) : frames P m -> frames P (under_deadline m).
Proof.
  intros Hm w r w'. unfold under_deadline. destruct (m w) as [a w1] eqn:E. intros [= _ <-].
  by eapply Hm.
Qed.

End Frames.

Ltac framed :=
  repeat match goal with
  | |- frames _ (try_act _ _) => apply frames_try; [|intros ?]
  | |- frames _ (act_bind _ _) => apply frames_bind; [|intros ?]
  | |- frames _ (done _) => apply frames_done
  | |- frames _ dropped => apply frames_ret
  | |- frames _ (io_ret _) => apply frames_ret
  | |- frames _ (reading_actor _) => apply frames_reading
  | |- frames _ (under_deadline _) => apply frames_under_deadline
  | |- frames _ (ask _ _) => apply frames_ask; done
  | |- frames _ (modify _) => apply frames_modify; intros ?; done
  | |- frames _ (match ?x with _ => _ end) => destruct x
  | |- frames _ (let '(_, _) := ?x in _) => destruct x
  | |- frames _ now => apply frames_ask; done
  | |- frames _ stopped => apply frames_ask; done
  | |- frames _ _ => progress cbv zeta
  | |- frames _ _ => solve [auto with frames]
  end.

Create HintDb frames.

Section Quiet.
Context `{JsonValue} `{!WorkerJson} `{!ActorEnv}.

(** Everything but an exchange. *)
Definition unsent (e : aevent) : Prop := match e with AeSend _ _ => False | _ => True end.

Lemma clean_preparation_frames P : P AeReapStep -> frames P clean_preparation.
Proof. intros HP. unfold clean_preparation. framed. Qed.

Lemma clean_process_frames P : P AeReapProcess -> frames P clean_process.
Proof. intros HP. unfold clean_process. framed. Qed.

Lemma clean_cache_frames P : P (AeCache CacheCleanup) -> frames P clean_cache.
Proof. intros HP. unfold clean_cache. framed. Qed.

Lemma cleanup_frames P :
  P AeReapStep -> P AeReapProcess -> P (AeCache CacheCleanup) -> frames P cleanup.
Proof.
  intros. unfold cleanup. framed;
    auto using clean_preparation_frames, clean_process_frames, clean_cache_frames.
Qed.

Lemma cleanup_unsent : frames unsent cleanup.
Proof. by apply cleanup_frames. Qed.
Lemma clean_preparation_unsent : frames unsent clean_preparation.
Proof. by apply clean_preparation_frames. Qed.
Lemma clean_cache_unsent : frames unsent clean_cache.
Proof. by apply clean_cache_frames. Qed.
#[local] Hint Resolve cleanup_unsent clean_preparation_unsent clean_cache_unsent : frames.

Lemma run_step_unsent step enclosing : frames unsent (run_step step enclosing).
Proof. unfold run_step. framed. Qed.
#[local] Hint Resolve run_step_unsent : frames.

Lemma cache_steps_unsent deadline steps : frames unsent (cache_steps deadline steps).
Proof. induction steps as [|step steps IH]; cbn [cache_steps]; framed; done. Qed.
#[local] Hint Resolve cache_steps_unsent : frames.

Lemma plan_steps_unsent deadline steps : frames unsent (plan_steps deadline steps).
Proof. induction steps as [|step steps IH]; cbn [plan_steps]; framed; done. Qed.
#[local] Hint Resolve plan_steps_unsent : frames.

Lemma provision_cache_unsent cached deadline : frames unsent (provision_cache cached deadline).
Proof. unfold provision_cache. framed. Qed.
#[local] Hint Resolve provision_cache_unsent : frames.

Lemma prepare_cache_unsent : frames unsent prepare_cache.
Proof. unfold prepare_cache. framed. Qed.
#[local] Hint Resolve prepare_cache_unsent : frames.

Lemma prepare_unsent : frames unsent prepare.
Proof. unfold prepare. framed. Qed.

Lemma handshake_unsent : frames unsent handshake.
Proof. unfold handshake. framed. Qed.
#[local] Hint Resolve handshake_unsent : frames.

Lemma start_finish_unsent result : frames unsent (start_finish result).
Proof. unfold start_finish. framed. Qed.
#[local] Hint Resolve start_finish_unsent : frames.

Lemma start_new_unsent : frames unsent start_new.
Proof. unfold start_new, start_spawn. framed. Qed.
#[local] Hint Resolve start_new_unsent : frames.

Lemma start_unsent : frames unsent start.
Proof. unfold start, alive. framed. Qed.
#[local] Hint Resolve start_unsent : frames.

Lemma supervise_unsent : frames unsent supervise.
Proof. unfold supervise, alive. framed. Qed.

End Quiet.

#[export] Hint Resolve cleanup_unsent clean_preparation_unsent clean_cache_unsent
  run_step_unsent cache_steps_unsent plan_steps_unsent provision_cache_unsent
  prepare_cache_unsent handshake_unsent start_finish_unsent start_new_unsent start_unsent
  : frames.
