(* ===== verification/ActorMemory.v ===== *)
(** * An operation is attempted once

    What a supervisor sends to its worker, and its memory of replies, over every
    history. *)

From S2P Require Import Prelude RustStd Identity Vocabulary Errors World PoolWorker WorkerTypes.
From S2P Require Import WorkerValidate Native Actor ActorFacts.

Open Scope rust_scope.

Section Memory.
Context `{JsonValue} `{!WorkerJson} `{!ActorEnv}.

(** ** What is sent to the worker *)

Definition is_send (e : aevent) : bool := match e with AeSend _ _ => true | _ => false end.
Definition only (wire : ServerRequest) (e : aevent) : Prop :=
  match e with AeSend message _ => message = wire | _ => True end.
Definition sent (new : list aevent) : nat := length (filter (fun e => is_send e = true) new).

Lemma sent_app a b : sent (a ++ b) = (sent a + sent b)%nat.
Proof. unfold sent. by rewrite filter_app, length_app. Qed.

Lemma unsent_sent new : Forall unsent new -> sent new = 0%nat.
Proof. unfold sent. induction 1 as [|[] new Hu Hn IH]; cbn; done. Qed.

Lemma unsent_only wire new : Forall unsent new -> Forall (only wire) new.
Proof. intros Hn. eapply Forall_impl; [exact Hn|]. by intros []. Qed.

(** [m] sends [wire] and nothing else, at most [n] times; [Q] relates its answer to
    whether it sent it at all. *)
Definition tracks {A} (wire : ServerRequest) (n : nat) (Q : A -> bool -> Prop) (m : act A) : Prop :=
  forall w r w', m w = (r, w') ->
  memory (aw_actor w') = memory (aw_actor w)
  /\ exists new, aw_log w' = new ++ aw_log w /\ Forall (only wire) new /\ (sent new <= n)%nat
     /\ match r with Some a => Q a (0 <? sent new)%nat | None => True end.

Lemma tracks_frames {A} wire (Q : A -> bool -> Prop) m :
  frames unsent m -> (forall a, Q a false) -> tracks wire 0 Q m.
Proof.
  intros Hm HQ w r w' E. destruct (Hm _ _ _ E) as (? & new & ? & Hn). split; [done|].
  exists new. rewrite unsent_sent by done. split_and!; [done|by apply unsent_only|done|].
  destruct r; [apply HQ|done].
Qed.

Lemma tracks_bind {A B} wire n1 n2 (Q1 : A -> bool -> Prop) (Q : B -> bool -> Prop) m (k : A -> act B) :
  tracks wire n1 Q1 m ->
  (forall a b, Q1 a b -> tracks wire n2 (fun c b' => Q c (b || b')) (k a)) ->
  tracks wire (n1 + n2) Q (act_bind m k).
Proof.
  intros Hm Hk w r w'. unfold act_bind. destruct (m w) as [[a|] w1] eqn:E;
    destruct (Hm _ _ _ E) as (Ma & new1 & La & Fa & Ca & Qa).
  - intros Hr. destruct (Hk a _ Qa _ _ _ Hr) as (Mb & new2 & Lb & Fb & Cb & Qb).
    split; [congruence|]. exists (new2 ++ new1). rewrite Lb, La, app_assoc, sent_app.
    split_and!; [done|by apply Forall_app|lia|]. destruct r; [|done].
    replace (0 <? sent new2 + sent new1)%nat with ((0 <? sent new1) || (0 <? sent new2))%nat; [done|].
    destruct (Nat.ltb_spec 0 (sent new1)), (Nat.ltb_spec 0 (sent new2)),
      (Nat.ltb_spec 0 (sent new2 + sent new1)); try lia; done.
  - intros [= <- <-]. split; [done|]. exists new1. split_and!; [done|done|lia|done].
Qed.

(** A part that sends nothing, before the rest. *)
Lemma tracks_after {A B} wire n (Q : B -> bool -> Prop) (m : act A) (k : A -> act B) :
  frames unsent m -> (forall a, tracks wire n Q (k a)) -> tracks wire n Q (act_bind m k).
Proof.
  intros Hm Hk. apply (tracks_bind wire 0 n (fun _ b => b = false) Q); [by apply tracks_frames|].
  intros a b ->. apply Hk.
Qed.

Lemma tracks_weaken {A} wire n1 n2 (Q1 Q : A -> bool -> Prop) m :
  (n1 <= n2)%nat -> (forall a b, Q1 a b -> Q a b) -> tracks wire n1 Q1 m -> tracks wire n2 Q m.
Proof.
  intros Hn HQ Hm w r w' E. destruct (Hm _ _ _ E) as (? & new & ? & ? & ? & Hr). split; [done|].
  exists new. split_and!; [done|done|lia|]. destruct r; auto.
Qed.

Lemma tracks_done {A} wire (Q : A -> bool -> Prop) a : Q a false -> tracks wire 0 Q (done a).
Proof.
  intros HQ w r w' [= <- <-]. split; [done|]. exists []. split_and!; [done|constructor|done|exact HQ].
Qed.

Lemma exchange_tracks p wire deadline :
  tracks wire 1 (fun x b => x.2 = b) (exchange p wire deadline).
Proof.
  unfold exchange. apply tracks_after; [framed|]. intros [].
  { eapply tracks_weaken; [apply Nat.le_0_l| |by apply (tracks_done wire (fun x : result string ServerResponse * bool => fun b => x.2 = b))].
    done. }
  apply (tracks_bind wire 1 0 (fun _ b => b = true)).
  - intros w r w' [= <- <-]. split; [done|]. exists [AeSend wire deadline].
    split_and!; [done|by constructor|done|done].
  - intros [race stdin] b ->. cbn [orb]. destruct race; [by apply tracks_done|by apply tracks_done|].
    destruct (Process_request _ _ _) as [[r stdout]|]; [|by apply tracks_done].
    apply tracks_after; [framed|]. intros _. by apply tracks_done.
Qed.

Lemma attempts_tracks remaining wire deadline attempted reason :
  tracks wire remaining (fun x b => x.2 = attempted || b)
    (attempts remaining wire deadline attempted reason).
Proof.
  revert attempted reason. induction remaining as [|remaining IH]; intros attempted reason;
    cbn [attempts]; [apply tracks_done; by rewrite orb_false_r|].
  assert (forall x : WorkerOutcome * bool, x.2 = attempted ->
    tracks wire (S remaining) (fun x b => x.2 = attempted || b) (done x)) as Hstop.
  { intros [o a] Ha. cbn in Ha. subst. eapply tracks_weaken; [apply Nat.le_0_l| |].
    2: apply (tracks_done wire (fun x : WorkerOutcome * bool => fun b => x.2 = attempted || b)); by rewrite orb_false_r.
    done. }
  apply tracks_after; [framed|]. intros [started|].
  2:{ apply tracks_after; [framed|]. intros cleaned. by apply Hstop. }
  destruct (negb _); [by apply Hstop|]. apply tracks_after; [framed|]. intros [p|]; [|by apply Hstop].
  apply (tracks_bind wire 1 remaining (fun (x : result string ServerResponse * bool) b => x.2 = b)); [apply exchange_tracks|].
  intros [result begun] b Hb. cbn [snd] in Hb. subst b. cbv zeta.
  assert (forall o, tracks wire remaining
    (fun (x : WorkerOutcome * bool) b' => x.2 = attempted || (begun || b')) (done (o, attempted || begun)))
    as Hanswer.
  { intros o. eapply tracks_weaken; [apply Nat.le_0_l| |].
    2: apply (tracks_done wire (fun x : WorkerOutcome * bool => fun b => x.2 = attempted || (begun || b)));
       by rewrite orb_false_r.
    done. }
  assert (forall reason', tracks wire remaining
    (fun (x : WorkerOutcome * bool) b' => x.2 = attempted || (begun || b'))
    (cleaned <-a cleanup ;;
     match cleaned with
     | Err _ => done (outcome Failed (Some "cleanup_failed"), attempted || begun)
     | Ok _ =>
         stop <-a stopped ;;
         if stop : bool then done (outcome Failed (Some reason'), attempted || begun)
         else
           t <-a now ;;
           if (deadline <=? t)%N then done (outcome Failed (Some reason'), attempted || begun)
           else attempts remaining wire deadline (attempted || begun) reason'
     end)) as Hfail.
  { intros reason'. apply tracks_after; [framed|]. intros []; [|apply Hanswer].
    apply tracks_after; [framed|]. intros []; [apply Hanswer|].
    apply tracks_after; [framed|]. intros t. destruct (_ <=? _)%N; [apply Hanswer|].
    eapply tracks_weaken; [done| |apply IH]. intros o b ->. by rewrite orb_assoc. }
  destruct result as [response|error]; [|apply Hfail].
  destruct (sp_ok response).
  - apply tracks_after; [framed|]. intros t. apply tracks_after; [framed|]. intros _. apply Hanswer.
  - destruct (remaining =? 0)%nat; [apply Hanswer|apply Hfail].
Qed.

Definition wire_of (r : WorkerRequest) : ServerRequest :=
  MkServerRequest (display_u64 (wr_operation r)) (wr_method r) (wr_params r).

Lemma dispatch_tracks r deadline :
  tracks (wire_of r) 2 (fun (x : WorkerOutcome * bool) b => x.2 = b) (dispatch r deadline).
Proof.
  unfold dispatch. cbv zeta. apply tracks_after; [framed|]. intros t.
  destruct (_ <=? _)%N; [|apply (attempts_tracks 2 (wire_of r) deadline false)].
  apply (tracks_weaken _ 0 2 (fun (x : WorkerOutcome * bool) b => x.2 = b)); [lia|done|].
  by apply (tracks_done _ (fun (x : WorkerOutcome * bool) b => x.2 = b)).
Qed.

(** ** The memory of replies *)

Definition in_window (highest op : N) : Prop := (highest - REPLAY_WINDOW < op <= highest)%N.

(** The operation has been sent to a worker at some time. *)
Definition was_sent (op : N) (log : list aevent) : Prop :=
  exists message deadline, AeSend message deadline ∈ log /\ sr_id message = display_u64 op.

Record memory_inv (w : AW) : Prop := {
  mi_window op previous result :
    ac_replies (aw_actor w) !! op = Some (previous, result) ->
    in_window (ac_highest (aw_actor w)) op /\ wr_operation previous = op;
  mi_sent op :
    was_sent op (aw_log w) ->
    (op <= ac_highest (aw_actor w))%N
    /\ (in_window (ac_highest (aw_actor w)) op -> is_Some (ac_replies (aw_actor w) !! op))
}.

Lemma was_sent_app op new log : was_sent op (new ++ log) <-> was_sent op new \/ was_sent op log.
Proof.
  unfold was_sent. setoid_rewrite elem_of_app. split.
  - intros (m & d & [?|?] & ?); [left|right]; eauto.
  - intros [(m & d & ? & ?)|(m & d & ? & ?)]; eauto.
Qed.

Lemma unsent_was_sent op new : Forall unsent new -> ~ was_sent op new.
Proof.
  rewrite Forall_forall. intros Hn (m & d & Hin & _). exact (Hn _ Hin).
Qed.

Lemma only_was_sent r op new :
  Forall (only (wire_of r)) new -> was_sent op new -> op = wr_operation r /\ (0 < sent new)%nat.
Proof.
  rewrite Forall_forall. intros Hn (m & d & Hin & Hid). pose proof (Hn _ Hin) as Hm. cbn in Hm.
  subst m. cbn in Hid. apply display_u64_inj in Hid. split; [done|].
  unfold sent. assert (AeSend (wire_of r) d ∈ filter (fun e => is_send e = true) new) as Hf.
  { by apply list_elem_of_filter. }
  destruct (filter _ new); [by apply elem_of_nil in Hf|cbn; lia].
Qed.

Lemma sent_was_sent r new :
  Forall (only (wire_of r)) new -> (0 < sent new)%nat -> was_sent (wr_operation r) new.
Proof.
  unfold sent. rewrite Forall_forall. intros Hn Hs.
  destruct (filter _ new) as [|e rest] eqn:Hf; [cbn in Hs; lia|].
  assert (e ∈ filter (fun e => is_send e = true) new) as Hin by (rewrite Hf; by left).
  apply list_elem_of_filter in Hin as [He Hin]. specialize (Hn _ Hin).
  destruct e as [| | | |m d| | | | | | |]; try done. cbn in Hn. exists m, d. by subst.
Qed.

Lemma memory_inv_frames {A} (m : act A) w r w' :
  frames unsent m -> m w = (r, w') -> memory_inv w -> memory_inv w'.
Proof.
  intros Hm E [Hw Hs]. destruct (Hm _ _ _ E) as (Hmem & new & Hl & Hn).
  unfold memory in Hmem. injection Hmem as _ Hr Hh. constructor.
  - rewrite Hr, Hh. exact Hw.
  - intros op. rewrite Hl, was_sent_app, Hr, Hh. intros [Hx|Hx]; [|by apply Hs].
    by apply unsent_was_sent in Hx.
Qed.

Lemma lookup_remember r result a op :
  ac_replies (remember r result a) !! op
  = if decide (op = wr_operation r) then Some (r, result)
    else if decide (N.max (ac_highest a) (wr_operation r) - REPLAY_WINDOW < op)%N
         then ac_replies a !! op else None.
Proof.
  unfold remember, set_replies. cbn [ac_replies]. destruct (decide (op = wr_operation r)) as [->|Hne].
  - by rewrite lookup_insert_eq.
  - rewrite lookup_insert_ne by done. rewrite map_lookup_filter.
    destruct (ac_replies a !! op); cbn; [|by destruct (decide _)].
    by destruct (decide (_ < op)%N); [rewrite option_guard_True|rewrite option_guard_False].
Qed.

(** Remembering what was just sent. *)
Lemma memory_inv_remember r result w w' new :
  memory_inv w -> (ac_highest (aw_actor w) - REPLAY_WINDOW < wr_operation r)%N ->
  aw_actor w' = remember r result (aw_actor w) -> aw_log w' = new ++ aw_log w ->
  Forall (only (wire_of r)) new -> memory_inv w'.
Proof.
  intros [Hw Hs] Hin Ha Hl Hn.
  assert (ac_highest (aw_actor w') = N.max (ac_highest (aw_actor w)) (wr_operation r)) as Hh.
  { by rewrite Ha. }
  constructor.
  - intros op previous out. rewrite Hh, Ha, lookup_remember. unfold in_window.
    destruct (decide (op = wr_operation r)) as [->|Hne].
    + intros [= <- _]. unfold REPLAY_WINDOW in *. split; [lia|done].
    + destruct (decide _) as [Hwin|]; [|done]. intros Hr. destruct (Hw _ _ _ Hr) as [[? ?] ?].
      split; [lia|done].
  - intros op. rewrite Hl, was_sent_app, Hh, Ha, lookup_remember. intros [Hx|Hx].
    + destruct (only_was_sent r op new Hn Hx) as [-> _]. split; [lia|]. intros _.
      rewrite decide_True by done. eauto.
    + destruct (Hs _ Hx) as [Hle Hr]. split; [lia|]. unfold in_window in *. intros [Hlo Hhi].
      destruct (decide _); [eauto|]. rewrite decide_True by done. apply Hr.
      unfold REPLAY_WINDOW in *. lia.
Qed.

(** What one request does to the log and the memory. *)
Definition request_tracked (r : WorkerRequest) (w : AW) (ans : option WorkerOutcome) (w' : AW) : Prop :=
  exists new, aw_log w' = new ++ aw_log w
  /\ Forall (only (wire_of r)) new /\ (sent new <= 2)%nat
  /\ (was_sent (wr_operation r) (aw_log w) -> sent new = 0%nat)
  /\ match ans with
     | Some answer =>
         memory_inv w'
         /\ ((0 < sent new)%nat ->
             ac_replies (aw_actor w') !! wr_operation r = Some (r, answer))
     | None => True
     end.

Lemma tick_memory_inv w : memory_inv w -> memory_inv (MkAW (aw_actor w) (AeNow :: aw_log w)).
Proof.
  intros Hinv. apply (memory_inv_frames now w (Some (ae_now (AeNow :: aw_log w)))); [framed|done|done].
Qed.

(** Answered without the worker: from memory, or refused. *)
Lemma tick_tracked r w answer :
  memory_inv w -> request_tracked r w (Some answer) (MkAW (aw_actor w) (AeNow :: aw_log w)).
Proof.
  intros Hinv. exists [AeNow]. assert (sent [AeNow] = 0%nat) as -> by done.
  split_and!; [done|by constructor|lia|done|by apply tick_memory_inv|lia].
Qed.

(** Remembered or not, the memory stays true to what was sent. *)
Lemma dispatched_memory r result (attempted : bool) w1 w2 new :
  memory_inv w1 -> memory (aw_actor w2) = memory (aw_actor w1) -> aw_log w2 = new ++ aw_log w1 ->
  Forall (only (wire_of r)) new -> (attempted = false -> sent new = 0%nat) ->
  (ac_highest (aw_actor w1) - REPLAY_WINDOW < wr_operation r)%N ->
  let a := (if attempted then remember r result else fun a => a) (aw_actor w2) in
  memory_inv (MkAW a (aw_log w2))
  /\ ((0 < sent new)%nat -> ac_replies a !! wr_operation r = Some (r, result)).
Proof.
  intros [Hw Hs] Hmem Hl Hn Hq Hwin. unfold memory in Hmem. injection Hmem as _ Hr2 Hh2.
  assert (memory_inv (MkAW (aw_actor w2) (aw_log w1))) as Hinv2.
  { constructor; cbn [aw_actor aw_log]; rewrite Hr2, Hh2; done. }
  destruct attempted; cbn zeta.
  - split; [|intros _; rewrite lookup_remember; by rewrite decide_True].
    apply (memory_inv_remember r result (MkAW (aw_actor w2) (aw_log w1)) _ new); [done| |done|done|done].
    cbn [aw_actor]. by rewrite Hh2.
  - specialize (Hq eq_refl). split; [|lia]. destruct Hinv2 as [Hw2 Hs2]. constructor; [done|].
    intros op. cbn [aw_log]. rewrite Hl, was_sent_app. intros [Hx|Hx]; [|by apply Hs2].
    apply (only_was_sent r) in Hx as [_ Hx]; [lia|done].
Qed.

Lemma request_spec r deadline w ans w' :
  memory_inv w -> request r deadline w = (ans, w') -> request_tracked r w ans w'.
Proof.
  intros Hinv. unfold request, act_bind at 1, now at 1, ask at 1. set (w1 := MkAW _ _). intros E.
  pose proof (tick_memory_inv w Hinv) as Hinv1. fold w1 in Hinv1.
  assert (forall answer, (Some answer, w1) = (ans, w') -> request_tracked r w ans w') as Hplain.
  { intros answer [= <- <-]. by apply tick_tracked. }
  destruct (deadline <=? _)%N; [by eapply Hplain|]. unfold act_bind at 1, reading_actor at 1 in E.
  change (aw_actor w1) with (aw_actor w) in *.
  destruct (ac_replies (aw_actor w) !! wr_operation r) as [[previous result]|] eqn:Hr.
  { destruct (_ && _)%bool; by eapply Hplain. }
  destruct (N.leb_spec (wr_operation r) (ac_highest (aw_actor w) - REPLAY_WINDOW)) as [|Hwin];
    [by eapply Hplain|].
  unfold act_bind at 1 in E. destruct (dispatch r deadline w1) as [ans2 w2] eqn:Ed.
  destruct (dispatch_tracks r deadline w1 _ _ Ed) as (Hmem & new & Hl & Hn & Hc & Hq).
  assert (aw_log w' = aw_log w2) as Hlog by (destruct ans2 as [[result attempted]|]; by injection E as _ <-).
  exists (new ++ [AeNow]). rewrite Hlog, sent_app, Hl, <- app_assoc.
  assert (sent [AeNow] = 0%nat) as -> by done. rewrite Nat.add_0_r.
  split; [done|]. split; [apply Forall_app; split; [done|by constructor]|]. split; [done|]. split.
  { intros Hs. destruct (mi_sent _ Hinv _ Hs) as [Hle Hsome]. destruct Hsome as [x Hx]; [by split|congruence]. }
  destruct ans2 as [[result attempted]|]; injection E as <- <-; [|done].
  apply (dispatched_memory r result attempted w1 w2 new Hinv1 Hmem Hl Hn); [|exact Hwin].
  intros ->. cbn in Hq. by destruct (sent new).
Qed.

Lemma serve_one_inv c w ans w' :
  memory_inv w -> serve_one c w = (Some ans, w') -> memory_inv w'.
Proof.
  intros Hinv. destruct c as [| |r deadline []]; cbn [serve_one].
  - intros E. eapply memory_inv_frames; [|exact E|done]. framed. apply supervise_unsent.
  - intros E. eapply memory_inv_frames; [|exact E|done]. framed.
  - by intros [= _ <-].
  - unfold act_bind. destruct (request r deadline w) as [[answer|] w1] eqn:E; [|done].
    intros [= _ <-]. destruct (request_spec _ _ _ _ _ Hinv E) as (_ & _ & _ & _ & _ & Hi & _). done.
Qed.

Lemma serve_inv cs w answers w' :
  memory_inv w -> serve cs w = (Some answers, w') -> memory_inv w'.
Proof.
  revert w answers. induction cs as [|c cs IH]; intros w answers Hinv; cbn [serve].
  - by intros [= _ <-].
  - unfold act_bind. destruct (serve_one c w) as [[answer|] w1] eqn:E; [|done].
    destruct (serve cs w1) as [[others|] w2] eqn:E2; [|done]. intros [= _ <-].
    eapply IH; [|exact E2]. by eapply serve_one_inv.
Qed.

(** A supervisor's whole life: it prepares, then serves. *)
Definition life (plan : WorkerPlan) (cached : option Cached) (t : N) (cs : list command)
  : option (list (option WorkerOutcome)) * AW :=
  (_ <-a serve_prepare ;; serve cs)
    (MkAW (Actor_new plan cached t (State_new Preparing)) []).

Lemma life_inv plan cached t cs answers w : life plan cached t cs = (Some answers, w) -> memory_inv w.
Proof.
  unfold life, act_bind. set (w0 := MkAW _ _).
  destruct (serve_prepare w0) as [[[]|] w1] eqn:E; [|done]. intros Hs.
  apply (serve_inv cs w1 answers); [|done]. apply (memory_inv_frames serve_prepare w0 (Some tt)); [|done|].
  - unfold serve_prepare. framed. apply prepare_unsent.
  - constructor; cbn; [intros op previous result; by rewrite lookup_empty|].
    intros op (m & d & Hin & _). by apply elem_of_nil in Hin.
Qed.

(** C13. An operation reaches a worker in one attempt or not at all: over every history of
    a supervisor, whatever the clock, the workers and the operating system do, handling
    a request sends that request and nothing else, at most twice (the second time to a
    fresh worker), and never if its operation was sent before; once it was sent, the
    same operation asked again gets the answer already given, or is refused as a
    conflict when it is a different request, and sends nothing. *)
Theorem operation_is_attempted_once (plan : WorkerPlan) (cached : option Cached) (t : N)
    (cs : list command) (answers : list (option WorkerOutcome)) (w : AW) (r : WorkerRequest)
    (deadline : N) :
  life plan cached t cs = (Some answers, w) ->
  let '(ans, w') := request r deadline w in
  exists new, aw_log w' = new ++ aw_log w
  /\ Forall (only (wire_of r)) new /\ (sent new <= 2)%nat
  /\ (was_sent (wr_operation r) (aw_log w) -> sent new = 0%nat)
  /\ forall answer, ans = Some answer -> (0 < sent new)%nat ->
     forall again deadline', wr_operation again = wr_operation r ->
     request again deadline' w'
     = (Some (if (deadline' <=? ae_now (AeNow :: aw_log w'))%N
              then outcome Failed (Some "request_timeout")
              else if bool_decide (wr_method r = wr_method again)
                      && bool_decide (wr_params r = wr_params again)
                   then answer else outcome Invalid (Some "operation_conflict")),
        MkAW (aw_actor w') (AeNow :: aw_log w')).
Proof.
  intros Hlife. pose proof (life_inv _ _ _ _ _ _ Hlife) as Hinv.
  destruct (request r deadline w) as [ans w'] eqn:E.
  destruct (request_spec _ _ _ _ _ Hinv E) as (new & Hl & Hn & Hc & Hs & Hans).
  exists new. split_and!; [done..|]. intros answer -> Hsent again deadline' Hop.
  destruct Hans as [_ Hr]. specialize (Hr Hsent).
  unfold request, act_bind, now, ask, reading_actor. cbv beta iota zeta. cbn [aw_actor aw_log].
  destruct (deadline' <=? _)%N; [done|]. rewrite Hop. cbn [aw_actor]. rewrite Hr. by destruct (_ && _)%bool.
Qed.

End Memory.
