(* ===== verification/ActorProcess.v ===== *)
(** * One process at a time

    A calculus of the processes a supervisor holds, its worker and its preparation steps:
    it carries the invariant that none is started while one is outstanding through every
    part of [Actor]. *)

From S2P Require Import Prelude RustStd Identity Vocabulary Errors World PoolWorker WorkerTypes.
From S2P Require Import WorkerValidate Native Actor ActorFacts ActorMemory.

Open Scope rust_scope.

Section Process.
Context `{JsonValue} `{!WorkerJson} `{!ActorEnv}.

(** What is owed to a process: nothing; a wait; or a wait nobody can make any more, since
    the task that was to make it was aborted. *)
Inductive owed := Settled | Owed | Forfeit.

Definition reaped (s : owed) (task : option task_end) : owed :=
  match s, task with
  | Owed, Some Waited => Settled
  | Owed, Some Aborted => Forfeit
  | _, _ => s
  end.

(** What the history says is owed to the last worker process started. *)
Fixpoint process_owed (log : list aevent) : owed :=
  match log with
  | [] => Settled
  | AeSpawn _ :: rest => if is_ok (ae_spawn log) then Owed else process_owed rest
  | AeReapProcess :: rest => reaped (process_owed rest) (ae_reap log)
  | _ :: rest => process_owed rest
  end.

(** ... and to the last preparation step: running one ends with a wait of its own, unless
    its direct child was seen to exit. *)
Fixpoint step_owed (log : list aevent) : owed :=
  match log with
  | [] => Settled
  | AeStep _ :: rest => if is_ok (ae_step_spawn log) then Owed else step_owed rest
  | AeStepRun _ :: rest =>
      match ae_step_waiting log with
      | Done (Ok _) => step_owed rest
      | _ => reaped (step_owed rest) (ae_reap log)
      end
  | AeReapStep :: rest => reaped (step_owed rest) (ae_reap log)
  | _ :: rest => step_owed rest
  end.

(** Every process, worker or step, was started when nothing was owed to any before. *)
Fixpoint starts_alone (log : list aevent) : Prop :=
  match log with
  | [] => True
  | (AeSpawn _ | AeStep _) :: rest => process_owed rest = Settled /\ step_owed rest = Settled /\ starts_alone rest
  | _ :: rest => starts_alone rest
  end.

(** What the owner of a group still owes it. *)
Definition owed_of (o : ownership) : owed :=
  if ow_waited o then Settled else match ow_reaping o with Some Lost => Forfeit | _ => Owed end.

Definition holds (o : option ownership) (s : owed) : Prop :=
  match o with Some o => one_owner o /\ owed_of o = s | None => s = Settled end.

Lemma reap_owed task o : one_owner o -> owed_of (reap task o).2 = reaped (owed_of o) task.
Proof.
  destruct o as [[] [[]|] [] []], task as [[]|]; unfold one_owner; cbn; intros ?; destruct_and?; done.
Qed.

Lemma reap_ok_settled task o o' : one_owner o -> reap task o = (Some (Ok tt), o') -> owed_of o' = Settled.
Proof.
  destruct o as [[] [[]|] [] []], task as [[]|]; unfold one_owner; cbn; intros ?;
    try (intros [= <-]); destruct_and?; done.
Qed.

Lemma holds_reap task o s : holds (Some o) s -> holds (Some (reap task o).2) (reaped s task).
Proof. intros [Ho <-]. split; [by apply reap_one_owner|by apply reap_owed]. Qed.

Lemma execute_holds reading waiting task :
  holds (Some (pr_group (execute reading waiting task Preparation_spawned).2))
    (match waiting with Done (Ok _) => Owed | _ => reaped Owed task end).
Proof. by destruct reading as [| |[]], waiting as [| |[[]|]], task as [[]|]. Qed.

Record process_inv (w : AW) : Prop := {
  pi_alone : starts_alone (aw_log w);
  pi_process : holds (pc_group <$> ac_process (aw_actor w)) (process_owed (aw_log w));
  pi_step : holds (pr_group <$> ac_preparation (aw_actor w)) (step_owed (aw_log w));
  pi_ready : prepared_complete (ac_state (aw_actor w)) = true -> ac_preparation (aw_actor w) = None;
  pi_open : sa_closed (ac_state (aw_actor w)) = false
}.

(** From a state that satisfies the invariant and [P], [m] keeps the invariant and, if
    it answers, ends with [Q]. *)
Definition keeps_process {A} (P : Actor -> Prop) (m : act A) (Q : A -> Actor -> Prop) : Prop :=
  forall w r w', process_inv w -> P (aw_actor w) -> m w = (r, w') ->
  process_inv w' /\ match r with Some a => Q a (aw_actor w') | None => True end.

Definition always (a : Actor) : Prop := True.
(** A condition on whether preparation succeeded, which only its end decides. *)
Definition ready_as (b : bool -> Prop) (a : Actor) : Prop := b (prepared_complete (ac_state a)).

Lemma kp_bind {A B} (P : Actor -> Prop) (m : act A) (Q : A -> Actor -> Prop) (k : A -> act B) R :
  keeps_process P m Q -> (forall a, keeps_process (Q a) (k a) R) -> keeps_process P (act_bind m k) R.
Proof.
  intros Hm Hk w r w' Hw HP. unfold act_bind. destruct (m w) as [[a|] w1] eqn:E.
  - destruct (Hm _ _ _ Hw HP E) as [Hw1 HQ]. by apply Hk.
  - intros [= <- <-]. split; [|done]. by destruct (Hm _ _ _ Hw HP E).
Qed.

Lemma kp_conseq {A} (P P' : Actor -> Prop) (m : act A) (Q Q' : A -> Actor -> Prop) :
  (forall w, P w -> P' w) -> (forall a w, Q' a w -> Q a w) ->
  keeps_process P' m Q' -> keeps_process P m Q.
Proof.
  intros HP HQ Hm w r w' Hw Hpre E. destruct (Hm _ _ _ Hw (HP _ Hpre) E) as [? Hr].
  split; [done|]. destruct r; auto.
Qed.

Lemma kp_pre {A} (P P' : Actor -> Prop) (m : act A) Q :
  (forall a, P a -> P' a) -> keeps_process P' m Q -> keeps_process P m Q.
Proof. intros HP Hm. eapply kp_conseq; [exact HP| |exact Hm]. done. Qed.

Lemma kp_ret {A} (P : Actor -> Prop) (r : option A) : keeps_process P (io_ret r) (fun _ => P).
Proof. intros w r' w' Hw HP [= <- <-]. split; [done|]. by destruct r. Qed.

Lemma kp_answer {A} (P : Actor -> Prop) (a : A) (Q : A -> Actor -> Prop) :
  (forall w, P w -> Q a w) -> keeps_process P (done a) Q.
Proof. intros HQ w r w' Hw HP [= <- <-]. split; [done|]. by apply HQ. Qed.

Lemma kp_dropped {A} (P : Actor -> Prop) (Q : A -> Actor -> Prop) : keeps_process P dropped Q.
Proof. by intros w r w' Hw HP [= <- <-]. Qed.

Lemma kp_reading {A} (P : Actor -> Prop) (f : Actor -> A) :
  keeps_process P (reading_actor f) (fun x a => P a /\ x = f a).
Proof. by intros w r w' Hw HP [= <- <-]. Qed.

(** Anything but starting or reaping a process. *)
Definition unowned (e : aevent) : bool :=
  match e with AeSpawn _ | AeReapProcess | AeStep _ | AeStepRun _ | AeReapStep => false | _ => true end.

Lemma kp_ask {A} (P : Actor -> Prop) e (answer : list aevent -> A) :
  unowned e = true -> keeps_process P (ask e answer) (fun _ => P).
Proof.
  intros He w r w' [Ha Hp Hs Hr Ho] HP [= <- <-]. split; [|done].
  destruct e; try done; by constructor.
Qed.

(** What the invariant reads of a supervisor. *)
Definition observed (a : Actor) := (ac_process a, ac_preparation a, prepared_complete (ac_state a), sa_closed (ac_state a)).

Lemma kp_modify (P Q : Actor -> Prop) f :
  (forall a, observed (f a) = observed a) -> (forall a, P a -> Q (f a)) ->
  keeps_process P (modify f) (fun _ => Q).
Proof.
  intros Hf HPQ w r w' [Ha Hp Hs Hr Ho] HP [= <- <-]. split; [|by apply HPQ].
  specialize (Hf (aw_actor w)). unfold observed in Hf. injection Hf as E1 E2 E3 E4.
  constructor; cbn [aw_actor aw_log]; rewrite ?E1, ?E2, ?E3, ?E4; done.
Qed.

(** Every part below, from a condition on the supervisor it does not change. *)
Lemma kp_after {A B} (P : Actor -> Prop) (m : act A) (k : A -> act B) Q :
  keeps_process P m (fun _ => P) -> (forall a, keeps_process P (k a) Q) -> keeps_process P (act_bind m k) Q.
Proof. intros Hm Hk. by eapply kp_bind. Qed.

Lemma kp_read {A B} (P : Actor -> Prop) (f : Actor -> A) (k : A -> act B) Q :
  (forall a, keeps_process P (k a) Q) -> keeps_process P (act_bind (reading_actor f) k) Q.
Proof.
  intros Hk. eapply kp_bind; [apply kp_reading|]. intros a. eapply kp_pre; [|apply Hk]. by intros w [? _].
Qed.

(** Reading something the rest depends on. *)
Lemma kp_known {A B} (P : Actor -> Prop) (f : Actor -> A) (k : A -> act B) Q :
  (forall x, keeps_process (fun a => P a /\ f a = x) (k x) Q) ->
  keeps_process P (act_bind (reading_actor f) k) Q.
Proof.
  intros Hk. eapply kp_bind; [apply kp_reading|]. intros x. eapply kp_pre; [|apply Hk]. by intros a [? ->].
Qed.

Lemma kp_try {E A B} (P : Actor -> Prop) (m : act (result E A)) (k : A -> act (result E B))
    (Q : result E B -> Actor -> Prop) :
  keeps_process P m (fun _ => P) -> (forall e w, P w -> Q (Err e) w) ->
  (forall a, keeps_process P (k a) Q) -> keeps_process P (try_act m k) Q.
Proof.
  intros Hm He Hk. apply kp_after; [done|]. intros [a|e]; [apply Hk|].
  intros w r w' Hw HP [= <- <-]. split; [done|]. by apply He.
Qed.

Lemma kp_try_spec {E A B} (P : Actor -> Prop) (m : act (result E A)) (Q1 : result E A -> Actor -> Prop)
    (k : A -> act (result E B)) (Q : result E B -> Actor -> Prop) :
  keeps_process P m Q1 -> (forall e w, Q1 (Err e) w -> Q (Err e) w) ->
  (forall a, keeps_process (Q1 (Ok a)) (k a) Q) -> keeps_process P (try_act m k) Q.
Proof.
  intros Hm He Hk. eapply kp_bind; [exact Hm|]. intros [a|e]; [apply Hk|]. apply kp_answer. apply He.
Qed.

(** The same process with what it wrote since. *)
Lemma kp_set_process p stdout stderr :
  keeps_process (fun a => ac_process a = Some p)
    (modify (set_process (Some (MkProcess (pc_group p) stdout stderr)))) (fun _ => always).
Proof.
  intros w r w' [Ha Hp Hs Hr Ho] HP [= <- <-]. split; [|done]. rewrite HP in Hp. by constructor.
Qed.

(** *** Reaping *)

Definition step_settled (a : Actor) : Prop :=
  match ac_preparation a with Some p => owed_of (pr_group p) = Settled | None => True end.
Definition process_settled (a : Actor) : Prop :=
  match ac_process a with Some p => owed_of (pc_group p) = Settled | None => True end.

(** Conditions that do not read what is reaped. *)
Definition blind {X} (put : X -> Actor -> Actor) (P : Actor -> Prop) : Prop := forall x a, P a -> P (put x a).

Lemma clean_preparation_kp P :
  blind set_preparation P ->
  keeps_process P clean_preparation (fun r a => P a /\ (is_ok r = true -> step_settled a)).
Proof.
  intros HP. unfold clean_preparation. apply kp_known. intros [p|].
  2:{ apply kp_answer. intros a [Ha Hn]. split; [done|]. unfold step_settled. by rewrite Hn. }
  intros w r w' [Ha Hp Hs Hr Ho] [HPw Hprep]. rewrite Hprep in Hs.
  unfold act_bind, ask, Preparation_cleanup. cbn [aw_log aw_actor].
  set (log := AeReapStep :: aw_log w). pose proof (holds_reap (ae_reap log) _ _ Hs) as Hs'.
  destruct (reap (ae_reap log) (pr_group p)) as [res group] eqn:Er. cbn [snd] in Hs'.
  assert (forall q, pr_group q = group ->
            process_inv (MkAW (set_preparation (Some q) (aw_actor w)) log)) as Hinv.
  { intros q Hq. constructor; cbn [aw_actor aw_log set_preparation ac_process ac_preparation ac_state]; try done.
    - cbn. by rewrite Hq.
    - intros Hc%Hr. congruence. }
  destruct res as [[[]|e]|]; cbn; intros [= <- <-]; (split; [by apply Hinv|]); [|by split; [apply HP|]|done].
  split; [by apply HP|]. intros _. unfold step_settled. cbn. exact (reap_ok_settled _ _ _ (proj1 Hs) Er).
Qed.

Lemma clear_preparation_kp P :
  blind set_preparation P ->
  keeps_process (fun a => P a /\ (true = true -> step_settled a)) (modify (set_preparation None))
    (fun _ a => P a /\ ac_preparation a = None).
Proof.
  intros HP w r w' [Ha Hp Hs Hr Ho] [HPw Hset] [= <- <-]. split; [|by split; [apply HP|]].
  constructor; cbn; try done. specialize (Hset eq_refl). unfold step_settled in Hset.
  destruct (ac_preparation (aw_actor w)); [|exact Hs]. destruct Hs as [_ <-]. exact Hset.
Qed.

Lemma clean_process_kp P :
  blind set_process P ->
  keeps_process P clean_process (fun r a => P a /\ (is_ok r = true -> process_settled a)).
Proof.
  intros HP. unfold clean_process. apply kp_known. intros [p|].
  2:{ apply kp_answer. intros a [Ha Hn]. split; [done|]. unfold process_settled. by rewrite Hn. }
  intros w r w' [Ha Hp Hs Hr Ho] [HPw Hheld]. rewrite Hheld in Hp.
  unfold act_bind, ask, Process_cleanup. cbn [aw_log aw_actor].
  set (log := AeReapProcess :: aw_log w). pose proof (holds_reap (ae_reap log) _ _ Hp) as Hp'.
  destruct (reap (ae_reap log) (pc_group p)) as [res group] eqn:Er. cbn [snd] in Hp'.
  assert (forall q, pc_group q = group ->
            process_inv (MkAW (set_process (Some q) (aw_actor w)) log)) as Hinv.
  { intros q Hq. constructor; cbn [aw_actor aw_log set_process ac_process ac_preparation ac_state]; try done.
    cbn. by rewrite Hq. }
  destruct res as [[[]|e]|]; cbn; intros [= <- <-]; (split; [by apply Hinv|]); [|by split; [apply HP|]|done].
  split; [by apply HP|]. intros _. unfold process_settled. cbn. exact (reap_ok_settled _ _ _ (proj1 Hp) Er).
Qed.

Lemma clear_process_kp P :
  blind set_process P ->
  keeps_process (fun a => P a /\ (true = true -> process_settled a)) (modify (set_process None))
    (fun _ a => P a /\ ac_process a = None).
Proof.
  intros HP w r w' [Ha Hp Hs Hr Ho] [HPw Hset] [= <- <-]. split; [|by split; [apply HP|]].
  constructor; cbn; try done. specialize (Hset eq_refl). unfold process_settled in Hset.
  destruct (ac_process (aw_actor w)); [|exact Hp]. destruct Hp as [_ <-]. exact Hset.
Qed.

End Process.

(** Parts that neither start nor reap a process keep any condition on the supervisor that
    they do not set. *)
Ltac kept :=
  repeat match goal with
  | |- keeps_process _ (act_bind (reading_actor _) _) _ => apply kp_read; intros ?
  | |- keeps_process _ (act_bind _ _) _ => apply kp_after; [|intros ?]
  | |- keeps_process _ (try_act _ _) _ => apply kp_try; [|by intros|intros ?]
  | |- keeps_process _ (done _) _ => apply kp_answer; by intros
  | |- keeps_process _ dropped _ => apply kp_dropped
  | |- keeps_process _ (io_ret _) _ => apply kp_ret
  | |- keeps_process _ (ask _ _) _ => apply kp_ask; done
  | |- keeps_process _ now _ => apply kp_ask; done
  | |- keeps_process _ stopped _ => apply kp_ask; done
  | |- keeps_process _ (modify _) _ => apply kp_modify; [intros ?; reflexivity|intros ? Hkept; exact Hkept]
  | |- keeps_process _ (match ?x with _ => _ end) _ => destruct x
  | |- keeps_process _ (let '(_, _) := ?x in _) _ => destruct x
  | |- keeps_process _ _ _ => progress cbv zeta
  | |- keeps_process _ _ _ => solve [auto with kept]
  end.

Ltac blinded := intros ? ? Hblind; exact Hblind.

(** What is kept when a part fails. *)
Ltac gave_up := intros ? ? ?; cbv beta in *; destruct_and?; first [done|split; [done|intros ?; discriminate]].

Create HintDb kept.

Section Kept.
Context `{JsonValue} `{!WorkerJson} `{!ActorEnv}.

Lemma clean_cache_kp P : keeps_process P clean_cache (fun _ => P).
Proof. unfold clean_cache. kept. Qed.
#[local] Hint Resolve clean_cache_kp : kept.

(** Cleaning up succeeds only with the process gone, and decides nothing of preparation. *)
Lemma cleanup_kp b :
  keeps_process (ready_as b) cleanup
    (fun r a => ready_as b a
       /\ (is_ok r = true -> ac_process a = None /\ ac_preparation a = None /\ ac_cache a = None)).
Proof.
  unfold cleanup. apply kp_after; [kept|]. intros [].
  eapply kp_try_spec; [apply clean_preparation_kp; blinded|gave_up|]. intros [].
  eapply kp_bind; [apply (clear_preparation_kp (ready_as b)); blinded|].
  intros []. apply kp_try; [kept|gave_up|]. intros [].
  eapply kp_bind; [apply (kp_modify _ (fun a => (ready_as b a /\ ac_preparation a = None) /\ ac_cache a = None));
    [done|by intros a]|]. intros [].
  eapply kp_try_spec; [apply clean_process_kp; blinded|gave_up|]. intros [].
  eapply kp_bind.
  { apply (clear_process_kp (fun a => (ready_as b a /\ ac_preparation a = None) /\ ac_cache a = None)). blinded. }
  intros []. apply kp_after; [kept|]. intros []. apply kp_after; [kept|]. intros [].
  apply kp_answer. by intros a [[[? ?] ?] ?].
Qed.

Lemma cleanup_always : keeps_process always cleanup (fun _ => always).
Proof. eapply kp_conseq; [| |apply (cleanup_kp (fun _ => True))]; done. Qed.
#[local] Hint Resolve cleanup_always : kept.

(** *** Preparing *)

(** Before preparation has ended there is no worker; between its steps there is none of
    them either. *)
Definition unprepared (a : Actor) : Prop := ac_process a = None /\ prepared_complete (ac_state a) = false.
Definition between_steps (a : Actor) : Prop := unprepared a /\ ac_preparation a = None.

(** The step that was started runs. *)
Lemma execute_kp deadline {B} (k : option (result string unit) -> act B) Q :
  (forall r, keeps_process unprepared (k r) Q) ->
  keeps_process (fun a => unprepared a /\ ac_preparation a = Some Preparation_spawned)
    (run <-a ask (AeStepRun deadline) (fun log => (ae_step_reading log, ae_step_waiting log, ae_reap log)) ;;
     let '(reading, waiting, task) := run in
     let '(result, p) := execute reading waiting task Preparation_spawned in
     _ <-a modify (set_preparation (Some p)) ;; k result) Q.
Proof.
  intros Hk w r w' [Ha Hp Hs Hr Ho] [[Hnone Hunready] Hprep]. rewrite Hprep in Hs.
  unfold act_bind at 1, ask. set (log := AeStepRun deadline :: aw_log w).
  pose proof (execute_holds (ae_step_reading log) (ae_step_waiting log) (ae_reap log)) as Hx.
  destruct (execute _ _ _ _) as [result p]. cbn [snd] in Hx. unfold act_bind, modify. cbn [aw_actor aw_log].
  apply Hk; [|done]. destruct Hs as [_ Hs]. cbn in Hs.
  constructor; cbn [aw_actor aw_log set_preparation ac_process ac_preparation ac_state]; try done.
  - cbn [fmap option_fmap option_map].
    change (step_owed log) with (match ae_step_waiting log with
      | Done (Ok _) => step_owed (aw_log w)
      | _ => reaped (step_owed (aw_log w)) (ae_reap log)
      end). rewrite <- Hs. exact Hx.
  - congruence.
Qed.

Lemma run_step_kp step enclosing :
  keeps_process between_steps (run_step step enclosing)
    (fun r a => unprepared a /\ match r with NotReaped _ => True | _ => ac_preparation a = None end).
Proof.
  intros w r w' Hw [[Hnone Hunready] Hprep]. pose proof Hw as [Ha Hp Hs Hr Ho]. rewrite Hprep in Hs. rewrite Hnone in Hp.
  unfold run_step, act_bind at 1, ask. set (log := AeStep step :: aw_log w).
  assert (starts_alone log) as Halone by done.
  destruct (ae_step_spawn log) as [[]|reason] eqn:Es.
  - unfold act_bind at 1, modify at 1. cbn [aw_actor aw_log].
    match goal with |- ?m ?w1 = _ -> _ =>
      assert (keeps_process (fun a => unprepared a /\ ac_preparation a = Some Preparation_spawned) m
        (fun r a => unprepared a /\ match r with NotReaped _ => True | _ => ac_preparation a = None end)) as Hrest end.
    { apply kp_after; [kept|]. intros t. apply execute_kp. intros [result|]; [|apply kp_dropped].
      eapply kp_bind; [apply clean_preparation_kp; blinded|]. intros [[]|e]; [|by apply kp_answer; intros a [? _]].
      eapply kp_bind; [apply (clear_preparation_kp (unprepared)); blinded|].
      intros []. by apply kp_answer. }
    apply Hrest; [|done].
    constructor; cbn [aw_actor aw_log set_preparation ac_process ac_preparation ac_state]; try done.
    + cbn [process_owed]. by rewrite Hnone.
    + split; [done|]. change (step_owed log) with (if is_ok (ae_step_spawn log) then Owed else step_owed (aw_log w)).
      by rewrite Es.
    + congruence.
  - intros [= <- <-]. split; [|by split].
    constructor; cbn [aw_actor aw_log]; try done.
    + by rewrite Hnone.
    + rewrite Hprep. change (step_owed log) with (if is_ok (ae_step_spawn log) then Owed else step_owed (aw_log w)).
      by rewrite Es.
Qed.

Lemma cache_steps_kp deadline steps : keeps_process between_steps (cache_steps deadline steps) (fun _ => unprepared).
Proof.
  induction steps as [|step steps IH]; cbn [cache_steps]; apply kp_after; [kept| |kept|]; intros stop;
    (destruct stop; [by apply kp_answer; intros a [? _]|]); (apply kp_after; [kept|]); intros t;
    (destruct (deadline <=? t)%N; [by apply kp_answer; intros a [? _]|]).
  - eapply kp_conseq; [done| |by apply (kp_ask between_steps)]. by intros _ a [? _].
  - apply kp_try; [by apply kp_ask|by intros e a [? _]|]. intros _.
    eapply kp_bind; [apply run_step_kp|]. intros [reason|reason|[[]|reason]];
      [by apply kp_answer; intros a [? _]|by apply kp_answer; intros a [? _]| |by apply kp_answer; intros a [? _]].
    exact IH.
Qed.

Lemma plan_steps_kp deadline steps :
  keeps_process between_steps (plan_steps deadline steps)
    (fun r a => unprepared a /\ (wo_kind r = Complete -> ac_preparation a = None)).
Proof.
  induction steps as [|step steps IH]; cbn [plan_steps].
  - apply kp_after; [kept|]. intros stop. by apply kp_answer; intros a [? ?].
  - eapply kp_bind; [apply run_step_kp|].
    intros [reason|reason|[[]|reason]]; [by apply kp_answer; intros a [? _]|by apply kp_answer; intros a [? _]|
      exact IH|by apply kp_answer; intros a [? _]].
Qed.

Lemma provision_cache_kp cached deadline :
  keeps_process between_steps (provision_cache cached deadline) (fun _ => unprepared).
Proof.
  unfold provision_cache. apply kp_read. intros [s|]; [|by apply kp_answer; intros a [? _]].
  destruct (se_legacy s).
  { eapply kp_conseq; [done| |by apply (kp_ask between_steps)]. by intros _ a [? _]. }
  destruct (se_cached s); [by apply kp_answer; intros a [? _]|].
  apply kp_try; [by apply kp_ask|by intros e a [? _]|]. intros _. apply cache_steps_kp.
Qed.

Lemma prepare_cache_kp :
  keeps_process between_steps prepare_cache (fun r a => unprepared a /\ (is_ok r = true -> ac_preparation a = None)).
Proof.
  unfold prepare_cache. apply kp_read. intros [cached|]; [|by apply kp_answer; intros a [? ?]].
  apply kp_after; [kept|]. intros t. cbv zeta.
  apply kp_try; [by apply kp_ask|by intros e a [[? ?] _]|]. intros s.
  apply kp_after; [kept|]. intros _. eapply kp_bind; [apply provision_cache_kp|]. intros result.
  eapply kp_try_spec; [apply clean_preparation_kp; blinded|gave_up|]. intros [].
  eapply kp_bind; [apply (clear_preparation_kp (unprepared)); blinded|].
  intros []. apply kp_try; [apply clean_cache_kp|gave_up|]. intros _.
  apply kp_after; [kept|]. intros _. by apply kp_answer; intros a [? ?].
Qed.

Lemma prepare_kp :
  keeps_process between_steps prepare (fun r a => unprepared a /\ (wo_kind r = Complete -> ac_preparation a = None)).
Proof.
  unfold prepare. eapply kp_bind; [apply prepare_cache_kp|]. intros [[]|reason]; [|by apply kp_answer; intros a [? _]].
  apply (kp_pre _ between_steps); [intros a [Hpre Hn]; exact (conj Hpre (Hn eq_refl))|].
  apply kp_read. intros plan. apply kp_after; [kept|]. intros t. cbv zeta. apply kp_after; [kept|].
  intros [|]; [apply plan_steps_kp|by apply kp_answer; intros a [? _]].
Qed.

(** Only a preparation that left nothing running makes the supervisor ready. *)
Lemma serve_prepare_kp : keeps_process between_steps serve_prepare (fun _ => always).
Proof.
  unfold serve_prepare. eapply kp_bind; [apply prepare_kp|]. intros prepared.
  intros w r w' [Ha Hp Hs Hr Ho] [[Hnone Hunready] Hprep] [= <- <-]. split; [|done].
  constructor; cbn [aw_actor aw_log set_state ac_process ac_preparation ac_state]; try done.
  - unfold published_prepared, prepared_complete. case_bool_decide as Hc; cbn [sa_prepared]; [intros _; auto|].
    by rewrite bool_decide_false.
  - unfold published_prepared. by case_bool_decide.
Qed.

(** *** Serving *)

Lemma handshake_kp : keeps_process always handshake (fun _ => always).
Proof.
  unfold handshake. apply kp_known. intros [p|]; [|by apply kp_answer].
  apply kp_read. intros plan. apply kp_after; [kept|]. intros [[| |[]]|];
    [by apply kp_answer..| |by apply kp_dropped].
  destruct (Native.handshake (pc_stdout p)) as [[r stdout]|]; [|by apply kp_answer].
  eapply kp_bind; [eapply kp_pre; [|apply kp_set_process]; by intros a [_ ?]|]. intros []. by apply kp_answer.
Qed.
#[local] Hint Resolve handshake_kp : kept.

Lemma start_finish_kp result : keeps_process always (start_finish result) (fun _ => always).
Proof. unfold start_finish. kept. Qed.

(** A start when preparation left nothing, and no process is held, is alone. *)
Lemma spawn_kp c {B} (k : result string (list string) -> act B) :
  (forall r, keeps_process always (k r) (fun _ => always)) ->
  keeps_process (fun a => ac_process a = None /\ prepared_complete (ac_state a) = true)
    (spawned <-a ask (AeSpawn c) ae_spawn ;;
     result <-a match spawned with
                | Ok stdout => _ <-a modify (set_process (Some (Process_spawned stdout))) ;; handshake
                | Err reason => done (Err reason)
                end ;;
     k result) (fun _ => always).
Proof.
  intros Hk w r w' [Ha Hp Hs Hr Ho] [Hnone Hready]. specialize (Hr Hready) as Hprep.
  rewrite Hnone in Hp. rewrite Hprep in Hs.
  unfold act_bind at 1, ask. set (log := AeSpawn c :: aw_log w).
  assert (starts_alone log) as Halone by done.
  destruct (ae_spawn log) as [stdout|reason] eqn:Es.
  - intros E. assert (keeps_process always (result <-a handshake ;; k result) (fun _ => always)) as Hrest.
    { apply kp_after; [kept|done]. }
    unfold act_bind at 1 2, modify in E.
    apply (Hrest (MkAW (set_process (Some (Process_spawned stdout)) (aw_actor w)) log)); [|exact I|exact E].
    constructor; cbn [aw_log aw_actor set_process ac_process ac_preparation ac_state]; try done.
    + split; [done|]. change (process_owed log) with (if is_ok (ae_spawn log) then Owed else process_owed (aw_log w)).
      by rewrite Es.
    + by rewrite Hprep.
  - intros E. unfold act_bind, done, io_ret in E.
    apply (Hk (Err reason) (MkAW (aw_actor w) log)); [|exact I|exact E].
    constructor; cbn [aw_log aw_actor]; try done.
    + rewrite Hnone. change (process_owed log) with (if is_ok (ae_spawn log) then Owed else process_owed (aw_log w)).
      by rewrite Es.
    + by rewrite Hprep.
Qed.

Lemma start_new_kp :
  keeps_process (fun a => ac_process a = None /\ prepared_complete (ac_state a) = true) start_new (fun _ => always).
Proof.
  unfold start_new. apply kp_read. intros retry_after. apply kp_after; [kept|]. intros t.
  destruct (match retry_after with Some _ => _ | None => _ end); [by apply kp_answer|].
  unfold start_spawn. apply kp_after; [kept|]. intros _. apply kp_read. intros plan.
  apply spawn_kp. intros r. apply start_finish_kp.
Qed.

Lemma start_kp : keeps_process always start (fun _ => always).
Proof.
  unfold start. apply kp_after; [kept|]. intros []; [kept|].
  apply kp_known. intros []; cbn [negb]; [|by apply kp_answer].
  apply (kp_pre _ (ready_as (fun b => b = true))); [by intros a [_ ?]|].
  apply kp_read. intros plan. apply kp_read. intros last_used.
  apply kp_after; [kept|]. intros t.
  apply (kp_bind _ _ (fun _ => ready_as (fun b => b = true))).
  { destruct (_ && _); [|by apply kp_answer]. eapply kp_conseq; [| |apply (cleanup_kp (fun b => b = true))]; [done|].
    by intros r a [? _]. }
  intros [[]|]; [|by apply kp_answer].
  apply kp_known. intros [p|]; [|eapply kp_pre; [|apply start_new_kp]; by intros a [? ?]].
  apply (kp_pre _ (ready_as (fun b => b = true))); [by intros a [? _]|].
  unfold alive. apply kp_read. intros running. apply kp_after; [kept|]. intros []; [by apply kp_answer|].
  eapply kp_bind; [apply cleanup_kp|]. intros [[]|e]; [|by apply kp_answer].
  eapply kp_pre; [|apply start_new_kp]. intros a [Hb Hn]. split; [by apply Hn|exact Hb].
Qed.
#[local] Hint Resolve start_kp : kept.

Lemma under_deadline_kp {A} (P : Actor -> Prop) (m : act A) :
  keeps_process P m (fun _ => always) -> keeps_process P (under_deadline m) (fun _ => always).
Proof.
  intros Hm w r w' Hw HP. unfold under_deadline. destruct (m w) as [a w1] eqn:E.
  intros [= <- <-]. by destruct (Hm _ _ _ Hw HP E).
Qed.

Lemma exchange_kp p wire deadline :
  keeps_process (fun a => ac_process a = Some p) (exchange p wire deadline) (fun _ => always).
Proof.
  unfold exchange. apply kp_after; [kept|]. intros []; [by apply kp_answer|].
  apply kp_after; [kept|]. intros [race stdin]. destruct race; [by apply kp_answer..|].
  destruct (Process_request _ _ _) as [[r stdout]|]; [|by apply kp_answer].
  eapply kp_bind; [apply kp_set_process|]. intros []. by apply kp_answer.
Qed.

Lemma attempts_kp remaining wire deadline attempted reason :
  keeps_process always (attempts remaining wire deadline attempted reason) (fun _ => always).
Proof.
  revert attempted reason. induction remaining as [|remaining IH]; intros attempted reason;
    cbn [attempts]; [by apply kp_answer|].
  apply kp_after; [apply under_deadline_kp, start_kp|]. intros [started|].
  2:{ kept. }
  destruct (negb _); [by apply kp_answer|]. apply kp_known. intros [p|]; [|by apply kp_answer].
  eapply kp_bind; [eapply kp_pre; [|apply exchange_kp]; by intros a [_ ?]|]. intros [result begun]. cbv zeta.
  assert (forall reason', keeps_process always
    (cleaned <-a cleanup ;;
     match cleaned with
     | Err _ => done (outcome Failed (Some "cleanup_failed"), attempted || begun)
     | Ok _ =>
         stop <-a stopped ;;
         if stop : bool then done (outcome Failed (Some reason'), attempted || begun)
         else
           t <-a now ;;
           if (deadline <=? t)%N then done (outcome Failed (Some reason'), attempted || begun)
           else attempts remaining wire deadline (attempted || begun) reason'
     end) (fun _ => always)) as Hfail by (intros reason'; kept; apply IH).
  destruct result as [response|error]; [|apply Hfail].
  destruct (sp_ok response); [kept|]. destruct (remaining =? 0)%nat; [kept|apply Hfail].
Qed.
#[local] Hint Resolve attempts_kp : kept.

Lemma request_kp r deadline : keeps_process always (request r deadline) (fun _ => always).
Proof.
  unfold request, dispatch. kept. all: apply kp_modify; [intros ?; by destruct (_ : bool)|done].
Qed.
#[local] Hint Resolve request_kp : kept.

Lemma serve_one_kp c : keeps_process always (serve_one c) (fun _ => always).
Proof. unfold serve_one, supervise, alive. destruct c; kept. Qed.
#[local] Hint Resolve serve_one_kp : kept.

Lemma serve_kp cs : keeps_process always (serve cs) (fun _ => always).
Proof. induction cs as [|c cs IH]; cbn [serve]; kept. Qed.

Lemma life_process_inv plan cached t cs : process_inv (life plan cached t cs).2.
Proof.
  assert (keeps_process between_steps (_ <-a serve_prepare ;; serve cs) (fun _ => always)) as Hk.
  { eapply kp_bind; [apply serve_prepare_kp|]. intros []. apply serve_kp. }
  unfold life. set (w0 := MkAW _ _). destruct ((_ <-a serve_prepare ;; serve cs) w0) as [r w] eqn:E.
  destruct (Hk w0 r w) as [Hw _]; [by constructor|done|exact E|exact Hw].
Qed.

(** C14. A supervisor never has two processes: over every history, whatever fails, is
    dropped half-way or times out, a worker or a preparation step is only started when
    every worker and every step started before has been waited for; and one that has not
    been is still held. *)
Theorem one_process_at_a_time (plan : WorkerPlan) (cached : option Cached) (t : N)
    (cs : list command) :
  let w := (life plan cached t cs).2 in
  starts_alone (aw_log w)
  /\ (process_owed (aw_log w) <> Settled -> is_Some (ac_process (aw_actor w)))
  /\ (step_owed (aw_log w) <> Settled -> is_Some (ac_preparation (aw_actor w))).
Proof.
  cbn zeta. destruct (life_process_inv plan cached t cs) as [Ha Hp Hs _ _]. split; [done|].
  split; [destruct (ac_process _)|destruct (ac_preparation _)]; done.
Qed.

End Kept.
