(* ===== verification/ActorBackoff.v ===== *)
(** * A failed start backs off

    After a start that failed, nothing is started for five minutes, whatever is asked. *)

From S2P Require Import Prelude RustStd Identity Vocabulary Errors World PoolWorker WorkerTypes.
From S2P Require Import WorkerValidate Native Actor ActorFacts ActorMemory ActorProcess.

Open Scope rust_scope.

Section Backoff.
Context `{JsonValue} `{!WorkerJson} `{!ActorEnv}.

Definition unspawned (e : aevent) : Prop := match e with AeSpawn _ => False | _ => True end.

Lemma cleanup_unspawned : frames unspawned cleanup.
Proof. by apply cleanup_frames. Qed.
#[local] Hint Resolve cleanup_unspawned : frames.

(** The clock was read, during [new] and before anything was started, at or after
    [after]. *)
Definition late (after : N) (log new : list aevent) : Prop :=
  exists a b, new = a ++ AeNow :: b /\ Forall unspawned b
              /\ (after <= ae_now (AeNow :: b ++ log))%N.

Lemma late_grows after log new more : late after log new -> late after log (more ++ new).
Proof. intros (a & b & -> & Hb). exists (more ++ a), b. by rewrite <- app_assoc. Qed.

Lemma late_later after log new more :
  Forall unspawned new -> late after (new ++ log) more -> late after log (more ++ new).
Proof.
  intros Hn (a & b & -> & Hf & Hb). exists a, (b ++ new). rewrite app_assoc in Hb.
  rewrite <- app_assoc. split_and!; [done|by apply Forall_app|done].
Qed.

(** Until the clock reaches the time set, [m] starts nothing and leaves it set. *)
Definition backs_off {A} (m : act A) : Prop :=
  forall after w r w', ac_retry_after (aw_actor w) = Some after -> m w = (r, w') ->
  exists new, aw_log w' = new ++ aw_log w
  /\ (late after (aw_log w) new
      \/ ac_retry_after (aw_actor w') = Some after /\ Forall unspawned new).

(** [m] only ever adds to the log. *)
Definition grows {A} (m : act A) : Prop :=
  forall w r w', m w = (r, w') -> exists new, aw_log w' = new ++ aw_log w.

Lemma grows_bind {A B} (m : act A) (k : A -> act B) :
  grows m -> (forall a, grows (k a)) -> grows (act_bind m k).
Proof.
  intros Hm Hk w r w'. unfold act_bind. destruct (m w) as [[a|] w1] eqn:E;
    destruct (Hm _ _ _ E) as [n1 L1].
  - intros [n2 L2]%Hk. exists (n2 ++ n1). by rewrite L2, L1, app_assoc.
  - intros [= _ <-]. by exists n1.
Qed.

Lemma frames_grows {A} P (m : act A) : frames P m -> grows m.
Proof. intros Hm w r w' E. destruct (Hm _ _ _ E) as (_ & new & ? & _). by exists new. Qed.

Lemma bo_bind {A B} (m : act A) (k : A -> act B) :
  backs_off m -> (forall a, backs_off (k a)) -> (forall a, grows (k a)) -> backs_off (act_bind m k).
Proof.
  intros Hm Hk Hg after w r w' Ha. unfold act_bind. destruct (m w) as [[a|] w1] eqn:E;
    destruct (Hm _ _ _ _ Ha E) as (n1 & L1 & Hn1).
  - intros Hr. destruct Hn1 as [Hl|[Ha1 Hf]].
    + destruct (Hg a _ _ _ Hr) as [n2 L2]. exists (n2 ++ n1).
      rewrite L2, L1, app_assoc. split; [done|]. left. by apply late_grows.
    + destruct (Hk a _ _ _ _ Ha1 Hr) as (n2 & L2 & Hn2). exists (n2 ++ n1).
      rewrite L2, L1, app_assoc. split; [done|]. destruct Hn2 as [Hl|[Ha2 Hf2]].
      * left. apply late_later; [done|]. by rewrite <- L1.
      * right. split; [done|]. by apply Forall_app.
  - intros [= _ <-]. by exists n1.
Qed.

(** Parts that neither start a process nor touch the time set. *)
Definition steady {A} (m : act A) : Prop :=
  forall w r w', m w = (r, w') ->
  ac_retry_after (aw_actor w') = ac_retry_after (aw_actor w)
  /\ exists new, aw_log w' = new ++ aw_log w /\ Forall unspawned new.

Lemma steady_ret {A} (r : option A) : steady (io_ret r).
Proof. intros w r' w' [= _ <-]. split; [done|]. by exists []. Qed.
Lemma steady_reading {A} (f : Actor -> A) : steady (reading_actor f).
Proof. intros w r' w' [= _ <-]. split; [done|]. by exists []. Qed.
Lemma steady_ask {A} e (answer : list aevent -> A) : unspawned e -> steady (ask e answer).
Proof. intros He w r' w' [= _ <-]. split; [done|]. exists [e]. split; [done|by constructor]. Qed.
Lemma steady_modify f :
  (forall a, ac_retry_after (f a) = ac_retry_after a) -> steady (modify f).
Proof. intros Hf w r' w' [= _ <-]. split; [apply Hf|]. by exists []. Qed.
Lemma steady_bind {A B} (m : act A) (k : A -> act B) :
  steady m -> (forall a, steady (k a)) -> steady (act_bind m k).
Proof.
  intros Hm Hk w r w'. unfold act_bind. destruct (m w) as [[a|] w1] eqn:E;
    destruct (Hm _ _ _ E) as (Ra & n1 & L1 & F1).
  - intros Hr. destruct (Hk a _ _ _ Hr) as (Rb & n2 & L2 & F2). split; [congruence|].
    exists (n2 ++ n1). rewrite L2, L1, app_assoc. split; [done|]. by apply Forall_app.
  - intros [= _ <-]. split; [done|]. by exists n1.
Qed.
Lemma steady_try {E A B} (m : act (result E A)) (k : A -> act (result E B)) :
  steady m -> (forall a, steady (k a)) -> steady (try_act m k).
Proof. intros Hm Hk. apply steady_bind; [done|]. intros [a|e]; [apply Hk|apply steady_ret]. Qed.

Lemma bo_steady {A} (m : act A) : steady m -> backs_off m.
Proof.
  intros Hm after w r w' Ha E. destruct (Hm _ _ _ E) as (Hr & new & L & F). exists new.
  split; [done|]. right. by rewrite Hr.
Qed.

Lemma steady_grows {A} (m : act A) : steady m -> grows m.
Proof. intros Hm w r w' E. destruct (Hm _ _ _ E) as (_ & new & ? & _). by exists new. Qed.

Ltac steadied :=
  repeat match goal with
  | |- steady (try_act _ _) => apply steady_try; [|intros ?]
  | |- steady (act_bind _ _) => apply steady_bind; [|intros ?]
  | |- steady (done _) => apply steady_ret
  | |- steady (io_ret _) => apply steady_ret
  | |- steady (reading_actor _) => apply steady_reading
  | |- steady (ask _ _) => apply steady_ask; done
  | |- steady now => apply steady_ask; done
  | |- steady stopped => apply steady_ask; done
  | |- steady (modify _) => apply steady_modify; intros ?; done
  | |- steady (match ?x with _ => _ end) => destruct x
  end.

Lemma cleanup_steady : steady cleanup.
Proof. unfold cleanup, clean_preparation, clean_cache, clean_process. steadied. Qed.

Lemma exchange_steady p wire deadline : steady (exchange p wire deadline).
Proof. unfold exchange. steadied. Qed.

Lemma grows_under_deadline {A} (m : act A) : grows m -> grows (under_deadline m).
Proof.
  intros Hm w r w'. unfold under_deadline. destruct (m w) as [a w1] eqn:E. intros [= _ <-].
  by eapply Hm.
Qed.

Lemma bo_under_deadline {A} (m : act A) : backs_off m -> backs_off (under_deadline m).
Proof.
  intros Hm after w r w' Ha. unfold under_deadline. destruct (m w) as [a w1] eqn:E.
  intros [= _ <-]. by eapply Hm.
Qed.

Lemma start_grows : grows start.
Proof. apply (frames_grows (fun e => unsent e)), start_unsent. Qed.

Lemma start_spawn_grows : grows start_spawn.
Proof.
  apply (frames_grows unsent). unfold start_spawn. framed.
Qed.

(** The time set is looked at before anything is started. *)
Lemma start_new_backs_off : backs_off start_new.
Proof.
  intros after w r w' Ha E.
  unfold start_new, act_bind at 1, reading_actor at 1 in E.
  unfold act_bind at 1, now at 1, ask at 1 in E. rewrite Ha in E.
  destruct (N.ltb_spec (ae_now (AeNow :: aw_log w)) after) as [Hlt|Hge].
  - injection E as <- <-. exists [AeNow]. split; [done|]. right. split; [done|by constructor].
  - destruct (start_spawn_grows _ _ _ E) as [new L]. exists (new ++ [AeNow]).
    rewrite L, <- app_assoc. split; [done|]. left. exists new, []. split_and!; [done|constructor|done].
Qed.

Lemma start_new_grows : grows start_new.
Proof. apply (frames_grows unsent), start_new_unsent. Qed.
Lemma cleanup_grows : grows cleanup.
Proof. apply steady_grows, cleanup_steady. Qed.

Lemma start_backs_off : backs_off start.
Proof.
  assert (forall A (m : act A), steady m -> forall k : A -> act WorkerOutcome,
            (forall a, backs_off (k a) /\ grows (k a)) ->
            backs_off (act_bind m k) /\ grows (act_bind m k)) as Hthen.
  { intros A m Hm k Hk. split.
    - apply bo_bind; [by apply bo_steady|..]; intros a; apply Hk.
    - apply grows_bind; [by apply steady_grows|]. intros a. apply Hk. }
  assert (forall a : WorkerOutcome, backs_off (done a) /\ grows (done a)) as Hdone.
  { intros a. split; [apply bo_steady|apply steady_grows]; steadied. }
  assert (backs_off start_new /\ grows start_new) as Hnew.
  { split; [apply start_new_backs_off|apply start_new_grows]. }
  enough (backs_off start /\ grows start) as [? _] by done. unfold start.
  apply Hthen; [steadied|]. intros []; [apply Hdone|].
  apply Hthen; [steadied|]. intros ready. destruct (negb ready); [apply Hdone|].
  apply Hthen; [steadied|]. intros plan. apply Hthen; [steadied|]. intros last_used.
  apply Hthen; [steadied|]. intros t.
  apply Hthen; [steadied; apply cleanup_steady|]. intros [[]|e]; [|apply Hdone].
  apply Hthen; [steadied|]. intros [p|]; [|apply Hnew].
  apply Hthen; [steadied|]. intros running.
  apply Hthen; [unfold alive; steadied|]. intros []; [apply Hdone|].
  apply Hthen; [apply cleanup_steady|]. intros [[]|e]; [apply Hnew|apply Hdone].
Qed.

(** Both at once, for what is made of parts that back off. *)
Definition held_back {A} (m : act A) : Prop := backs_off m /\ grows m.

Lemma hb_steady {A} (m : act A) : steady m -> held_back m.
Proof. intros Hm. split; [by apply bo_steady|by apply steady_grows]. Qed.

Lemma hb_bind {A B} (m : act A) (k : A -> act B) :
  held_back m -> (forall a, held_back (k a)) -> held_back (act_bind m k).
Proof.
  intros [? ?] Hk. split; [apply bo_bind|apply grows_bind]; try done; intros a; apply Hk.
Qed.

Lemma start_held_back : held_back start.
Proof. split; [apply start_backs_off|apply start_grows]. Qed.

Lemma attempts_held_back remaining wire deadline attempted reason :
  held_back (attempts remaining wire deadline attempted reason).
Proof.
  revert attempted reason. induction remaining as [|remaining IH]; intros attempted reason;
    cbn [attempts]; [apply hb_steady; steadied|].
  apply hb_bind.
  { destruct start_held_back. split; [by apply bo_under_deadline|by apply grows_under_deadline]. }
  intros [started|]; [|apply hb_steady; steadied; apply cleanup_steady].
  destruct (negb _); [apply hb_steady; steadied|].
  apply hb_bind; [apply hb_steady; steadied|]. intros [p|]; [|apply hb_steady; steadied].
  apply hb_bind; [apply hb_steady, exchange_steady|]. intros [result begun]. cbv zeta.
  assert (forall reason', held_back
    (cleaned <-a cleanup ;;
     match cleaned with
     | Err _ => done (outcome Failed (Some "cleanup_failed"), attempted || begun)
     | Ok _ =>
         stop <-a stopped ;;
         if stop : bool then done (outcome Failed (Some reason'), attempted || begun)
         else
           t <-a now ;;
           if (deadline <=? t)%N then done (outcome Failed (Some reason'), attempted || begun)
           else attempts remaining wire deadline (attempted || begun) reason'
     end)) as Hfail.
  { intros reason'. apply hb_bind; [apply hb_steady, cleanup_steady|].
    intros []; [|apply hb_steady; steadied]. apply hb_bind; [apply hb_steady; steadied|].
    intros []; [apply hb_steady; steadied|]. apply hb_bind; [apply hb_steady; steadied|].
    intros t. destruct (_ <=? _)%N; [apply hb_steady; steadied|apply IH]. }
  destruct result as [response|error]; [|apply Hfail].
  destruct (sp_ok response); [apply hb_steady; steadied|].
  destruct (remaining =? 0)%nat; [apply hb_steady; steadied|apply Hfail].
Qed.

Lemma request_held_back r deadline : held_back (request r deadline).
Proof.
  unfold request, dispatch. apply hb_bind; [apply hb_steady; steadied|]. intros t.
  destruct (_ <=? _)%N; [apply hb_steady; steadied|].
  apply hb_bind; [apply hb_steady; steadied|]. intros a.
  destruct (ac_replies a !! _) as [[previous result]|];
    [apply hb_steady; steadied|]. destruct (_ <=? _)%N; [apply hb_steady; steadied|].
  cbv zeta. apply hb_bind.
  - apply hb_bind; [apply hb_steady; steadied|]. intros t'.
    destruct (_ <=? _)%N; [apply hb_steady; steadied|apply attempts_held_back].
  - intros [result attempted]. apply hb_steady. steadied. apply steady_modify. by destruct attempted.
Qed.

Lemma serve_held_back cs : held_back (serve cs).
Proof.
  induction cs as [|c cs IH]; cbn [serve]; [apply hb_steady; steadied|].
  apply hb_bind; [|intros answer; apply hb_bind; [done|intros others; apply hb_steady; steadied]].
  destruct c as [| |r deadline []]; cbn [serve_one].
  - apply hb_steady. unfold supervise, alive. steadied; try apply cleanup_steady.
  - apply hb_bind; [apply start_held_back|]. intros. apply hb_steady. steadied.
  - apply hb_steady. steadied.
  - apply hb_bind; [apply request_held_back|]. intros. apply hb_steady. steadied.
Qed.

(** A start that got as far as starting something succeeds, leaves something it could
    not clean up, or sets the time before which there is no other. *)
Definition settled (ans : WorkerOutcome) (w : AW) : Prop :=
  wo_kind ans = Complete \/ wo_reason ans = Some "cleanup_failed"
  \/ ac_retry_after (aw_actor w) = Some (ae_now (aw_log w) + BACKOFF)%N.

Lemma start_finish_settles result w ans w' :
  start_finish result w = (Some ans, w') -> settled ans w'.
Proof.
  assert (forall why w ans w',
    (cleaned <-a cleanup ;;
     match cleaned with
     | Err _ => done (outcome Failed (Some "cleanup_failed"))
     | Ok _ =>
         t <-a now ;;
         _ <-a modify (set_retry_after (Some (t + BACKOFF)%N)) ;;
         _ <-a modify (fun a => set_state (mark_phase FailedPhase (ac_state a)) a) ;;
         done (outcome Failed (Some why))
     end) w = (Some ans, w') -> settled ans w') as Hfail.
  { clear. intros why w ans w'. unfold act_bind at 1. destruct (cleanup w) as [[[[]|e]|] w1]; [| |done].
    - intros [= <- <-]. by right; right.
    - intros [= <- _]. by right; left. }
  unfold start_finish. destruct result as [backends|e]; [|apply Hfail].
  unfold act_bind at 1, stopped, ask at 1. destruct (ae_stop _); [apply Hfail|].
  intros [= <- _]. by left.
Qed.

(** Nothing was started, or the start is settled. *)
Definition settles (m : act WorkerOutcome) : Prop :=
  forall w ans w', m w = (Some ans, w') ->
  exists new, aw_log w' = new ++ aw_log w /\ (Forall unspawned new \/ settled ans w').

Lemma settles_after {A} (m : act A) (k : A -> act WorkerOutcome) :
  steady m -> (forall a, settles (k a)) -> settles (act_bind m k).
Proof.
  intros Hm Hk w ans w'. unfold act_bind. destruct (m w) as [[a|] w1] eqn:E; [|done].
  destruct (Hm _ _ _ E) as (_ & n1 & L1 & F1). intros (n2 & L2 & Hs)%Hk.
  exists (n2 ++ n1). rewrite L2, L1, app_assoc. split; [done|]. destruct Hs as [F2|?]; [|by right].
  left. by apply Forall_app.
Qed.

Lemma settles_done a : settles (done a).
Proof. intros w ans w' [= <- <-]. exists []. split; [done|]. left. constructor. Qed.

Lemma start_spawn_settles : settles start_spawn.
Proof.
  intros w ans w' E. destruct (start_spawn_grows _ _ _ E) as [new L]. exists new.
  split; [done|]. right. revert E. unfold start_spawn, act_bind, modify, reading_actor, ask.
  cbn [aw_actor aw_log]. destruct (ae_spawn _) as [stdout|reason].
  - cbn [aw_actor aw_log]. destruct (handshake _) as [[result|] w2]; [|done]. apply start_finish_settles.
  - apply start_finish_settles.
Qed.

Lemma start_settles : settles start.
Proof.
  assert (settles start_new) as Hnew.
  { unfold start_new. apply settles_after; [steadied|]. intros after.
    apply settles_after; [steadied|]. intros t.
    destruct (match after with Some _ => _ | None => _ end); [apply settles_done|].
    apply start_spawn_settles. }
  unfold start. apply settles_after; [steadied|]. intros []; [apply settles_done|].
  apply settles_after; [steadied|]. intros ready. destruct (negb ready); [apply settles_done|].
  apply settles_after; [steadied|]. intros plan. apply settles_after; [steadied|]. intros last_used.
  apply settles_after; [steadied|]. intros t.
  apply settles_after; [steadied; apply cleanup_steady|]. intros [[]|e]; [|apply settles_done].
  apply settles_after; [steadied|]. intros [p|]; [|done].
  apply settles_after; [steadied|]. intros running.
  apply settles_after; [unfold alive; steadied|]. intros []; [apply settles_done|].
  apply settles_after; [apply cleanup_steady|]. intros [[]|e]; [done|apply settles_done].
Qed.

(** A worker that will not start is not started again for five minutes: when a start
    spawned a process (or tried to), did not end up running it and could clean it up,
    then whatever the supervisor is asked to serve next, it spawns nothing until the
    clock has passed the end of that start by 300 seconds. *)
Theorem failed_start_backs_off (w : AW) (ans : WorkerOutcome) (w1 : AW) (started : list aevent)
    (cs : list command) :
  start w = (Some ans, w1) -> aw_log w1 = started ++ aw_log w ->
  ~ Forall unspawned started -> wo_kind ans <> Complete ->
  wo_reason ans <> Some "cleanup_failed" ->
  let '(_, w2) := serve cs w1 in
  exists new, aw_log w2 = new ++ aw_log w1
  /\ (Forall unspawned new
      \/ exists a b, new = a ++ AeNow :: b /\ Forall unspawned b
         /\ (ae_now (aw_log w1) + 300000 <= ae_now (AeNow :: b ++ aw_log w1))%N).
Proof.
  intros E L Hs Hk Hr. destruct (start_settles _ _ _ E) as (new & L' & Hsettled).
  assert (new = started) as -> by (apply (app_inv_tail (aw_log w)); congruence).
  destruct Hsettled as [|[|[|Hset]]]; [done..|].
  destruct (serve cs w1) as [r w2] eqn:E2.
  destruct (serve_held_back cs) as [Hbo _]. destruct (Hbo _ _ _ _ Hset E2) as (n2 & L2 & Hn2).
  exists n2. split; [done|]. destruct Hn2 as [Hl|[_ ?]]; [by right|by left].
Qed.

End Backoff.
