(* ===== verification/ActorSamples.v ===== *)
(** * A supervisor at work

    Values, a worker and a system on which the supervisor's properties are applied. *)

From S2P Require Import Prelude RustStd Identity Vocabulary Errors World PoolWorker WorkerTypes.
From S2P Require Import WorkerValidate Native Actor ActorFacts ActorMemory ActorProcess ActorBackoff.

Open Scope rust_scope.

Section Samples.

Definition sample_value : JsonValue := {| Value := string; Value_eq_dec := _ |}.
#[local] Existing Instance sample_value.

(** The worker's line is the id it answers; its first line says it is ready. *)
Definition sample_worker_json : WorkerJson := {|
  encode_request message := Ok (sr_id message);
  decode_ready line :=
    if starts_with "ready" line then Some (MkReadyLine true (Some 1%N) [] None) else None;
  decode_response line :=
    match cut_line line with
    | Some _ => Some (MkServerResponse (Some (String.substring 0 (String.length line - 1) line)) true None None)
    | None => None
    end
|}.
#[local] Existing Instance sample_worker_json.

(** Time goes by one millisecond an event; a worker says [output], or will not start. *)
Definition sample_actor_env (output : result string (list fill)) : ActorEnv := {|
  ae_now log := N.of_nat (length log);
  ae_stop _ := false;
  ae_spawn _ := output;
  ae_handshake _ := Some (Done tt);
  ae_exchange _ := Done tt;
  ae_stdin _ := Ok tt;
  ae_try_wait _ := Ok None;
  ae_reap _ := Some Waited;
  ae_install_script _ := Ok tt;
  ae_step_spawn _ := Ok tt;
  ae_step_reading _ := Done (Ok tt);
  ae_step_waiting _ := Done (Ok true);
  ae_acquire _ := Ok (MkSession true false);
  ae_cache _ := Ok tt
|}.

Let plan := MkWorkerPlan "print()" (MkWorkerCommand "/opt/python" [] [] None) [] [] 1000 1000 None 0.
Let lines := [Chunk ("ready" +:+ newline); Chunk ("1" +:+ newline +:+ "2" +:+ newline)].
Let op n := MkWorkerRequest (MkWorkerHandle "h") n "run" ("x" : Value).
Let healthy := sample_actor_env (Ok lines).
Let broken := sample_actor_env (Err "spawn_failed").

(** An operation asked twice is sent once; another is sent to the same process. *)
Example operations_are_sent_once :
  let '(answers, w) :=
    @life _ _ healthy plan None 0 [CmdRequest (op 1) 900 false; CmdRequest (op 1) 900 false;
                                   CmdRequest (op 2) 900 false] in
  map (option_map wo_kind) (default [] answers) = [Some Response; Some Response; Some Response]
  /\ sent (aw_log w) = 2%nat.
Proof. vm_compute. done. Qed.

(** A computation whose answer is known, without its world being evaluated. *)
Lemma answered {A} (x : option A * AW) (a : A) : x.1 = Some a -> x = (Some a, x.2).
Proof. destruct x as [o w]. cbn. by intros ->. Qed.

Let served := [Some (MkWorkerOutcome Response
  (Some (MkServerResponse (Some "1") true None None)) None)].

Lemma operation_is_attempted_once_witness :
  let before := @life _ _ healthy plan None 0 [CmdRequest (op 1) 900 false] in
  sent (aw_log before.2) = 1%nat
  /\ exists new, aw_log (@request _ _ healthy (op 1) 950 before.2).2 = new ++ aw_log before.2
     /\ (was_sent 1 (aw_log before.2) -> sent new = 0%nat).
Proof.
  split; [vm_compute; reflexivity|]. cbv zeta.
  assert ((@life _ _ healthy plan None 0 [CmdRequest (op 1) 900 false]).1 = Some served) as Hlife.
  { vm_compute. reflexivity. }
  pose proof (@operation_is_attempted_once _ _ healthy plan None 0 _ _ _ (op 1) 950
    (answered _ _ Hlife)) as H.
  destruct (request (op 1) 950 _) as [ans w']. destruct H as (new & Hl & _ & _ & Hs & _).
  exists new. split; [exact Hl|exact Hs].
Defined.

(** A worker that cannot be spawned: one attempt, then none for five minutes. *)
Lemma failed_start_backs_off_witness :
  let before := @life _ _ broken plan None 0 [] in
  let first := @start _ _ broken before.2 in
  first.1 = Some (outcome Failed (Some "spawn_failed"))
  /\ exists new, aw_log (@serve _ _ broken [CmdStart] first.2).2 = new ++ aw_log first.2
     /\ (Forall unspawned new
         \/ exists a b, new = a ++ AeNow :: b /\ Forall unspawned b
            /\ (@ae_now _ broken (aw_log first.2) + 300000
                <= @ae_now _ broken (AeNow :: b ++ aw_log first.2))%N).
Proof.
  assert ((@start _ _ broken (@life _ _ broken plan None 0 []).2).1
          = Some (outcome Failed (Some "spawn_failed"))) as Hstart.
  { vm_compute. reflexivity. }
  split; [exact Hstart|]. cbv zeta.
  pose proof (@failed_start_backs_off _ _ broken _ _ _
    [AeNow; AeSpawn (wp_command plan); AeNow; AeNow; AeStop] [CmdStart]
    (answered _ _ Hstart)) as H.
  destruct (serve [CmdStart] _) as [r w2]. apply H.
  - vm_compute. reflexivity.
  - intros Hf. rewrite Forall_forall in Hf. apply (Hf (AeSpawn (wp_command plan))). right. left.
  - discriminate.
  - discriminate.
Defined.

End Samples.
