(* ===== verification/ActorClose.v ===== *)
(** * How a supervisor ends

    Whatever its life was, and however often its cleanup fails: it is only announced
    closed once nothing it started is left. *)

From stdpp Require Import fin_maps.
From S2P Require Import Prelude RustStd Identity Vocabulary Errors World PoolWorker WorkerTypes.
From S2P Require Import WorkerValidate Native Actor ActorFacts ActorMemory ActorProcess ActorSamples.

Open Scope rust_scope.

Section Close.
Context `{JsonValue} `{!WorkerJson} `{!ActorEnv}.

(** Nothing is owned any more. *)
Definition owns_nothing (a : Actor) : Prop :=
  ac_process a = None /\ ac_preparation a = None /\ ac_cache a = None.

Definition announced_closed (a : Actor) : Prop :=
  sa_closed (ac_state a) = true /\ wst_phase (sa_status (ac_state a)) = ClosedPhase
  /\ sst_running (wst_server (sa_status (ac_state a))) = false.

(** From its start to the end of its closing loop; what serving answered is not looked at:
    a panic, too, ends in the loop. *)
Definition run (plan : WorkerPlan) (cached : option Cached) (t : N) (cs : list command)
    (removals : list (result io_error unit)) : option bool * AW :=
  close removals (life plan cached t cs).2.

Lemma clean_cache_actor w r w' : clean_cache w = (r, w') -> aw_actor w' = aw_actor w.
Proof.
  unfold clean_cache, reading_actor, act_bind, ask. by destruct (ac_cache (aw_actor w)); intros [= _ <-].
Qed.

Lemma cleanup_ok w w' : cleanup w = (Some (Ok tt), w') -> owns_nothing (aw_actor w').
Proof.
  unfold cleanup, try_act, act_bind, modify. cbn [aw_actor aw_log].
  destruct (clean_preparation _) as [[[[]|e]|] w1]; [|done..].
  destruct (clean_cache _) as [[[[]|e]|] w3] eqn:E; [|done..]. apply clean_cache_actor in E. cbn in E.
  unfold clean_process, reading_actor, act_bind, ask, modify. cbn [aw_actor aw_log set_cache ac_process].
  rewrite E. cbn. destruct (ac_process (aw_actor w1)) as [p|]; cbn [aw_actor aw_log].
  - destruct (Process_cleanup _ p) as [[[[]|e]|] q]; cbn; [|done..]. by intros [= <-].
  - by intros [= <-].
Qed.

Lemma close_once_ok removal w w' :
  close_once removal w = (Some true, w') -> owns_nothing (aw_actor w') /\ announced_closed (aw_actor w').
Proof.
  unfold close_once, act_bind, modify. destruct (cleanup w) as [[[[]|e]|] w1] eqn:Hc; [|done..].
  pose proof (cleanup_ok _ _ Hc) as Hn.
  destruct removal as [[]|[[] text]]; cbn; intros [= <-]; done.
Qed.

Lemma close_ok removals w w' :
  close removals w = (Some true, w') -> owns_nothing (aw_actor w') /\ announced_closed (aw_actor w').
Proof.
  revert w. induction removals as [|removal rest IH]; intros w; cbn [close]; [done|].
  unfold act_bind. destruct (close_once removal w) as [[[|]|] w1] eqn:Ho; [|apply IH|done].
  intros [= <-]. by eapply close_once_ok.
Qed.

(** Nobody still waits, or has to wait, for a process or a step. *)
Definition nothing_owed (log : list aevent) : Prop :=
  process_owed log = Settled /\ step_owed log = Settled.

(** What removing the root has to answer before a supervisor may close. *)
Definition root_gone (removal : result io_error unit) : bool :=
  match removal with Ok _ | Err (MkIoError NotFound _) => true | _ => false end.

(** A turn that does not end the closing loop leaves the supervisor open. *)
Lemma close_once_spec removal w r w' :
  process_inv w -> close_once removal w = (r, w') ->
  match r with Some true => nothing_owed (aw_log w') /\ root_gone removal = true | _ => process_inv w' end.
Proof.
  intros Hw. unfold close_once, act_bind. destruct (cleanup w) as [cleaned w1] eqn:Hc.
  destruct (cleanup_kp (fun _ => True) _ _ _ Hw I Hc) as [[Ha Hp Hs Hr Ho] Hn].
  destruct cleaned as [cleaned|]; [destruct Hn as [_ Hn]|by intros [= <- <-]].
  destruct cleaned as [[]|e], removal as [[]|[[] text]]; cbn; intros [= <- <-];
    try by constructor.
  all: destruct (Hn eq_refl) as (Hn1 & Hn2 & _); rewrite Hn1 in Hp; rewrite Hn2 in Hs; done.
Qed.

Lemma close_spec removals w r w' :
  process_inv w -> close removals w = (r, w') ->
  match r with
  | Some true => nothing_owed (aw_log w') /\ Exists (fun removal => root_gone removal = true) removals
  | _ => process_inv w'
  end.
Proof.
  revert w. induction removals as [|removal rest IH]; intros w Hw; cbn [close]; [by intros [= <- <-]|].
  unfold act_bind. destruct (close_once removal w) as [turn w1] eqn:Ho.
  pose proof (close_once_spec _ _ _ _ Hw Ho) as Hturn. destruct turn as [[]|].
  - intros [= <- <-]. destruct Hturn as [? ?]. split; [done|by left].
  - intros Hc. specialize (IH _ Hturn Hc). destruct r as [[]|]; [|done..].
    destruct IH as [? ?]. split; [done|by right].
  - by intros [= <- <-].
Qed.

(** C15. A supervisor is announced closed exactly when nothing is left: whatever happened
    in its life, however often its cleanup failed, and wherever its closing loop is, its
    closed flag is up if and only if the loop has ended; and then it holds no worker, no
    preparation step and no cache session, every process it ever started was waited for,
    its root was removed or already gone, and its status says closed and not running. *)
Theorem closed_means_nothing_left (plan : WorkerPlan) (cached : option Cached) (t : N)
    (cs : list command) (removals : list (result io_error unit)) :
  let '(ended, w) := run plan cached t cs removals in
  (sa_closed (ac_state (aw_actor w)) = true <-> ended = Some true)
  /\ (sa_closed (ac_state (aw_actor w)) = true ->
      owns_nothing (aw_actor w) /\ announced_closed (aw_actor w) /\ nothing_owed (aw_log w)
      /\ Exists (fun removal => root_gone removal = true) removals).
Proof.
  unfold run. destruct (close removals _) as [ended w] eqn:Hc.
  pose proof (close_spec _ _ _ _ (life_process_inv plan cached t cs) Hc) as Hend.
  destruct ended as [[]|]; [|by rewrite (pi_open _ Hend)..].
  destruct (close_ok _ _ _ Hc) as [Hn Ha]. destruct Hend as [Hlog Hgone].
  split; [|done]. split; [done|]. intros _. apply Ha.
Qed.

End Close.

(** ** The property at work *)

Section Samples.
#[local] Existing Instances sample_value sample_worker_json.

Let plan := MkWorkerPlan "print()" (MkWorkerCommand "/opt/python" [] [] None) [] [] 1000 1000 None 0.
#[local] Instance one_answer : ActorEnv :=
  sample_actor_env (Ok [Chunk ("ready" +:+ newline); Chunk ("1" +:+ newline)]).
Let request := MkWorkerRequest (MkWorkerHandle "h") 1 "run" ("x" : Value).

(** Its directory cannot be removed the first time. *)
Let ended := run plan None 0 [CmdRequest request 900 false] [Err (MkIoError OtherIo "busy"); Ok tt].

Lemma closed_means_nothing_left_witness :
  ended.1 = Some true /\ owns_nothing (aw_actor ended.2) /\ announced_closed (aw_actor ended.2)
  /\ nothing_owed (aw_log ended.2)
  /\ Exists (fun removal => root_gone removal = true) [Err (MkIoError OtherIo "busy"); Ok tt].
Proof.
  assert (ended.1 = Some true) as Hok by (vm_compute; reflexivity). split; [exact Hok|].
  pose proof (closed_means_nothing_left plan None 0 [CmdRequest request 900 false]
    [Err (MkIoError OtherIo "busy"); Ok tt]) as Hclosed.
  change (run plan None 0 _ _) with ended in Hclosed. rewrite (surjective_pairing ended) in Hclosed.
  destruct Hclosed as [[_ Hup] Hclosed]. exact (Hclosed (Hup Hok)).
Defined.

(** After the first turn it is still open, whatever it no longer holds. *)
Example busy_root_keeps_it_open :
  let '(ended, w) := run plan None 0 [CmdRequest request 900 false] [Err (MkIoError OtherIo "busy")] in
  ended = Some false /\ sa_closed (ac_state (aw_actor w)) = false.
Proof. vm_compute. done. Qed.

End Samples.
