(* ===== verification/ActorEnds.v ===== *)
(** * A supervisor can always be closed

    Cleaning up can fail, and is tried again: whatever failed before, once the processes
    can be waited for, the cache session can be cleaned up and the directory can be
    removed, the closing loop ends. The one exception is in the code on purpose: a reaping
    task the runtime aborted proves nothing, and is never taken for a success. *)

From S2P Require Import Prelude RustStd Identity Vocabulary Errors World PoolWorker WorkerTypes.
From S2P Require Import WorkerValidate Native Actor ActorFacts ActorMemory ActorProcess ActorSamples ActorClose.

Open Scope rust_scope.

(** ** Nothing is lost while no reaping task is aborted *)

Definition unlost (o : ownership) : Prop := ow_reaping o <> Some Lost.

Lemma reap_unlost task o : task <> Some Aborted -> unlost o -> unlost (reap task o).2.
Proof.
  unfold reap, begin_reap, unlost. intros Ht Ho.
  destruct (ow_reaping o) as [[]|] eqn:Hr; [|done|destruct (ow_child o)]; cbn; rewrite ?Hr; try done;
    destruct task as [[]|]; cbn; congruence.
Qed.

(** Waiting for the process works: it was waited for. *)
Lemma reap_when_waited o : unlost o -> exists o', reap (Some Waited) o = (Some (Ok tt), o').
Proof.
  unfold reap, begin_reap, unlost. intros Ho. destruct (ow_reaping o) as [[]|] eqn:Hr; [|done|].
  - rewrite Hr. by eexists.
  - destruct (ow_child o); cbn; [by eexists|]. rewrite Hr. by eexists.
Qed.

Section Ends.
Context `{JsonValue} `{!WorkerJson} `{!ActorEnv}.

(** Whatever the supervisor holds can be reaped. *)
Record reapable (a : Actor) : Prop := {
  rp_process p : ac_process a = Some p -> unlost (pc_group p);
  rp_preparation p : ac_preparation a = Some p -> unlost (pr_group p)
}.

Definition upholds {A} (m : act A) : Prop :=
  forall w r w', reapable (aw_actor w) -> m w = (r, w') -> reapable (aw_actor w').

Lemma up_bind {A B} (m : act A) (k : A -> act B) : upholds m -> (forall a, upholds (k a)) -> upholds (act_bind m k).
Proof.
  intros Hm Hk w r w' Hw. unfold act_bind. destruct (m w) as [[a|] w1] eqn:E; [|intros [= _ <-]; by eapply Hm].
  apply (Hk a). by eapply Hm.
Qed.

Lemma up_try {E A B} (m : act (result E A)) (k : A -> act (result E B)) :
  upholds m -> (forall a, upholds (k a)) -> upholds (try_act m k).
Proof. intros Hm Hk. apply up_bind; [done|]. intros [a|e]; [apply Hk|]. by intros w r w' Hw [= _ <-]. Qed.

(** What is read off the supervisor satisfies what is known of it. *)
Lemma up_read {A B} (f : Actor -> A) (k : A -> act B) :
  (forall a, reapable a -> upholds (k (f a))) -> upholds (act_bind (reading_actor f) k).
Proof. intros Hk w r w' Hw. by apply (Hk (aw_actor w) Hw w r w' Hw). Qed.

Lemma up_ret {A} (o : option A) : upholds (io_ret o).
Proof. by intros w r w' Hw [= _ <-]. Qed.

Lemma up_ask {A} e (answer : list aevent -> A) : upholds (ask e answer).
Proof. by intros w r w' Hw [= _ <-]. Qed.

Lemma up_modify f :
  (forall a, reapable a -> reapable (f a)) -> upholds (modify f).
Proof. intros Hf w r w' Hw [= _ <-]. by apply Hf. Qed.

Lemma up_under_deadline {A} (m : act A) : upholds m -> upholds (under_deadline m).
Proof. intros Hm w r w' Hw. unfold under_deadline. destruct (m w) as [a w1] eqn:E. intros [= _ <-]. by eapply Hm. Qed.

Lemma reapable_process p a : unlost (pc_group p) -> reapable a -> reapable (set_process (Some p) a).
Proof. intros Hp [_ Hb]. constructor; cbn; [by intros ? [= <-]|done]. Qed.

Lemma reapable_preparation p a : unlost (pr_group p) -> reapable a -> reapable (set_preparation (Some p) a).
Proof. intros Hp [Ha _]. constructor; cbn; [done|by intros ? [= <-]]. Qed.

Lemma reapable_gone a : reapable a -> reapable (set_process None a) /\ reapable (set_preparation None a).
Proof. intros [Ha Hb]. by split; constructor. Qed.

(** Nothing of what is held changes. *)
Lemma reapable_same a a' :
  ac_process a' = ac_process a -> ac_preparation a' = ac_preparation a -> reapable a -> reapable a'.
Proof. intros Hp Hq [Ha Hb]. constructor; [by rewrite Hp|by rewrite Hq]. Qed.

End Ends.

Create HintDb upheld.

Ltac upheld :=
  repeat match goal with
  | |- upholds (act_bind (reading_actor _) _) => apply up_read; intros ? ?
  | |- upholds (act_bind _ _) => apply up_bind; [|intros ?]
  | |- upholds (try_act _ _) => apply up_try; [|intros ?]
  | |- upholds (done _) => apply up_ret
  | |- upholds dropped => apply up_ret
  | |- upholds (io_ret _) => apply up_ret
  | |- upholds (ask _ _) => apply up_ask
  | |- upholds now => apply up_ask
  | |- upholds stopped => apply up_ask
  | |- upholds (modify (set_process None)) => apply up_modify; intros ? ?; by apply reapable_gone
  | |- upholds (modify (set_preparation None)) => apply up_modify; intros ? ?; by apply reapable_gone
  | |- upholds (modify _) => apply up_modify; intros ?; apply reapable_same; reflexivity
  | |- upholds (under_deadline _) => apply up_under_deadline
  | |- upholds (match ?x with _ => _ end) => destruct x eqn:?
  | |- upholds (let '(_, _) := ?x in _) => destruct x eqn:?
  | |- upholds _ => progress cbv zeta
  | |- upholds _ => solve [auto with upheld]
  end.

Section Life.
Context `{JsonValue} `{!WorkerJson} `{!ActorEnv}.
Context (Hkept : forall log, ae_reap log <> Some Aborted).

Lemma clean_preparation_up : upholds clean_preparation.
Proof.
  unfold clean_preparation. apply up_read. intros a Ha. destruct (ac_preparation a) as [p|] eqn:Hp; [|apply up_ret].
  apply rp_preparation in Hp; [|done]. intros w r w' Hw. unfold act_bind at 1, ask.
  pose proof (reap_unlost (ae_reap (AeReapStep :: aw_log w)) (pr_group p) (Hkept _) Hp) as Hu.
  destruct (Preparation_cleanup _ p) as [res q] eqn:E. unfold Preparation_cleanup in E.
  destruct (reap _ _) as [o g]. cbn in Hu.
  assert (unlost (pr_group q)) as Hq by (destruct o as [[]|]; by injection E as _ <-).
  apply (up_bind (modify (set_preparation (Some q))) (fun _ => io_ret res)); [|intros; apply up_ret|done].
  apply up_modify. intros b. by apply reapable_preparation.
Qed.
#[local] Hint Resolve clean_preparation_up : upheld.

Lemma clean_process_up : upholds clean_process.
Proof.
  unfold clean_process. apply up_read. intros a Ha. destruct (ac_process a) as [p|] eqn:Hp; [|apply up_ret].
  apply rp_process in Hp; [|done]. intros w r w' Hw. unfold act_bind at 1, ask.
  pose proof (reap_unlost (ae_reap (AeReapProcess :: aw_log w)) (pc_group p) (Hkept _) Hp) as Hu.
  destruct (Process_cleanup _ p) as [res q] eqn:E. unfold Process_cleanup in E.
  destruct (reap _ _) as [o g]. cbn in Hu.
  assert (unlost (pc_group q)) as Hq by (destruct o as [[]|]; by injection E as _ <-).
  apply (up_bind (modify (set_process (Some q))) (fun _ => io_ret res)); [|intros; apply up_ret|done].
  apply up_modify. intros b. by apply reapable_process.
Qed.
#[local] Hint Resolve clean_process_up : upheld.

Lemma cleanup_up : upholds cleanup.
Proof. unfold cleanup, clean_cache. upheld. Qed.
#[local] Hint Resolve cleanup_up : upheld.

Lemma preparation_cleanup_unlost task p :
  task <> Some Aborted -> unlost (pr_group p) -> unlost (pr_group (Preparation_cleanup task p).2).
Proof.
  intros Ht Hp. pose proof (reap_unlost task _ Ht Hp) as Hu. unfold Preparation_cleanup.
  destruct (reap _ _) as [o g]. by destruct o as [[]|].
Qed.

Lemma execute_unlost reading waiting task p :
  task <> Some Aborted -> unlost (pr_group p) -> unlost (pr_group (execute reading waiting task p).2).
Proof.
  intros Ht Hp. unfold execute. destruct (pr_pipes p); cbn [negb]; [|done]. cbv zeta. cbn [pr_group pr_pipes].
  destruct (ow_child _); cbn [negb]; [|done].
  set (q := match _ with Ok _ => MkPreparation _ _ | Err _ => MkPreparation _ _ end).
  assert (unlost (pr_group q)) as Hq by (unfold q; by repeat case_match).
  clearbody q. pose proof (preparation_cleanup_unlost task q Ht Hq) as Hc.
  destruct (Preparation_cleanup task q) as [[[]|] g]; repeat (case_match; simplify_eq; cbn; try done).
Qed.

(** An answer that is used at once. *)
Lemma up_answered {A B} e (answer : list aevent -> A) (k : A -> act B) :
  (forall log, upholds (k (answer log))) -> upholds (act_bind (ask e answer) k).
Proof. intros Hk w r w' Hw. unfold act_bind, ask. by apply Hk. Qed.

Lemma run_step_up step enclosing : upholds (run_step step enclosing).
Proof.
  unfold run_step. apply up_bind; [apply up_ask|]. intros [[]|reason]; [|apply up_ret].
  apply up_bind; [apply up_modify; intros ?; by apply reapable_preparation|]. intros _.
  apply up_bind; [apply up_ask|]. intros t. apply up_answered. intros log.
  pose proof (execute_unlost (ae_step_reading log) (ae_step_waiting log) (ae_reap log) Preparation_spawned
    (Hkept log) ltac:(done)) as Hu.
  destruct (execute _ _ _ _) as [result p]. apply up_bind; [|intros _; upheld].
  apply up_modify. intros a. by apply reapable_preparation.
Qed.
#[local] Hint Resolve run_step_up : upheld.

Lemma cache_steps_up deadline steps : upholds (cache_steps deadline steps).
Proof. induction steps as [|step steps IH]; cbn [cache_steps]; upheld; done. Qed.
#[local] Hint Resolve cache_steps_up : upheld.

Lemma plan_steps_up deadline steps : upholds (plan_steps deadline steps).
Proof. induction steps as [|step steps IH]; cbn [plan_steps]; upheld; done. Qed.
#[local] Hint Resolve plan_steps_up : upheld.

Lemma serve_prepare_up : upholds serve_prepare.
Proof. unfold serve_prepare, prepare, prepare_cache, provision_cache, clean_cache. upheld. Qed.

Lemma handshake_up : upholds handshake.
Proof.
  unfold handshake. apply up_read. intros a Ha. destruct (ac_process a) as [p|] eqn:Hp; [|apply up_ret].
  apply rp_process in Hp; [|done]. upheld. apply up_modify. intros ?. by apply reapable_process.
Qed.
#[local] Hint Resolve handshake_up : upheld.

Lemma start_up : upholds start.
Proof.
  unfold start, start_new, start_spawn, start_finish, alive. upheld.
  all: apply up_modify; intros ?; by apply reapable_process.
Qed.
#[local] Hint Resolve start_up : upheld.

Lemma exchange_up p wire deadline : unlost (pc_group p) -> upholds (exchange p wire deadline).
Proof.
  intros Hp. unfold exchange. upheld. apply up_modify. intros ?. by apply reapable_process.
Qed.

Lemma attempts_up remaining wire deadline attempted reason :
  upholds (attempts remaining wire deadline attempted reason).
Proof.
  revert attempted reason. induction remaining as [|remaining IH]; intros attempted reason; cbn [attempts]; [upheld|].
  apply up_bind; [upheld|]. intros [started|]; [|upheld].
  destruct (negb _); [upheld|]. apply up_read. intros a Ha. destruct (ac_process a) as [p|] eqn:Hp; [|upheld].
  apply rp_process in Hp; [|done]. apply up_bind; [by apply exchange_up|]. intros [result begun]. upheld; apply IH.
Qed.
#[local] Hint Resolve attempts_up : upheld.

Lemma request_up q deadline : upholds (request q deadline).
Proof.
  unfold request, dispatch. upheld. all: apply up_modify; intros ?; case_match; [by apply reapable_same|done].
Qed.
#[local] Hint Resolve request_up : upheld.

Lemma serve_up cs : upholds (serve cs).
Proof.
  induction cs as [|c cs IH]; cbn [serve]; [upheld|]. apply up_bind; [|intros ?; upheld; done].
  unfold serve_one, supervise, alive. upheld.
Qed.

Lemma close_up removals : upholds (close removals).
Proof. induction removals as [|removal rest IH]; cbn [close]; unfold close_once; upheld; done. Qed.

Lemma run_reapable plan cached t cs removals : reapable (aw_actor (run plan cached t cs removals).2).
Proof.
  assert (upholds (_ <-a serve_prepare ;; serve cs)) as Hserve by (apply up_bind; [apply serve_prepare_up|intros ?; apply serve_up]).
  unfold run. destruct (life plan cached t cs) as [answers w] eqn:E. unfold life in E.
  assert (reapable (aw_actor w)) as Hw by (eapply Hserve; [|exact E]; by constructor).
  cbn [snd]. destruct (close removals w) as [r w'] eqn:Hc. by eapply close_up.
Qed.

(** ** A turn of the closing loop that nothing stands in the way of *)

(** From [w] on, what is waited for ends, and the cache session can be cleaned up. *)
Definition lets_go (w : AW) : Prop :=
  (forall e new, ae_reap (e :: new ++ aw_log w) = Some Waited)
  /\ (forall new, ae_cache (AeCache CacheCleanup :: new ++ aw_log w) = Ok tt).

Definition gone (removal : result io_error unit) : Prop :=
  match removal with Ok _ | Err (MkIoError NotFound _) => True | Err _ => False end.

Lemma clean_preparation_done w :
  reapable (aw_actor w) -> (forall e new, ae_reap (e :: new ++ aw_log w) = Some Waited) ->
  exists a new, clean_preparation w = (Some (Ok tt), MkAW a (new ++ aw_log w))
    /\ ac_process a = ac_process (aw_actor w).
Proof.
  intros Hr Hwait. unfold clean_preparation, reading_actor, act_bind, ask, modify.
  destruct (ac_preparation (aw_actor w)) as [p|] eqn:Hp.
  2:{ exists (aw_actor w), []. split; [|done]. by destruct w. }
  apply rp_preparation in Hp; [|done]. rewrite (Hwait AeReapStep [] : ae_reap (AeReapStep :: aw_log w) = _). unfold Preparation_cleanup.
  destruct (reap_when_waited _ Hp) as [o ->]. cbn. eexists _, [_]. by split.
Qed.

Lemma clean_process_done w :
  (forall p, ac_process (aw_actor w) = Some p -> unlost (pc_group p)) ->
  (forall e new, ae_reap (e :: new ++ aw_log w) = Some Waited) ->
  exists w', clean_process w = (Some (Ok tt), w').
Proof.
  intros Hr Hwait. unfold clean_process, reading_actor, act_bind, ask, modify.
  destruct (ac_process (aw_actor w)) as [p|] eqn:Hp; [|by exists w].
  rewrite (Hwait AeReapProcess [] : ae_reap (AeReapProcess :: aw_log w) = _). unfold Process_cleanup.
  destruct (reap_when_waited _ (Hr p eq_refl)) as [o ->]. cbn. by eexists.
Qed.

Lemma cleanup_done w : reapable (aw_actor w) -> lets_go w -> exists w', cleanup w = (Some (Ok tt), w').
Proof.
  intros Hr [Hwait Hcache]. unfold cleanup, try_act. unfold act_bind at 1, modify at 1.
  set (w1 := MkAW (set_state _ _) (aw_log w)).
  destruct (clean_preparation_done w1) as (a & new & E & Hp); [by apply (reapable_same (aw_actor w))|exact Hwait|].
  unfold act_bind at 1. rewrite E. unfold act_bind at 1, modify at 1. cbn [aw_actor aw_log].
  set (w2 := MkAW _ (new ++ aw_log w1)). unfold act_bind at 1.
  assert (exists w3, clean_cache w2 = (Some (Ok tt), w3) /\ aw_actor w3 = aw_actor w2
            /\ exists more, aw_log w3 = more ++ aw_log w) as (w3 & -> & Ha3 & more & Hl3).
  { unfold clean_cache, reading_actor, act_bind, ask. destruct (ac_cache (aw_actor w2)).
    - eexists. rewrite (Hcache new : ae_cache (AeCache CacheCleanup :: aw_log w2) = _). split; [done|]. split; [done|]. by exists (AeCache CacheCleanup :: new).
    - exists w2. split; [done|]. split; [done|]. by exists new. }
  unfold act_bind at 1, modify at 1. unfold act_bind at 1.
  destruct (clean_process_done (MkAW (set_cache None (aw_actor w3)) (aw_log w3))) as [w4 ->].
  - intros p. rewrite Ha3. cbn. rewrite Hp. by apply Hr.
  - intros e later. cbn [aw_log]. rewrite Hl3, app_assoc. apply Hwait.
  - by eexists.
Qed.

Lemma close_once_done removal w :
  reapable (aw_actor w) -> lets_go w -> gone removal -> exists w', close_once removal w = (Some true, w').
Proof.
  intros Hr Hgo Hgone. unfold close_once, act_bind. destruct (cleanup_done w Hr Hgo) as [w' ->].
  destruct removal as [[]|[[] text]]; by (contradiction || eexists).
Qed.

Lemma close_app removals more w w' :
  close removals w = (Some false, w') -> close (removals ++ more) w = close more w'.
Proof.
  revert w. induction removals as [|removal rest IH]; intros w; cbn [app close]; [by intros [= <-]|].
  unfold act_bind. destruct (close_once removal w) as [[[|]|] w1]; [done|apply IH|done].
Qed.

(** C16. A supervisor can always be closed. Whatever its life was and however many turns of
    its closing loop failed, as long as the runtime aborts none of its reaping tasks: if
    from some moment on its processes can be waited for, its cache session can be cleaned
    up and its directory is removed or gone, the next turn closes it. *)
Theorem closing_can_always_end (plan : WorkerPlan) (cached : option Cached) (t : N) (cs : list command)
    (failed : list (result io_error unit)) (removal : result io_error unit) (w : AW) :
  run plan cached t cs failed = (Some false, w) ->
  (forall e new, ae_reap (e :: new ++ aw_log w) = Some Waited) ->
  (forall new, ae_cache (AeCache CacheCleanup :: new ++ aw_log w) = Ok tt) ->
  match removal with Ok _ | Err (MkIoError NotFound _) => True | Err _ => False end ->
  exists w', run plan cached t cs (failed ++ [removal]) = (Some true, w').
Proof.
  intros Hrun Hwait Hcache Hgone. pose proof (run_reapable plan cached t cs failed) as Hr. rewrite Hrun in Hr.
  unfold run in *. rewrite (close_app _ _ _ _ Hrun). cbn [close]. unfold act_bind.
  destruct (close_once_done removal w Hr) as [w' ->]; [by split|exact Hgone|]. by exists w'.
Qed.

End Life.

(** ** The property at work *)

Section Samples.
#[local] Existing Instances sample_value sample_worker_json.

Let plan := MkWorkerPlan "print()" (MkWorkerCommand "/opt/python" [] [] None) [] [] 1000 1000 None 0.
Let request := MkWorkerRequest (MkWorkerHandle "h") 1 "run" ("x" : Value).
Let calm := sample_actor_env (Ok [Chunk ("ready" +:+ newline); Chunk ("1" +:+ newline)]).

(** Waiting for the process fails, for a while. *)
#[local] Instance stubborn : ActorEnv := {|
  ae_now := ae_now (ActorEnv := calm);
  ae_stop := ae_stop (ActorEnv := calm);
  ae_spawn := ae_spawn (ActorEnv := calm);
  ae_handshake := ae_handshake (ActorEnv := calm);
  ae_exchange := ae_exchange (ActorEnv := calm);
  ae_stdin := ae_stdin (ActorEnv := calm);
  ae_try_wait := ae_try_wait (ActorEnv := calm);
  ae_reap log := if (length log <? 19)%nat then Some WaitFailed else Some Waited;
  ae_install_script := ae_install_script (ActorEnv := calm);
  ae_step_spawn := ae_step_spawn (ActorEnv := calm);
  ae_step_reading := ae_step_reading (ActorEnv := calm);
  ae_step_waiting := ae_step_waiting (ActorEnv := calm);
  ae_acquire := ae_acquire (ActorEnv := calm);
  ae_cache := ae_cache (ActorEnv := calm)
|}.

Let failed : list (result io_error unit) := [Ok tt; Ok tt; Ok tt].
Let life_so_far := run plan None 0 [CmdRequest request 900 false] failed.

Lemma closing_can_always_end_witness :
  life_so_far.1 = Some false
  /\ exists w, run plan None 0 [CmdRequest request 900 false] (failed ++ [Err (MkIoError NotFound "gone")]) = (Some true, w).
Proof.
  assert (life_so_far.1 = Some false /\ length (aw_log life_so_far.2) = 18%nat) as [Hopen Hlen]
    by (vm_compute; split; reflexivity).
  split; [exact Hopen|].
  assert (forall log : list aevent, ae_reap log <> Some Aborted) as Hkept.
  { intros log. unfold ae_reap, stubborn. by destruct (length log <? 19)%nat. }
  apply (closing_can_always_end Hkept plan None 0
           [CmdRequest request 900 false] failed (Err (MkIoError NotFound "gone")) life_so_far.2).
  - rewrite <- Hopen. apply surjective_pairing.
  - intros e new. cbn [ae_reap stubborn length]. rewrite length_app, Hlen.
    destruct (Nat.ltb_spec (S (length new + 18)) 19); [lia|reflexivity].
  - reflexivity.
  - exact I.
Defined.

(** A reaping task that was aborted is never taken for a success. *)
Example an_aborted_reap_never_closes :
  forall task, (reap task (MkOwnership false (Some Lost) true false)).1 = Some (Err "reap_task_failed").
Proof. by intros []. Qed.

End Samples.
