(* ===== verification/Manager.v ===== *)
(** * The manager of persistent workers: [worker/mod.rs]

    The book of slots, each held under a handle: reservations, preparation by one
    detached supervisor, requests queued to it, stopping and shutting down. Every
    operation takes the book's lock once: each is a function of the book and the clock,
    and what follows the lock waits on what the supervisor publishes. *)

From stdpp Require Import fin_maps.
From S2P Require Import Prelude RustStd Identity Vocabulary Errors World PoolWorker WorkerTypes.
From S2P Require Import WorkerValidate Native Actor.

Open Scope rust_scope.

Definition CAPACITY : nat := 16.
Definition QUEUE : nat := 8.
Definition RESERVATION_LIFETIME : N := 30000.

Section Manager.
Context `{JsonValue}.

(** ** The book *)

(** What is queued to a supervisor; a reply channel is not represented. *)
Inductive queued := QStart | QRequest (r : WorkerRequest) (deadline : N).

(** The sending end of a supervisor's queue: what is in it, and whether the supervisor
    still listens. *)
Record channel := MkChannel { ch_queue : list queued; ch_open : bool }.

Record Slot := MkSlot {
  sl_reserved_at : N;
  sl_plan : option WorkerPlan;
  sl_cached : option Cached;
  sl_commands : option channel;
  sl_stop : bool;
  sl_state : State
}.

Record Book := MkBook {
  bk_nonce : string;
  bk_issued : N;
  bk_terminal : bool;
  bk_slots : gmap WorkerHandle Slot
}.

Record WorkerManager := MkWorkerManager {
  wm_root : Path;
  wm_cache_scopes : gmap string Path;
  wm_spawner : option Spawner
}.

(** The nonce is a fresh UUID, and the book starts empty. *)
Definition Book_new (nonce : string) : Book := MkBook nonce 0 false ∅.
Definition WorkerManager_new (root : Path) : WorkerManager := MkWorkerManager root ∅ None.
Definition manager_with_spawner (spawner : Spawner) (m : WorkerManager) : WorkerManager :=
  MkWorkerManager (wm_root m) (wm_cache_scopes m) (Some spawner).

(** [impl Drop for Slot], and what is left to the supervisors when the last clone of the
    manager is dropped, and the book with it. *)
Definition Slot_drop (s : Slot) : Slot :=
  MkSlot (sl_reserved_at s) (sl_plan s) (sl_cached s) (sl_commands s) true (sl_state s).
Definition manager_drop (b : Book) : gmap WorkerHandle Slot := Slot_drop <$> bk_slots b.

(** [with_cache_scopes], after [cache::scopes] accepted them: the last of two equal names
    wins, and there are none. *)
Definition overlapping (a b : WorkerCacheScope) : bool :=
  String.eqb (cs_id a) (cs_id b)
  || path_starts_with (Path_new (cs_root b)) (Path_new (cs_root a))
  || path_starts_with (Path_new (cs_root a)) (Path_new (cs_root b)).

Fixpoint check_scopes (home : option Path) (prior scopes : list WorkerCacheScope)
  : result string unit :=
  match scopes with
  | [] => Ok tt
  | s :: rest =>
      _ <-! scope home s ;;
      if existsb (fun p => overlapping p s) prior then Err "cache_scope_conflict"
      else check_scopes home (prior ++ [s]) rest
  end.

Definition scopes (home : option Path) (l : list WorkerCacheScope) : result string unit :=
  if too_long 32 l then Err "cache_scope_limit" else check_scopes home [] l.

Definition with_cache_scopes (home : option Path) (l : list WorkerCacheScope) (m : WorkerManager)
  : result Error WorkerManager :=
  _ <-! map_err CacheScope (scopes home l) ;;
  Ok (MkWorkerManager (wm_root m)
        (list_to_map (rev (map (fun s => (cs_id s, Path_new (cs_root s))) l))) (wm_spawner m)).

(** ** Slots *)

Definition elapsed (now since : N) : N := (now - since)%N.

Definition slot_expired (now : N) (s : Slot) : bool :=
  match sl_plan s with
  | None => (RESERVATION_LIFETIME <=? elapsed now (sl_reserved_at s))%N
  | Some _ => false
  end.

Definition retained (now : N) (s : Slot) : bool :=
  negb (sa_closed (sl_state s))
  && (match sl_plan s with Some _ => true | None => false end
      || (elapsed now (sl_reserved_at s) <? RESERVATION_LIFETIME)%N).

Definition set_slots (slots : gmap WorkerHandle Slot) (b : Book) : Book :=
  MkBook (bk_nonce b) (bk_issued b) (bk_terminal b) slots.

Definition handle_of (nonce : string) (n : N) : WorkerHandle :=
  MkWorkerHandle (nonce +:+ ":" +:+ display_u64 n).

Definition new_slot (now : N) : Slot := MkSlot now None None None false (State_new Reserved).

Definition reserve (now : N) (b : Book) : result WorkerOutcome WorkerHandle * Book :=
  if bk_terminal b then (Err (outcome Closed (Some "manager_shutdown")), b)
  else
    let b := set_slots (filter (fun '(_, s) => retained now s = true) (bk_slots b)) b in
    if (CAPACITY <=? size (bk_slots b))%nat then (Err (outcome Busy (Some "worker_capacity")), b)
    else
      match checked_add (bk_issued b) 1 with
      | None => (Err (outcome Failed (Some "identity_exhausted")), b)
      | Some issued =>
          let handle := handle_of (bk_nonce b) issued in
          (Ok handle, MkBook (bk_nonce b) issued (bk_terminal b)
                        (<[handle := new_slot now]> (bk_slots b)))
      end.

Definition missing (b : Book) (h : WorkerHandle) : WorkerOutcome :=
  let known :=
    match strip_prefix (bk_nonce b +:+ ":") (handle_id h) with
    | Some rest =>
        match parse_u64 rest with
        | Some n => (0 <? n)%N && (n <=? bk_issued b)%N
        | None => false
        end
    | None => false
    end in
  outcome (if known then Closed else UnknownHandle) None.

(** ** Preparing *)

(** A supervisor started for a slot. *)
Record supervisor := MkSupervisor {
  su_handle : WorkerHandle;
  su_plan : WorkerPlan;
  su_root : Path;
  su_cached : option Cached;
  su_spawner : option Spawner
}.

Definition prepare_slot (plan : WorkerPlan) (cached : option Cached) (s : Slot) : Slot :=
  MkSlot (sl_reserved_at s) (Some plan) cached (Some (MkChannel [] true)) (sl_stop s)
    (State_new Preparing).

(** The locked part of [prepare_inner]: a final answer, or what is published is awaited,
    with the supervisor started for it if there was none. *)
Definition prepare_locked (m : WorkerManager) (now : N) (request : WorkerPrepare)
    (cached : option Cached) (b : Book) : result WorkerOutcome (option supervisor) * Book :=
  let h := wpr_handle request in
  if bk_terminal b then (Err (outcome Closed (Some "manager_shutdown")), b)
  else match bk_slots b !! h with
       | None => (Err (missing b h), b)
       | Some s =>
           if sa_closed (sl_state s) || sl_stop s then (Err (outcome Closed None), b)
           else match sl_plan s with
                | Some plan =>
                    if negb (bool_decide (plan = wpr_plan request)) || negb (bool_decide (sl_cached s = cached))
                    then (Err (outcome Invalid (Some "plan_conflict")), b)
                    else (Ok None, b)
                | None =>
                    if (RESERVATION_LIFETIME <=? elapsed now (sl_reserved_at s))%N
                    then (Err (outcome Closed (Some "reservation_expired")), b)
                    else
                      (Ok (Some (MkSupervisor h (wpr_plan request)
                                   (path_join (wm_root m) (Path_new (replace_byte ":" "_" (handle_id h))))
                                   cached (wm_spawner m))),
                       set_slots (<[h := prepare_slot (wpr_plan request) cached s]> (bk_slots b)) b)
                end
       end.

Definition prepare_inner (m : WorkerManager) (now : N) (request : WorkerPrepare)
    (cached : option Cached) (b : Book) : result WorkerOutcome (option supervisor) * Book :=
  match plan (wpr_plan request) with
  | Err reason => (Err (outcome Invalid (Some reason)), b)
  | Ok _ => prepare_locked m now request cached b
  end.

Definition prepare_cached (m : WorkerManager) (now : N) (request : WorkerPrepareCached) (b : Book)
  : result WorkerOutcome (option supervisor) * Book :=
  match recipe (wpc_recipe request) with
  | Err reason => (Err (outcome Invalid (Some reason)), b)
  | Ok _ =>
      match wm_cache_scopes m !! cr_scope (wpc_recipe request) with
      | None => (Err (outcome Invalid (Some "cache_scope_unapproved")), b)
      | Some root =>
          prepare_inner m now (MkWorkerPrepare (wpc_handle request) (wpc_plan request))
            (Some (MkCached (wpc_recipe request) root)) b
      end
  end.

(** The waiting part, over the states the supervisor publishes; [None] while it waits,
    and a supervisor that is gone publishes nothing more. *)
Fixpoint prepare_wait (published : list State) (gone : bool) : option WorkerOutcome :=
  match published with
  | [] => if gone then Some (outcome Failed (Some "supervisor_closed")) else None
  | s :: rest =>
      if sa_closed s then Some (outcome Closed None)
      else match sa_prepared s with
           | Some prepared => Some prepared
           | None => prepare_wait rest gone
           end
  end.

(** ** Commands *)

Definition try_send (q : queued) (c : channel) : option channel :=
  if negb (ch_open c) || (QUEUE <=? length (ch_queue c))%nat then None
  else Some (MkChannel (ch_queue c ++ [q]) (ch_open c)).

Definition set_commands (c : option channel) (s : Slot) : Slot :=
  MkSlot (sl_reserved_at s) (sl_plan s) (sl_cached s) c (sl_stop s) (sl_state s).

(** The locked part of [submit]: refused, or queued. *)
Definition submit (now : N) (h : WorkerHandle) (q : queued) (b : Book)
  : result WorkerOutcome unit * Book :=
  if bk_terminal b then (Err (outcome Closed (Some "manager_shutdown")), b)
  else match bk_slots b !! h with
       | None => (Err (missing b h), b)
       | Some s =>
           if slot_expired now s then (Err (outcome Closed (Some "reservation_expired")), b)
           else if sl_stop s || sa_closed (sl_state s) then (Err (outcome Closed None), b)
           else match sl_commands s with
                | None => (Err (outcome Invalid (Some "not_prepared")), b)
                | Some c =>
                    match try_send q c with
                    | None => (Err (outcome Busy (Some "worker_queue")), b)
                    | Some c => (Ok tt, set_slots (<[h := set_commands (Some c) s]> (bk_slots b)) b)
                    end
                end
       end.

Definition manager_start (now : N) (h : WorkerHandle) (b : Book) : result WorkerOutcome unit * Book :=
  submit now h QStart b.

(** The first lock of [request], for the deadline; the second is [submit]'s. *)
Definition request_deadline (now : N) (h : WorkerHandle) (b : Book) : result WorkerOutcome N :=
  match bk_slots b !! h with
  | None => Err (missing b h)
  | Some s =>
      if slot_expired now s then Err (outcome Closed (Some "reservation_expired"))
      else match sl_plan s with
           | None => Err (outcome Invalid (Some "not_prepared"))
           | Some plan => Ok (now + wp_request_timeout_ms plan)%N
           end
  end.

Section Requests.
Context (encode : ServerRequest -> list string).

Definition manager_request (now later : N) (r : WorkerRequest) (b : Book)
  : result WorkerOutcome unit * Book :=
  match WorkerValidate.request encode r with
  | Err reason => (Err (outcome Invalid (Some reason)), b)
  | Ok _ =>
      match request_deadline now (wr_handle r) b with
      | Err answer => (Err answer, b)
      | Ok deadline => submit later (wr_handle r) (QRequest r deadline) b
      end
  end.

End Requests.

Definition status (now : N) (h : WorkerHandle) (b : Book) : result WorkerOutcome WorkerStatus :=
  match bk_slots b !! h with
  | Some s => if slot_expired now s then Err (missing b h) else Ok (sa_status (sl_state s))
  | None => Err (missing b h)
  end.

(** ** Stopping *)

Definition stop_slot (s : Slot) : Slot :=
  let st := sl_state s in
  MkSlot (sl_reserved_at s) (sl_plan s) (sl_cached s) (sl_commands s) true
    (MkState (sa_status st) (sa_prepared st) (sa_closed st) false).

(** The first lock of [stop]: a final answer, or the supervisor's closing is awaited. *)
Definition stop (h : WorkerHandle) (b : Book) : result WorkerOutcome unit * Book :=
  match bk_slots b !! h with
  | None => (Err (missing b h), b)
  | Some s =>
      match sl_commands s with
      | None => (Err (outcome Complete None), set_slots (delete h (bk_slots b)) b)
      | Some _ => (Ok tt, set_slots (<[h := stop_slot s]> (bk_slots b)) b)
      end
  end.

(** [wait_closed], over what the supervisor publishes. *)
Fixpoint wait_closed (published : list State) (gone : bool) : option bool :=
  match published with
  | [] => if gone then Some false else None
  | s :: rest =>
      if sa_closed s then Some true
      else if sa_cleanup_failed s then Some false
      else wait_closed rest gone
  end.

Definition stop_finish (h : WorkerHandle) (closed : bool) (b : Book) : WorkerOutcome * Book :=
  if closed then (outcome Complete None, set_slots (delete h (bk_slots b)) b)
  else (outcome Failed (Some "cleanup_failed"), b).

Definition shutdown_begin (b : Book) : list WorkerHandle * Book :=
  (map fst (filter (fun '(_, s) => is_Some (sl_commands s)) (map_to_list (bk_slots b))),
   MkBook (bk_nonce b) (bk_issued b) true (stop_slot <$> bk_slots b)).

Definition shutdown_finish (complete : bool) (b : Book) : WorkerOutcome * Book :=
  if complete then (outcome Complete None, set_slots ∅ b)
  else (outcome Failed (Some "cleanup_failed"), b).

End Manager.

(** ** The life of a manager *)

Section Life.
Context `{JsonValue}.
Context (m : WorkerManager) (nonce : string).

(** The book, with what was ever done: handles issued, supervisors started, commands
    accepted, supervisors that published they were closed; latest first. *)
Record mstate := MkMState {
  ms_book : Book;
  ms_issued : list WorkerHandle;
  ms_started : list supervisor;
  ms_queued : list (WorkerHandle * queued);
  ms_closed : list WorkerHandle
}.

Definition minitial (s : mstate) : Prop := s = MkMState (Book_new nonce) [] [] [] [].

Definition publish (st : State) (s : Slot) : Slot :=
  MkSlot (sl_reserved_at s) (sl_plan s) (sl_cached s)
    ((fun c => MkChannel (ch_queue c) (ch_open c && negb (sa_closed st))) <$> sl_commands s)
    (sl_stop s) st.

Definition take_one (s : Slot) : Slot :=
  set_commands ((fun c => MkChannel (tail (ch_queue c)) (ch_open c)) <$> sl_commands s) s.

Definition with_book (b : Book) (s : mstate) : mstate :=
  MkMState b (ms_issued s) (ms_started s) (ms_queued s) (ms_closed s).

(** What a preparation's locked part leaves. *)
Definition after_prepare (r : result WorkerOutcome (option supervisor)) (b : Book) (s : mstate) : mstate :=
  MkMState b (ms_issued s)
    (match r with Ok (Some su) => su :: ms_started s | _ => ms_started s end)
    (ms_queued s) (ms_closed s).

Definition after_submit (h : WorkerHandle) (q : queued) (r : result WorkerOutcome unit) (b : Book)
    (s : mstate) : mstate :=
  MkMState b (ms_issued s) (ms_started s)
    (match r with Ok _ => (h, q) :: ms_queued s | Err _ => ms_queued s end) (ms_closed s).

(** One lock taken by some caller, or one thing a supervisor does. *)
Inductive mstep (s : mstate) : mstate -> Prop :=
| Reserves now r b :
    reserve now (ms_book s) = (r, b) ->
    mstep s (MkMState b (match r with Ok h => h :: ms_issued s | Err _ => ms_issued s end)
               (ms_started s) (ms_queued s) (ms_closed s))
| Prepares now request r b :
    prepare_inner m now request None (ms_book s) = (r, b) ->
    mstep s (after_prepare r b s)
| PreparesCached now request r b :
    prepare_cached m now request (ms_book s) = (r, b) ->
    mstep s (after_prepare r b s)
| Submits now h q r b :
    submit now h q (ms_book s) = (r, b) -> mstep s (after_submit h q r b s)
| Stops h r b :
    stop h (ms_book s) = (r, b) -> mstep s (with_book b s)
| StopEnds h closed r b :
    (closed = true -> h ∈ ms_closed s) ->
    stop_finish h closed (ms_book s) = (r, b) -> mstep s (with_book b s)
| ShutsDown hs b :
    shutdown_begin (ms_book s) = (hs, b) -> mstep s (with_book b s)
| ShutdownEnds complete r b :
    bk_terminal (ms_book s) = true ->
    (complete = true -> forall h slot, bk_slots (ms_book s) !! h = Some slot ->
                        is_Some (sl_commands slot) -> h ∈ ms_closed s) ->
    shutdown_finish complete (ms_book s) = (r, b) -> mstep s (with_book b s)
| Publishes h slot st :
    bk_slots (ms_book s) !! h = Some slot -> is_Some (sl_commands slot) ->
    mstep s (MkMState (set_slots (<[h := publish st slot]> (bk_slots (ms_book s))) (ms_book s))
               (ms_issued s) (ms_started s) (ms_queued s)
               (if sa_closed st then h :: ms_closed s else ms_closed s))
| Takes h slot :
    bk_slots (ms_book s) !! h = Some slot ->
    mstep s (with_book (set_slots (<[h := take_one slot]> (bk_slots (ms_book s))) (ms_book s)) s).

Definition mreachable : mstate -> Prop := reachable minitial mstep.

(** A supervisor was started for a plan that passed every check, under a scope the host
    approved. *)
Definition vetted (su : supervisor) : Prop :=
  plan (su_plan su) = Ok tt
  /\ su_spawner su = wm_spawner m
  /\ forall c, su_cached su = Some c ->
     recipe (cc_recipe c) = Ok tt /\ wm_cache_scopes m !! cr_scope (cc_recipe c) = Some (cc_root c).

(** A slot and the history: planned exactly when its supervisor was started. *)
Definition slot_ok (started : list supervisor) (h : WorkerHandle) (slot : Slot) : Prop :=
  (sl_plan slot = None -> (h ∉ su_handle <$> started) /\ sl_commands slot = None)
  /\ (is_Some (sl_plan slot) -> is_Some (sl_commands slot)).

Record manager_inv (s : mstate) : Prop := {
  mn_nonce : bk_nonce (ms_book s) = nonce;
  mn_capacity : (size (bk_slots (ms_book s)) <= CAPACITY)%nat;
  mn_count : (bk_issued (ms_book s) <= u64_max)%N;
  mn_issued h : h ∈ ms_issued s ->
    exists n, h = handle_of nonce n /\ (1 <= n <= bk_issued (ms_book s))%N;
  mn_fresh : NoDup (ms_issued s);
  mn_slots h slot : bk_slots (ms_book s) !! h = Some slot ->
    (h ∈ ms_issued s) /\ slot_ok (ms_started s) h slot;
  mn_started : NoDup (su_handle <$> ms_started s);
  mn_vetted : Forall (fun su => vetted su /\ (su_handle su ∈ ms_issued s)) (ms_started s)
}.

Lemma handle_of_inj n k : handle_of nonce n = handle_of nonce k -> n = k.
Proof.
  unfold handle_of. intros [= Heq]. apply (inj (String.append nonce)) in Heq.
  apply (inj (String.append ":")) in Heq. by apply display_u64_inj.
Qed.

Lemma minitial_inv s : minitial s -> manager_inv s.
Proof.
  intros ->. constructor; cbn.
  - done.
  - rewrite map_size_empty. unfold CAPACITY. lia.
  - done.
  - intros h Hh. by apply elem_of_nil in Hh.
  - constructor.
  - intros h slot. by rewrite lookup_empty.
  - constructor.
  - constructor.
Qed.

(** Changing one slot, in a way that keeps its plan and whether it has a supervisor. *)
Lemma manager_inv_slot s b' h slot slot' queued' closed' :
  manager_inv s -> bk_slots (ms_book s) !! h = Some slot ->
  b' = set_slots (<[h := slot']> (bk_slots (ms_book s))) (ms_book s) ->
  sl_plan slot' = sl_plan slot ->
  (is_Some (sl_commands slot') <-> is_Some (sl_commands slot)) ->
  manager_inv (MkMState b' (ms_issued s) (ms_started s) queued' closed').
Proof.
  intros [H1 H2 H3 H4 H5 H6 H7 H8] Hs -> Hp Hc. constructor; cbn; try done.
  - rewrite map_size_insert_Some by eauto. done.
  - intros k slot0 [[<- <-]|[Hne Hk]]%lookup_insert_Some; [|by apply H6].
    destruct (H6 _ _ Hs) as [Hin [Ha Hb]]. split; [done|]. unfold slot_ok. rewrite Hp, Hc.
    split; [|done]. intros Hn. destruct (Ha Hn) as [? Hnone]. split; [done|].
    destruct (sl_commands slot') eqn:E; [|done]. rewrite Hnone in Hc.
    destruct Hc as [Hc _]. by destruct Hc as [? ?]; [eauto|].
Qed.

(** Losing slots. *)
Lemma manager_inv_fewer s slots' :
  manager_inv s -> slots' ⊆ bk_slots (ms_book s) ->
  manager_inv (with_book (set_slots slots' (ms_book s)) s).
Proof.
  intros [H1 H2 H3 H4 H5 H6 H7 H8] Hsub. constructor; cbn; try done.
  - apply map_subseteq_size in Hsub. lia.
  - intros h slot Hh. apply H6. by eapply lookup_weaken.
Qed.

Lemma reserve_inv s now r b :
  manager_inv s -> reserve now (ms_book s) = (r, b) ->
  manager_inv (MkMState b (match r with Ok h => h :: ms_issued s | Err _ => ms_issued s end)
                 (ms_started s) (ms_queued s) (ms_closed s)).
Proof.
  intros Hinv. unfold reserve. destruct (bk_terminal (ms_book s)).
  { intros [= <- <-]. by destruct s. }
  set (kept := filter _ (bk_slots (ms_book s))).
  assert (kept ⊆ bk_slots (ms_book s)) as Hsub by apply map_filter_subseteq.
  pose proof (manager_inv_fewer s kept Hinv Hsub) as Hk. cbn [bk_slots bk_issued bk_nonce bk_terminal set_slots].
  destruct (Nat.leb_spec CAPACITY (size kept)) as [|Hroom]; [by intros [= <- <-]|].
  destruct (checked_add _ 1) as [issued|] eqn:Hadd; [|by intros [= <- <-]].
  intros [= <- <-]. apply checked_add_spec in Hadd as [-> Hmax].
  destruct Hk as [H1 H2 H3 H4 H5 H6 H7 H8]. cbn in *. rewrite H1 in *.
  set (n := (bk_issued (ms_book s) + 1)%N) in *.
  assert (handle_of nonce n ∉ ms_issued s) as Hnew.
  { intros Hin. destruct (H4 _ Hin) as (k & Hk & Hle). apply handle_of_inj in Hk. lia. }
  assert (kept !! handle_of nonce n = None) as Hnone.
  { destruct (kept !! handle_of nonce n) eqn:E; [|done]. by destruct (H6 _ _ E). }
  constructor; cbn; try done.
  - rewrite map_size_insert_None by done. lia.
  - intros h [->|Hin]%elem_of_cons; [exists n; split; [done|lia]|].
    destruct (H4 _ Hin) as (k & -> & ?). exists k. split; [done|lia].
  - by constructor.
  - intros h slot [[<- <-]|[_ Hh]]%lookup_insert_Some.
    + split; [by left|]. split; [|by intros [? ?]]. intros _. split; [|done].
      intros (su & Heq & Hin)%list_elem_of_fmap. rewrite Forall_forall in H8.
      destruct (H8 _ Hin) as [_ Hsu]. by rewrite <- Heq in Hsu.
    + destruct (H6 _ _ Hh) as [? ?]. split; [by right|done].
  - eapply Forall_impl; [exact H8|]. intros su [? ?]. split; [done|by right].
Qed.

Lemma prepare_locked_inv s now request cached r b :
  manager_inv s -> plan (wpr_plan request) = Ok tt ->
  (forall c, cached = Some c -> recipe (cc_recipe c) = Ok tt
     /\ wm_cache_scopes m !! cr_scope (cc_recipe c) = Some (cc_root c)) ->
  prepare_locked m now request cached (ms_book s) = (r, b) ->
  manager_inv (after_prepare r b s).
Proof.
  intros Hinv Hplan Hc. assert (forall e, manager_inv (after_prepare (Err e) (ms_book s) s)) as Hsame.
  { intros e. by destruct s. }
  assert (manager_inv (after_prepare (Ok None) (ms_book s) s)) as Hnone by (by destruct s).
  unfold prepare_locked. destruct (bk_terminal (ms_book s)); [by intros [= <- <-]|].
  destruct (bk_slots (ms_book s) !! wpr_handle request) as [slot|] eqn:Hs; [|by intros [= <- <-]].
  destruct (_ || _)%bool; [by intros [= <- <-]|].
  destruct (sl_plan slot) as [p|] eqn:Hp.
  { destruct (_ || _)%bool; by intros [= <- <-]. }
  destruct (_ <=? _)%N; [by intros [= <- <-]|]. intros [= <- <-].
  destruct Hinv as [H1 H2 H3 H4 H5 H6 H7 H8]. destruct (H6 _ _ Hs) as [Hin [Hfree _]].
  destruct (Hfree Hp) as [Hnew Hcmd]. constructor; cbn; try done.
  - by rewrite map_size_insert_Some by eauto.
  - intros h slot' [[<- <-]|[Hne Hh]]%lookup_insert_Some.
    + split; [done|]. by split; cbn; [|eauto].
    + destruct (H6 _ _ Hh) as [Hh' [Ha Hb]]. split; [done|]. split; [|done]. intros Hn.
      destruct (Ha Hn) as [? ?]. split; [|done]. cbn. intros [->|?]%elem_of_cons; done.
  - by constructor.
  - constructor; [|done]. split; [|done]. split_and!; done.
Qed.

Lemma prepare_inner_inv s now request cached r b :
  manager_inv s ->
  (forall c, cached = Some c -> recipe (cc_recipe c) = Ok tt
     /\ wm_cache_scopes m !! cr_scope (cc_recipe c) = Some (cc_root c)) ->
  prepare_inner m now request cached (ms_book s) = (r, b) ->
  manager_inv (after_prepare r b s).
Proof.
  intros Hinv Hc. unfold prepare_inner. destruct (plan (wpr_plan request)) as [[]|e] eqn:Hp.
  - by apply prepare_locked_inv.
  - intros [= <- <-]. by destruct s.
Qed.

Lemma mstep_inv s t : manager_inv s -> mstep s t -> manager_inv t.
Proof.
  intros Hinv Hstep. destruct Hstep as
    [now r b E|now request r b E|now request r b E|now h q r b E|h r b E|h closed r b Hc E
    |hs b E|complete r b Ht Hc E|h slot st Hs Hcmd|h slot Hs].
  - by eapply reserve_inv.
  - eapply prepare_inner_inv; [done| |exact E]; intros c Hc; discriminate Hc.
  - unfold prepare_cached in E. destruct (recipe (wpc_recipe request)) as [[]|] eqn:Hr.
    2:{ injection E as <- <-. by destruct s. }
    destruct (wm_cache_scopes m !! _) as [root|] eqn:Hroot.
    2:{ injection E as <- <-. by destruct s. }
    eapply prepare_inner_inv; [done| |exact E]. intros c [= <-]. done.
  - unfold submit in E. assert (forall e, manager_inv (after_submit h q (Err e) (ms_book s) s)) as Hsame.
    { intros e. by destruct s. }
    destruct (bk_terminal (ms_book s)); [by injection E as <- <-|].
    destruct (bk_slots (ms_book s) !! h) as [slot|] eqn:Hs; [|by injection E as <- <-].
    destruct (slot_expired now slot); [by injection E as <- <-|].
    destruct (_ || _)%bool; [by injection E as <- <-|].
    destruct (sl_commands slot) as [c|] eqn:Hcmd; [|by injection E as <- <-].
    destruct (try_send q c) as [c'|]; [|by injection E as <- <-]. injection E as <- <-.
    eapply manager_inv_slot; [done|exact Hs|done|done|]. cbn. rewrite Hcmd. split; eauto.
  - unfold stop in E. destruct (bk_slots (ms_book s) !! h) as [slot|] eqn:Hs.
    2:{ injection E as <- <-. by destruct s. }
    destruct (sl_commands slot) eqn:Hcmd; injection E as <- <-.
    + eapply manager_inv_slot; [done|exact Hs|done|done|reflexivity].
    + apply manager_inv_fewer; [done|]. apply delete_subseteq.
  - unfold stop_finish in E. destruct closed; injection E as <- <-; [|by destruct s].
    apply manager_inv_fewer; [done|]. apply delete_subseteq.
  - injection E as <- <-. destruct Hinv as [H1 H2 H3 H4 H5 H6 H7 H8]. constructor; cbn; try done.
    + by rewrite map_size_fmap.
    + intros h slot. rewrite lookup_fmap. intros (slot0 & Hs & ->)%fmap_Some. exact (H6 _ _ Hs).
  - unfold shutdown_finish in E. destruct complete; injection E as <- <-; [|by destruct s].
    apply manager_inv_fewer; [done|]. apply map_empty_subseteq.
  - eapply manager_inv_slot; [done|exact Hs|done|done|]. cbn. apply fmap_is_Some.
  - eapply manager_inv_slot; [done|exact Hs|done|done|]. cbn. apply fmap_is_Some.
Qed.

Lemma reachable_manager_inv s : mreachable s -> manager_inv s.
Proof.
  intros Hs. apply (reachable_invariant minitial mstep); [apply minitial_inv|apply mstep_inv|done].
Qed.

(** C17. Whatever order callers and supervisors take their turns in, the manager holds at
    most sixteen slots, never issues a handle twice, and starts at most one supervisor
    under each handle, only for a plan (and recipe, in a scope the host approved) that
    passed every check, and always under the host's spawner. *)
Theorem one_vetted_supervisor_per_handle (s : mstate) :
  mreachable s ->
  (size (bk_slots (ms_book s)) <= 16)%nat
  /\ NoDup (ms_issued s)
  /\ NoDup (su_handle <$> ms_started s)
  /\ Forall (fun su => vetted su /\ (su_handle su ∈ ms_issued s)) (ms_started s)
  /\ forall h, is_Some (bk_slots (ms_book s) !! h) -> h ∈ ms_issued s.
Proof.
  intros [H1 H2 H3 H4 H5 H6 H7 H8]%reachable_manager_inv. split_and!; try done.
  intros h [slot Hs]. by destruct (H6 _ _ Hs).
Qed.

(** ** Supervisors are not forgotten *)

Record owned_inv (s : mstate) : Prop := {
  ow_published h slot :
    bk_slots (ms_book s) !! h = Some slot -> sa_closed (sl_state slot) = true -> h ∈ ms_closed s;
  ow_kept su :
    su ∈ ms_started s ->
    is_Some (bk_slots (ms_book s) !! su_handle su) \/ su_handle su ∈ ms_closed s
}.

(** A started supervisor's slot has its commands. *)
Lemma started_has_commands s su slot :
  manager_inv s -> su ∈ ms_started s -> bk_slots (ms_book s) !! su_handle su = Some slot ->
  is_Some (sl_commands slot).
Proof.
  intros Hinv Hsu Hs. destruct (mn_slots _ Hinv _ _ Hs) as [_ [Ha Hb]].
  destruct (sl_plan slot) eqn:Hp; [eauto|]. destruct (Ha eq_refl) as [Hn _].
  exfalso. apply Hn. by apply list_elem_of_fmap_2.
Qed.

(** Slots only go when there is no supervisor, or it has closed. *)
Lemma owned_inv_fewer s slots' :
  owned_inv s -> slots' ⊆ bk_slots (ms_book s) ->
  (forall su slot, su ∈ ms_started s -> bk_slots (ms_book s) !! su_handle su = Some slot ->
     slots' !! su_handle su = None -> su_handle su ∈ ms_closed s) ->
  owned_inv (with_book (set_slots slots' (ms_book s)) s).
Proof.
  intros [H1 H2] Hsub Hgone. constructor; cbn.
  - intros h slot Hh. apply H1. by eapply lookup_weaken.
  - intros su Hsu. destruct (slots' !! su_handle su) eqn:E; [eauto|].
    destruct (H2 _ Hsu) as [[slot Hs]|]; [|by right]. right. by eapply Hgone.
Qed.

(** Changing one slot without closing it. *)
Lemma owned_inv_slot s b' h slot slot' queued' :
  owned_inv s -> bk_slots (ms_book s) !! h = Some slot ->
  b' = set_slots (<[h := slot']> (bk_slots (ms_book s))) (ms_book s) ->
  (sa_closed (sl_state slot') = true -> sa_closed (sl_state slot) = true) ->
  owned_inv (MkMState b' (ms_issued s) (ms_started s) queued' (ms_closed s)).
Proof.
  intros [H1 H2] Hs -> Hc. constructor; cbn.
  - intros k slot0 [[<- <-]|[_ Hk]]%lookup_insert_Some; [|by apply H1]. intros ?. by eapply H1; eauto.
  - intros su Hsu. destruct (H2 _ Hsu) as [Hk|]; [left|by right].
    rewrite lookup_insert_is_Some'. by right.
Qed.

Lemma reserve_owned s now r b :
  manager_inv s -> owned_inv s -> reserve now (ms_book s) = (r, b) ->
  owned_inv (MkMState b (match r with Ok h => h :: ms_issued s | Err _ => ms_issued s end)
               (ms_started s) (ms_queued s) (ms_closed s)).
Proof.
  intros Hinv Hown. unfold reserve. destruct (bk_terminal (ms_book s)).
  { intros [= <- <-]. by destruct s. }
  set (kept := filter _ (bk_slots (ms_book s))).
  assert (owned_inv (with_book (set_slots kept (ms_book s)) s)) as Hk.
  { apply owned_inv_fewer; [done|apply map_filter_subseteq|]. intros su slot Hsu Hs Hgone.
    apply map_lookup_filter_None in Hgone as [Hgone|Hgone]; [congruence|]. specialize (Hgone _ Hs).
    cbn in Hgone. unfold retained in Hgone. destruct (sa_closed (sl_state slot)) eqn:Hc.
    { by eapply ow_published. }
    destruct (mn_slots _ Hinv _ _ Hs) as [_ [Ha _]]. destruct (sl_plan slot) eqn:Hp; [done|].
    destruct (Ha eq_refl) as [Hn _]. exfalso. apply Hn. by apply list_elem_of_fmap_2. }
  cbn [bk_slots bk_issued bk_nonce bk_terminal set_slots].
  destruct (_ <=? _)%nat; [by intros [= <- <-]|].
  destruct (checked_add _ 1) as [issued|]; [|by intros [= <- <-]].
  intros [= <- <-]. destruct Hk as [H1 H2]. constructor; cbn in *.
  - intros h slot [[<- <-]|[_ Hh]]%lookup_insert_Some; [done|by apply H1].
  - intros su Hsu. destruct (H2 _ Hsu) as [Hs|]; [left|by right].
    rewrite lookup_insert_is_Some'. by right.
Qed.

Lemma prepare_inner_owned s now request cached r b :
  owned_inv s -> prepare_inner m now request cached (ms_book s) = (r, b) ->
  owned_inv (after_prepare r b s).
Proof.
  intros Hown. assert (forall e, owned_inv (after_prepare (Err e) (ms_book s) s)) as Hsame.
  { intros e. by destruct s. }
  assert (owned_inv (after_prepare (Ok None) (ms_book s) s)) as Hnone by (by destruct s).
  unfold prepare_inner, prepare_locked. destruct (plan _); [|by intros [= <- <-]].
  destruct (bk_terminal (ms_book s)); [by intros [= <- <-]|].
  destruct (bk_slots (ms_book s) !! wpr_handle request) as [slot|] eqn:Hs; [|by intros [= <- <-]].
  destruct (_ || _)%bool; [by intros [= <- <-]|].
  destruct (sl_plan slot) as [p|] eqn:Hp.
  { destruct (_ || _)%bool; by intros [= <- <-]. }
  destruct (_ <=? _)%N; [by intros [= <- <-]|]. intros [= <- <-].
  destruct (owned_inv_slot s _ (wpr_handle request) slot (prepare_slot (wpr_plan request) cached slot)
              (ms_queued s) Hown Hs eq_refl) as [H1 H2]; [done|].
  constructor; cbn in *; [done|]. intros su [->|Hsu]%elem_of_cons; [|by apply H2].
  left. cbn. rewrite lookup_insert_is_Some'. by left.
Qed.

Lemma mstep_owned s t : manager_inv s -> owned_inv s -> mstep s t -> owned_inv t.
Proof.
  intros Hinv Hown Hstep. destruct Hstep as
    [now r b E|now request r b E|now request r b E|now h q r b E|h r b E|h closed r b Hc E
    |hs b E|complete r b Ht Hc E|h slot st Hs Hcmd|h slot Hs].
  - by eapply reserve_owned.
  - by eapply prepare_inner_owned.
  - unfold prepare_cached in E. destruct (recipe (wpc_recipe request)).
    2:{ injection E as <- <-. by destruct s. }
    destruct (wm_cache_scopes m !! _); [by eapply prepare_inner_owned|].
    injection E as <- <-. by destruct s.
  - unfold submit in E. assert (forall e, owned_inv (after_submit h q (Err e) (ms_book s) s)) as Hsame.
    { intros e. by destruct s. }
    destruct (bk_terminal (ms_book s)); [by injection E as <- <-|].
    destruct (bk_slots (ms_book s) !! h) as [slot|] eqn:Hs; [|by injection E as <- <-].
    destruct (slot_expired now slot); [by injection E as <- <-|].
    destruct (_ || _)%bool; [by injection E as <- <-|].
    destruct (sl_commands slot) as [c|] eqn:Hcmd; [|by injection E as <- <-].
    destruct (try_send q c) as [c'|]; [|by injection E as <- <-]. injection E as <- <-.
    by eapply owned_inv_slot.
  - unfold stop in E. destruct (bk_slots (ms_book s) !! h) as [slot|] eqn:Hs.
    2:{ injection E as <- <-. by destruct s. }
    destruct (sl_commands slot) eqn:Hcmd; injection E as <- <-.
    + by eapply owned_inv_slot.
    + apply owned_inv_fewer; [done|apply delete_subseteq|]. intros su slot' Hsu Hs'.
      intros [->|Hd]%lookup_delete_None; [|congruence]. rewrite Hs in Hs'. injection Hs' as <-.
      destruct (started_has_commands _ _ _ Hinv Hsu Hs). congruence.
  - unfold stop_finish in E. destruct closed; injection E as <- <-; [|by destruct s].
    apply owned_inv_fewer; [done|apply delete_subseteq|]. intros su slot' Hsu Hs'.
    intros [->|Hd]%lookup_delete_None; [auto|congruence].
  - injection E as <- <-. destruct Hown as [H1 H2]. constructor; cbn.
    + intros h slot. rewrite lookup_fmap. intros (slot0 & Hs & ->)%fmap_Some. cbn. by apply H1.
    + intros su Hsu. destruct (H2 _ Hsu) as [Hs|]; [left|by right].
      rewrite lookup_fmap. by apply fmap_is_Some.
  - unfold shutdown_finish in E. destruct complete; injection E as <- <-; [|by destruct s].
    apply owned_inv_fewer; [done|apply map_empty_subseteq|]. intros su slot' Hsu Hs' _.
    eapply (Hc eq_refl); [exact Hs'|]. by eapply started_has_commands.
  - destruct Hown as [H1 H2]. constructor; cbn.
    + intros k slot0 [[<- <-]|[_ Hk]]%lookup_insert_Some.
      * cbn. intros ->. by left.
      * intros Hcl. destruct (sa_closed st); [right|]; by eapply H1.
    + intros su Hsu. rewrite lookup_insert_is_Some'. destruct (H2 _ Hsu); [by left; right|].
      right. destruct (sa_closed st); [by right|done].
  - by eapply owned_inv_slot.
Qed.

Lemma reachable_owned_inv s : mreachable s -> owned_inv s.
Proof.
  apply (reachable_invariant_with minitial mstep manager_inv owned_inv).
  - apply reachable_manager_inv.
  - intros s' ->. constructor; cbn; [intros h slot; by rewrite lookup_empty|].
    intros su Hsu. by apply elem_of_nil in Hsu.
  - intros s' t Hm Ho Hs. by eapply mstep_owned.
Qed.

(** C18. No supervisor is ever forgotten: over every interleaving of callers and
    supervisors, each one started is still in the book under its handle unless it has
    published that its process, files and pipes are gone; so a stop or a shutdown that
    reports completion leaves none behind, and the manager's end, whenever it comes,
    tells every one that is left to stop. *)
Theorem no_supervisor_is_forgotten (s : mstate) (su : supervisor) :
  mreachable s -> su ∈ ms_started s ->
  (is_Some (bk_slots (ms_book s) !! su_handle su)
   /\ exists slot, manager_drop (ms_book s) !! su_handle su = Some slot /\ sl_stop slot = true)
  \/ su_handle su ∈ ms_closed s.
Proof.
  intros [_ Hk]%reachable_owned_inv Hsu. destruct (Hk _ Hsu) as [[slot Hs]|?]; [left|by right].
  split; [by eexists|]. exists (Slot_drop slot). unfold manager_drop. by rewrite lookup_fmap, Hs.
Qed.

(** ** After a shutdown *)

Lemma terminal_step s t :
  bk_terminal (ms_book s) = true -> mstep s t ->
  bk_terminal (ms_book t) = true /\ ms_issued t = ms_issued s /\ ms_started t = ms_started s
  /\ ms_queued t = ms_queued s.
Proof.
  intros Ht Hstep. destruct Hstep as
    [now r b E|now request r b E|now request r b E|now h q r b E|h r b E|h closed r b Hc E
    |hs b E|complete r b _ Hc E|h slot st Hs Hcmd|h slot Hs]; cbn; try done.
  - unfold reserve in E. rewrite Ht in E. by injection E as <- <-.
  - unfold prepare_inner, prepare_locked in E. rewrite Ht in E.
    destruct (plan _); by injection E as <- <-.
  - unfold prepare_cached, prepare_inner, prepare_locked in E. rewrite Ht in E.
    destruct (recipe _); [|by injection E as <- <-].
    destruct (wm_cache_scopes m !! _); [|by injection E as <- <-].
    destruct (plan _); by injection E as <- <-.
  - unfold submit in E. rewrite Ht in E. by injection E as <- <-.
  - unfold stop in E. break; done.
  - unfold stop_finish in E. by destruct closed; injection E as <- <-.
  - by injection E as <- <-.
  - unfold shutdown_finish in E. by destruct complete; injection E as <- <-.
Qed.

(** C19. Shutting down is final: from the moment it begins, whatever callers do, no handle
    is issued, no supervisor started and no command accepted, ever again, and every
    reservation is told that the manager is shut down. *)
Theorem shutdown_is_final (s t : mstate) :
  rtc mstep (with_book (shutdown_begin (ms_book s)).2 s) t ->
  ms_issued t = ms_issued s /\ ms_started t = ms_started s /\ ms_queued t = ms_queued s
  /\ forall now, (reserve now (ms_book t)).1 = Err (outcome Closed (Some "manager_shutdown")).
Proof.
  intros Hsteps. set (s0 := with_book _ s) in Hsteps.
  assert (bk_terminal (ms_book t) = true /\ ms_issued t = ms_issued s0
          /\ ms_started t = ms_started s0 /\ ms_queued t = ms_queued s0) as (Ht & Hi & Hst & Hq).
  { assert (bk_terminal (ms_book s0) = true) as H0 by done. clearbody s0.
    induction Hsteps as [x|x y z Hxy _ IH]; [done|].
    destruct (terminal_step _ _ H0 Hxy) as (Hy & <- & <- & <-). by apply IH. }
  split_and!; [done..|]. intros now. unfold reserve. by rewrite Ht.
Qed.

(** A handle that was issued and is no longer in the book is told apart from one that
    never was this manager's. *)
Lemma retired_handles_are_closed (s : mstate) (h : WorkerHandle) :
  mreachable s ->
  (h ∈ ms_issued s -> missing (ms_book s) h = outcome Closed None)
  /\ ((forall rest, handle_id h <> nonce +:+ ":" +:+ rest) ->
      missing (ms_book s) h = outcome UnknownHandle None).
Proof.
  intros Hinv%reachable_manager_inv. unfold missing. rewrite (mn_nonce _ Hinv). split.
  - intros Hin. destruct (mn_issued _ Hinv _ Hin) as (n & -> & Hn). cbn [handle_of handle_id].
    rewrite <- string_app_assoc, strip_prefix_app.
    pose proof (mn_count _ Hinv). rewrite parse_display_u64 by lia.
    destruct (N.ltb_spec 0 n); [|lia]. by rewrite (proj2 (N.leb_le _ _) (proj2 Hn)).
  - intros Hforeign. destruct (strip_prefix _ _) as [rest|] eqn:E; [|done].
    apply strip_prefix_Some in E. exfalso. apply (Hforeign rest). by rewrite E, string_app_assoc.
Qed.

End Life.

(** ** The properties at work *)

Section Samples.

Definition manager_sample_value : JsonValue := {| Value := string; Value_eq_dec := _ |}.
#[local] Existing Instance manager_sample_value.

Let m := WorkerManager_new (Path_new "/var/lib/workers").
Let p := MkWorkerPlan "print()" (MkWorkerCommand "/opt/python" [] [] None) [] ["cpu"] 1000 1000 None 0.
Let h := handle_of "n" 1.

(** One handle is reserved at the start and prepared a second later. *)
Let s0 := MkMState (Book_new "n") [] [] [] [].
Let reserved := MkMState (reserve 0 (Book_new "n")).2 [h] [] [] [].
Let preparation := prepare_inner m 1000 (MkWorkerPrepare h p) None (ms_book reserved).
Let prepared := after_prepare preparation.1 preparation.2 reserved.
Let su := MkSupervisor h p (Path_new "/var/lib/workers/n_1") None None.

Lemma prepared_reachable : mreachable m "n" prepared.
Proof.
  apply (reachable_step _ _ reserved); [apply (reachable_step _ _ s0)|].
  - apply reachable_init. reflexivity.
  - apply (Reserves m s0 0 (Ok h)). reflexivity.
  - apply (Prepares m reserved 1000 (MkWorkerPrepare h p)). apply surjective_pairing.
Defined.

Lemma one_vetted_supervisor_per_handle_witness :
  ms_started prepared = [su]
  /\ (size (bk_slots (ms_book prepared)) <= 16)%nat
  /\ NoDup (ms_issued prepared)
  /\ NoDup (su_handle <$> ms_started prepared)
  /\ Forall (fun su => vetted m su /\ (su_handle su ∈ ms_issued prepared)) (ms_started prepared)
  /\ forall h', is_Some (bk_slots (ms_book prepared) !! h') -> h' ∈ ms_issued prepared.
Proof.
  split; [vm_compute; reflexivity|].
  apply (one_vetted_supervisor_per_handle m "n" prepared prepared_reachable).
Defined.

Lemma no_supervisor_is_forgotten_witness :
  (is_Some (bk_slots (ms_book prepared) !! su_handle su)
   /\ exists slot, manager_drop (ms_book prepared) !! su_handle su = Some slot /\ sl_stop slot = true)
  \/ su_handle su ∈ ms_closed prepared.
Proof.
  apply (no_supervisor_is_forgotten m "n" prepared su prepared_reachable).
  replace (ms_started prepared) with [su]; [left|vm_compute; reflexivity].
Defined.

Lemma shutdown_is_final_witness :
  let t := with_book (reserve 2000 (shutdown_begin (ms_book prepared)).2).2
             (with_book (shutdown_begin (ms_book prepared)).2 prepared) in
  ms_issued t = ms_issued prepared /\ ms_started t = ms_started prepared
  /\ ms_queued t = ms_queued prepared
  /\ forall now, (reserve now (ms_book t)).1 = Err (outcome Closed (Some "manager_shutdown")).
Proof.
  apply (shutdown_is_final m prepared). eapply rtc_l; [|apply rtc_refl].
  apply (Reserves m (with_book (shutdown_begin (ms_book prepared)).2 prepared) 2000
           (Err (outcome Closed (Some "manager_shutdown")))). reflexivity.
Defined.

(** A number is read as Rust reads one: a handle written otherwise than it was issued
    passes for one that was retired. *)
Example respelt_handles_are_closed :
  map (fun s => wo_kind (missing (ms_book prepared) (MkWorkerHandle s))) ["n:+1"; "n:01"; "n:2"; "m:1"]
  = [Closed; Closed; UnknownHandle; UnknownHandle].
Proof. vm_compute. reflexivity. Qed.

End Samples.
