(* ===== verification/ManagerSpec.v ===== *)
(** * What the manager promises about a handle

    An abstract machine of one handle's life, and the refinement: every step of the
    manager, seen at any one handle, is a step of that machine or none, and what callers
    are told fits the phase the handle is in. *)

From stdpp Require Import fin_maps.
From S2P Require Import Prelude RustStd Identity Vocabulary Errors World PoolWorker WorkerTypes.
From S2P Require Import WorkerValidate Native Actor Manager.

Open Scope rust_scope.

Section Spec.
Context `{JsonValue}.

(** ** The abstract machine *)

Inductive handle_phase :=
| Unissued
| OnReserve
| Planned (p : WorkerPlan) (c : option Cached)
| Stopping
| Retired.

(** A handle's life only goes one way, and its plan never changes. *)
Inductive phase_step : handle_phase -> handle_phase -> Prop :=
| Issue : phase_step Unissued OnReserve
| Plan p c : phase_step OnReserve (Planned p c)
| StopReserved : phase_step OnReserve Stopping
| StopPlanned p c : phase_step (Planned p c) Stopping
| Retire ph : ph <> Unissued -> phase_step ph Retired.

Definition rank (ph : handle_phase) : nat :=
  match ph with Unissued => 0 | OnReserve => 1 | Planned _ _ => 2 | Stopping => 3 | Retired => 4 end.

(** ** The manager, seen at one handle *)

Definition slot_phase (s : Slot) : handle_phase :=
  if sl_stop s then Stopping
  else match sl_plan s with Some p => Planned p (sl_cached s) | None => OnReserve end.

Definition phase_of (s : mstate) (h : WorkerHandle) : handle_phase :=
  match bk_slots (ms_book s) !! h with
  | Some slot => slot_phase slot
  | None => if decide (h ∈ ms_issued s) then Retired else Unissued
  end.

Definition stays_or_steps (a b : handle_phase) : Prop := a = b \/ phase_step a b.

Lemma slot_phase_issued s : slot_phase s <> Unissued.
Proof. unfold slot_phase. by destruct (sl_stop s), (sl_plan s). Qed.

Section Refinement.
Context (m : WorkerManager) (nonce : string).

(** Steps that leave what was issued alone. *)
Lemma phase_same_issued (s t : mstate) h :
  manager_inv m nonce s -> ms_issued t = ms_issued s ->
  (forall slot, bk_slots (ms_book s) !! h = Some slot ->
     bk_slots (ms_book t) !! h = None
     \/ exists slot', bk_slots (ms_book t) !! h = Some slot'
                      /\ stays_or_steps (slot_phase slot) (slot_phase slot')) ->
  (bk_slots (ms_book s) !! h = None -> bk_slots (ms_book t) !! h = None) ->
  stays_or_steps (phase_of s h) (phase_of t h).
Proof.
  intros Hinv Hi Hsome Hnone. unfold phase_of. rewrite Hi.
  destruct (bk_slots (ms_book s) !! h) as [slot|] eqn:Hs.
  - destruct (Hsome slot eq_refl) as [->|(slot' & -> & Hp)]; [|done].
    destruct (mn_slots _ _ _ Hinv _ _ Hs) as [Hin _]. rewrite decide_True by done.
    right. apply Retire, slot_phase_issued.
  - rewrite (Hnone eq_refl). by left.
Qed.

(** One slot is replaced. *)
Lemma phase_one_slot (s : mstate) k slot slot' h started queued' closed' :
  manager_inv m nonce s -> bk_slots (ms_book s) !! k = Some slot ->
  stays_or_steps (slot_phase slot) (slot_phase slot') ->
  stays_or_steps (phase_of s h)
    (phase_of (MkMState (set_slots (<[k := slot']> (bk_slots (ms_book s))) (ms_book s)) (ms_issued s)
                 started queued' closed') h).
Proof.
  intros Hinv Hk Hp. apply phase_same_issued; [done|done|..]; cbn.
  - intros slot0 H0. right. destruct (decide (k = h)) as [->|Hne].
    + rewrite lookup_insert_eq. rewrite Hk in H0. injection H0 as <-. eauto.
    + rewrite lookup_insert_ne by done. exists slot0. split; [done|by left].
  - intros H0. rewrite lookup_insert_ne; [done|]. intros ->. congruence.
Qed.

Lemma phase_fewer (s : mstate) slots' h :
  manager_inv m nonce s -> slots' ⊆ bk_slots (ms_book s) ->
  stays_or_steps (phase_of s h) (phase_of (with_book (set_slots slots' (ms_book s)) s) h).
Proof.
  intros Hinv Hsub. apply phase_same_issued; [done|done|..]; cbn.
  - intros slot Hs. destruct (slots' !! h) as [slot'|] eqn:Hs'; [right|by left].
    exists slot'. split; [done|]. rewrite (lookup_weaken _ _ _ _ Hs' Hsub) in Hs. injection Hs as ->. by left.
  - intros Hs. by eapply lookup_weaken_None.
Qed.

Lemma phase_reserve (s : mstate) now r b h :
  manager_inv m nonce s -> reserve now (ms_book s) = (r, b) ->
  stays_or_steps (phase_of s h)
    (phase_of (MkMState b (match r with Ok k => k :: ms_issued s | Err _ => ms_issued s end)
                 (ms_started s) (ms_queued s) (ms_closed s)) h).
Proof.
  intros Hinv Hr. pose proof (reserve_inv m nonce s now r b Hinv Hr) as Hinv'. revert Hr.
  unfold reserve. destruct (bk_terminal (ms_book s)); [intros [= <- <-]; by left|].
  set (kept := filter _ (bk_slots (ms_book s))).
  assert (kept ⊆ bk_slots (ms_book s)) as Hsub by apply map_filter_subseteq.
  pose proof (phase_fewer s kept h Hinv Hsub) as Hk.
  cbn [bk_slots bk_issued bk_nonce bk_terminal set_slots].
  destruct (Nat.leb CAPACITY (size kept)); [by intros [= <- <-]|].
  destruct (checked_add _ 1) as [issued|]; [|by intros [= <- <-]]. intros [= <- <-].
  set (k := handle_of (bk_nonce (ms_book s)) issued) in *.
  pose proof (mn_fresh _ _ _ Hinv') as Hfresh. cbn in Hfresh. apply NoDup_cons in Hfresh as [Hnew _].
  destruct (decide (h = k)) as [->|Hne].
  - assert (bk_slots (ms_book s) !! k = None) as Hnone.
    { destruct (bk_slots (ms_book s) !! k) eqn:E; [|done]. by destruct (mn_slots _ _ _ Hinv _ _ E). }
    unfold phase_of. cbn. rewrite Hnone, lookup_insert_eq, decide_False by done. right. apply Issue.
  - revert Hk. unfold phase_of. cbn. rewrite lookup_insert_ne by done.
    destruct (kept !! h); [done|]. intros Hk.
    destruct (decide (h ∈ ms_issued s)) as [Hin|Hout]; [rewrite decide_True by (by right)|rewrite decide_False]; [done|done|].
    intros [?|?]%elem_of_cons; done.
Qed.

Lemma phase_prepare (s : mstate) now request cached r b h :
  manager_inv m nonce s -> prepare_inner m now request cached (ms_book s) = (r, b) ->
  stays_or_steps (phase_of s h) (phase_of (after_prepare r b s) h).
Proof.
  intros Hinv. assert (forall r, stays_or_steps (phase_of s h) (phase_of (after_prepare r (ms_book s) s) h)) as Hsame.
  { by left. }
  unfold prepare_inner, prepare_locked. destruct (plan _); [|by intros [= <- <-]].
  destruct (bk_terminal (ms_book s)); [by intros [= <- <-]|].
  destruct (bk_slots (ms_book s) !! wpr_handle request) as [slot|] eqn:Hs; [|by intros [= <- <-]].
  destruct (_ || sl_stop slot) eqn:Hstop; [by intros [= <- <-]|]. apply orb_false_iff in Hstop as [_ Hstop].
  destruct (sl_plan slot) as [p|] eqn:Hp.
  { destruct (_ || _); by intros [= <- <-]. }
  destruct (_ <=? _)%N; [by intros [= <- <-]|]. intros [= <- <-]. cbn [after_prepare].
  apply (phase_one_slot s _ slot); [done|done|]. right. unfold slot_phase. cbn. rewrite Hstop, Hp. apply Plan.
Qed.

Lemma phase_step_of_mstep (s t : mstate) h :
  manager_inv m nonce s -> mstep m s t -> stays_or_steps (phase_of s h) (phase_of t h).
Proof.
  intros Hinv Hstep. destruct Hstep as
    [now r b E|now request r b E|now request r b E|now k q r b E|k r b E|k closed r b Hc E
    |hs b E|complete r b Ht Hc E|k slot st Hs Hcmd|k slot Hs].
  - by apply (phase_reserve s now r b).
  - by eapply phase_prepare.
  - unfold prepare_cached in E. destruct (recipe _); [|injection E as <- <-; by left].
    destruct (wm_cache_scopes m !! _); [by eapply phase_prepare|injection E as <- <-; by left].
  - unfold submit in E. destruct (bk_terminal (ms_book s)); [injection E as <- <-; by left|].
    destruct (bk_slots (ms_book s) !! k) as [slot|] eqn:Hs; [|injection E as <- <-; by left].
    destruct (slot_expired now slot); [injection E as <- <-; by left|].
    destruct (_ || _); [injection E as <- <-; by left|].
    destruct (sl_commands slot) as [c|]; [|injection E as <- <-; by left].
    destruct (try_send q c) as [c'|]; injection E as <- <-; [|by left].
    apply (phase_one_slot s k slot); [done|done|by left].
  - unfold stop in E. destruct (bk_slots (ms_book s) !! k) as [slot|] eqn:Hs; [|injection E as <- <-; by left].
    destruct (sl_commands slot); injection E as <- <-.
    + apply (phase_one_slot s k slot); [done|done|]. unfold slot_phase. cbn.
      destruct (sl_stop slot); [by left|]. right. destruct (sl_plan slot); [apply StopPlanned|apply StopReserved].
    + apply phase_fewer; [done|apply delete_subseteq].
  - unfold stop_finish in E. destruct closed; injection E as <- <-; [|by left].
    apply phase_fewer; [done|apply delete_subseteq].
  - injection E as <- <-. apply phase_same_issued; [done|done|..]; cbn; rewrite lookup_fmap.
    + intros slot ->. right. eexists. split; [reflexivity|]. unfold slot_phase. cbn.
      destruct (sl_stop slot); [by left|]. right. destruct (sl_plan slot); [apply StopPlanned|apply StopReserved].
    + by intros ->.
  - unfold shutdown_finish in E. destruct complete; injection E as <- <-; [|by left].
    apply phase_fewer; [done|apply map_empty_subseteq].
  - apply (phase_one_slot s k slot); [done|done|by left].
  - apply (phase_one_slot s k slot); [done|done|by left].
Qed.

Lemma stays_or_steps_rank a b : stays_or_steps a b -> (rank a <= rank b)%nat.
Proof. intros [->|Hs]; [done|]. destruct Hs as [| | | |ph]; cbn; try lia. by destruct ph; cbn; lia. Qed.

(** C20. The manager refines a one-way machine of each handle: seen at any handle, every
    step of any caller or supervisor leaves its phase or moves it along unissued,
    reserved, planned, stopping, retired; a plan is never changed, a retired handle
    never comes back, and the answers fit: a supervisor is started only for a reserved
    handle, a repeated preparation is joined only with the very same plan and recipe,
    and a command is only accepted for a planned one. *)
Theorem manager_refines_handle_machine (s t : mstate) (h : WorkerHandle) :
  mreachable m nonce s -> mstep m s t ->
  stays_or_steps (phase_of s h) (phase_of t h)
  /\ (rank (phase_of s h) <= rank (phase_of t h))%nat
  /\ (forall now request cached b, wpr_handle request = h ->
       (forall su, prepare_inner m now request cached (ms_book s) = (Ok (Some su), b) -> phase_of s h = OnReserve)
       /\ (prepare_inner m now request cached (ms_book s) = (Ok None, b) ->
           phase_of s h = Planned (wpr_plan request) cached))
  /\ (forall now q b, submit now h q (ms_book s) = (Ok tt, b) -> exists p c, phase_of s h = Planned p c).
Proof.
  intros Hinv%reachable_manager_inv Hstep. pose proof (phase_step_of_mstep s t h Hinv Hstep) as Hph. split; [done|].
  split; [|split].
  - by apply stays_or_steps_rank.
  - intros now request cached b <-. unfold prepare_inner, prepare_locked, phase_of, slot_phase.
    destruct (plan _); [|by split]. destruct (bk_terminal (ms_book s)); [by split|].
    destruct (bk_slots (ms_book s) !! wpr_handle request) as [slot|]; [|by split].
    destruct (_ || sl_stop slot) eqn:Hstop; [by split|]. apply orb_false_iff in Hstop as [_ ->].
    destruct (sl_plan slot) as [p|] eqn:Hp.
    + destruct (_ || _) eqn:Hsame; [by split|]. apply orb_false_iff in Hsame as [H1 H2].
      apply negb_false_iff, bool_decide_eq_true in H1, H2. subst. by split.
    + by destruct (_ <=? _)%N; split.
  - intros now q b. unfold submit, phase_of, slot_phase. destruct (bk_terminal (ms_book s)); [done|].
    destruct (bk_slots (ms_book s) !! h) as [slot|] eqn:Hs; [|done].
    destruct (slot_expired now slot); [done|].
    destruct (sl_stop slot); [done|]. cbn [orb]. destruct (sa_closed (sl_state slot)); [done|].
    destruct (sl_commands slot) as [c|] eqn:Hcmd; [|done]. intros _.
    destruct (sl_plan slot) as [p|] eqn:Hp; [by eauto|].
    destruct (mn_slots _ _ _ Hinv _ _ Hs) as [_ [Ha _]]. destruct (Ha Hp) as [_ Hn]. congruence.
Qed.

End Refinement.
End Spec.

(** ** The property at work *)

Section Samples.
#[local] Existing Instance manager_sample_value.

Let m := WorkerManager_new (Path_new "/var/lib/workers").
Let p := MkWorkerPlan "print()" (MkWorkerCommand "/opt/python" [] [] None) [] ["cpu"] 1000 1000 None 0.
Let h := handle_of "n" 1.
Let s0 := MkMState (Book_new "n") [] [] [] [].
Let reserved := MkMState (reserve 0 (Book_new "n")).2 [h] [] [] [].
Let preparation := prepare_inner m 1000 (MkWorkerPrepare h p) None (ms_book reserved).
Let prepared := after_prepare preparation.1 preparation.2 reserved.

Lemma manager_refines_handle_machine_witness :
  (phase_of reserved h, phase_of prepared h) = (OnReserve, Planned p None)
  /\ stays_or_steps (phase_of reserved h) (phase_of prepared h).
Proof.
  split; [vm_compute; reflexivity|].
  apply (manager_refines_handle_machine m "n" reserved prepared h).
  - apply (reachable_step _ _ s0); [apply reachable_init; reflexivity|].
    apply (Reserves m s0 0 (Ok h)). reflexivity.
  - apply (Prepares m reserved 1000 (MkWorkerPrepare h p)). apply surjective_pairing.
Defined.

(** The whole of a life: planned, told to stop, gone; and the handle after it is new. *)
Example a_handle_lives_once :
  let stopping := with_book (stop h (ms_book prepared)).2 prepared in
  let gone := with_book (stop_finish h true (ms_book stopping)).2 stopping in
  map (fun s => phase_of s h) [s0; reserved; prepared; stopping; gone]
  = [Unissued; OnReserve; Planned p None; Stopping; Retired]
  /\ (reserve 5000 (ms_book gone)).1 = Ok (handle_of "n" 2).
Proof. vm_compute. split; reflexivity. Qed.

End Samples.
