(* ===== verification/PySpawner.v ===== *)
(** * How a host confines the Python server: [tinyruntime-pyserver]'s [spawner.rs]

    The twin of [PoolWorker]'s spawner, on types of its own: what the one confines, the
    other confines in the same way. *)

From S2P Require Import Prelude RustStd Identity Vocabulary Errors World.
From S2P Require Import PoolWorker.

Open Scope rust_scope.

Record SpawnSpec := MkSpawnSpec {
  ss_program : Path;
  ss_args : list string;
  ss_env : list (string * string);
  ss_clear_env : bool
}.

(** [SpawnRefused(String)] *)
Record SpawnRefused := MkSpawnRefused { refused_reason : string }.

Definition SpawnRefused_display (e : SpawnRefused) : string :=
  "the spawner refused to start the process: " +:+ refused_reason e.

(** The trait [Spawner]: the host's code, behind an identity and one operation. *)
Record Spawner := MkSpawner {
  spawner_id : string;
  spawner_confine : SpawnSpec -> result SpawnRefused SpawnSpec
}.

Definition confine (spawner : option Spawner) (spec : SpawnSpec) : result SpawnRefused SpawnSpec :=
  match spawner with
  | Some spawner => spawner_confine spawner spec
  | None => Ok spec
  end.

(** The command a spec describes: its program, its arguments and the environment of the
    child, where later settings of a name win. *)
Definition to_command (inherited : gmap string string) (spec : SpawnSpec)
  : Path * list string * gmap string string :=
  let cleared := if ss_clear_env spec then ∅ else inherited in
  (ss_program spec, ss_args spec,
   fold_left (fun env '(name, value) => <[name := value]> env) (ss_env spec) cleared).

(** ** The twins *)

Definition as_pool (spec : SpawnSpec) : PoolWorker.SpawnSpec :=
  PoolWorker.MkSpawnSpec (ss_program spec) (ss_args spec) (ss_env spec) (ss_clear_env spec).
Definition of_pool (spec : PoolWorker.SpawnSpec) : SpawnSpec :=
  MkSpawnSpec (PoolWorker.ss_program spec) (PoolWorker.ss_args spec) (PoolWorker.ss_env spec)
    (PoolWorker.ss_clear_env spec).

(** One policy of the host, for both. *)
Definition both (policy : PoolWorker.Spawner) : Spawner :=
  MkSpawner (PoolWorker.spawner_id policy)
    (fun spec => result_map of_pool
       (map_err (fun e => MkSpawnRefused (PoolWorker.refused_reason e))
          (PoolWorker.spawner_confine policy (as_pool spec)))).

(** Under one policy a Python server is started as a pool worker with the same spec
    would be, or refused with the same words. *)
Lemma one_policy_for_both (policy : option PoolWorker.Spawner) (spec : SpawnSpec) (inherited : gmap string string) :
  match confine (both <$> policy) spec, PoolWorker.confine policy (as_pool spec) with
  | Ok mine, Ok pools => as_pool mine = pools
      /\ (to_command inherited mine).2 = PoolWorker.to_command_env inherited pools
  | Err mine, Err pools => SpawnRefused_display mine = PoolWorker.SpawnRefused_display pools
  | _, _ => False
  end.
Proof.
  destruct policy as [policy|]; cbn; [|by destruct spec].
  destruct (PoolWorker.spawner_confine policy (as_pool spec)) as [pools|e]; cbn; [|done].
  by destruct pools.
Qed.
