(* ===== verification/PyServer.v ===== *)
(** * The client of a persistent Python server: [tinyruntime-pyserver]

    [error.rs], [launch.rs], [script.rs], [server.rs]. One process behind one lock, a
    request at a time, each retried once on a fresh process. What the process writes
    may have no end ([output]), each wait for a line has a timeout of its own, and a
    caller may drop its call at any wait. Times are milliseconds. *)

From stdpp Require Import fin_maps.
From S2P Require Import Prelude RustStd Identity Vocabulary Errors World PoolWorker WorkerTypes PySpawner.

Open Scope rust_scope.

(** ** [error.rs] *)

Inductive PyError :=
| PySpawn (bin script source : string)
| PySpawnRefused (e : SpawnRefused)
| PyStdinMissing
| PyStdoutMissing
| PyExitedBeforeReady
| PyHandshakeRead (source : string)
| PyHandshakeTimeout
| PyReadyParse (line source : string)
| PyStartFailed (reason : string)
| PyProtocolMismatch (expected : N) (got : option N)
| PyEncode (source : string)
| PyWrite (source : string)
| PyFlush (source : string)
| PyClosed
| PyRead (source : string)
| PyRequestTimeout
| PyRemote (method message : string)
| PyDecode (method source : string)
| PyUnavailable (message : string)
| PyBackingOff (message : string)
| PyPrepare (message : string)
| PyCreateDir (path source : string)
| PyWriteScript (path source : string).

(** [{:?}] of an [Option<u32>]. *)
Definition debug_option_u32 (o : option N) : string :=
  match o with None => "None" | Some n => "Some(" +:+ display_u64 n +:+ ")" end.

Definition PyError_display (e : PyError) : string :=
  match e with
  | PySpawn bin script source =>
      "spawning runtime python server: failed to spawn python process `" +:+ bin
      +:+ "` for script " +:+ script +:+ ": " +:+ source
  | PySpawnRefused e => "spawning runtime python server: " +:+ SpawnRefused_display e
  | PyStdinMissing => "runtime python server stdin missing"
  | PyStdoutMissing => "runtime python server stdout missing"
  | PyExitedBeforeReady => "runtime python server exited before readiness handshake"
  | PyHandshakeRead source => "reading runtime python server handshake: " +:+ source
  | PyHandshakeTimeout => "runtime python server readiness handshake timed out"
  | PyReadyParse line source =>
      "parsing runtime python server ready line: " +:+ line +:+ ": " +:+ source
  | PyStartFailed reason => "runtime python server failed to start: " +:+ reason
  | PyProtocolMismatch expected got =>
      "runtime python server protocol mismatch: expected " +:+ display_u64 expected
      +:+ ", got " +:+ debug_option_u32 got
  | PyEncode source => "encoding runtime python server request: " +:+ source
  | PyWrite source => "writing runtime python server request: " +:+ source
  | PyFlush source => "flushing runtime python server request: " +:+ source
  | PyClosed => "runtime python server closed stdout"
  | PyRead source => "reading runtime python server response: " +:+ source
  | PyRequestTimeout => "runtime python server request timed out"
  | PyRemote method message => "runtime python server `" +:+ method +:+ "` failed: " +:+ message
  | PyDecode method source =>
      "decoding runtime python server `" +:+ method +:+ "` result: " +:+ source
  | PyUnavailable message => "runtime python server unavailable: " +:+ message
  | PyBackingOff message =>
      "runtime python server unavailable after previous startup failure: " +:+ message
  | PyPrepare message => message
  | PyCreateDir path source =>
      "creating runtime python server cache " +:+ path +:+ ": " +:+ source
  | PyWriteScript path source =>
      "writing runtime python server script " +:+ path +:+ ": " +:+ source
  end.

(** ** [launch.rs] *)

Definition PY_HANDSHAKE_TIMEOUT : N := 30000.
Definition DEFAULT_REQUEST_TIMEOUT : N := 60000.

Record ServerLaunch := MkServerLaunch {
  sla_python_bin : Path;
  sla_script_path : Path;
  sla_backends : list string;
  sla_env : list (string * string);
  sla_handshake_timeout : N;
  sla_request_timeout : N;
  sla_spawner : option Spawner
}.

Definition ServerLaunch_new (python_bin script_path : Path) (backends : list string)
    (env : list (string * string)) : ServerLaunch :=
  MkServerLaunch python_bin script_path backends env PY_HANDSHAKE_TIMEOUT
    DEFAULT_REQUEST_TIMEOUT None.

Definition launch_with_spawner (spawner : Spawner) (l : ServerLaunch) : ServerLaunch :=
  MkServerLaunch (sla_python_bin l) (sla_script_path l) (sla_backends l) (sla_env l)
    (sla_handshake_timeout l) (sla_request_timeout l) (Some spawner).

(** ** [script.rs] *)

Definition SCRIPT_FILE_NAME : string := "runtime_python_server.py".

Section Script.
Context `{Env}.
(** The text of [server.py]. *)
Context (SERVER_SCRIPT : string).

Definition write_script (root : Path) : io World (result PyError Path) :=
  made <-- create_dir_all root ;;
  match made with
  | Err source => io_ret (Err (PyCreateDir (path_display root) (ioe_text source)))
  | Ok _ =>
      let path := path_join root (Path_new SCRIPT_FILE_NAME) in
      wrote <-- write_file path SERVER_SCRIPT ;;
      match wrote with
      | Err source => io_ret (Err (PyWriteScript (path_display path) (ioe_text source)))
      | Ok _ => io_ret (Ok path)
      end
  end.

End Script.

(** ** [server.rs] *)

(** What a process writes: its lines one by one, and when they come; [None] is a line that
    never does. A process may go on writing for ever. *)
Definition output : Type := nat -> option arrival.
(** ... when so many of them were read. *)
Definition past (used : nat) (o : output) : output := fun k => o (used + k)%nat.
(** A process that falls silent after these. *)
Definition written (arrivals : list arrival) : output := fun k => arrivals !! k.

(** [child] tells processes apart; [received] is what the process was sent. *)
Record Inner := MkInner {
  in_child : nat;
  in_received : string;
  in_stdout : output;
  in_next_id : N;
  in_ready_backends : list string
}.

Record PythonServer := MkPythonServer {
  pys_launch : ServerLaunch;
  pys_inner : option Inner;
  pys_last_used : N
}.

Definition PythonServer_new (launch : ServerLaunch) (now : N) : PythonServer :=
  MkPythonServer launch None now.

Definition backends (s : PythonServer) : list string := sla_backends (pys_launch s).

Definition set_inner (i : option Inner) (s : PythonServer) : PythonServer :=
  MkPythonServer (pys_launch s) i (pys_last_used s).

(** What an operation does to processes: a process exists, is gone (killed, or dropped,
    which kills it), is sent a request whole, or has answered one. *)
Inductive py_event :=
| ChildStarted (spec : SpawnSpec) (child : nat)
| ChildGone (child : nat)
| Sent (child : nat) (id : string)
| Took (child : nat) (id : string) (line : string).

(** How an operation ends for its caller: with an answer, dropped at a wait, or waiting
    for ever. *)
Inductive ended (A : Type) := Answered (a : A) | Abandoned | Stuck.
Arguments Answered {A} a.
Arguments Abandoned {A}.
Arguments Stuck {A}.

(** One [write_all] and [flush]: done; failed after some of the bytes; or the pipe is
    full and the process does not read. *)
Inductive pipe_write :=
| Written
| WriteFailed (error : string) (sent : nat)
| FlushFailed (error : string)
| Blocked (sent : nat).

Record pipes := MkPipes { pp_stdin : bool; pp_stdout : bool; pp_stream : output }.

(** What is outside one call: the next process's number, what the system answers when
    it is started, the write and how long it takes to end, and when the caller drops the
    call, if it does. A reply loop that still goes on after [sy_turns] lines is not
    followed any further. *)
Record py_system := MkPySystem {
  sy_fresh : nat;
  sy_process : SpawnSpec -> result string pipes;
  sy_write : pipe_write;
  sy_takes : N;
  sy_drop : option N;
  sy_turns : nat
}.

(** How the write of [whole] bytes ends, and when: a caller that goes away before that
    leaves what is in the pipe by then. *)
Definition write_ends (sys : py_system) (now : N) (whole : nat) : pipe_write * N :=
  let wrote := (now + sy_takes sys)%N in
  match sy_drop sys with
  | Some d =>
      if (d <? wrote)%N
      then (Blocked match sy_write sys with WriteFailed _ n | Blocked n => n | _ => whole end, now)
      else (sy_write sys, wrote)
  | None => (sy_write sys, wrote)
  end.

(** [timeout(wait, next_line())], dropped if the caller goes first. *)
Definition wait_line (wait : N) (drop_at : option N) (now : N) (next : option arrival)
  : option waited * N :=
  let w := next_line (Some (now + wait)%N) now (option_list next) in
  let t := match w with Arrived t _ _ | TimedOut t => t | Forever => now end in
  match drop_at with
  | Some d => if (d <? t)%N then (None, N.max now d) else (Some w, t)
  | None => (Some w, t)
  end.

Definition spawn_spec (launch : ServerLaunch) : SpawnSpec := {|
  ss_program := sla_python_bin launch;
  ss_args := ["-u"; path_display (sla_script_path launch)];
  ss_env := sla_env launch;
  ss_clear_env := false
|}.

Definition spawn_child (sys : py_system) (launch : ServerLaunch)
  : result PyError (SpawnSpec * pipes) :=
  match confine (sla_spawner launch) (spawn_spec launch) with
  | Err e => Err (PySpawnRefused e)
  | Ok spec =>
      map_err (PySpawn (path_display (sla_python_bin launch)) (path_display (sla_script_path launch)))
        (result_map (pair spec) (sy_process sys spec))
  end.

Section Server.
Context `{JsonValue}.

(** [serde_json] on the messages, and on the type a caller expects. *)
Class PyJson (T : Type) := {
  py_encode : ServerRequest -> result string string;
  py_decode_ready : string -> result string ReadyLine;
  py_decode_response : string -> result string ServerResponse;
  py_null : Value;
  py_from_value : Value -> result string T
}.
Context {T : Type} `{PyJson T}.

Definition verify_ready (ready_line : string) : result PyError ReadyLine :=
  match py_decode_ready ready_line with
  | Err source => Err (PyReadyParse ready_line source)
  | Ok ready =>
      if negb (rl_ready ready) then Err (PyStartFailed (default "unknown" (rl_error ready)))
      else if bool_decide (rl_protocol ready = Some PROTOCOL_VERSION) then Ok ready
      else Err (PyProtocolMismatch PROTOCOL_VERSION (rl_protocol ready))
  end.

(** Every way out but the last drops the child, which kills it. *)
Definition spawn_inner (sys : py_system) (launch : ServerLaunch) (now : N)
  : ended (result PyError Inner) * list py_event * N :=
  match spawn_child sys launch with
  | Err e => (Answered (Err e), [], now)
  | Ok (spec, p) =>
      let c := sy_fresh sys in
      let dropped := [ChildStarted spec c; ChildGone c] in
      if negb (pp_stdin p) then (Answered (Err PyStdinMissing), dropped, now)
      else if negb (pp_stdout p) then (Answered (Err PyStdoutMissing), dropped, now)
      else
        match wait_line (sla_handshake_timeout launch) (sy_drop sys) now (pp_stream p 0%nat) with
        | (None, now) => (Abandoned, dropped, now)
        | (Some (Arrived _ DClosed _), now) => (Answered (Err PyExitedBeforeReady), dropped, now)
        | (Some (Arrived _ (DFailed error) _), now) =>
            (Answered (Err (PyHandshakeRead error)), dropped, now)
        | (Some (TimedOut _ | Forever), now) => (Answered (Err PyHandshakeTimeout), dropped, now)
        | (Some (Arrived _ (DLine line) _), now) =>
            match verify_ready line with
            | Err e => (Answered (Err e), dropped, now)
            | Ok ready =>
                (Answered (Ok (MkInner c "" (past 1 (pp_stream p)) 0 (rl_backends ready))), [ChildStarted spec c], now)
            end
        end
  end.

(** [if guard.is_none() { *guard = Some(spawn_inner(..).await?) }] *)
Definition ensure_inner (sys : py_system) (now : N) (s : PythonServer)
  : ended (result PyError Inner) * PythonServer * list py_event * N :=
  match pys_inner s with
  | Some inner => (Answered (Ok inner), s, [], now)
  | None =>
      match spawn_inner sys (pys_launch s) now with
      | (Answered (Ok inner), events, now) =>
          (Answered (Ok inner), set_inner (Some inner) s, events, now)
      | (e, events, now) => (e, s, events, now)
      end
  end.

Definition server_start (sys : py_system) (now : N) (s : PythonServer)
  : ended (result PyError unit) * PythonServer * list py_event * N :=
  match ensure_inner sys now s with
  | (Answered r, s, events, now) => (Answered (result_map (fun _ => tt) r), s, events, now)
  | (Abandoned, s, events, now) => (Abandoned, s, events, now)
  | (Stuck, s, events, now) => (Stuck, s, events, now)
  end.

(** What a reply to this request is worth. *)
Definition take_response (method : string) (response : ServerResponse) : result PyError T :=
  if negb (sp_ok response) then
    Err (PyRemote method
           match sp_error response with
           | Some error => se_code error +:+ ": " +:+ se_message error
           | None => "unknown python server error"
           end)
  else map_err (PyDecode method) (py_from_value (default py_null (sp_result response))).

(** The loop of [request_once]: each line has its own timeout, and nothing else ends it. *)
Fixpoint read_loop (turns : nat) (wait : N) (drop_at : option N) (child : nat) (id method : string)
    (stream : output) (now : N) : ended (result PyError T) * output * list py_event * N :=
  match turns with
  | O => (Stuck, stream, [], now)
  | S turns =>
      match wait_line wait drop_at now (stream 0%nat) with
      | (None, now) => (Abandoned, stream, [], now)
      | (Some (TimedOut _ | Forever), now) => (Answered (Err PyRequestTimeout), stream, [], now)
      | (Some (Arrived _ DClosed _), now) => (Answered (Err PyClosed), past 1 stream, [], now)
      | (Some (Arrived _ (DFailed error) _), now) =>
          (Answered (Err (PyRead error)), past 1 stream, [], now)
      | (Some (Arrived _ (DLine line) _), now) =>
          match py_decode_response line with
          | Err _ => read_loop turns wait drop_at child id method (past 1 stream) now
          | Ok response =>
              if negb (bool_decide (sp_id response = Some id)) then
                read_loop turns wait drop_at child id method (past 1 stream) now
              else (Answered (take_response method response), past 1 stream, [Took child id line], now)
          end
      end
  end.

Definition inner_numbered (i : Inner) : Inner :=
  MkInner (in_child i) (in_received i) (in_stdout i) (wrapping_add (in_next_id i) 1)
    (in_ready_backends i).
Definition inner_sent (bytes : string) (i : Inner) : Inner :=
  MkInner (in_child i) (in_received i +:+ bytes) (in_stdout i) (in_next_id i) (in_ready_backends i).
Definition inner_read (rest : output) (i : Inner) : Inner :=
  MkInner (in_child i) (in_received i) rest (in_next_id i) (in_ready_backends i).

(** The exchange with the process that is there. *)
Definition exchange (sys : py_system) (wait : N) (method : string) (params : Value) (now : N)
    (inner : Inner) : ended (result PyError T) * Inner * list py_event * N :=
  let id := display_u64 (in_next_id inner) in
  let inner := inner_numbered inner in
  match py_encode (MkServerRequest id method params) with
  | Err error => (Answered (Err (PyEncode error)), inner, [], now)
  | Ok encoded =>
      let line := encoded +:+ newline in
      let part n := String.substring 0 (Nat.min n (String.length encoded)) line in
      let '(write, now) := write_ends sys now (String.length encoded) in
      match write with
      | WriteFailed error sent =>
          (Answered (Err (PyWrite error)), inner_sent (part sent) inner, [], now)
      | Blocked sent =>
          (match sy_drop sys with Some _ => Abandoned | None => Stuck end,
           inner_sent (part sent) inner, [],
           match sy_drop sys with Some d => N.max now d | None => now end)
      | FlushFailed error =>
          (Answered (Err (PyFlush error)), inner_sent line inner, [Sent (in_child inner) id], now)
      | Written =>
          let inner := inner_sent line inner in
          let '(e, rest, events, now) :=
            read_loop (sy_turns sys) wait (sy_drop sys) (in_child inner) id method (in_stdout inner) now in
          (e, inner_read rest inner, Sent (in_child inner) id :: events, now)
      end
  end.

(** [request_once], under the lock from end to end. *)
Definition request_once (sys : py_system) (method : string) (params : Value) (now : N)
    (s : PythonServer) : ended (result PyError T) * PythonServer * list py_event * N :=
  match ensure_inner sys now s with
  | (Answered (Err e), s, events, now) => (Answered (Err e), s, events, now)
  | (Abandoned, s, events, now) => (Abandoned, s, events, now)
  | (Stuck, s, events, now) => (Stuck, s, events, now)
  | (Answered (Ok inner), s, events, now) =>
      let '(e, inner, more, now) :=
        exchange sys (sla_request_timeout (pys_launch s)) method params now inner in
      (e, set_inner (Some inner) s, events ++ more, now)
  end.

Definition reset (s : PythonServer) : PythonServer * list py_event :=
  (set_inner None s, match pys_inner s with Some i => [ChildGone (in_child i)] | None => [] end).

Definition mark_used (now : N) (s : PythonServer) : PythonServer :=
  MkPythonServer (pys_launch s) (pys_inner s) now.

(** [request], with nobody else between its lock sections; [systems] answers the two
    attempts. *)
Definition request (sys again : py_system) (method : string) (params : Value) (now : N)
    (s : PythonServer) : ended (result PyError T) * PythonServer * list py_event * N :=
  match request_once sys method params now s with
  | (Answered (Ok value), s, events, now) => (Answered (Ok value), mark_used now s, events, now)
  | (Answered (Err _), s, events, now) =>
      let '(s, gone) := reset s in
      match request_once again method params now s with
      | (Answered (Ok value), s, more, now) =>
          (Answered (Ok value), mark_used now s, events ++ gone ++ more, now)
      | (e, s, more, now) => (e, s, events ++ gone ++ more, now)
      end
  | (e, s, events, now) => (e, s, events, now)
  end.

End Server.

Definition server_idle_expired (timeout now : N) (s : PythonServer) : bool :=
  (timeout <=? now - pys_last_used s)%N.

Definition server_status (s : PythonServer) : ServerStatus :=
  let ready := match pys_inner s with Some i => in_ready_backends i | None => [] end in
  MkServerStatus true (match pys_inner s with Some _ => true | None => false end)
    (map (fun id => MkBackendStatus id true (bool_decide (id ∈ ready)) None)
       (sla_backends (pys_launch s))) None.

(** ** What each operation does, abstractly *)

Section Effects.
Context `{JsonValue} {T : Type} `{PyJson T}.

(** Making sure there is a process: kept, started, started and lost, or not started. *)
Inductive starting (fresh : nat) : option Inner -> list py_event -> option Inner -> Prop :=
| KeptChild i : starting fresh (Some i) [] (Some i)
| FreshChild spec i :
    in_child i = fresh -> in_next_id i = 0%N ->
    starting fresh None [ChildStarted spec fresh] (Some i)
| Stillborn spec : starting fresh None [ChildStarted spec fresh; ChildGone fresh] None
| Unborn : starting fresh None [] None.

Definition no_value {A} (e : ended (result PyError A)) : Prop := forall v, e <> Answered (Ok v).

(** An exchange with child [c] under [id]: not sent whole, not answered, or answered by
    a line that names it. *)
Inductive exchanged (method : string) (c : nat) (id : string)
  : list py_event -> ended (result PyError T) -> Prop :=
| Unsent e : no_value e -> exchanged method c id [] e
| Unanswered e : no_value e -> exchanged method c id [Sent c id] e
| Answers line response :
    py_decode_response line = Ok response -> sp_id response = Some id ->
    exchanged method c id [Sent c id; Took c id line] (Answered (take_response method response)).

Lemma spawn_inner_spec sys launch now e events t :
  spawn_inner sys launch now = (e, events, t) ->
  match e with
  | Answered (Ok i) => starting (sy_fresh sys) None events (Some i)
  | _ => starting (sy_fresh sys) None events None
  end.
Proof.
  unfold spawn_inner. destruct (spawn_child sys launch) as [[spec p]|]; [|intros [= <- <- _]; constructor].
  destruct (negb (pp_stdin p)); [intros [= <- <- _]; constructor|].
  destruct (negb (pp_stdout p)); [intros [= <- <- _]; constructor|].
  destruct (wait_line _ _ _ _) as [[[? [line| |] ?| |]|] ?]; try (intros [= <- <- _]; constructor).
  destruct (verify_ready line); intros [= <- <- _]; by constructor.
Qed.

Lemma ensure_inner_spec sys now s e s' events t :
  ensure_inner sys now s = (e, s', events, t) ->
  pys_launch s' = pys_launch s
  /\ starting (sy_fresh sys) (pys_inner s) events (pys_inner s')
  /\ match e with Answered (Ok i) => pys_inner s' = Some i | _ => pys_inner s' = None end.
Proof.
  unfold ensure_inner. destruct (pys_inner s) as [i|] eqn:Hi.
  { intros [= <- <- <- _]. rewrite Hi. split_and!; [done|constructor|done]. }
  destruct (spawn_inner sys (pys_launch s) now) as [[e0 ev] t0] eqn:Hs.
  apply spawn_inner_spec in Hs.
  destruct e0 as [[i|]| |]; intros [= <- <- <- _]; cbn; rewrite ?Hi; done.
Qed.

Lemma server_start_spec sys now s e s' events t :
  server_start sys now s = (e, s', events, t) ->
  starting (sy_fresh sys) (pys_inner s) events (pys_inner s').
Proof.
  unfold server_start. destruct (ensure_inner sys now s) as [[[e0 s0] ev] t0] eqn:He.
  apply ensure_inner_spec in He as (_ & Hs & _). by destruct e0; intros [= _ <- <- _].
Qed.

Lemma read_loop_spec turns wait d c id method stream now e rest events t :
  read_loop turns wait d c id method stream now = (e, rest, events, t) ->
  exchanged method c id (Sent c id :: events) e.
Proof.
  revert stream now. induction turns as [|turns IH]; intros stream now; cbn [read_loop];
    [intros [= <- _ <- _]; by constructor|].
  destruct (wait_line wait d now _) as [[[? [line| |error] ?| |]|] ?];
    try (intros [= <- _ <- _]; by constructor).
  destruct (py_decode_response line) as [response|] eqn:Hd; [|by apply IH].
  case_bool_decide; cbn [negb]; [|by apply IH]. intros [= <- _ <- _]. by constructor.
Qed.

Lemma exchange_spec sys wait method params now i e i' events t :
  exchange sys wait method params now i = (e, i', events, t) ->
  in_child i' = in_child i /\ in_next_id i' = wrapping_add (in_next_id i) 1
  /\ exchanged method (in_child i) (display_u64 (in_next_id i)) events e.
Proof.
  unfold exchange. destruct (py_encode _) as [encoded|].
  2:{ intros [= <- <- <- _]. split_and!; [done..|by constructor]. }
  destruct (write_ends _ _ _) as [[|error sent|error|sent] wrote].
  - destruct (read_loop _ _ _ _ _ _ _ _) as [[[e0 rest] ev] t0] eqn:Hr.
    apply read_loop_spec in Hr. cbn in *. by intros [= <- <- <- _].
  - intros [= <- <- <- _]. split_and!; [done..|by constructor].
  - intros [= <- <- <- _]. split_and!; [done..|by constructor].
  - intros [= <- <- <- _]. split_and!; [done..|constructor]. by destruct (sy_drop sys).
Qed.

(** One attempt: a process is there or is started, then one exchange under its next
    number. *)
Lemma request_once_spec sys method params now s e s' events t :
  request_once sys method params now s = (e, s', events, t) ->
  exists first second middle,
    events = first ++ second /\ starting (sy_fresh sys) (pys_inner s) first middle
    /\ match middle with
       | None => second = [] /\ pys_inner s' = None /\ no_value e
       | Some i => exists i', pys_inner s' = Some i' /\ in_child i' = in_child i
                   /\ in_next_id i' = wrapping_add (in_next_id i) 1
                   /\ exchanged method (in_child i) (display_u64 (in_next_id i)) second e
       end.
Proof.
  unfold request_once. destruct (ensure_inner sys now s) as [[[e0 s0] ev] t0] eqn:He.
  apply ensure_inner_spec in He as (_ & Hst & He). destruct e0 as [[i|error]| |].
  - rewrite He in Hst. destruct (exchange _ _ _ _ _ i) as [[[e1 i'] more] t1] eqn:Hx.
    apply exchange_spec in Hx. intros [= <- <- <- _]. exists ev, more, (Some i). eauto.
  - rewrite He in Hst. intros [= <- <- <- _]. exists ev, [], None. by rewrite app_nil_r.
  - rewrite He in Hst. intros [= <- <- <- _]. exists ev, [], None. by rewrite app_nil_r.
  - rewrite He in Hst. intros [= <- <- <- _]. exists ev, [], None. by rewrite app_nil_r.
Qed.

End Effects.
