(* ===== verification/PyLife.v ===== *)
(** * The life of a persistent Python server: callers in any order

    Each caller of [PythonServer::request] goes through an attempt, on failure a reset
    and a second attempt, and the marking of its success; the server's lock is released
    between them, so the callers' turns interleave, and a caller may go away at any
    point. *)

From stdpp Require Import fin_maps.
From S2P Require Import Prelude RustStd Identity Vocabulary Errors World PoolWorker WorkerTypes PySpawner PyServer.

Open Scope rust_scope.

Section Life.
Context `{HV : JsonValue} {T : Type} `{HP : !PyJson T}.
Context (launch : ServerLaunch).

(** Where a caller is in [request]. *)
Inductive rphase :=
| Asking
| Resetting (e : PyError)
| Retrying
| Marking (v : T)
| Finished (r : result PyError T)
| Departed.

(** What was done to processes, for which caller; latest first. *)
Abbreviation pylog := (list (option nat * py_event)).

Record pystate := MkPyState {
  py_server : PythonServer;
  py_callers : gmap nat (string * Value * rphase);
  py_log : pylog;
  py_children : nat;
  py_asked : N
}.

Definition recorded (who : option nat) (events : list py_event) (log : pylog) : pylog :=
  rev (map (pair who) events) ++ log.

Definition pyinitial (s : pystate) : Prop :=
  exists now, s = MkPyState (PythonServer_new launch now) ∅ [] 0 0.

(** After the first attempt, and after the second. *)
Definition after_ask (e : ended (result PyError T)) : rphase :=
  match e with
  | Answered (Ok v) => Marking v
  | Answered (Err e) => Resetting e
  | Abandoned | Stuck => Departed
  end.
Definition after_retry (e : ended (result PyError T)) : rphase :=
  match e with
  | Answered (Ok v) => Marking v
  | Answered (Err e) => Finished (Err e)
  | Abandoned | Stuck => Departed
  end.

(** An attempt of a caller; one that is stuck keeps the lock, and nothing follows. *)
Definition attempt_leads (i : nat) (method : string) (params : Value)
    (next : ended (result PyError T) -> rphase) (s t : pystate) : Prop :=
  exists sys now e server events later,
    sy_fresh sys = py_children s
    /\ request_once sys method params now (py_server s) = (e, server, events, later)
    /\ e <> Stuck
    /\ t = MkPyState server (<[i := (method, params, next e)]> (py_callers s))
             (recorded (Some i) events (py_log s)) (S (py_children s)) (py_asked s + 1).

Definition move (i : nat) (c : string * Value * rphase) (server : PythonServer)
    (who : option nat) (events : list py_event) (s : pystate) : pystate :=
  MkPyState server (<[i := c]> (py_callers s)) (recorded who events (py_log s))
    (py_children s) (py_asked s).

Inductive pystep (s : pystate) : pystate -> Prop :=
| Arrives i method params :
    py_callers s !! i = None ->
    pystep s (move i (method, params, Asking) (py_server s) None [] s)
| Asks i method params t :
    py_callers s !! i = Some (method, params, Asking) ->
    attempt_leads i method params after_ask s t -> pystep s t
| Resets i method params e server events :
    py_callers s !! i = Some (method, params, Resetting e) ->
    reset (py_server s) = (server, events) ->
    pystep s (move i (method, params, Retrying) server (Some i) events s)
| Retries i method params t :
    py_callers s !! i = Some (method, params, Retrying) ->
    attempt_leads i method params after_retry s t -> pystep s t
| Marks i method params v now :
    py_callers s !! i = Some (method, params, Marking v) ->
    pystep s (move i (method, params, Finished (Ok v)) (mark_used now (py_server s)) None [] s)
| Departs i method params ph :
    py_callers s !! i = Some (method, params, ph) -> (forall r, ph <> Finished r) ->
    pystep s (move i (method, params, Departed) (py_server s) None [] s)
| StartsServer sys now e server events later :
    sy_fresh sys = py_children s ->
    server_start sys now (py_server s) = (e, server, events, later) ->
    pystep s (MkPyState server (py_callers s) (recorded None events (py_log s))
                (S (py_children s)) (py_asked s))
| ResetsServer server events :
    reset (py_server s) = (server, events) ->
    pystep s (MkPyState server (py_callers s) (recorded None events (py_log s))
                (py_children s) (py_asked s)).

Definition pyreachable : pystate -> Prop := reachable pyinitial pystep.

(** ** Processes *)

Definition started (log : pylog) (c : nat) : Prop := exists who spec, (who, ChildStarted spec c) ∈ log.
Definition gone (log : pylog) (c : nat) : Prop := exists who, (who, ChildGone c) ∈ log.
Definition sent (log : pylog) (c : nat) (id : string) : Prop := exists who, (who, Sent c id) ∈ log.

(** The requests sent, with the process each went to. *)
Definition sends (log : pylog) : list (nat * string) :=
  omap (fun '(_, e) => match e with Sent c id => Some (c, id) | _ => None end) log.

(** The process that is there, and its next number. *)
Definition current (i : option Inner) : option (nat * N) :=
  (fun i => (in_child i, in_next_id i)) <$> i.

Record child_inv (cur : option (nat * N)) (log : pylog) (fresh : nat) (asked : N) : Prop := {
  ci_current c n : cur = Some (c, n) -> started log c /\ ~ gone log c;
  ci_started c : started log c -> (c < fresh)%nat /\ (gone log c \/ exists n, cur = Some (c, n));
  ci_gone c : gone log c -> (c < fresh)%nat;
  ci_sent c id : sent log c id -> started log c;
  ci_ids : (asked <= u64_max)%N ->
    NoDup (sends log)
    /\ forall c n, cur = Some (c, n) ->
       (n <= asked)%N /\ forall id, sent log c id -> exists k, (k < n)%N /\ id = display_u64 k
}.

Lemma elem_of_sends log c id : (c, id) ∈ sends log <-> sent log c id.
Proof.
  unfold sends, sent. rewrite list_elem_of_omap. split.
  - intros ([who e] & Hin & He). destruct e; simplify_eq. by exists who.
  - intros [who Hin]. by exists (who, Sent c id).
Qed.

Lemma started_cons who e log c :
  started ((who, e) :: log) c <-> (exists spec, e = ChildStarted spec c) \/ started log c.
Proof.
  unfold started. setoid_rewrite elem_of_cons. split.
  - intros (w & spec & [Heq|?]); [injection Heq as _ <-; left; eauto|right; eauto].
  - intros [[spec ->]|(w & spec & ?)]; eauto 10.
Qed.
Lemma gone_cons who e log c : gone ((who, e) :: log) c <-> e = ChildGone c \/ gone log c.
Proof.
  unfold gone. setoid_rewrite elem_of_cons. split.
  - intros (w & [Heq|?]); [injection Heq as _ <-; by left|right; eauto].
  - intros [->|(w & ?)]; eauto 10.
Qed.
Lemma sent_cons who e log c id : sent ((who, e) :: log) c id <-> e = Sent c id \/ sent log c id.
Proof.
  unfold sent. setoid_rewrite elem_of_cons. split.
  - intros (w & [Heq|?]); [injection Heq as _ <-; by left|right; eauto].
  - intros [->|(w & ?)]; eauto 10.
Qed.

Ltac log_facts :=
  repeat match goal with
  | H : context [started (_ :: _) _] |- _ => setoid_rewrite started_cons in H
  | H : context [gone (_ :: _) _] |- _ => setoid_rewrite gone_cons in H
  | H : context [sent (_ :: _) _ _] |- _ => setoid_rewrite sent_cons in H
  | |- context [started (_ :: _) _] => setoid_rewrite started_cons
  | |- context [gone (_ :: _) _] => setoid_rewrite gone_cons
  | |- context [sent (_ :: _) _ _] => setoid_rewrite sent_cons
  end.

(** Later numbers for processes and requests. *)
Lemma child_inv_later cur log f f' a a' :
  child_inv cur log f a -> (f <= f')%nat -> (a <= a')%N -> child_inv cur log f' a'.
Proof.
  intros [H1 H2 H3 H4 H5] Hf Ha. constructor; try done.
  - intros c Hc. destruct (H2 c Hc). split; [lia|done].
  - intros c Hc. specialize (H3 c Hc). lia.
  - intros Hmax. destruct H5 as [? Hid]; [lia|]. split; [done|]. intros c n Hc.
    destruct (Hid c n Hc). split; [lia|done].
Qed.

Lemma child_inv_started log f a who spec :
  child_inv None log f a -> child_inv (Some (f, 0%N)) ((who, ChildStarted spec f) :: log) (S f) a.
Proof.
  intros [H1 H2 H3 H4 H5]. constructor; log_facts.
  - intros c n [= <- <-]. split; [left; eauto|]. intros [?|Hg%H3]; [done|lia].
  - intros c [[? [= _ <-]]|Hc]; [split; [lia|right; eauto]|].
    destruct (H2 c Hc) as [? [?|[? [=]]]]. split; [lia|auto].
  - intros c [?|Hg%H3]; [done|lia].
  - intros c id [?|Hs]; [done|]. right. by eapply H4.
  - intros Hmax. destruct (H5 Hmax) as [Hnd _]. split; [exact Hnd|]. intros c n [= <- <-].
    split; [lia|]. intros id [?|Hs]; [done|]. apply H4 in Hs. apply H2 in Hs. lia.
Qed.

Lemma child_inv_gone c n log f a who :
  child_inv (Some (c, n)) log f a -> child_inv None ((who, ChildGone c) :: log) f a.
Proof.
  intros [H1 H2 H3 H4 H5]. constructor; log_facts; [done|..].
  - intros d [[? ?]|Hd]; [done|]. destruct (H2 d Hd) as [? [?|[m [= -> _]]]]; auto.
  - intros d [[= <-]|Hg]; [|by apply H3]. by apply H2, (H1 c n).
  - intros d id [?|Hs]; [done|]. right. by eapply H4.
  - intros Hmax. destruct (H5 Hmax) as [Hnd _]. by split.
Qed.

(** The current process takes a number, and is sent a request under it or not. *)
Lemma child_inv_numbered c n log f a :
  child_inv (Some (c, n)) log f a ->
  child_inv (Some (c, wrapping_add n 1)) log f (a + 1).
Proof.
  intros [H1 H2 H3 H4 H5]. constructor; try done.
  - intros d m [= <- _]. by eapply H1.
  - intros d Hd. destruct (H2 d Hd) as [? [?|[m [= <- _]]]]; eauto.
  - intros Hmax. destruct H5 as [Hnd Hid]; [lia|]. destruct (Hid c n eq_refl) as [Hn Hk].
    assert (wrapping_add n 1 = n + 1)%N as Hw by (apply wrapping_add_small; lia).
    rewrite Hw. split; [done|]. intros d m [= <- <-]. split; [lia|]. intros id Hs.
    destruct (Hk id Hs) as (k & ? & ->). exists k. split; [lia|done].
Qed.

Lemma child_inv_sent c n log f a who :
  child_inv (Some (c, n)) log f a ->
  child_inv (Some (c, wrapping_add n 1)) ((who, Sent c (display_u64 n)) :: log) f (a + 1).
Proof.
  intros Hi. destruct (child_inv_numbered _ _ _ _ _ Hi) as [N1 N2 N3 N4 N5].
  destruct Hi as [H1 H2 H3 H4 H5]. constructor; log_facts.
  - intros d m Heq. destruct (N1 d m Heq). split; [by right|]. by intros [?|?].
  - intros d [[? ?]|Hd]; [done|]. destruct (N2 d Hd) as [? [?|?]]; auto.
  - intros d [?|Hg]; [done|]. by apply N3.
  - intros d id [[= <- _]|Hs]; right; [by eapply H1|by eapply H4].
  - intros Hmax. destruct H5 as [Hnd Hid]; [lia|]. destruct (Hid c n eq_refl) as [Hn Hk].
    assert (wrapping_add n 1 = n + 1)%N as Hw by (apply wrapping_add_small; lia).
    split.
    + cbn. constructor; [|done]. rewrite elem_of_sends. intros (k & Hlt & He)%Hk.
      apply display_u64_inj in He. lia.
    + rewrite Hw. intros d m [= <- <-]. split; [lia|]. intros id [[= <-]|Hs]; [exists n; split; [lia|done]|].
      destruct (Hk id Hs) as (k & ? & ->). exists k. split; [lia|done].
Qed.

Lemma child_inv_took cur log f a who c id line :
  child_inv cur log f a -> child_inv cur ((who, Took c id line) :: log) f a.
Proof.
  intros [H1 H2 H3 H4 H5]. constructor; log_facts.
  - intros d n Heq. destruct (H1 d n Heq). split; [by right|]. by intros [?|?].
  - intros d [[? ?]|Hd]; [done|]. destruct (H2 d Hd) as [? [?|?]]; auto.
  - intros d [?|Hg]; [done|]. by apply H3.
  - intros d i [?|Hs]; [done|]. right. by eapply H4.
  - intros Hmax. destruct (H5 Hmax) as [Hnd Hid]. split; [done|]. intros d n Heq.
    destruct (Hid d n Heq) as [? Hk]. split; [done|]. intros i [?|Hs]; [done|]. by apply Hk.
Qed.

Lemma recorded_app who a b log : recorded who (a ++ b) log = recorded who b (recorded who a log).
Proof. unfold recorded. by rewrite map_app, rev_app_distr, <- app_assoc. Qed.

Lemma recorded_old who events log x : x ∈ log -> x ∈ recorded who events log.
Proof. intros Hx. unfold recorded. apply elem_of_app. by right. Qed.

Lemma child_inv_starting who i events j log f a :
  child_inv (current i) log f a -> starting f i events j ->
  child_inv (current j) (recorded who events log) (S f) a.
Proof.
  intros Hi Hst. destruct Hst as [i|spec i Hc Hn|spec|].
  - eapply child_inv_later; [exact Hi|lia|lia].
  - cbn. rewrite Hc, Hn. by apply child_inv_started.
  - eapply child_inv_gone. by apply child_inv_started.
  - eapply child_inv_later; [exact Hi|lia|lia].
Qed.

Lemma child_inv_exchanged who method c n events e log f a :
  child_inv (Some (c, n)) log f a -> exchanged method c (display_u64 n) events e ->
  child_inv (Some (c, wrapping_add n 1)) (recorded who events log) f (a + 1).
Proof.
  intros Hi Hx. destruct Hx.
  - by apply child_inv_numbered.
  - by apply child_inv_sent.
  - by apply child_inv_took, child_inv_sent.
Qed.

Lemma child_inv_reset who s s' events log f a :
  child_inv (current (pys_inner s)) log f a -> reset s = (s', events) ->
  child_inv (current (pys_inner s')) (recorded who events log) f a
  /\ forall c, started log c -> gone (recorded who events log) c.
Proof.
  unfold reset. destruct (pys_inner s) as [i|]; intros Hi [= <- <-].
  - split; [exact (child_inv_gone _ _ _ _ _ who Hi)|]. intros c Hc. cbn. apply gone_cons.
    destruct (ci_started _ _ _ _ Hi c Hc) as [_ [?|[n [= <- _]]]]; auto.
  - split; [done|]. intros c Hc. by destruct (ci_started _ _ _ _ Hi c Hc) as [_ [?|[n ?]]].
Qed.

(** ** Callers *)

(** The processes that were sent the request of caller [i]. *)
Definition children_of (i : nat) (log : pylog) : list nat :=
  omap (fun '(who, e) => match e with
                         | Sent c _ => if bool_decide (who = Some i) then Some c else None
                         | _ => None
                         end) log.

(** A value came out of a line that answered this caller's request. *)
Definition earned (i : nat) (method : string) (v : T) (log : pylog) : Prop :=
  exists c id line response,
    (Some i, Took c id line) ∈ log /\ py_decode_response line = Ok response
    /\ take_response method response = Ok v.

Definition caller_ok (log : pylog) (i : nat) (c : option (string * Value * rphase)) : Prop :=
  NoDup (children_of i log)
  /\ match c with
     | None | Some (_, _, Asking) => children_of i log = []
     | Some (_, _, Resetting _) => (length (children_of i log) <= 1)%nat
     | Some (_, _, Retrying) =>
         (length (children_of i log) <= 1)%nat /\ Forall (gone log) (children_of i log)
     | Some (method, _, (Marking v | Finished (Ok v))) =>
         (length (children_of i log) <= 2)%nat /\ earned i method v log
     | Some (_, _, (Finished (Err _) | Departed)) => (length (children_of i log) <= 2)%nat
     end.

(** Every answer taken is to the request that went out under its id, for the same caller. *)
Definition took_ok (log : pylog) : Prop :=
  forall who c id line, (who, Took c id line) ∈ log ->
    (who, Sent c id) ∈ log
    /\ exists response, py_decode_response line = Ok response /\ sp_id response = Some id.

Record life_inv (s : pystate) : Prop := {
  li_children : child_inv (current (pys_inner (py_server s))) (py_log s) (py_children s) (py_asked s);
  li_took : took_ok (py_log s);
  li_callers i : caller_ok (py_log s) i (py_callers s !! i)
}.

(** What is recorded for others leaves a caller as it was. *)
Lemma children_of_others i who events log :
  who <> Some i -> children_of i (recorded who events log) = children_of i log.
Proof.
  intros Hne. unfold recorded, children_of. rewrite omap_app. rewrite <- (app_nil_l (omap _ log)) at 2.
  f_equal. induction events as [|e events IH]; cbn; [done|]. rewrite omap_app, IH. cbn.
  destruct e; cbn; try done. by rewrite bool_decide_false.
Qed.

Lemma gone_later who events log c : gone log c -> gone (recorded who events log) c.
Proof. intros [w ?]. exists w. by apply recorded_old. Qed.

Lemma earned_later i method v who events log :
  earned i method v log -> earned i method v (recorded who events log).
Proof. intros (c & id & line & r & ? & ? & ?). exists c, id, line, r. split; [by apply recorded_old|done]. Qed.

Lemma caller_ok_same log who events i c :
  caller_ok log i c -> children_of i (recorded who events log) = children_of i log ->
  caller_ok (recorded who events log) i c.
Proof.
  intros [Hnd Hc] Heq. unfold caller_ok. rewrite Heq. split; [done|].
  destruct c as [[[m p] ph]|]; [|done]. destruct ph as [|e| |v|[v|e]|]; try done.
  - destruct Hc as [? Hg]. split; [done|]. eapply Forall_impl; [exact Hg|]. intros ?. apply gone_later.
  - destruct Hc. split; [done|]. by apply earned_later.
  - destruct Hc. split; [done|]. by apply earned_later.
Qed.

Lemma took_ok_recorded who events log :
  took_ok log -> (forall c id line, Took c id line ∉ events) -> took_ok (recorded who events log).
Proof.
  intros Ht Hno w c id line Hin. unfold recorded in Hin. apply elem_of_app in Hin as [Hin|Hin].
  - exfalso. rewrite list_elem_of_In, <- in_rev, in_map_iff in Hin.
    destruct Hin as (e & [= <- ->] & Hin). by apply (Hno c id line), list_elem_of_In.
  - destruct (Ht _ _ _ _ Hin) as [? ?]. split; [by apply recorded_old|done].
Qed.

Lemma starting_sends_nothing f i events j who k log :
  starting f i events j ->
  children_of k (recorded who events log) = children_of k log
  /\ (took_ok log -> took_ok (recorded who events log)).
Proof.
  intros Hst. destruct Hst; (split; [done|]); intros Ht; apply took_ok_recorded; try done;
    intros c id line Hin; repeat (apply elem_of_cons in Hin as [?|Hin]; [done|]);
    by apply elem_of_nil in Hin.
Qed.

Lemma children_of_sent i c id log :
  children_of i ((Some i, Sent c id) :: log) = c :: children_of i log.
Proof. unfold children_of. cbn. by rewrite bool_decide_true. Qed.

(** What one exchange adds for its caller. *)
Lemma exchanged_records i method c id events e log :
  exchanged method c id events e -> took_ok log ->
  took_ok (recorded (Some i) events log)
  /\ (children_of i (recorded (Some i) events log) = children_of i log
      \/ children_of i (recorded (Some i) events log) = c :: children_of i log)
  /\ forall v, e = Answered (Ok v) -> earned i method v (recorded (Some i) events log).
Proof.
  intros Hx Ht. destruct Hx as [e Hno|e Hno|line response Hd Hid].
  - split_and!; [done|by left|]. intros v ->. by destruct (Hno v).
  - split_and!; [|right; apply children_of_sent|intros v ->; by destruct (Hno v)].
    apply took_ok_recorded; [done|]. intros d k line Hin.
    apply elem_of_cons in Hin as [?|Hin]; [done|]. by apply elem_of_nil in Hin.
  - split_and!.
    + intros who d k l [[= -> -> -> ->]|Hin]%elem_of_cons.
      * split; [by right; left|eauto].
      * apply elem_of_cons in Hin as [?|Hin]; [done|]. destruct (Ht _ _ _ _ Hin). split; [|done].
        by right; right.
    + right. apply (children_of_sent i c id log).
    + intros v Hv. exists c, id, line, response. split; [by left|]. split; [done|].
      by injection Hv.
Qed.

(** One attempt: the process it reaches, if it reaches one, is not gone before. *)
Lemma attempt_spec sys method params now s e server events later i :
  life_inv s -> sy_fresh sys = py_children s ->
  request_once sys method params now (py_server s) = (e, server, events, later) ->
  let log := recorded (Some i) events (py_log s) in
  child_inv (current (pys_inner server)) log (S (py_children s)) (py_asked s + 1)
  /\ took_ok log
  /\ (children_of i log = children_of i (py_log s)
      \/ exists c, children_of i log = c :: children_of i (py_log s) /\ ~ gone (py_log s) c)
  /\ forall v, e = Answered (Ok v) -> earned i method v log.
Proof.
  intros [Hc Ht _] Hf Hr. apply request_once_spec in Hr as (first & second & middle & -> & Hst & Hm).
  rewrite Hf in Hst. cbv zeta. rewrite recorded_app. set (log := recorded (Some i) first (py_log s)).
  apply (child_inv_starting (Some i) _ _ _ _ _ _ Hc) in Hst as Hc1.
  destruct (starting_sends_nothing _ _ _ _ (Some i) i (py_log s) Hst) as [Hch Ht1].
  specialize (Ht1 Ht). fold log in Hc1, Hch, Ht1. destruct middle as [inner|].
  - destruct Hm as (inner' & Hs & Heq & Hn & Hx). rewrite Hs. cbn [current fmap option_fmap option_map].
    rewrite Heq, Hn. destruct (exchanged_records i _ _ _ _ _ log Hx Ht1) as (Ht2 & Hch2 & He).
    split_and!; [by eapply child_inv_exchanged|done| |done]. rewrite <- Hch.
    destruct Hch2 as [?|?]; [by left|right]. exists (in_child inner). split; [done|].
    intros Hg. destruct (ci_current _ _ _ _ Hc1 _ _ eq_refl) as [_ []]. by apply gone_later.
  - destruct Hm as (-> & Hs & Hno). rewrite Hs. split_and!.
    + eapply child_inv_later; [exact Hc1|lia|lia].
    + done.
    + by left.
    + intros v ->. by destruct (Hno v).
Qed.

Lemma attempt_inv s t i method params ph next :
  life_inv s -> py_callers s !! i = Some (method, params, ph) ->
  attempt_leads i method params next s t ->
  Forall (gone (py_log s)) (children_of i (py_log s)) ->
  (forall e log, NoDup (children_of i log) -> e <> Stuck ->
     (length (children_of i log) <= S (length (children_of i (py_log s))))%nat ->
     (forall v, e = Answered (Ok v) -> earned i method v log) ->
     caller_ok log i (Some (method, params, next e))) ->
  life_inv t.
Proof.
  intros Hinv Hi (sys & now & e & server & events & later & Hf & Hr & Hns & ->) Hgone Hnext.
  destruct (attempt_spec _ _ _ _ _ _ _ _ _ i Hinv Hf Hr) as (Hc & Ht & Hch & He).
  constructor; cbn [py_server py_callers py_log py_children py_asked]; [done|done|].
  intros j. destruct (decide (j = i)) as [->|Hne].
  - rewrite lookup_insert_eq. destruct (li_callers _ Hinv i) as [Hnd _]. apply Hnext; [|done| |done].
    + destruct Hch as [->|(c & -> & Hno)]; [done|]. constructor; [|done]. intros Hin.
      rewrite Forall_forall in Hgone. by apply Hno, Hgone.
    + destruct Hch as [->|(c & -> & _)]; cbn; lia.
  - rewrite lookup_insert_ne by done. apply caller_ok_same; [apply (li_callers _ Hinv)|].
    apply children_of_others. congruence.
Qed.

(** A turn that sends nothing and moves one caller, or none. *)
Lemma move_inv s i c server who events :
  life_inv s ->
  child_inv (current (pys_inner server)) (recorded who events (py_log s)) (py_children s) (py_asked s) ->
  Forall (fun e => match e with ChildGone _ => True | _ => False end) events ->
  (forall j, children_of j (recorded who events (py_log s)) = children_of j (py_log s)) ->
  caller_ok (recorded who events (py_log s)) i (Some c) ->
  life_inv (move i c server who events s).
Proof.
  intros [H1 H2 H3] Hc Hev Hch Hi. constructor; cbn [py_server py_callers py_log py_children py_asked move]; [done| |].
  - apply took_ok_recorded; [done|]. intros d id line Hin. rewrite Forall_forall in Hev. by apply Hev in Hin.
  - intros j. destruct (decide (j = i)) as [->|Hne]; [by rewrite lookup_insert_eq|].
    rewrite lookup_insert_ne by done. apply caller_ok_same; [apply H3|done].
Qed.

Lemma reset_sends_nothing s s' events who log j :
  reset s = (s', events) ->
  children_of j (recorded who events log) = children_of j log
  /\ Forall (fun e => match e with ChildGone _ => True | _ => False end) events.
Proof. unfold reset. destruct (pys_inner s); intros [= _ <-]; split; [done|by repeat constructor|done|constructor]. Qed.

Lemma pyinitial_inv s : pyinitial s -> life_inv s.
Proof.
  intros [now ->]. constructor; cbn.
  - constructor; cbn.
    + done.
    + intros c (w & spec & Hin). by apply elem_of_nil in Hin.
    + intros c (w & Hin). by apply elem_of_nil in Hin.
    + intros c id (w & Hin). by apply elem_of_nil in Hin.
    + intros _. split; [constructor|done].
  - intros w c id line Hin. by apply elem_of_nil in Hin.
  - intros i. rewrite lookup_empty. split; [constructor|done].
Qed.

Lemma pystep_inv s t : life_inv s -> pystep s t -> life_inv t.
Proof.
  intros Hinv Hstep. pose proof (li_children _ Hinv) as Hch.
  destruct Hstep as [i m p Hi|i m p t Hi Ha|i m p e server events Hi Hr|i m p t Hi Ha|i m p v now Hi
    |i m p ph Hi Hf|sys now e server events later Hf Hs|server events Hr];
    try pose proof (li_callers _ Hinv i) as Hci; try rewrite Hi in Hci.
  - apply move_inv; [done|done|constructor|done|]. cbn. by split; [rewrite (proj2 Hci); constructor|apply Hci].
  - eapply attempt_inv; [done|exact Hi|exact Ha| |]; destruct Hci as [_ Hci]; rewrite Hci; [constructor|].
    intros e log Hnd Hns Hlen He. split; [done|]. cbn in Hlen.
    destruct e as [[v|e]| |]; cbn; [split; [lia|by apply He]|lia|lia|done].
  - destruct (reset_sends_nothing _ _ _ (Some i) (py_log s) i Hr) as [Hs Hg].
    destruct (child_inv_reset (Some i) _ _ _ _ _ _ Hch Hr) as [Hc Hall].
    apply move_inv; [done|done|done|intros j; by eapply reset_sends_nothing|].
    destruct Hci as [Hnd Hlen]. unfold caller_ok. rewrite Hs. split_and!; [done|done|].
    rewrite Forall_forall. intros c Hin. apply Hall. unfold children_of in Hin.
    apply list_elem_of_omap in Hin as ([w e0] & Hin & He). destruct e0 as [| |d id|]; try done.
    case_bool_decide; simplify_eq. apply (ci_sent _ _ _ _ Hch c id). by exists (Some i).
  - destruct Hci as [_ [Hlen Hg]]. eapply attempt_inv; [done|exact Hi|exact Ha|exact Hg|].
    intros e log Hnd Hns Hle He. split; [done|].
    destruct e as [[v|e]| |]; cbn; [split; [lia|by apply He]|lia|lia|done].
  - apply move_inv; [done|done|constructor|done|]. exact Hci.
  - apply move_inv; [done|done|constructor|done|]. cbn. split; [apply Hci|]. destruct Hci as [_ Hci].
    destruct ph as [|e| |v|r|]; [rewrite Hci; cbn; lia|lia|lia|lia|by destruct (Hf r)|done].
  - apply server_start_spec in Hs. rewrite Hf in Hs. constructor; cbn [py_server py_callers py_log py_children py_asked].
    + by eapply child_inv_starting.
    + by apply (starting_sends_nothing _ _ _ _ None 0 _ Hs), (li_took _ Hinv).
    + intros j. apply caller_ok_same; [apply (li_callers _ Hinv)|]. by eapply starting_sends_nothing.
  - destruct (child_inv_reset None _ _ _ _ _ _ Hch Hr) as [Hc _].
    constructor; cbn [py_server py_callers py_log py_children py_asked]; [done| |].
    + apply took_ok_recorded; [apply (li_took _ Hinv)|]. intros c id line Hin.
      destruct (reset_sends_nothing _ _ _ None (py_log s) 0 Hr) as [_ Hg].
      rewrite Forall_forall in Hg. by apply Hg in Hin.
    + intros j. apply caller_ok_same; [apply (li_callers _ Hinv)|]. by eapply reset_sends_nothing.
Qed.

Lemma reachable_life_inv s : pyreachable s -> life_inv s.
Proof.
  intros Hs. apply (reachable_invariant pyinitial pystep); [apply pyinitial_inv|apply pystep_inv|done].
Qed.

Lemma omap_NoDup_inj {A B} (f : A -> option B) l x y b :
  NoDup (omap f l) -> x ∈ l -> y ∈ l -> f x = Some b -> f y = Some b -> x = y.
Proof.
  induction l as [|a l IH]; cbn; [by intros _ ?%elem_of_nil|].
  intros Hnd Hx Hy Hfx Hfy. apply elem_of_cons in Hx as [->|Hx], Hy as [->|Hy]; try done.
  - rewrite Hfx in Hnd. apply NoDup_cons in Hnd as [Hno _]. exfalso. apply Hno.
    apply list_elem_of_omap. eauto.
  - rewrite Hfy in Hnd. apply NoDup_cons in Hnd as [Hno _]. exfalso. apply Hno.
    apply list_elem_of_omap. eauto.
  - apply IH; try done. destruct (f a); [by apply NoDup_cons in Hnd as [_ ?]|done].
Qed.

(** C27. There is one server process at a time: whatever callers do and wherever they go
    away, every process that was started is gone, except the one the server holds, and
    that one is not. *)
Theorem one_server_process (s : pystate) (c : nat) :
  pyreachable s ->
  (started (py_log s) c -> gone (py_log s) c \/ in_child <$> pys_inner (py_server s) = Some c)
  /\ (in_child <$> pys_inner (py_server s) = Some c ->
      started (py_log s) c /\ ~ gone (py_log s) c).
Proof.
  intros [Hc _ _]%reachable_life_inv. split.
  - intros Hs. destruct (ci_started _ _ _ _ Hc c Hs) as [_ [?|[n Hn]]]; [by left|right].
    destruct (pys_inner _); [|done]. by injection Hn as <- _.
  - destruct (pys_inner (py_server s)) as [i|]; [|done]. intros [= <-].
    by apply (ci_current _ _ _ _ Hc _ (in_next_id i)).
Qed.

(** C25. A reply never answers another request: as long as fewer than 2^64 requests were
    made, every line a caller takes for its answer names the id its own request was
    sent under, and no other request was ever sent to that process under that id, also
    not one whose caller went away before its answer came; and a caller that ends with
    a value got it from such a line. *)
Theorem reply_answers_its_own_request (s : pystate) :
  pyreachable s -> (py_asked s <= u64_max)%N ->
  (forall who c id line, (who, Took c id line) ∈ py_log s ->
     (who, Sent c id) ∈ py_log s
     /\ (forall other, (other, Sent c id) ∈ py_log s -> other = who)
     /\ exists response, py_decode_response line = Ok response /\ sp_id response = Some id)
  /\ forall i method params v,
     py_callers s !! i = Some (method, params, Finished (Ok v)) -> earned i method v (py_log s).
Proof.
  intros [Hc Ht Hcs]%reachable_life_inv Hmax. destruct (ci_ids _ _ _ _ Hc Hmax) as [Hnd _]. split.
  - intros who c id line Hin. destruct (Ht _ _ _ _ Hin) as [Hs Hr]. split_and!; [done| |done].
    intros other Ho.
    pose proof (omap_NoDup_inj _ _ (who, Sent c id) (other, Sent c id) (c, id) Hnd Hs Ho
                  eq_refl eq_refl) as Heq. by injection Heq.
  - intros i m p v Hi. specialize (Hcs i). rewrite Hi in Hcs. apply Hcs.
Qed.

(** C26. A request is sent at most twice, and the second time to another process than the
    one that failed it. *)
Theorem request_is_retried_elsewhere (s : pystate) (i : nat) :
  pyreachable s ->
  (length (children_of i (py_log s)) <= 2)%nat /\ NoDup (children_of i (py_log s)).
Proof.
  intros [_ _ Hcs]%reachable_life_inv. destruct (Hcs i) as [Hnd Hlen]. split; [|done].
  destruct (py_callers s !! i) as [[[m p] [|e| |v|[v|e]|]]|]; rewrite ?Hlen; cbn; lia.
Qed.

(** ** Time *)

(** When the [k]-th line is waited for, if all the lines before it came. *)
Fixpoint clock (o : output) (now : N) (k : nat) : N :=
  match k with
  | O => now
  | S k => N.max (clock o now k) (default 0 (ar_at <$> o k))%N
  end.

(** A line that is not a reply to [id]. *)
Definition unrelated (id line : string) : Prop :=
  match py_decode_response line with Ok response => sp_id response <> Some id | Err _ => True end.

(** The [k]-th line keeps the loop going: it is unrelated, it comes within its own timeout,
    and the caller has not gone by then. *)
Definition talks (wait : N) (drop : option N) (id : string) (o : output) (now : N) (k : nat) : Prop :=
  match o k with
  | Some (MkArrival at' (DLine line)) =>
      (at' <= clock o now k + wait)%N /\ (forall d, drop = Some d -> (clock o now (S k) <= d)%N)
      /\ unrelated id line
  | _ => False
  end.

Lemma clock_past o now k : clock (past 1 o) (clock o now 1) k = clock o now (S k).
Proof. induction k as [|k IH]; [done|]. cbn [clock] in *. by rewrite IH. Qed.

Lemma talks_past wait d id o now k :
  talks wait d id (past 1 o) (clock o now 1) k <-> talks wait d id o now (S k).
Proof. unfold talks. rewrite !clock_past. done. Qed.

(** A wait ends with the line, with the timeout, or with the caller. *)
Lemma wait_line_cases wait d now next :
  match wait_line wait d now next with
  | (Some (Arrived _ what _), t) =>
      exists a, next = Some a /\ ar_what a = what /\ t = N.max now (ar_at a)
      /\ (ar_at a <= now + wait)%N /\ forall d', d = Some d' -> (t <= d')%N
  | (_, t) =>
      (now <= t <= now + wait)%N
      /\ forall a, next = Some a -> (ar_at a <= now + wait)%N -> exists d', d = Some d' /\ (d' < N.max now (ar_at a))%N
  end.
Proof.
  unfold wait_line, next_line. destruct next as [a|]; cbn.
  2:{ destruct d as [d|]; [destruct (N.ltb_spec d (N.max now (now + wait)))|]; (split; [lia|done]). }
  destruct (N.leb_spec (ar_at a) now), (N.leb_spec (ar_at a) (now + wait)); try lia.
  all: destruct d as [d|]; [match goal with |- context [(d <? ?t)%N] => destruct (N.ltb_spec d t) end|].
  all: cbn; try (exists a; split_and!; [done|done|lia|lia|]; intros ? [=]; lia).
  all: split; [lia|]; intros ? [= <-] ?; try lia. all: exists d; split; [done|lia].
Qed.

(** A turn of the loop: a line that keeps it going, or its end. *)
Lemma read_loop_turn wait d c id method o now :
  (talks wait d id o now 0 /\ (clock o now 1 <= now + wait)%N
   /\ forall n, read_loop (S n) wait d c id method o now
                = read_loop n wait d c id method (past 1 o) (clock o now 1))
  \/ (~ talks wait d id o now 0
      /\ exists e used ev t, e <> Stuck /\ (used <= 1)%nat /\ (t <= now + wait)%N
         /\ forall n, read_loop (S n) wait d c id method o now = (e, past used o, ev, t)).
Proof.
  pose proof (wait_line_cases wait d now (o 0%nat)) as Hw. unfold talks, unrelated. cbn [read_loop clock].
  destruct (wait_line wait d now (o 0%nat)) as [[[? what ?|?|]|] t].
  2-4: right; destruct Hw as [Ht Hlate]; split; [|eexists _, 0%nat, _, _; split_and!; cycle 3; [intros n; reflexivity|done|lia|apply Ht]].
  2-4: destruct (o 0%nat) as [[at' [line| |]]|]; intros Htalks; try done; destruct Htalks as (Hin & Hdrop & _);
    destruct (Hlate _ eq_refl Hin) as (d' & -> & Hd); specialize (Hdrop d' eq_refl); cbn in *; lia.
  destruct Hw as ([at' what'] & -> & <- & Ht & Hin & Hd). cbn in *. subst t.
  destruct what' as [line| |error].
  2-3: right; split; [intros []|]; eexists _, 1%nat, _, _; split_and!; cycle 3; [intros n; reflexivity|done|lia|lia].
  destruct (py_decode_response line) as [response|].
  2:{ left. split_and!; [done..|lia|done]. }
  case_bool_decide as Hid; cbn [negb].
  - right. split; [by intros (_ & _ & Hother)|]. eexists _, 1%nat, _, _. split_and!; cycle 3; [intros n; reflexivity|done|lia|lia].
  - left. split_and!; [done..|lia|done].
Qed.

Lemma read_loop_stuck wait d c id method turns o now :
  (read_loop turns wait d c id method o now).1.1.1 = Stuck
  <-> forall k, (k < turns)%nat -> talks wait d id o now k.
Proof.
  revert o now. induction turns as [|turns IH]; intros o now; [split; [lia|done]|].
  destruct (read_loop_turn wait d c id method o now) as [(H1 & _ & ->)|(H1 & e & used & ev & t & He & _ & _ & ->)].
  - rewrite IH. setoid_rewrite talks_past. split.
    + intros Hk [|k] Hlt; [done|]. apply Hk. lia.
    + intros Hk k Hlt. apply Hk. lia.
  - split; [done|]. intros Hk. destruct H1. apply Hk. lia.
Qed.

Lemma read_loop_ends wait d c id method turns o now e rest ev t :
  read_loop turns wait d c id method o now = (e, rest, ev, t) -> e <> Stuck ->
  (forall m, (turns <= m)%nat -> read_loop m wait d c id method o now = (e, rest, ev, t))
  /\ exists used, (used <= turns)%nat /\ rest = past used o /\ (t <= now + (N.of_nat used + 1) * wait)%N.
Proof.
  revert o now. induction turns as [|turns IH]; intros o now; [by intros [= <- _ _ _]|].
  destruct (read_loop_turn wait d c id method o now)
    as [(H1 & Hc & Hstep)|(H1 & e0 & used & ev0 & t0 & He & Hu & Ht & Hstep)]; rewrite Hstep.
  - intros Hr Hne. destruct (IH _ _ Hr Hne) as [Hmore (used & Hu & -> & Ht)]. split.
    + intros [|m] Hm; [lia|]. rewrite Hstep. apply Hmore. lia.
    + exists (S used). split_and!; [lia|done|lia].
  - intros [= <- <- <- <-] _. split.
    + intros [|m] Hm; [lia|]. apply Hstep.
    + exists used. split_and!; [lia|done|nia].
Qed.

Definition with_turns (n : nat) (sys : py_system) : py_system :=
  MkPySystem (sy_fresh sys) (sy_process sys) (sy_write sys) (sy_takes sys) (sy_drop sys) n.

(** How and when the write of the request ends, if there is one. *)
Definition sending (sys : py_system) (method : string) (params : Value) (now : N) (i : Inner)
  : option (pipe_write * N) :=
  match py_encode (MkServerRequest (display_u64 (in_next_id i)) method params) with
  | Ok encoded => Some (write_ends sys now (String.length encoded))
  | Err _ => None
  end.

(** The process stopped reading its input, and the caller does not give up. *)
Definition unread (sys : py_system) (method : string) (params : Value) (now : N) (i : Inner) : Prop :=
  sy_drop sys = None /\ exists sent wrote, sending sys method params now i = Some (Blocked sent, wrote).

(** The process read the request, and the first [n] lines it writes keep the loop going. *)
Definition talking (sys : py_system) (wait : N) (method : string) (params : Value) (now : N)
    (i : Inner) (n : nat) : Prop :=
  exists wrote, sending sys method params now i = Some (Written, wrote)
  /\ forall k, (k < n)%nat -> talks wait (sy_drop sys) (display_u64 (in_next_id i)) (in_stdout i) wrote k.

(** C29. An exchange ends unless one of two things holds. One: the process stops reading
    its input and the caller does not give up. The other: the process goes on writing
    lines that answer something else, each within a request timeout of the one before and
    all before the caller goes, since each line gets a timeout of its own; followed for
    [n] lines, the loop is unfinished exactly when the first [n] are such lines, so it
    goes on for ever exactly when all are, and a process that falls silent ends it. When
    it ends it does so for good, with the lines it read taken off the process's output,
    within the time of the write and one timeout for each line it read and one more, or
    when the caller goes. *)
Theorem exchange_is_bounded (sys : py_system) (wait : N) (method : string) (params : Value)
    (now : N) (i : Inner) :
  let answer n := exchange (with_turns n sys) wait method params now i in
  (forall n, (answer n).1.1.1 = Stuck
             <-> unread sys method params now i \/ talking sys wait method params now i n)
  /\ (forall n, in_stdout i n = None -> (answer (S n)).1.1.1 = Stuck -> unread sys method params now i)
  /\ (forall n, (answer n).1.1.1 <> Stuck ->
       let '(_, i', _, t) := answer n in
       (forall m, (n <= m)%nat -> answer m = answer n)
       /\ exists used, (used <= n)%nat /\ in_stdout i' = past used (in_stdout i)
          /\ (t <= N.max (default 0 (sy_drop sys)) (now + sy_takes sys + (N.of_nat used + 1) * wait))%N).
Proof.
  cbn zeta.
  assert (forall n, (exchange (with_turns n sys) wait method params now i).1.1.1 = Stuck
             <-> unread sys method params now i \/ talking sys wait method params now i n) as Hstuck.
  { intros n. unfold exchange, unread, talking, sending. cbn [with_turns sy_drop sy_turns].
    change (write_ends (with_turns n sys)) with (write_ends sys).
    destruct (py_encode _) as [encoded|]; [|split; [done|]; intros [(_ & ? & ? & [=])|(? & [=] & _)]].
    destruct (write_ends sys now (String.length encoded)) as [[|error sent|error|sent] wrote].
    - pose proof (read_loop_stuck wait (sy_drop sys) (in_child i) (display_u64 (in_next_id i)) method n
                    (in_stdout i) wrote) as Hr.
      cbn [inner_sent inner_numbered in_stdout in_child].
      destruct (read_loop _ _ _ _ _ _ _ _) as [[[e rest] ev] t]. cbn in *. rewrite Hr. split; [eauto|].
      intros [(_ & ? & ? & [=])|(? & [= <-] & ?)]; done.
    - split; [done|]. intros [(_ & ? & ? & [=])|(? & [=] & _)].
    - split; [done|]. intros [(_ & ? & ? & [=])|(? & [=] & _)].
    - cbn. destruct (sy_drop sys); split; [done| |eauto|done]. intros [([=] & _)|(? & [=] & _)]. }
  split_and!; [exact Hstuck| |].
  - intros n Hn [?|(wrote & _ & Hk)]%Hstuck; [done|]. specialize (Hk n (Nat.lt_succ_diag_r n)).
    unfold talks in Hk. by rewrite Hn in Hk.
  - clear Hstuck. intros n. unfold exchange. cbn [with_turns sy_drop sy_turns].
    change (write_ends (with_turns n sys)) with (write_ends sys).
    destruct (py_encode _) as [encoded|]; [|by intros _; split; [done|]; exists 0%nat; split_and!; [lia|done|lia]].
    destruct (write_ends sys now (String.length encoded)) as [write wrote] eqn:Hw.
    assert (forall m, write_ends (with_turns m sys) now (String.length encoded) = (write, wrote)) as Hwm by done.
    assert (wrote <= now + sy_takes sys)%N as Hle.
    { revert Hw. unfold write_ends. destruct (sy_drop sys) as [d|]; [destruct (_ <? _)%N|]; intros [= _ <-]; lia. }
    destruct write as [|error sent|error|sent]; cbn [inner_sent inner_numbered in_stdout in_child].
    2-3: intros _; split; [intros m _; by rewrite Hwm|]; exists 0%nat; split_and!; [lia|done|lia].
    2:{ intros _. destruct (sy_drop sys) as [d|]; (split; [intros m _; by rewrite Hwm|]); exists 0%nat; cbn;
          (split_and!; [lia|done|lia]). }
    destruct (read_loop n _ _ _ _ _ _ _) as [[[e rest] ev] t] eqn:Hr. cbn. intros Hne.
    destruct (read_loop_ends _ _ _ _ _ _ _ _ _ _ _ _ Hr Hne) as [Hmore (used & Hu & -> & Ht)]. split.
    + intros m Hm. rewrite Hwm. by rewrite (Hmore m Hm).
    + exists used. split_and!; [done|done|lia].
Qed.

End Life.

(** ** The properties at work *)

Section Samples.

Definition py_sample_value : JsonValue := {| Value := string; Value_eq_dec := _ |}.
#[local] Existing Instance py_sample_value.

(** A reply is the id it answers, and its value is that id. *)
Definition py_sample_json : PyJson string := {|
  py_encode message := Ok (sr_id message +:+ " " +:+ sr_method message);
  py_decode_ready line :=
    if String.eqb line "ready" then Ok (MkReadyLine true (Some 1%N) ["nlp"] None) else Err "expected value";
  py_decode_response line :=
    if String.eqb line "junk" then Err "expected value"
    else Ok (MkServerResponse (Some line) true (Some (line : Value)) None);
  py_null := "" : Value;
  py_from_value v := Ok (v : string)
|}.
#[local] Existing Instance py_sample_json.

Let launch := ServerLaunch_new (Path_new "/opt/python") (Path_new "/run/server.py") ["nlp"] [].
Let system (fresh : nat) (stream : list arrival) (write : pipe_write) (drop : option N) :=
  MkPySystem fresh (fun _ => Ok (MkPipes true true (written stream))) write 0 drop 10.

(** The first process dies under the request, the second answers it. *)
Let dies := system 0 [MkArrival 1 (DLine "ready"); MkArrival 2 DClosed] Written None.
Let serves := system 1 [MkArrival 3 (DLine "ready"); MkArrival 4 (DLine "junk"); MkArrival 5 (DLine "0")]
                Written None.

Example request_is_retried :
  let '(e, s, events, t) := request dies serves "run" ("x" : Value) 0 (PythonServer_new launch 0) in
  e = Answered (Ok "0") /\ t = 5%N /\ length events = 6%nat
  /\ match events with ChildStarted _ 0 :: Sent 0 "0" :: ChildGone 0 :: _ => True | _ => False end.
Proof. vm_compute. done. Qed.

(** A timeout runs from line to line: a process that writes something else every fifty
    seconds keeps a request of sixty seconds at most going for two hundred. *)
Example unrelated_lines_prolong_a_request :
  let chatter := map (fun at' => MkArrival at' (DLine "junk")) [50000; 100000; 150000; 200000]%N in
  let i := MkInner 0 "" (written (chatter ++ [MkArrival 250000 (DLine "0")])) 0 ["nlp"] in
  let '(e, _, _, t) := exchange (T := string) (system 1 [] Written None) DEFAULT_REQUEST_TIMEOUT "run" ("x" : Value) 0 i in
  e = Answered (Ok "0") /\ t = 250000%N.
Proof. vm_compute. done. Qed.

(** A caller that goes away while it writes leaves half a line behind, and the next
    request is written after it. *)
Example abandoned_writes_run_together :
  let i := MkInner 0 "" (written []) 0 ["nlp"] in
  let '(e, i, _, _) := exchange (T := string) (system 1 [] (Blocked 3) (Some 10%N)) 60000 "run" ("x" : Value) 0 i in
  let '(_, i, _, _) := exchange (T := string) (system 1 [] Written None) 60000 "run" ("x" : Value) 20 i in
  e = Abandoned /\ in_received i = "0 r1 run" +:+ newline.
Proof. vm_compute. done. Qed.

Let x : Value := "x".

(** A reply after two other lines; and a process that says something else every minute. *)
Let answering := MkInner 0 "" (written (map (fun at' => MkArrival at' (DLine "junk")) [50000; 100000]%N
                                  ++ [MkArrival 150000 (DLine "0")])) 0 ["nlp"].
Let chatting := MkInner 0 "" (fun k => Some (MkArrival (60000 * (N.of_nat k + 1)) (DLine "junk"))) 0 ["nlp"].
Let prompt := system 1 [] Written None.

Lemma chatting_clock k : clock (in_stdout chatting) 0 k = (60000 * N.of_nat k)%N.
Proof. induction k as [|k IH]; [done|]. cbn [clock]. rewrite IH. cbn -[N.mul N.of_nat]. lia. Qed.

Lemma exchange_is_bounded_witness :
  (exists used, (used <= 3)%nat
     /\ (150000 <= N.max 0 (0 + 0 + (N.of_nat used + 1) * DEFAULT_REQUEST_TIMEOUT))%N)
  /\ forall n, (exchange (T := string) (with_turns n prompt) DEFAULT_REQUEST_TIMEOUT "run" x 0 chatting).1.1.1 = Stuck.
Proof.
  split.
  - destruct (exchange_is_bounded prompt DEFAULT_REQUEST_TIMEOUT "run" x 0 answering) as (_ & _ & H3).
    specialize (H3 3%nat). vm_compute (exchange _ _ _ _ _ _) in H3.
    destruct H3 as [_ (used & Hu & _ & Ht)]; [discriminate|]. by exists used.
  - intros n. apply (exchange_is_bounded prompt DEFAULT_REQUEST_TIMEOUT "run" x 0 chatting). right.
    exists 0%N. split; [reflexivity|]. intros k _. unfold talks. cbn [in_stdout chatting].
    split_and!; [rewrite chatting_clock; unfold DEFAULT_REQUEST_TIMEOUT; lia|done|exact I].
Defined.

(** The state after an attempt of caller 0. *)
Let attempted (sys : py_system) (next : ended (result PyError string) -> rphase (T := string))
    (s : pystate (T := string)) : pystate (T := string) :=
  let '(e, server, events, _) := request_once sys "run" x 0 (py_server s) in
  MkPyState server (<[0%nat := ("run", x, next e)]> (py_callers s))
    (recorded (Some 0%nat) events (py_log s)) (S (py_children s)) (py_asked s + 1).

Let s0 : pystate (T := string) := MkPyState (PythonServer_new launch 0) ∅ [] 0 0.
Let arrived := move 0 ("run", x, Asking) (py_server s0) None [] s0.
Let failed := attempted dies after_ask arrived.
Let restarted := move 0 ("run", x, Retrying) (reset (py_server failed)).1 (Some 0%nat)
                   (reset (py_server failed)).2 failed.
Let served := attempted serves after_retry restarted.
Let finished := move 0 ("run", x, Finished (Ok "0")) (mark_used 5 (py_server served)) None [] served.

Lemma attempted_leads sys next s :
  sy_fresh sys = py_children s ->
  (request_once (T := string) sys "run" x 0 (py_server s)).1.1.1 <> Stuck ->
  attempt_leads 0 "run" x next s (attempted sys next s).
Proof.
  intros Hf Hne. unfold attempted.
  destruct (request_once _ _ _ _ _) as [[[e server] events] later] eqn:E.
  exists sys, 0%N, e, server, events, later. done.
Defined.

Lemma finished_reachable : pyreachable launch finished.
Proof.
  apply (reachable_step _ _ served); [apply (reachable_step _ _ restarted); [apply (reachable_step _ _ failed);
    [apply (reachable_step _ _ arrived); [apply (reachable_step _ _ s0)|]|]|]|].
  - apply reachable_init. by exists 0%N.
  - by apply (Arrives s0 0 "run" x).
  - apply (Asks arrived 0 "run" x); [done|]. apply attempted_leads; [done|by vm_compute].
  - apply (Resets failed 0 "run" x PyClosed); [vm_compute; reflexivity|apply surjective_pairing].
  - apply (Retries restarted 0 "run" x); [vm_compute; reflexivity|].
    apply attempted_leads; [vm_compute; reflexivity|by vm_compute].
  - apply (Marks served 0 "run" x). vm_compute. reflexivity.
Defined.

Lemma one_server_process_witness :
  in_child <$> pys_inner (py_server finished) = Some 1%nat
  /\ started (py_log finished) 1%nat /\ ~ gone (py_log finished) 1%nat.
Proof.
  split; [vm_compute; reflexivity|].
  apply (one_server_process launch finished 1%nat finished_reachable). vm_compute. reflexivity.
Defined.

Lemma reply_answers_its_own_request_witness : earned 0 "run" "0" (py_log finished).
Proof.
  refine (proj2 (reply_answers_its_own_request launch finished finished_reachable _) 0%nat "run" x "0" _).
  - vm_compute. discriminate.
  - vm_compute. reflexivity.
Defined.

Lemma request_is_retried_elsewhere_witness :
  children_of 0 (py_log finished) = [1; 0]%nat
  /\ (length (children_of 0 (py_log finished)) <= 2)%nat
  /\ NoDup (children_of 0 (py_log finished)).
Proof.
  split; [vm_compute; reflexivity|].
  apply (request_is_retried_elsewhere launch finished 0 finished_reachable).
Defined.

End Samples.
