(* ===== verification/PySlot.v ===== *)
(** * One shared Python server and the policy for keeping it: [slot.rs]

    The slot's lock is held through [ensure] from end to end. Other holders of the
    cached server use it meanwhile, so between two accesses to it its process and its
    last use may have changed: that is [peers]. *)

From S2P Require Import Prelude RustStd Identity Vocabulary Errors World PoolWorker WorkerTypes PySpawner PyServer.

Open Scope rust_scope.

Definition START_FAILURE_BACKOFF : N := 300000.

Record IdleRule := MkIdleRule { ir_backend : string; ir_timeout : N }.

Inductive Cache :=
| CacheEmpty
| CacheReady (server : PythonServer)
| CacheFailed (message : string) (retry_after : N).

Definition ServerSlot_new : Cache := CacheEmpty.

Definition failed (message : string) (now : N) : Cache :=
  CacheFailed message (now + START_FAILURE_BACKOFF).

(** What an [ensure] did: ran the host's preparation, or something to a process. *)
Inductive slot_event := Prepared_launch | OnChild (e : py_event).

(** What is outside one call: what became of the shared server before its reset, its
    idleness and its start are looked at; the system; and the host's preparation, with
    the time it took ([None] when the caller goes away meanwhile). *)
Record slot_system := MkSlotSystem {
  so_peers : nat -> PythonServer -> option Inner * N;
  so_system : py_system;
  so_prepare : N -> option (result PyError ServerLaunch) * N
}.

Definition met (sys : slot_system) (point : nat) (s : PythonServer) : PythonServer :=
  let '(inner, last_used) := so_peers sys point s in
  MkPythonServer (pys_launch s) inner last_used.

Section Slot.
Context `{HV : JsonValue} {T : Type} `{HP : !PyJson T}.

Definition idle_hit (sys : slot_system) (idle : option IdleRule) (now : N) (s : PythonServer) : bool :=
  match idle with
  | Some rule =>
      existsb (fun id => String.eqb id (ir_backend rule)) (backends s)
      && server_idle_expired (ir_timeout rule) now (met sys 0 s)
  | None => false
  end.

(** Discarding a cached server that is not the one asked for, or idle. *)
Definition expire (sys : slot_system) (requested : list string) (idle : option IdleRule)
    (now : N) (cache : Cache) : Cache * list slot_event :=
  match cache with
  | CacheReady s =>
      if negb (bool_decide (backends s = requested)) || idle_hit sys idle now s then
        (CacheEmpty, map OnChild (reset (met sys 1 s)).2)
      else (cache, [])
  | _ => (cache, [])
  end.

(** [build]: a server, with its process started. *)
Definition build (sys : slot_system) (now : N)
  : ended (result PyError PythonServer) * list slot_event * N :=
  match so_prepare sys now with
  | (None, now) => (Abandoned, [Prepared_launch], now)
  | (Some (Err e), now) => (Answered (Err e), [Prepared_launch], now)
  | (Some (Ok launch), now) =>
      let '(e, s, events, now) := server_start (T := T) (so_system sys) now (PythonServer_new launch now) in
      (match e with
       | Answered r => Answered (result_map (fun _ => s) r)
       | Abandoned => Abandoned
       | Stuck => Stuck
       end, Prepared_launch :: map OnChild events, now)
  end.

(** What a start that ended leaves in the cache, and answers. *)
Definition conclude (e : ended (result PyError PythonServer)) (cache : Cache) (now : N)
  : ended (result PyError PythonServer) * Cache :=
  match e with
  | Answered (Ok s) => (Answered (Ok s), CacheReady s)
  | Answered (Err error) =>
      let message := PyError_display error in
      (Answered (Err (PyUnavailable message)), failed message now)
  | Abandoned => (Abandoned, cache)
  | Stuck => (Stuck, cache)
  end.

Definition build_into (sys : slot_system) (now : N) (cache : Cache)
  : ended (result PyError PythonServer) * Cache * list slot_event * N :=
  let '(e, events, now) := build sys now in
  let '(e, cache) := conclude e cache now in
  (e, cache, events, now).

(** [ensure_boxed], after the cached server was discarded if it had to be. *)
Definition ensure_kept (sys : slot_system) (now : N) (cache : Cache)
  : ended (result PyError PythonServer) * Cache * list slot_event * N :=
  match cache with
  | CacheReady s =>
      let '(e, s, events, now) := server_start (T := T) (so_system sys) now (met sys 2 s) in
      let '(e, cache) :=
        conclude match e with
                 | Answered r => Answered (result_map (fun _ => s) r)
                 | Abandoned => Abandoned
                 | Stuck => Stuck
                 end (CacheReady s) now in
      (e, cache, map OnChild events, now)
  | CacheFailed message retry_after =>
      if (now <? retry_after)%N then (Answered (Err (PyBackingOff message)), cache, [], now)
      else build_into sys now cache
  | CacheEmpty => build_into sys now cache
  end.

Definition ensure (sys : slot_system) (requested : list string) (idle : option IdleRule)
    (now : N) (cache : Cache) : ended (result PyError PythonServer) * Cache * list slot_event * N :=
  let '(cache, discarded) := expire sys requested idle now cache in
  let '(e, cache, events, now) := ensure_kept sys now cache in
  (e, cache, discarded ++ events, now).

Definition slot_status (sys : slot_system) (cache : Cache) : ServerStatus :=
  match cache with
  | CacheReady s => server_status (met sys 0 s)
  | CacheFailed message _ =>
      MkServerStatus true false [] (Some ("runtime python server unavailable: " +:+ message))
  | CacheEmpty => ServerStatus_disabled "runtime python server has not started"
  end.

(** ** Facts *)

Definition preparations (events : list slot_event) : nat :=
  length (List.filter (fun e => match e with Prepared_launch => true | _ => false end) events).

Lemma preparations_app a b : preparations (a ++ b) = (preparations a + preparations b)%nat.
Proof. unfold preparations. by rewrite List.filter_app, length_app. Qed.

Lemma preparations_on_children events : preparations (map OnChild events) = 0%nat.
Proof. induction events; [done|exact IHevents]. Qed.

Lemma server_start_ok sys now s r s' events t :
  server_start (T := T) sys now s = (Answered (Ok r), s', events, t) ->
  pys_launch s' = pys_launch s /\ is_Some (pys_inner s').
Proof.
  unfold server_start. destruct (ensure_inner sys now s) as [[[e s0] ev] t0] eqn:He.
  apply ensure_inner_spec in He as (Hl & _ & He). destruct e as [[i|]| |]; intros [= <- <- _ _].
  rewrite He. eauto.
Qed.

(** Nothing is kept by discarding, and only a cached server is. *)
Lemma expire_spec sys requested idle now cache :
  let '(kept, events) := expire sys requested idle now cache in
  preparations events = 0%nat
  /\ ((kept = cache /\ events = [] /\ forall s, cache = CacheReady s -> backends s = requested)
      \/ kept = CacheEmpty /\ exists s, cache = CacheReady s
         /\ events = map OnChild (reset (met sys 1 s)).2).
Proof.
  destruct cache as [|s|message at']; cbn; [split; [done|left; done]| |split; [done|left; done]].
  case_bool_decide as Hb; cbn; [destruct (idle_hit sys idle now s)|].
  - split; [apply preparations_on_children|right; eauto].
  - split; [done|left]. split_and!; [done..|]. by intros ? [= <-].
  - split; [apply preparations_on_children|right; eauto].
Qed.

Lemma build_into_spec sys now cache :
  let '(e, cache', events, t) := build_into sys now cache in
  preparations events = 1%nat
  /\ match e with
     | Answered (Ok s) => cache' = CacheReady s /\ is_Some (pys_inner s)
                          /\ exists launch, (so_prepare sys now).1 = Some (Ok launch) /\ pys_launch s = launch
     | Answered (Err error) => exists message, error = PyUnavailable message
                               /\ cache' = failed message t
     | Abandoned | Stuck => cache' = cache
     end.
Proof.
  unfold build_into, build. destruct (so_prepare sys now) as [[[launch|e]|] t]; cbn; [|eauto..].
  destruct (server_start _ _ _) as [[[e s] ev] t'] eqn:Hs.
  destruct e as [[r|e]| |]; cbn; (split; [f_equal; apply preparations_on_children|]); [|eauto..].
  apply server_start_ok in Hs as [? ?]. eauto.
Qed.

Lemma ensure_kept_spec sys now cache :
  let '(e, cache', events, t) := ensure_kept sys now cache in
  match e with
  | Answered (Ok s) =>
      cache' = CacheReady s /\ is_Some (pys_inner s)
      /\ ((preparations events = 0%nat /\ exists s0, cache = CacheReady s0 /\ pys_launch s = pys_launch s0)
          \/ (preparations events = 1%nat /\ (so_prepare sys now).1 = Some (Ok (pys_launch s))
              /\ forall s0, cache <> CacheReady s0))
  | Answered (Err error) =>
      (exists message, error = PyUnavailable message /\ cache' = failed message t)
      \/ exists message at', error = PyBackingOff message /\ cache' = cache
         /\ cache = CacheFailed message at' /\ (now < at')%N
  | Abandoned | Stuck => True
  end.
Proof.
  assert ((forall s0, cache <> CacheReady s0) -> let '(e, cache', events, t) := build_into sys now cache in
    match e with
    | Answered (Ok s) => cache' = CacheReady s /\ is_Some (pys_inner s)
        /\ ((preparations events = 0%nat /\ exists s0, cache = CacheReady s0 /\ pys_launch s = pys_launch s0)
          \/ (preparations events = 1%nat /\ (so_prepare sys now).1 = Some (Ok (pys_launch s))
              /\ forall s0, cache <> CacheReady s0))
    | Answered (Err error) =>
        (exists message, error = PyUnavailable message /\ cache' = failed message t)
        \/ exists message at', error = PyBackingOff message /\ cache' = cache
           /\ cache = CacheFailed message at' /\ (now < at')%N
    | Abandoned | Stuck => True
    end) as Hbuild.
  { intros Hnr. pose proof (build_into_spec sys now cache) as Hb.
    destruct (build_into sys now cache) as [[[[[s|error]| |] cache'] ev] t]; [|by left; apply Hb|done|done].
    destruct Hb as (? & ? & ? & launch & ? & Hl). rewrite Hl. split_and!; [done..|by right]. }
  unfold ensure_kept. destruct cache as [|s|message at']; [by apply Hbuild| |].
  - destruct (server_start _ _ _) as [[[e s'] ev] t] eqn:Hs. destruct e as [[r|error]| |]; cbn; try done.
    + apply server_start_ok in Hs as [Hl ?]. split_and!; [done|done|left].
      split; [apply preparations_on_children|]. exists s. split; [done|]. rewrite Hl. unfold met.
      by destruct (so_peers sys 2 s).
    + left. eauto.
  - destruct (N.ltb_spec now at'); [right; eauto 10|by apply Hbuild].
Qed.

(** C28. A failed start is remembered for five minutes and then forgotten: after an
    [ensure] that could not start a server, every [ensure] within 300 seconds answers
    with the same failure, whatever it asks for, starts nothing and does not even run
    the host's preparation; a later one behaves as on an empty slot. *)
Theorem failed_server_start_is_remembered (sys : slot_system) (requested : list string)
    (idle : option IdleRule) (now t : N) (cache cache' : Cache) (message : string)
    (events : list slot_event) :
  ensure sys requested idle now cache = (Answered (Err (PyUnavailable message)), cache', events, t) ->
  forall sys' requested' idle' now',
    if (now' <? t + 300000)%N
    then ensure sys' requested' idle' now' cache'
         = (Answered (Err (PyBackingOff message)), cache', [], now')
    else (ensure sys' requested' idle' now' cache').1.1.1
         = (ensure sys' requested' idle' now' CacheEmpty).1.1.1
         /\ (ensure sys' requested' idle' now' cache').1.2
         = (ensure sys' requested' idle' now' CacheEmpty).1.2.
Proof.
  unfold ensure at 1. destruct (expire sys requested idle now cache) as [kept discarded].
  pose proof (ensure_kept_spec sys now kept) as Hk.
  destruct (ensure_kept sys now kept) as [[[e c] ev] t0]. intros [= -> <- _ <-].
  destruct Hk as [(m & [= <-] & ->)|(m & at' & [=] & _)]. intros sys' req' idle' now'.
  unfold ensure, expire, failed, ensure_kept, START_FAILURE_BACKOFF.
  destruct (N.ltb_spec now' (t0 + 300000)); [done|]. unfold build_into.
  by destruct (build sys' now') as [[[[s|error]| |] ev'] t'].
Qed.

(** What [ensure] hands out: a server with its process running, which is the cached
    one, made for exactly the backends asked for, and then the host's preparation is
    not run; or one for the launch the host just prepared, once, and then whatever was
    cached before has had its process killed. *)
Theorem ensure_reuses_or_builds (sys : slot_system) (requested : list string)
    (idle : option IdleRule) (now : N) (cache : Cache) :
  let '(e, cache', events, _) := ensure sys requested idle now cache in
  forall s, e = Answered (Ok s) ->
    cache' = CacheReady s /\ is_Some (pys_inner s)
    /\ ((preparations events = 0%nat /\ backends s = requested
         /\ exists s0, cache = CacheReady s0 /\ pys_launch s = pys_launch s0)
        \/ (preparations events = 1%nat /\ (so_prepare sys now).1 = Some (Ok (pys_launch s))
            /\ forall s0 i, cache = CacheReady s0 -> pys_inner (met sys 1 s0) = Some i ->
               OnChild (ChildGone (in_child i)) ∈ events)).
Proof.
  unfold ensure. pose proof (expire_spec sys requested idle now cache) as Hx.
  destruct (expire sys requested idle now cache) as [kept discarded]. destruct Hx as [Hd Hx].
  pose proof (ensure_kept_spec sys now kept) as Hk.
  destruct (ensure_kept sys now kept) as [[[e c] ev] t]. intros s ->.
  destruct Hk as (-> & Hi & Hk). split_and!; [done..|]. rewrite preparations_app, Hd. cbn [Nat.add].
  destruct Hx as [(-> & -> & Hreq)|(-> & s0 & -> & ->)].
  - destruct Hk as [(? & s0 & -> & Hl)|(Hp & ? & Hn)].
    + left. split_and!; [done| |eauto]. unfold backends. rewrite Hl. by apply (Hreq s0).
    + right. split_and!; [done..|]. intros s0 i ->. by destruct (Hn s0).
  - destruct Hk as [(? & s1 & [=] & _)|(Hp & ? & _)]. right. split_and!; [done..|].
    intros s1 i [= <-] Hin. apply elem_of_app. left. unfold reset. rewrite Hin. left.
Qed.

End Slot.

(** ** The properties at work *)

Section Samples.

Definition slot_sample_value : JsonValue := {| Value := string; Value_eq_dec := _ |}.
#[local] Existing Instance slot_sample_value.

Definition slot_sample_json : PyJson string := {|
  py_encode message := Ok (sr_id message);
  py_decode_ready line :=
    if String.eqb line "ready" then Ok (MkReadyLine true (Some 1%N) ["nlp"] None) else Err "expected value";
  py_decode_response line := Err "expected value";
  py_null := "" : Value;
  py_from_value v := Ok (v : string)
|}.
#[local] Existing Instance slot_sample_json.

Let launch backends := ServerLaunch_new (Path_new "/opt/python") (Path_new "/run/server.py") backends [].
Let untouched (_ : nat) (s : PythonServer) := (pys_inner s, pys_last_used s).
Let system fresh := MkPySystem fresh (fun _ => Ok (MkPipes true true (written [MkArrival 1 (DLine "ready")]))) Written 0 None 10.
Let broken := MkSlotSystem untouched (system 0) (fun now => (Some (Err (PyPrepare "no venv")), now)).
Let works fresh backends := MkSlotSystem untouched (system fresh) (fun now => (Some (Ok (launch backends)), now)).

(** A failed preparation is not repeated within five minutes, not even for other
    backends, though it would now succeed. *)
Lemma failed_server_start_is_remembered_witness :
  let '(_, cache, _, _) := ensure broken ["nlp"] None 0 CacheEmpty in
  ensure (works 0 ["ocr"]) ["ocr"] None 299999 cache
  = (Answered (Err (PyBackingOff "no venv")), cache, [], 299999%N).
Proof.
  pose proof (failed_server_start_is_remembered broken ["nlp"] None 0 0 CacheEmpty
    (CacheFailed "no venv" 300000) "no venv" [Prepared_launch] eq_refl
    (works 0 ["ocr"]) ["ocr"] None 299999) as H.
  exact H.
Defined.

(** A server for other backends is killed and replaced; the new one is then kept. *)
Example a_changed_backend_set_rebuilds :
  let '(_, cache, _, _) := ensure (works 0 ["nlp"]) ["nlp"] None 0 CacheEmpty in
  let '(_, cache, events, _) := ensure (works 1 ["ocr"]) ["ocr"] None 10 cache in
  let '(_, _, kept, _) := ensure (works 2 ["ocr"]) ["ocr"] None 20 cache in
  events = [OnChild (ChildGone 0); Prepared_launch;
            OnChild (ChildStarted (spawn_spec (launch ["ocr"])) 1)]
  /\ kept = [].
Proof. vm_compute. done. Qed.

(** A caller that still holds a discarded server starts a process of its own again. *)
Example a_discarded_server_starts_again :
  let discarded := (reset (PythonServer_new (launch ["nlp"]) 0)).1 in
  let '(_, s, events, _) := request_once (T := string) (system 7) "run" ("x" : Value) 0 discarded in
  (exists spec, events = [ChildStarted spec 7; Sent 7 "0"]) /\ is_Some (pys_inner s).
Proof. vm_compute. eauto. Qed.

End Samples.
