(* ===== verification/CapFs.v ===== *)
(** * Directory capabilities: what [cap-std] and [fs2] give the worker cache

    A tree of inodes. A [Dir] is the inode it was opened on, so a handle survives the
    renaming of its directory and no operation on it passes through a link. Each call is
    recorded with the tree it left; before it other processes may have changed the tree
    in any way, and it may fail ([CapEnv]). A device and an inode number are one number
    here. *)

From stdpp Require Import fin_maps list_numbers.
From S2P Require Import Prelude RustStd World.

Open Scope rust_scope.

Inductive inode :=
| IDir
| IFile (bytes : string)
| ILink (target : string)
| ISpecial.

#[global] Instance inode_eq_dec : EqDecision inode.
Proof. solve_decision. Defined.

(** Which inodes there are, and the names directories give them. *)
Record tree := MkTree {
  t_nodes : gmap nat inode;
  t_entries : gmap (nat * string) nat
}.

Definition fs_root : nat := 0.

Definition kind_of (t : tree) (i : nat) : option inode := t_nodes t !! i.
Definition entry (t : tree) (d : nat) (name : string) : option nat := t_entries t !! (d, name).
Definition is_dir (t : tree) (i : nat) : bool := bool_decide (kind_of t i = Some IDir).

(** The number of names an inode has. *)
Definition nlink (t : tree) (i : nat) : nat := size (filter (fun '(_, c) => c = i) (t_entries t)).

Definition new_ino (t : tree) : nat :=
  S (max_list (map fst (map_to_list (t_nodes t)) ++ map snd (map_to_list (t_entries t))
               ++ map (fun e => fst (fst e)) (map_to_list (t_entries t)))).

Definition set_entry (d : nat) (name : string) (i : nat) (t : tree) : tree :=
  MkTree (t_nodes t) (<[(d, name) := i]> (t_entries t)).
Definition drop_entry (d : nat) (name : string) (t : tree) : tree :=
  MkTree (t_nodes t) (delete (d, name) (t_entries t)).
Definition set_node (i : nat) (n : inode) (t : tree) : tree :=
  MkTree (<[i := n]> (t_nodes t)) (t_entries t).

Definition is_empty_dir (t : tree) (i : nat) : bool :=
  forallb (fun '((d, _), _) => negb (Nat.eqb d i)) (map_to_list (t_entries t)).

(** ** System calls *)

Inductive cap_op :=
| CapOpenRoot (anchored : bool)
| CapOpenDir (d : nat) (name : string)
| CapCreateDir (d : nat) (name : string)
| CapDirMetadata (d : nat)
| CapClone (d : nat)
| CapOpenFile (d : nat) (name : string)
| CapCreateFile (d : nat) (name : string)
| CapOpenOrCreate (d : nat) (name : string)
| CapMetadata (i : nat)
| CapLinkMetadata (d : nat) (name : string)
| CapRead (i : nat)
| CapWrite (i : nat) (bytes : string)
| CapSync (i : nat)
| CapSetMode (i : nat) (mode : N)
| CapTruncate (i : nat)
| CapRename (d : nat) (name : string) (d' : nat) (name' : string)
| CapRemoveFile (d : nat) (name : string)
| CapRemoveDir (d : nat)
| CapTryLock (i : nat)
| CapUuid
| CapNow
| CapStop
| CapSleep
| CapRun.

(** What was asked, whether it succeeded, the handle it gave, and the tree it left. *)
Record cap_event := MkCapEvent { ce_op : cap_op; ce_ok : bool; ce_handle : nat; ce_tree : tree }.

(** Latest first. *)
Abbreviation cap_log := (list cap_event).

Inductive lock_answer := LockTaken | LockContended | LockFailed.

Class CapEnv := {
  cap_fault : cap_log -> cap_op -> option io_error;
  (** how much of a write that fails was written *)
  cap_short : cap_log -> nat;
  (** what other processes do before a call *)
  cap_peers : cap_log -> tree -> tree;
  cap_lock : cap_log -> lock_answer;
  cap_uuid : cap_log -> string;
  cap_now : cap_log -> N;
  cap_stop : cap_log -> bool;
  (** a sleep is cut short by the stop signal *)
  cap_canceled : cap_log -> bool
}.

Record CapW := MkCapW { cw_tree : tree; cw_log : cap_log }.

(** The metadata the callers look at; [md_id] is the device and the inode number. *)
Record metadata := MkMetadata { md_id : nat; md_kind : inode; md_nlink : nat }.

Definition not_found : io_error := MkIoError NotFound "no such file or directory".
Definition refused (text : string) : io_error := MkIoError OtherIo text.

Definition metadata_of (t : tree) (i : nat) : result io_error metadata :=
  match kind_of t i with
  | Some kind => Ok (MkMetadata i kind (nlink t i))
  | None => Err not_found
  end.

Definition md_is_file (m : metadata) : bool := match md_kind m with IFile _ => true | _ => false end.
Definition md_is_dir (m : metadata) : bool := match md_kind m with IDir => true | _ => false end.
Definition md_is_symlink (m : metadata) : bool := match md_kind m with ILink _ => true | _ => false end.
Definition md_len (m : metadata) : N := match md_kind m with IFile bytes => str_len bytes | _ => 0%N end.

(** [open_dir_nofollow]: a directory, not a link to one. *)
Definition open_dir_in (t : tree) (d : nat) (name : string) : result io_error nat :=
  match entry t d name with
  | None => Err not_found
  | Some c => if is_dir t c then Ok c else Err (refused "not a directory")
  end.

Definition create_dir_in (t : tree) (d : nat) (name : string) : result io_error tree :=
  if negb (is_dir t d) then Err not_found
  else match entry t d name with
       | Some _ => Err (MkIoError AlreadyExists "file exists")
       | None => let c := new_ino t in Ok (set_entry d name c (set_node c IDir t))
       end.

(** Opening for reading without following a link; a directory opens, too. *)
Definition open_file_in (t : tree) (d : nat) (name : string) : result io_error nat :=
  match entry t d name with
  | None => Err not_found
  | Some c => match kind_of t c with
              | Some (ILink _) => Err (refused "too many levels of symbolic links")
              | Some _ => Ok c
              | None => Err not_found
              end
  end.

(** [create_new]: the name must be free, links included. *)
Definition create_file_in (t : tree) (d : nat) (name : string) : result io_error (nat * tree) :=
  if negb (is_dir t d) then Err not_found
  else match entry t d name with
       | Some _ => Err (MkIoError AlreadyExists "file exists")
       | None => let c := new_ino t in Ok (c, set_entry d name c (set_node c (IFile "") t))
       end.

(** [create] without [create_new], for reading and writing. *)
Definition open_or_create_in (t : tree) (d : nat) (name : string) : result io_error (nat * tree) :=
  match entry t d name with
  | None => create_file_in t d name
  | Some c => match kind_of t c with
              | Some IDir => Err (refused "is a directory")
              | Some (ILink _) => Err (refused "too many levels of symbolic links")
              | Some _ => Ok (c, t)
              | None => Err not_found
              end
  end.

(** [renameat]: what had the target's name loses it; a directory only replaces an empty
    one, and two names of one file are left alone. *)
Definition rename_in (t : tree) (d : nat) (name : string) (d' : nat) (name' : string)
  : result io_error tree :=
  match entry t d name with
  | None => Err not_found
  | Some i =>
      if negb (is_dir t d') then Err not_found
      else match entry t d' name' with
           | None => Ok (set_entry d' name' i (drop_entry d name t))
           | Some j =>
               if Nat.eqb i j then Ok t
               else if is_dir t j then
                 if negb (is_dir t i) then Err (refused "is a directory")
                 else if is_empty_dir t j then Ok (set_entry d' name' i (drop_entry d name t))
                 else Err (refused "directory not empty")
               else if is_dir t i then Err (refused "not a directory")
               else Ok (set_entry d' name' i (drop_entry d name t))
           end
  end.

Definition remove_file_in (t : tree) (d : nat) (name : string) : result io_error tree :=
  match entry t d name with
  | None => Err not_found
  | Some i => if is_dir t i then Err (refused "is a directory") else Ok (drop_entry d name t)
  end.

(** [remove_open_dir]: the directory behind a handle, under whatever name it has. *)
Definition remove_dir_in (t : tree) (d : nat) : result io_error tree :=
  if negb (is_empty_dir t d) then Err (refused "directory not empty")
  else Ok (MkTree (delete d (t_nodes t)) (filter (fun '(_, c) => c <> d) (t_entries t))).

Definition append_in (t : tree) (i : nat) (bytes : string) : result io_error tree :=
  match kind_of t i with
  | Some (IFile b) => Ok (set_node i (IFile (b +:+ bytes)) t)
  | Some _ => Err (refused "bad file descriptor")
  | None => Err not_found
  end.

(** [set_len(0)] *)
Definition truncate_in (t : tree) (i : nat) : result io_error tree :=
  match kind_of t i with
  | Some (IFile _) => Ok (set_node i (IFile "") t)
  | Some _ => Err (refused "bad file descriptor")
  | None => Err not_found
  end.

Section Calls.
Context `{CapEnv}.

(** One call: others act first; it fails without effect, or acts. *)
Definition cap_call {A} (op : cap_op) (handle : A -> nat)
    (act : tree -> result io_error (A * tree)) : io CapW (result io_error A) :=
  fun w =>
    let t := cap_peers (cw_log w) (cw_tree w) in
    match match cap_fault (cw_log w) op with Some e => Err e | None => act t end with
    | Ok (a, t') => (Ok a, MkCapW t' (MkCapEvent op true (handle a) t' :: cw_log w))
    | Err e => (Err e, MkCapW t (MkCapEvent op false 0 t :: cw_log w))
    end.

Definition looking {A} (act : tree -> result io_error A) (t : tree) : result io_error (A * tree) :=
  result_map (fun a => (a, t)) (act t).
Definition acting (act : tree -> result io_error tree) (t : tree) : result io_error (unit * tree) :=
  result_map (pair tt) (act t).
Definition no_handle {A} (_ : A) : nat := 0.

(** [Dir::open_ambient_dir] on the root, or on an empty path. *)
Definition open_ambient_dir (anchored : bool) : io CapW (result io_error nat) :=
  cap_call (CapOpenRoot anchored) (fun i => i)
    (looking (fun t => if anchored && is_dir t fs_root then Ok fs_root else Err not_found)).
Definition open_dir_nofollow (d : nat) (name : string) : io CapW (result io_error nat) :=
  cap_call (CapOpenDir d name) (fun i => i) (looking (fun t => open_dir_in t d name)).
Definition create_dir (d : nat) (name : string) : io CapW (result io_error unit) :=
  cap_call (CapCreateDir d name) no_handle (acting (fun t => create_dir_in t d name)).
(** [dir_metadata], for the identity; it is answered of a removed directory, too. *)
Definition dir_metadata (d : nat) : io CapW (result io_error nat) :=
  cap_call (CapDirMetadata d) no_handle (looking (fun _ => Ok d)).
Definition try_clone (d : nat) : io CapW (result io_error nat) :=
  cap_call (CapClone d) (fun i => i) (looking (fun _ => Ok d)).
Definition open_nofollow (d : nat) (name : string) : io CapW (result io_error nat) :=
  cap_call (CapOpenFile d name) no_handle (looking (fun t => open_file_in t d name)).
Definition create_new (d : nat) (name : string) : io CapW (result io_error nat) :=
  cap_call (CapCreateFile d name) (fun i => i) (fun t => create_file_in t d name).
Definition open_or_create (d : nat) (name : string) : io CapW (result io_error nat) :=
  cap_call (CapOpenOrCreate d name) no_handle (fun t => open_or_create_in t d name).
Definition file_metadata (i : nat) : io CapW (result io_error metadata) :=
  cap_call (CapMetadata i) no_handle (looking (fun t => metadata_of t i)).
Definition symlink_metadata (d : nat) (name : string) : io CapW (result io_error metadata) :=
  cap_call (CapLinkMetadata d name) no_handle
    (looking (fun t => match entry t d name with Some i => metadata_of t i | None => Err not_found end)).
(** [take(limit).read_to_end] *)
Definition read_up_to (i : nat) (limit : N) : io CapW (result io_error string) :=
  cap_call (CapRead i) no_handle
    (looking (fun t => match kind_of t i with
                       | Some (IFile b) => Ok (String.substring 0 (N.to_nat limit) b)
                       | _ => Err (refused "is a directory")
                       end)).
(** A write that fails may have written a part. *)
Definition write_bytes (i : nat) (bytes : string) : io CapW (result io_error unit) :=
  fun w =>
    match cap_fault (cw_log w) (CapWrite i bytes) with
    | None => cap_call (CapWrite i bytes) no_handle (acting (fun t => append_in t i bytes)) w
    | Some e =>
        let t := cap_peers (cw_log w) (cw_tree w) in
        let t' := match append_in t i (String.substring 0 (cap_short (cw_log w)) bytes) with
                  | Ok t' => t' | Err _ => t end in
        (Err e, MkCapW t' (MkCapEvent (CapWrite i bytes) false 0 t' :: cw_log w))
    end.
Definition sync_all (i : nat) : io CapW (result io_error unit) :=
  cap_call (CapSync i) no_handle (looking (fun _ => Ok tt)).
(** The permission bits are in the log only. *)
Definition set_mode (i : nat) (mode : N) : io CapW (result io_error unit) :=
  cap_call (CapSetMode i mode) no_handle (looking (fun _ => Ok tt)).
Definition set_len_zero (i : nat) : io CapW (result io_error unit) :=
  cap_call (CapTruncate i) no_handle (acting (fun t => truncate_in t i)).
Definition rename_entry (d : nat) (name : string) (d' : nat) (name' : string)
  : io CapW (result io_error unit) :=
  cap_call (CapRename d name d' name') no_handle (acting (fun t => rename_in t d name d' name')).
Definition remove_entry (d : nat) (name : string) : io CapW (result io_error unit) :=
  cap_call (CapRemoveFile d name) no_handle (acting (fun t => remove_file_in t d name)).
Definition remove_open_dir (d : nat) : io CapW (result io_error unit) :=
  cap_call (CapRemoveDir d) no_handle (acting (fun t => remove_dir_in t d)).

(** Questions that are not about the tree. *)
Definition cap_ask {A} (op : cap_op) (answer : cap_log -> A) : io CapW A :=
  fun w =>
    let t := cap_peers (cw_log w) (cw_tree w) in
    let log := MkCapEvent op true 0 t :: cw_log w in
    (answer log, MkCapW t log).
Definition try_lock_exclusive (i : nat) : io CapW lock_answer := cap_ask (CapTryLock i) cap_lock.
Definition new_uuid : io CapW string := cap_ask CapUuid cap_uuid.
Definition now : io CapW N := cap_ask CapNow cap_now.
Definition stop_requested : io CapW bool := cap_ask CapStop cap_stop.
Definition sleep_or_canceled : io CapW bool := cap_ask CapSleep cap_canceled.

End Calls.
