(* ===== verification/CacheFiles.v ===== *)
(** * Files below a cache scope: [worker/cache/filesystem.rs], [identity.rs], [staging.rs]

    Everything is reached from an opened directory, one name at a time, without
    following links. *)

From stdpp Require Import fin_maps.
From S2P Require Import Prelude RustStd World Download WorkerTypes WorkerValidate CapFs.

Open Scope rust_scope.

Section Files.
Context `{CapEnv}.

(** Every I/O error is one reason. *)
Definition failed {A} (m : io CapW (result io_error A)) : io CapW (result string A) :=
  io_map (map_err (fun _ => "cache_io_failed")) m.
Definition failed_as {A} (reason : string) (m : io CapW (result io_error A))
  : io CapW (result string A) :=
  io_map (map_err (fun _ => reason)) m.

Definition descend (dir : nat) (name : string) (create : bool) : io CapW (result string nat) :=
  opened <-- open_dir_nofollow dir name ;;
  match opened with
  | Ok child => io_ret (Ok child)
  | Err error =>
      if create && bool_decide (ioe_kind error = NotFound) then
        created <-- create_dir dir name ;;
        match created with
        | Ok _ => failed (open_dir_nofollow dir name)
        | Err error =>
            if bool_decide (ioe_kind error = AlreadyExists) then failed (open_dir_nofollow dir name)
            else io_ret (Err "cache_io_failed")
        end
      else io_ret (Err "cache_io_failed")
  end.

(** The names of an absolute path's components; anything else in it is refused. *)
Fixpoint normal_names (cs : list Component) : result string (list string) :=
  match cs with
  | [] => Ok []
  | RootDir :: rest => normal_names rest
  | Normal name :: rest => result_map (cons name) (normal_names rest)
  | (CurDir | ParentDir) :: _ => Err "cache_scope_invalid"
  end.

Fixpoint descend_all (dir : nat) (names : list string) (create : bool) : io CapW (result string nat) :=
  match names with
  | [] => io_ret (Ok dir)
  | name :: rest => child <-? descend dir name create ;; descend_all child rest create
  end.

Definition absolute (path : Path) (create : bool) : io CapW (result string nat) :=
  match normal_names (components path) with
  | Err reason => io_ret (Err reason)
  | Ok names =>
      dir <-? failed (open_ambient_dir (p_root path)) ;;
      descend_all dir names create
  end.

(** The loop of [parent] over the parts of a path. *)
Fixpoint parent_parts (dir : nat) (parts : list string) (create : bool)
  : io CapW (result string (nat * string)) :=
  match parts with
  | [] => io_ret (Err "cache_path_invalid")
  | [part] => io_ret (Ok (dir, part))
  | part :: rest => child <-? descend dir part create ;; parent_parts child rest create
  end.

Definition parent (dir : nat) (path : string) (create : bool)
  : io CapW (result string (nat * string)) :=
  match safe_relative path with
  | Err reason => io_ret (Err reason)
  | Ok _ =>
      dir <-? failed (try_clone dir) ;;
      parent_parts dir (split_on "/" path) create
  end.

Definition same_directory (first second : nat) : io CapW (result string bool) :=
  a <-? failed (dir_metadata first) ;;
  b <-? failed (dir_metadata second) ;;
  io_ret (Ok (Nat.eqb a b)).

(** What is at the end of an opened path, when the path can be opened. *)
Definition matches_at (d : nat) (name : string) (artifact : CacheArtifact) : io CapW (result string bool) :=
  opened <-- open_nofollow d name ;;
  match opened with
  | Err error => io_ret (if bool_decide (ioe_kind error = NotFound) then Ok false else Err "cache_io_failed")
  | Ok file =>
      m <-? failed (file_metadata file) ;;
      if negb (md_is_file m) || negb (Nat.eqb (md_nlink m) 1) then io_ret (Err "cache_entry_unsafe")
      else if (MAX_FILE <? md_len m)%N || negb (md_len m =? str_len (ca_bytes artifact))%N then io_ret (Ok false)
      else
        bytes <-? failed (read_up_to file (MAX_FILE + 1)) ;;
        io_ret (Ok (String.eqb bytes (ca_bytes artifact)))
  end.

Definition matches (dir : nat) (artifact : CacheArtifact) : io CapW (result string bool) :=
  reached <-- parent dir (ca_path artifact) false ;;
  match reached with
  | Err _ => io_ret (Ok false)
  | Ok (d, name) => matches_at d name artifact
  end.

Definition regular_file_exists (dir : nat) (path : string) : io CapW (result string bool) :=
  reached <-- parent dir path false ;;
  match reached with
  | Err _ => io_ret (Ok false)
  | Ok (d, name) =>
      found <-- symlink_metadata d name ;;
      io_ret match found with
             | Ok m => if md_is_file m && Nat.eqb (md_nlink m) 1 then Ok true else Err "cache_entry_unsafe"
             | Err error => if bool_decide (ioe_kind error = NotFound) then Ok false else Err "cache_io_failed"
             end
  end.

Definition kind_fits (kind : CacheEntryKind) (m : metadata) : bool :=
  match kind with
  | FileEntry => md_is_file m && Nat.eqb (md_nlink m) 1
  | DirectoryEntry => md_is_dir m
  | AnyEntry => md_is_file m || md_is_dir m || md_is_symlink m
  end.

Definition required (dir : nat) (e : CacheEntry) : io CapW (result string bool) :=
  reached <-- parent dir (ce_path e) false ;;
  match reached with
  | Err _ => io_ret (Ok false)
  | Ok (d, name) =>
      found <-- symlink_metadata d name ;;
      io_ret match found with
             | Ok m => Ok (kind_fits (ce_kind e) m)
             | Err error => if bool_decide (ioe_kind error = NotFound) then Ok false else Err "cache_io_failed"
             end
  end.

Definition stage (dir : nat) (name bytes : string) : io CapW (result string unit) :=
  file <-? failed (create_new dir name) ;;
  _ <-? failed (write_bytes file bytes) ;;
  failed (sync_all file).

Definition promote (staging : nat) (name : string) (root : nat) (destination : string)
  : io CapW (result string unit) :=
  reached <-? parent root destination true ;;
  let '(d, target) := reached in
  found <-- symlink_metadata d target ;;
  if match found with
     | Ok m => negb (md_is_file m) || negb (Nat.eqb (md_nlink m) 1)
     | Err _ => false
     end
  then io_ret (Err "cache_entry_unsafe")
  else failed (rename_entry staging name d target).

Definition invalidate (root : nat) (path : string) : io CapW (result string unit) :=
  reached <-- parent root path false ;;
  match reached with
  | Err _ => io_ret (Ok tt)
  | Ok (d, name) =>
      found <-- symlink_metadata d name ;;
      match found with
      | Ok m =>
          if md_is_file m && Nat.eqb (md_nlink m) 1 then failed (remove_entry d name)
          else io_ret (Err "cache_entry_unsafe")
      | Err error =>
          io_ret (if bool_decide (ioe_kind error = NotFound) then Ok tt else Err "cache_io_failed")
      end
  end.

(** ** [staging.rs] *)

Record Staging := MkStaging { sg_directory : option nat; sg_name : string; sg_identity : nat }.

Definition Staging_open (root : nat) (name : string) : io CapW (result string Staging) :=
  directory <-? failed_as "cache_stage_failed" (open_dir_nofollow root name) ;;
  dir_id <-? failed_as "cache_stage_failed" (dir_metadata directory) ;;
  io_ret (Ok (MkStaging (Some directory) name dir_id)).

Definition Staging_directory (s : Staging) : result string nat :=
  ok_or "cache_stage_failed" (sg_directory s).

Fixpoint remove_staged (d : nat) (staged : list string) : io CapW (result string unit) :=
  match staged with
  | [] => io_ret (Ok tt)
  | name :: rest =>
      removed <-- remove_entry d name ;;
      match removed with
      | Ok _ => remove_staged d rest
      | Err error =>
          if bool_decide (ioe_kind error = NotFound) then remove_staged d rest
          else io_ret (Err "cache_stage_cleanup_failed")
      end
  end.

(** The directory to empty: the one held, or the one of that name if it is still the
    same. *)
Definition reopened (root : nat) (s : Staging) : io CapW (result string nat) :=
  match sg_directory s with
  | Some d => io_ret (Ok d)
  | None =>
      directory <-? failed_as "cache_stage_cleanup_failed" (open_dir_nofollow root (sg_name s)) ;;
      dir_id <-? failed_as "cache_stage_cleanup_failed" (dir_metadata directory) ;;
      if Nat.eqb dir_id (sg_identity s) then io_ret (Ok directory)
      else io_ret (Err "cache_stage_cleanup_failed")
  end.

(** The staging after its cleanup: what it holds when that failed, so it can be retried. *)
Definition Staging_cleanup (root : nat) (staged : list string) (s : Staging)
  : io CapW (result string unit * Staging) :=
  held <-- reopened root s ;;
  match held with
  | Err reason => io_ret (Err reason, s)
  | Ok d =>
      emptied <-- remove_staged d staged ;;
      match emptied with
      | Err reason => io_ret (Err reason, MkStaging (Some d) (sg_name s) (sg_identity s))
      | Ok _ =>
          removed <-- failed_as "cache_stage_cleanup_failed" (remove_open_dir d) ;;
          io_ret (removed, MkStaging None (sg_name s) (sg_identity s))
      end
  end.

End Files.

(** ** [identity.rs] *)

(** [serde_json] on a recipe: the pieces it writes, or its refusal. *)
Class RecipeJson := { encode_recipe : CacheRecipe -> result string (list string) }.

Definition artifact `{Sha256} `{RecipeJson} (r : CacheRecipe) : result string CacheArtifact :=
  match encode_recipe r with
  | Err _ => Err "cache_identity_failed"
  | Ok pieces =>
      Ok (MkCacheArtifact
            (".tinyruntime-recipe-" +:+ hex_encode (sha256 (ca_path (cr_marker r))))
            (hex_encode (Sha256_finalize (fold_left Sha256_update pieces Sha256_new))))
  end.
