(* ===== verification/CacheSession.v ===== *)
(** * A worker cache session: [worker/cache/mod.rs]

    One holder of a scope's lock: it finds the recipe ready, or rebuilds it by staging
    its files, running its steps (elsewhere) and publishing, the marker last. *)

From stdpp Require Import fin_maps.
From S2P Require Import Prelude RustStd World Download WorkerTypes WorkerValidate CapFs CacheFiles.

Open Scope rust_scope.

Definition LOCK_NAME : string := ".tinyruntime-cache.lock".

Record Session := MkSession {
  ss_root : nat;
  ss_path : Path;
  ss_lock : option nat;
  ss_lock_identity : nat;
  ss_recipe_identity : CacheArtifact;
  ss_staging : option Staging;
  ss_staged : list string;
  ss_cached : bool;
  ss_legacy : bool
}.

Inductive Readiness := ReadyCached | ReadyLegacy | Rebuild.

#[global] Instance Readiness_eq_dec : EqDecision Readiness.
Proof. solve_decision. Defined.

Definition set_ready (cached legacy : bool) (s : Session) : Session :=
  MkSession (ss_root s) (ss_path s) (ss_lock s) (ss_lock_identity s) (ss_recipe_identity s)
    (ss_staging s) (ss_staged s) cached legacy.
Definition set_staging (staging : option Staging) (s : Session) : Session :=
  MkSession (ss_root s) (ss_path s) (ss_lock s) (ss_lock_identity s) (ss_recipe_identity s)
    staging (ss_staged s) (ss_cached s) (ss_legacy s).
Definition push_staged (name : string) (s : Session) : Session :=
  MkSession (ss_root s) (ss_path s) (ss_lock s) (ss_lock_identity s) (ss_recipe_identity s)
    (ss_staging s) (ss_staged s ++ [name]) (ss_cached s) (ss_legacy s).

Section Session.
Context `{CapEnv} `{Sha256} `{RecipeJson}.

(** ** Whether the recipe is there *)

(** [for x in l { if !check(x)? { return Ok(Rebuild) } }]: whether all passed. *)
Fixpoint all_hold {A} (check : A -> io CapW (result string bool)) (l : list A)
  : io CapW (result string bool) :=
  match l with
  | [] => io_ret (Ok true)
  | a :: rest => held <-? check a ;; if held : bool then all_hold check rest else io_ret (Ok false)
  end.

Definition readiness (recipe : CacheRecipe) (s : Session) : io CapW (result string Readiness) :=
  marked <-? matches (ss_root s) (cr_marker recipe) ;;
  if negb marked then io_ret (Ok Rebuild)
  else
    entries <-? all_hold (required (ss_root s)) (cr_required recipe) ;;
    if negb entries then io_ret (Ok Rebuild)
    else
      artifacts <-? all_hold (matches (ss_root s)) (cr_artifacts recipe) ;;
      if negb artifacts then io_ret (Ok Rebuild)
      else
        exists_ <-? regular_file_exists (ss_root s) (ca_path (ss_recipe_identity s)) ;;
        if exists_ : bool then
          same <-? matches (ss_root s) (ss_recipe_identity s) ;;
          io_ret (Ok (if same : bool then ReadyCached else Rebuild))
        else
          io_ret (Ok match cr_adoption recipe with
                     | Strict => Rebuild
                     | AdoptVerifiedLegacy => ReadyLegacy
                     end).

Definition check_binding (s : Session) : io CapW (result string unit) :=
  current <-? absolute (ss_path s) false ;;
  same <-? same_directory (ss_root s) current ;;
  if negb same then io_ret (Err "cache_scope_changed")
  else
    lock <-? failed_as "cache_lock_changed" (open_nofollow (ss_root s) LOCK_NAME) ;;
    m <-? failed_as "cache_lock_changed" (file_metadata lock) ;;
    io_ret (if negb (Nat.eqb (md_nlink m) 1) || negb (Nat.eqb (md_id m) (ss_lock_identity s))
            then Err "cache_lock_changed" else Ok tt).

(** ** Acquiring *)

(** The loop that waits for the lock, one unit of fuel a turn; [None] when it still
    waits. *)
Fixpoint acquire_lock (turns : nat) (lock : nat) (deadline : N)
  : io CapW (option (result string unit)) :=
  match turns with
  | O => io_ret None
  | S turns =>
      stop <-- stop_requested ;;
      if stop : bool then io_ret (Some (Err "canceled"))
      else
        t <-- now ;;
        if (deadline <=? t)%N then io_ret (Some (Err "cache_timeout"))
        else
          answer <-- try_lock_exclusive lock ;;
          match answer with
          | LockTaken => io_ret (Some (Ok tt))
          | LockFailed => io_ret (Some (Err "cache_lock_failed"))
          | LockContended =>
              canceled <-- sleep_or_canceled ;;
              if canceled : bool then io_ret (Some (Err "canceled"))
              else acquire_lock turns lock deadline
          end
  end.

(** The lock file, opened or created, and who it is. *)
Definition open_lock_file (root : nat) : io CapW (result string (nat * nat)) :=
  lock <-? failed_as "cache_lock_failed" (open_or_create root LOCK_NAME) ;;
  m <-? failed_as "cache_lock_failed" (file_metadata lock) ;;
  io_ret (if negb (md_is_file m) || negb (Nat.eqb (md_nlink m) 1) then Err "cache_lock_unsafe"
          else Ok (lock, md_id m)).

Definition acquired (path : Path) (recipe : CacheRecipe) (recipe_identity : CacheArtifact)
    (root lock lock_id : nat) : io CapW (result string Session) :=
  let session := MkSession root path (Some lock) lock_id recipe_identity None [] false false in
  _ <-? check_binding session ;;
  ready <-? readiness recipe session ;;
  io_ret (Ok match ready with
             | ReadyCached => set_ready true false session
             | ReadyLegacy => set_ready false true session
             | Rebuild => session
             end).

Definition acquire (turns : nat) (path : Path) (recipe : CacheRecipe) (deadline : N)
  : io CapW (option (result string Session)) :=
  match artifact recipe with
  | Err reason => io_ret (Some (Err reason))
  | Ok recipe_identity =>
      reached <-- absolute path true ;;
      match reached with
      | Err reason => io_ret (Some (Err reason))
      | Ok root =>
          opened <-- open_lock_file root ;;
          match opened with
          | Err reason => io_ret (Some (Err reason))
          | Ok (lock, lock_id) =>
              taken <-- acquire_lock turns lock deadline ;;
              match taken with
              | None => io_ret None
              | Some (Err reason) => io_ret (Some (Err reason))
              | Some (Ok _) =>
                  io_map Some (acquired path recipe recipe_identity root lock lock_id)
              end
          end
      end
  end.

(** ** Rebuilding *)

(** A session and what an operation on it answered. *)
Abbreviation on_session := (io CapW (result string unit * Session)).

Definition keep (s : Session) (m : io CapW (result string unit)) : on_session :=
  io_map (fun r => (r, s)) m.

(** [self.staging = Some(..)], under a name of the router's. *)
Definition open_staging (s : Session) : on_session :=
  uuid <-- new_uuid ;;
  let name := ".tinyruntime-stage-" +:+ uuid in
  created <-- failed_as "cache_stage_failed" (create_dir (ss_root s) name) ;;
  match created with
  | Err reason => io_ret (Err reason, s)
  | Ok _ =>
      opened <-- Staging_open (ss_root s) name ;;
      io_ret match opened with
             | Err reason => (Err reason, s)
             | Ok staging => (Ok tt, set_staging (Some staging) s)
             end
  end.

Definition staging_directory (s : Session) : result string nat :=
  match ss_staging s with
  | None => Err "cache_stage_failed"
  | Some staging => Staging_directory staging
  end.

Fixpoint install_artifacts (stage_dir : nat) (index : nat) (artifacts : list CacheArtifact)
    (s : Session) : on_session :=
  match artifacts with
  | [] => io_ret (Ok tt, s)
  | a :: rest =>
      let name := "artifact-" +:+ display_u64 (N.of_nat index) in
      let s := push_staged name s in
      done <-- (_ <-? stage stage_dir name (ca_bytes a) ;;
                _ <-? check_binding s ;;
                promote stage_dir name (ss_root s) (ca_path a)) ;;
      match done with
      | Err reason => io_ret (Err reason, s)
      | Ok _ => install_artifacts stage_dir (S index) rest s
      end
  end.

(** The identity and the marker are staged, not yet published. *)
Definition stage_marks (stage_dir : nat) (recipe : CacheRecipe) (s : Session) : on_session :=
  let s := push_staged "identity" s in
  staged <-- stage stage_dir "identity" (ca_bytes (ss_recipe_identity s)) ;;
  match staged with
  | Err reason => io_ret (Err reason, s)
  | Ok _ =>
      let s := push_staged "marker" s in
      keep s (stage stage_dir "marker" (ca_bytes (cr_marker recipe)))
  end.

Definition install (recipe : CacheRecipe) (s : Session) : on_session :=
  prepared <-- (_ <-? check_binding s ;; invalidate (ss_root s) (ca_path (cr_marker recipe))) ;;
  match prepared with
  | Err reason => io_ret (Err reason, s)
  | Ok _ =>
      opened <-- open_staging s ;;
      match opened with
      | (Err reason, s) => io_ret (Err reason, s)
      | (Ok _, s) =>
          match staging_directory s with
          | Err reason => io_ret (Err reason, s)
          | Ok stage_dir =>
              installed <-- install_artifacts stage_dir 0 (cr_artifacts recipe) s ;;
              match installed with
              | (Err reason, s) => io_ret (Err reason, s)
              | (Ok _, s) => stage_marks stage_dir recipe s
              end
          end
      end
  end.

Definition adopt_legacy (recipe : CacheRecipe) (s : Session) : on_session :=
  checked <-- (_ <-? check_binding s ;;
               if negb (ss_legacy s) then io_ret (Err "cache_legacy_changed")
               else
                 ready <-? readiness recipe s ;;
                 io_ret (if bool_decide (ready = ReadyLegacy) then Ok tt else Err "cache_legacy_changed")) ;;
  match checked with
  | Err reason => io_ret (Err reason, s)
  | Ok _ =>
      opened <-- open_staging s ;;
      match opened with
      | (Err reason, s) => io_ret (Err reason, s)
      | (Ok _, s) =>
          match staging_directory s with
          | Err reason => io_ret (Err reason, push_staged "identity" s)
          | Ok stage_dir =>
              let s := push_staged "identity" s in
              adopted <-- (_ <-? stage stage_dir "identity" (ca_bytes (ss_recipe_identity s)) ;;
                           _ <-? check_binding s ;;
                           promote stage_dir "identity" (ss_root s) (ca_path (ss_recipe_identity s))) ;;
              io_ret match adopted with
                     | Err reason => (Err reason, s)
                     | Ok _ => (Ok tt, set_ready true false s)
                     end
          end
      end
  end.

Definition publish (recipe : CacheRecipe) (s : Session) : io CapW (result string unit) :=
  _ <-? check_binding s ;;
  entries <-? all_hold (required (ss_root s)) (cr_required recipe) ;;
  if negb entries then io_ret (Err "cache_required_missing")
  else
    artifacts <-? all_hold (matches (ss_root s)) (cr_artifacts recipe) ;;
    if negb artifacts then io_ret (Err "cache_artifact_changed")
    else
      match staging_directory s with
      | Err reason => io_ret (Err reason)
      | Ok stage_dir =>
          _ <-? promote stage_dir "identity" (ss_root s) (ca_path (ss_recipe_identity s)) ;;
          promote stage_dir "marker" (ss_root s) (ca_path (cr_marker recipe))
      end.

(** Dropping the lock file releases the lock. *)
Definition session_released (s : Session) : Session :=
  MkSession (ss_root s) (ss_path s) None (ss_lock_identity s) (ss_recipe_identity s)
    None [] (ss_cached s) (ss_legacy s).

Definition session_cleanup (s : Session) : on_session :=
  match ss_staging s with
  | None => io_ret (Ok tt, session_released s)
  | Some staging =>
      cleaned <-- Staging_cleanup (ss_root s) (ss_staged s) staging ;;
      let '(r, staging) := cleaned in
      io_ret match r with
             | Err reason => (Err reason, set_staging (Some staging) s)
             | Ok _ => (Ok tt, session_released s)
             end
  end.

End Session.

(** [open_worker_directory]: below the current directory when it is relative. *)
Definition open_worker_directory `{CapEnv} (current_dir : option Path) (path : Path)
  : io CapW (result string nat) :=
  if is_absolute path then absolute path true
  else match current_dir with
       | Some cwd => absolute (path_join cwd path) true
       | None => io_ret (Err "worker_directory_failed")
       end.
