(* ===== verification/TreeFacts.v ===== *)
(** * Facts about trees of inodes

    Well-formed trees, what a path of names leads to, how many names a file has, and
    what each call of [CapFs] preserves of them. *)

From stdpp Require Import fin_maps list_numbers.
From S2P Require Import Prelude RustStd World CapFs.

Open Scope rust_scope.

(** A tree: entries are of directories and lead to inodes; a directory has one name,
    the root none, and ranks exclude cycles. *)
Record tree_wf (t : tree) : Prop := {
  tw_root : kind_of t fs_root = Some IDir;
  tw_top d n : entry t d n <> Some fs_root;
  tw_entry d n c : entry t d n = Some c -> kind_of t d = Some IDir /\ is_Some (kind_of t c);
  tw_parent d n d' n' c :
    entry t d n = Some c -> entry t d' n' = Some c -> kind_of t c = Some IDir -> d = d' /\ n = n';
  tw_rank : exists rank : nat -> nat, forall d n c,
    entry t d n = Some c -> kind_of t c = Some IDir -> rank c = S (rank d)
}.

(** Following names from a directory, through directories only. *)
Fixpoint walk (t : tree) (d : nat) (names : list string) : option nat :=
  match names with
  | [] => Some d
  | name :: rest =>
      match entry t d name with
      | Some c => if is_dir t c then walk t c rest else None
      | None => None
      end
  end.

Lemma is_dir_spec t i : is_dir t i = true <-> kind_of t i = Some IDir.
Proof. unfold is_dir. apply bool_decide_eq_true. Qed.

Lemma is_dir_false t i : is_dir t i = false <-> kind_of t i <> Some IDir.
Proof. unfold is_dir. apply bool_decide_eq_false. Qed.

Lemma walk_app t d a b : walk t d (a ++ b) = walk t d a ≫= fun e => walk t e b.
Proof.
  revert d. induction a as [|n a IH]; intros d; cbn; [done|].
  destruct (entry t d n) as [c|]; [|done]. by destruct (is_dir t c).
Qed.

Lemma walk_snoc t d a n e :
  walk t d (a ++ [n]) = Some e <->
  exists f, walk t d a = Some f /\ entry t f n = Some e /\ is_dir t e = true.
Proof.
  rewrite walk_app. split.
  - destruct (walk t d a) as [f|]; cbn; [|done]. destruct (entry t f n) as [c|] eqn:E; [|done].
    destruct (is_dir t c) eqn:Hc; [|done]. intros [= <-]. by exists f.
  - intros (f & -> & He & Hd). cbn. by rewrite He, Hd.
Qed.

Lemma walk_rank t rank d ns e :
  (forall d n c, entry t d n = Some c -> kind_of t c = Some IDir -> rank c = S (rank d)) ->
  walk t d ns = Some e -> rank e = (rank d + length ns)%nat.
Proof.
  intros Hr. revert d. induction ns as [|n ns IH]; intros d; cbn; [intros [= ->]; lia|].
  destruct (entry t d n) as [c|] eqn:He; [|done]. destruct (is_dir t c) eqn:Hd; [|done].
  apply is_dir_spec in Hd. intros Hw. rewrite (IH _ Hw), (Hr _ _ _ He Hd). lia.
Qed.

(** Only one path leads to a directory. *)
Lemma walk_unique t d a b e :
  tree_wf t -> walk t d a = Some e -> walk t d b = Some e -> a = b.
Proof.
  intros Hwf. destruct (tw_rank _ Hwf) as [rank Hr]. revert b e.
  induction a as [|n a IH] using rev_ind; intros b e Ha Hb.
  - pose proof (walk_rank _ _ _ _ _ Hr Hb) as Hl. cbn in Ha. injection Ha as ->.
    destruct b; [done|]. cbn in Hl. lia.
  - pose proof (walk_rank _ _ _ _ _ Hr Ha) as Hla. pose proof (walk_rank _ _ _ _ _ Hr Hb) as Hlb.
    apply walk_snoc in Ha as (f & Ha & Hea & Hde).
    destruct b as [|m b _] using rev_ind; [rewrite length_app in Hla; cbn in *; lia|].
    apply walk_snoc in Hb as (g & Hb & Heb & _). apply is_dir_spec in Hde.
    destruct (tw_parent _ Hwf _ _ _ _ _ Hea Heb Hde) as [<- <-]. f_equal. by apply (IH b f).
Qed.

Lemma walk_dir t d ns e :
  walk t d ns = Some e -> ns <> [] -> kind_of t e = Some IDir.
Proof.
  intros Hw. destruct ns as [|n a _] using rev_ind; [done|].
  apply walk_snoc in Hw as (? & _ & _ & Hd). by apply is_dir_spec in Hd.
Qed.

(** ** New inodes *)

Lemma new_ino_fresh t :
  kind_of t (new_ino t) = None
  /\ (forall d n, entry t d n <> Some (new_ino t)) /\ (forall n, entry t (new_ino t) n = None).
Proof.
  assert (forall l x, x ∈ l -> (x < S (max_list l))%nat) as Hlt.
  { intros l x Hx. apply max_list_elem_of_le in Hx. lia. }
  unfold new_ino. set (l := _ ++ _ ++ _). split_and!.
  - destruct (kind_of t (S (max_list l))) eqn:E; [|done].
    specialize (Hlt l (S (max_list l))). assert (S (max_list l) ∈ l) as Hin; [|apply Hlt in Hin; lia].
    apply elem_of_app. left. apply list_elem_of_fmap. exists (S (max_list l), i). split; [done|].
    by apply elem_of_map_to_list.
  - intros d n E. assert (S (max_list l) ∈ l) as Hin; [|apply Hlt in Hin; lia].
    apply elem_of_app. right. apply elem_of_app. left. apply list_elem_of_fmap.
    exists (d, n, S (max_list l)). split; [done|]. by apply elem_of_map_to_list.
  - intros n. destruct (entry t (S (max_list l)) n) as [c|] eqn:E; [|done].
    assert (S (max_list l) ∈ l) as Hin; [|apply Hlt in Hin; lia].
    apply elem_of_app. right. apply elem_of_app. right. apply list_elem_of_fmap.
    exists (S (max_list l), n, c). split; [done|]. by apply elem_of_map_to_list.
Qed.

(** ** Names *)

Lemma entry_set_entry d n i t d' n' :
  entry (set_entry d n i t) d' n' = if decide ((d, n) = (d', n')) then Some i else entry t d' n'.
Proof.
  unfold entry, set_entry. cbn. case_decide as Hk; [rewrite Hk; apply lookup_insert_eq|].
  by apply lookup_insert_ne.
Qed.

Lemma entry_drop_entry d n t d' n' :
  entry (drop_entry d n t) d' n' = if decide ((d, n) = (d', n')) then None else entry t d' n'.
Proof.
  unfold entry, drop_entry. cbn. case_decide as Hk; [rewrite Hk; apply lookup_delete_eq|].
  by apply lookup_delete_ne.
Qed.

Lemma nlink_drop_entry d n i t j :
  entry t d n = Some i ->
  nlink t j = (nlink (drop_entry d n t) j + if decide (i = j) then 1 else 0)%nat.
Proof.
  unfold nlink, drop_entry, entry. cbn. intros He. rewrite map_filter_delete.
  case_decide as Hij.
  - rewrite map_size_delete_Some; [|exists i; by apply map_lookup_filter_Some_2].
    enough (size (filter (fun '(_, c) => c = j) (t_entries t)) <> 0)%nat by lia.
    rewrite map_size_non_empty_iff. intros Hemp.
    assert (filter (fun '(_, c) => c = j) (t_entries t) !! (d, n) = Some i) as Hin
      by (by apply map_lookup_filter_Some_2).
    by rewrite Hemp, lookup_empty in Hin.
  - rewrite delete_id; [lia|]. apply map_lookup_filter_None_2. right. intros c Hc Hcj. congruence.
Qed.

Lemma nlink_set_entry d n i t j :
  entry t d n = None ->
  nlink (set_entry d n i t) j = (nlink t j + if decide (i = j) then 1 else 0)%nat.
Proof.
  unfold nlink, set_entry, entry. cbn. intros He. case_decide as Hij.
  - rewrite map_filter_insert_True by done. rewrite map_size_insert_None; [lia|].
    apply map_lookup_filter_None_2. by left.
  - rewrite map_filter_insert_False by done. rewrite delete_id; [lia|done].
Qed.

Lemma drop_then_set d n i t : set_entry d n i (drop_entry d n t) = set_entry d n i t.
Proof. unfold set_entry, drop_entry. cbn. by rewrite insert_delete_eq. Qed.

(** A file with one name has it. *)
Lemma nlink_unique t d n d' n' i :
  nlink t i = 1%nat -> entry t d n = Some i -> entry t d' n' = Some i -> (d, n) = (d', n').
Proof.
  intros Hl He He'. destruct (decide ((d, n) = (d', n'))) as [|Hne]; [done|exfalso].
  rewrite (nlink_drop_entry d n i t i He), decide_True in Hl by done.
  assert (entry (drop_entry d n t) d' n' = Some i) as He2 by (by rewrite entry_drop_entry, decide_False).
  rewrite (nlink_drop_entry d' n' i _ i He2), decide_True in Hl by done. lia.
Qed.

Lemma nlink_none t i : (forall d n, entry t d n <> Some i) -> nlink t i = 0%nat.
Proof.
  intros Hno. unfold nlink. apply map_size_empty_iff, map_empty. intros [d n].
  apply map_lookup_filter_None_2. right. intros c Hc Hci. subst. by apply (Hno d n).
Qed.

(** ** What a recipe is about *)

(** A regular file of one name, with these bytes, at a path below a directory. *)
Definition has_file_at (t : tree) (d : nat) (name : string) (bytes : string) : Prop :=
  exists i, entry t d name = Some i /\ kind_of t i = Some (IFile bytes) /\ nlink t i = 1%nat.

Definition located (t : tree) (root : nat) (path : string) (d : nat) (name : string) : Prop :=
  exists parts, split_on "/" path = parts ++ [name] /\ walk t root parts = Some d.

Definition has_file (t : tree) (root : nat) (path bytes : string) : Prop :=
  exists d name, located t root path d name /\ has_file_at t d name bytes.

(** No regular file at a path. *)
Definition no_file (t : tree) (root : nat) (path : string) : Prop :=
  forall d name i bytes, located t root path d name -> entry t d name = Some i ->
    kind_of t i <> Some (IFile bytes).

Lemma split_on_inj c s s' : split_on c s = split_on c s' -> s = s'.
Proof.
  revert s'. induction s as [|d s IH]; intros [|d' s']; cbn; [done|..].
  - destruct (Ascii.eqb c d'); [|destruct (split_on c s'); done].
    destruct s'; cbn; [done|]. destruct (Ascii.eqb c _); [done|]. destruct (split_on c s'); done.
  - destruct (Ascii.eqb c d); [|destruct (split_on c s); done].
    destruct s; cbn; [done|]. destruct (Ascii.eqb c _); [done|]. destruct (split_on c s); done.
  - assert (forall s, split_on c s <> []) as Hne.
    { intros [|a s0]; cbn; [done|]. destruct (Ascii.eqb c a); [done|]. by destruct (split_on c s0). }
    destruct (Ascii.eqb_spec c d) as [<-|Hd], (Ascii.eqb_spec c d') as [<-|Hd'].
    + intros [= Heq]. f_equal. by apply IH.
    + pose proof (Hne s'). destruct (split_on c s'); [done|]. intros [=].
    + pose proof (Hne s). destruct (split_on c s); [done|]. intros [=].
    + pose proof (Hne s). pose proof (Hne s'). specialize (IH s').
      destruct (split_on c s) as [|p ps], (split_on c s') as [|q qs]; try done.
      intros [= -> -> ->]. f_equal. by apply IH.
Qed.

Lemma located_unique t root path path' d name :
  tree_wf t -> located t root path d name -> located t root path' d name -> path = path'.
Proof.
  intros Hwf (a & Ha & Hwa) (b & Hb & Hwb). apply (split_on_inj "/").
  by rewrite Ha, Hb, (walk_unique _ _ _ _ _ Hwf Hwa Hwb).
Qed.

(** ** Names and inodes that only come *)

Record extends (t t' : tree) : Prop := {
  ex_kind i k : kind_of t i = Some k -> kind_of t' i = Some k;
  ex_entry d n c : entry t d n = Some c -> entry t' d n = Some c;
  ex_new d n c : entry t' d n = Some c -> entry t d n = Some c \/ kind_of t c = None;
  ex_nlink i : is_Some (kind_of t i) -> nlink t' i = nlink t i
}.

#[global] Instance extends_preorder : PreOrder extends.
Proof.
  split.
  - intros t. constructor; auto.
  - intros a b c [K1 E1 N1 L1] [K2 E2 N2 L2]. constructor; auto.
    + intros d n i Hi. destruct (N2 _ _ _ Hi) as [Hb|Hb]; [by apply N1|].
      right. destruct (kind_of a i) eqn:Ha; [|done]. apply K1 in Ha. congruence.
    + intros i Hi. rewrite L2, L1; [done|done|]. destruct Hi as [k Hk]. eauto.
Qed.

Lemma walk_extends t t' d ns e : extends t t' -> walk t d ns = Some e -> walk t' d ns = Some e.
Proof.
  intros Hx. revert d. induction ns as [|n ns IH]; intros d; cbn; [done|].
  destruct (entry t d n) as [c|] eqn:He; [|done]. destruct (is_dir t c) eqn:Hd; [|done].
  apply is_dir_spec, (ex_kind _ _ Hx), is_dir_spec in Hd. rewrite (ex_entry _ _ Hx _ _ _ He), Hd.
  apply IH.
Qed.

Lemma located_extends t t' root path d name :
  extends t t' -> located t root path d name -> located t' root path d name.
Proof. intros Hx (ps & ? & Hw). exists ps. split; [done|]. by eapply walk_extends. Qed.

Lemma has_file_at_extends t t' d name bytes :
  extends t t' -> has_file_at t d name bytes -> has_file_at t' d name bytes.
Proof.
  intros Hx (i & He & Hk & Hl). exists i. split_and!; [by apply Hx|by apply Hx|].
  rewrite (ex_nlink _ _ Hx); [done|eauto].
Qed.

(** What was there is reached as before. *)
Lemma walk_back t t' d ns e :
  tree_wf t -> extends t t' -> walk t' d ns = Some e -> is_Some (kind_of t e) ->
  walk t d ns = Some e.
Proof.
  intros Hwf Hx. revert e. induction ns as [|n ns IH] using rev_ind; intros e; [done|].
  rewrite walk_snoc. intros (f & Hw & He & Hd) [k Hk].
  destruct (ex_new _ _ Hx _ _ _ He) as [Hold|]; [|congruence].
  apply walk_snoc. exists f. split_and!; [|done|].
  - apply IH; [done|]. destruct (tw_entry _ Hwf _ _ _ Hold). eauto.
  - apply is_dir_spec in Hd. pose proof (ex_kind _ _ Hx _ _ Hk). apply is_dir_spec. congruence.
Qed.

(** ** One new inode *)

Definition add_new (t : tree) (d : nat) (n : string) (k : inode) : tree :=
  set_entry d n (new_ino t) (set_node (new_ino t) k t).

Lemma kind_add_new t d n k i :
  kind_of (add_new t d n k) i = if decide (i = new_ino t) then Some k else kind_of t i.
Proof.
  unfold kind_of, add_new. cbn. case_decide as Hi; [subst; apply lookup_insert_eq|].
  by apply lookup_insert_ne.
Qed.

Lemma entry_add_new t d n k d' n' :
  entry (add_new t d n k) d' n' = if decide ((d, n) = (d', n')) then Some (new_ino t) else entry t d' n'.
Proof. unfold add_new. by rewrite entry_set_entry. Qed.

Lemma add_new_extends t d n k : entry t d n = None -> extends t (add_new t d n k).
Proof.
  intros Hno. destruct (new_ino_fresh t) as (Hk & He & _). constructor.
  - intros i k' Hi. rewrite kind_add_new, decide_False by congruence. done.
  - intros d' n' c Hc. rewrite entry_add_new, decide_False by congruence. done.
  - intros d' n' c. rewrite entry_add_new. case_decide; [intros [= <-]; by right|by left].
  - intros i Hi. unfold add_new. rewrite nlink_set_entry by done.
    rewrite decide_False by (intros <-; destruct Hi; congruence). by rewrite Nat.add_0_r.
Qed.

Lemma add_new_nlink t d n k : entry t d n = None -> nlink (add_new t d n k) (new_ino t) = 1%nat.
Proof.
  intros Hno. unfold add_new. rewrite nlink_set_entry by done. rewrite decide_True by done.
  destruct (new_ino_fresh t) as (_ & He & _). by rewrite (nlink_none (set_node _ _ _)).
Qed.

Lemma add_new_wf t d n k :
  tree_wf t -> is_dir t d = true -> entry t d n = None -> tree_wf (add_new t d n k).
Proof.
  intros Hwf Hd Hno. apply is_dir_spec in Hd. destruct (new_ino_fresh t) as (Hk & He & Hf).
  assert (d <> new_ino t) as Hdn by congruence. constructor.
  - rewrite kind_add_new, decide_False; [apply Hwf|]. pose proof (tw_root _ Hwf). congruence.
  - intros d' n'. rewrite entry_add_new. case_decide; [|by apply (tw_top _ Hwf)].
    pose proof (tw_root _ Hwf). congruence.
  - intros d' n' c. rewrite entry_add_new, !kind_add_new. case_decide as Hkey.
    + injection Hkey as <- <-. intros [= <-]. rewrite decide_False by done.
      by rewrite decide_True by done.
    + intros Hc. destruct (tw_entry _ Hwf _ _ _ Hc) as [? [k' ?]].
      rewrite !decide_False; [eauto|by intros ->; apply (He d' n')|].
      intros ->. congruence.
  - intros d1 n1 d2 n2 c. rewrite !entry_add_new, kind_add_new.
    case_decide as H1; case_decide as H2.
    + intros _ _ _. injection H1 as <- <-. by injection H2.
    + intros [= <-] Hc. by destruct (He d2 n2).
    + intros Hc [= <-]. by destruct (He d1 n1).
    + intros Hc1 Hc2. rewrite decide_False by (intros ->; by destruct (He d1 n1)).
      by apply (tw_parent _ Hwf).
  - destruct (tw_rank _ Hwf) as [rank Hr].
    exists (fun i => if decide (i = new_ino t) then S (rank d) else rank i).
    intros d' n' c. rewrite entry_add_new, kind_add_new. case_decide as Hkey.
    + injection Hkey as <- <-. intros [= <-] _. by rewrite decide_True, decide_False by done.
    + intros Hc. assert (c <> new_ino t) as Hcn by (intros ->; by destruct (He d' n')).
      assert (d' <> new_ino t) as Hdn' by (intros ->; congruence).
      rewrite !decide_False by done. by apply (Hr d' n').
Qed.

(** ** Calls that leave the directories alone *)

(** The same directories in the same places. *)
Definition same_dirs (t t' : tree) : Prop :=
  forall d n c, (entry t d n = Some c /\ kind_of t c = Some IDir)
                <-> (entry t' d n = Some c /\ kind_of t' c = Some IDir).

Lemma walk_same t t' d ns : same_dirs t t' -> walk t' d ns = walk t d ns.
Proof.
  intros Hs. revert d. induction ns as [|n ns IH]; intros d; cbn; [done|].
  destruct (entry t d n) as [c|] eqn:He; [destruct (is_dir t c) eqn:Hd|].
  - apply is_dir_spec in Hd. destruct (proj1 (Hs d n c) (conj He Hd)) as [-> Hd'].
    apply is_dir_spec in Hd'. rewrite Hd'. apply IH.
  - destruct (entry t' d n) as [c'|] eqn:He'; [|done]. destruct (is_dir t' c') eqn:Hd'; [|done].
    apply is_dir_spec in Hd'. destruct (proj2 (Hs d n c') (conj He' Hd')) as [He2 Hd2].
    apply is_dir_false in Hd. congruence.
  - destruct (entry t' d n) as [c'|] eqn:He'; [|done]. destruct (is_dir t' c') eqn:Hd'; [|done].
    apply is_dir_spec in Hd'. destruct (proj2 (Hs d n c') (conj He' Hd')). congruence.
Qed.

Lemma located_same t t' root path d name :
  same_dirs t t' -> located t' root path d name <-> located t root path d name.
Proof.
  intros Hs. split; intros (ps & ? & Hw); exists ps; (split; [done|]);
    [rewrite <- Hw; symmetry|rewrite <- Hw]; by apply walk_same.
Qed.

Lemma add_file_same_dirs t d n b : entry t d n = None -> same_dirs t (add_new t d n (IFile b)).
Proof.
  intros Hno d' n' c. destruct (new_ino_fresh t) as (_ & He & _).
  rewrite entry_add_new, kind_add_new. case_decide as Hkey.
  - injection Hkey as <- <-. split; [intros [? _]; congruence|].
    intros [[= <-] Hk]. by rewrite decide_True in Hk by done.
  - split; intros [Hc Hk]; (split; [done|]);
      rewrite decide_False in * by (intros ->; by destruct (He d' n')); done.
Qed.

(** Writing to a file. *)
Lemma append_in_spec t i b t' :
  append_in t i b = Ok t' ->
  exists old, kind_of t i = Some (IFile old) /\ t' = set_node i (IFile (old +:+ b)) t.
Proof. unfold append_in. destruct (kind_of t i) as [[| | |]|]; try done. intros [= <-]. eauto. Qed.

Lemma kind_set_node i k t j : kind_of (set_node i k t) j = if decide (i = j) then Some k else kind_of t j.
Proof.
  unfold kind_of, set_node. cbn. case_decide as Hi; [subst; apply lookup_insert_eq|].
  by apply lookup_insert_ne.
Qed.

Lemma set_file_same_dirs t i old b :
  kind_of t i = Some (IFile old) -> same_dirs t (set_node i (IFile b) t).
Proof.
  intros Hk d n c. rewrite kind_set_node. case_decide; [subst|done].
  change (entry (set_node c (IFile b) t) d n) with (entry t d n).
  split; intros [? ?]; congruence.
Qed.

Lemma set_file_wf t i old b :
  tree_wf t -> kind_of t i = Some (IFile old) -> tree_wf (set_node i (IFile b) t).
Proof.
  intros Hwf Hk. pose proof (tw_root _ Hwf).
  assert (forall j, kind_of (set_node i (IFile b) t) j = Some IDir <-> kind_of t j = Some IDir) as Hd.
  { intros j. rewrite kind_set_node. case_decide; [subst|done]. split; congruence. }
  constructor.
  - by apply Hd.
  - apply (tw_top _ Hwf).
  - intros d n c Hc. destruct (tw_entry _ Hwf d n c Hc) as [? [k ?]]. split; [by apply Hd|].
    rewrite kind_set_node. case_decide; eauto.
  - intros d n d' n' c Hc Hc'. rewrite Hd. by apply (tw_parent _ Hwf).
  - destruct (tw_rank _ Hwf) as [rank Hr]. exists rank. intros d n c Hc. rewrite Hd. by apply (Hr d n).
Qed.

(** Taking a name from something that is not a directory. *)
Lemma drop_entry_same_dirs t d n i :
  entry t d n = Some i -> kind_of t i <> Some IDir -> same_dirs t (drop_entry d n t).
Proof.
  intros He Hk d' n' c. rewrite entry_drop_entry. case_decide as Hkey; [|done].
  injection Hkey as <- <-. split; [intros [? ?]; congruence|by intros [? _]].
Qed.

Lemma drop_entry_wf t d n : tree_wf t -> tree_wf (drop_entry d n t).
Proof.
  intros Hwf. assert (forall d' n' c, entry (drop_entry d n t) d' n' = Some c -> entry t d' n' = Some c) as He.
  { intros d' n' c. rewrite entry_drop_entry. by case_decide. }
  constructor.
  - apply Hwf.
  - intros d' n' Hc%He. by apply (tw_top _ Hwf d' n').
  - intros d' n' c Hc%He. by apply (tw_entry _ Hwf d' n').
  - intros d1 n1 d2 n2 c Hc1%He Hc2%He. by apply (tw_parent _ Hwf).
  - destruct (tw_rank _ Hwf) as [rank Hr]. exists rank. intros d' n' c Hc%He. by apply (Hr d' n').
Qed.

(** ** Moving a file over a name *)

(** What a rename of a file of one name does: only the two names change. *)
Record moved (t : tree) (ds : nat) (ns : string) (dd : nat) (nd : string) (bytes : string)
    (t' : tree) : Prop := {
  mv_wf : tree_wf t';
  mv_dirs : same_dirs t t';
  mv_kind j : kind_of t' j = kind_of t j;
  mv_placed : has_file_at t' dd nd bytes;
  mv_gone : entry t' ds ns = None;
  mv_entry d n : (d, n) <> (ds, ns) -> (d, n) <> (dd, nd) -> entry t' d n = entry t d n;
  mv_nlink d n j : (d, n) <> (ds, ns) -> (d, n) <> (dd, nd) -> entry t d n = Some j ->
    nlink t j = 1%nat -> nlink t' j = 1%nat;
  mv_target j : entry t dd nd = Some j -> kind_of t j <> Some IDir
}.

Lemma set_over t d n i j :
  entry t d n = Some j -> i <> j ->
  forall k, (nlink (set_entry d n i t) k + if decide (j = k) then 1 else 0)%nat
            = (nlink t k + if decide (i = k) then 1 else 0)%nat.
Proof.
  intros He Hij k. rewrite <- drop_then_set.
  assert (entry (drop_entry d n t) d n = None) as Hno by (by rewrite entry_drop_entry, decide_True).
  rewrite nlink_set_entry by done. rewrite (nlink_drop_entry d n j t k He). lia.
Qed.

(** A file gets a name, or another one. *)
Lemma set_entry_wf t d n i bytes :
  tree_wf t -> is_dir t d = true -> kind_of t i = Some (IFile bytes) -> tree_wf (set_entry d n i t).
Proof.
  intros [W1 W0 W2 W3 [rank W4]] Hd Hk.
  assert (forall d' n' c, entry (set_entry d n i t) d' n' = Some c ->
            (d' = d /\ n' = n /\ c = i) \/ entry t d' n' = Some c) as Hcase.
  { intros d' n' c. rewrite entry_set_entry. case_decide as H1; [|by right].
    injection H1 as <- <-. intros [= <-]. by left. }
  assert (kind_of (set_entry d n i t) i = Some (IFile bytes)) as Hki by exact Hk.
  constructor; [exact W1|..].
  - intros d' n' [(-> & -> & Hc)|Hc]%Hcase; [congruence|by apply (W0 d' n')].
  - intros d' n' c [(-> & -> & ->)|Hc]%Hcase; [|by apply (W2 d' n')].
    apply is_dir_spec in Hd. split; [exact Hd|]. exists (IFile bytes). exact Hk.
  - intros d1 n1 d2 n2 c [(-> & -> & Hc)|Hc]%Hcase [(-> & -> & Hc')|Hc']%Hcase Hdir;
      [done|subst; congruence..|]. by apply (W3 _ _ _ _ c).
  - exists rank. intros d' n' c [(-> & -> & ->)|Hc]%Hcase Hdir; [congruence|by apply (W4 d' n')].
Qed.

Lemma rename_file_spec t ds ns dd nd i bytes t' :
  tree_wf t -> entry t ds ns = Some i -> kind_of t i = Some (IFile bytes) -> nlink t i = 1%nat ->
  (ds, ns) <> (dd, nd) -> rename_in t ds ns dd nd = Ok t' ->
  moved t ds ns dd nd bytes t' /\ is_dir t dd = true.
Proof.
  intros Hwf He Hk Hl Hne Hr. unfold rename_in in Hr. rewrite He in Hr.
  destruct (is_dir t dd) eqn:Hdd; [|done]. cbn [negb] in Hr. split; [|done].
  assert (is_dir t i = false) as Hif by (apply is_dir_false; congruence).
  assert ((forall j, entry t dd nd = Some j -> kind_of t j <> Some IDir /\ j <> i)
          /\ t' = set_entry dd nd i (drop_entry ds ns t)) as [Htarget ->].
  { destruct (entry t dd nd) as [j|] eqn:Hj; [|by injection Hr as <-].
    destruct (Nat.eqb_spec i j) as [<-|Hij].
    { exfalso. apply Hne. by apply (nlink_unique _ _ _ _ _ i Hl). }
    destruct (is_dir t j) eqn:Hdj; rewrite Hif in Hr; [done|]. injection Hr as <-.
    split; [|done]. intros ? [= <-]. apply is_dir_false in Hdj. auto. }
  set (t1 := drop_entry ds ns t).
  assert (entry t1 dd nd = entry t dd nd) as Ht1 by (unfold t1; by rewrite entry_drop_entry, decide_False).
  assert (nlink t1 i = 0%nat) as Hl1.
  { rewrite (nlink_drop_entry ds ns i t i He), decide_True in Hl by done. fold t1 in Hl. lia. }
  assert (forall k, entry t dd nd <> Some k -> nlink (set_entry dd nd i t1) k
                    = (nlink t1 k + if decide (i = k) then 1 else 0)%nat) as Hset.
  { intros k Hk'. destruct (entry t dd nd) as [j|] eqn:Hj.
    - pose proof (set_over t1 dd nd i j) as Ho. destruct (Htarget j eq_refl) as [_ Hji].
      specialize (Ho Ht1 ltac:(congruence) k). rewrite (decide_False (P := j = k)) in Ho by congruence. lia.
    - rewrite nlink_set_entry by done. done. }
  assert (forall d n, entry (set_entry dd nd i t1) d n
            = if decide ((dd, nd) = (d, n)) then Some i
              else if decide ((ds, ns) = (d, n)) then None else entry t d n) as Hent.
  { intros d n. rewrite entry_set_entry. case_decide; [done|]. unfold t1. by rewrite entry_drop_entry. }
  assert (same_dirs t (set_entry dd nd i t1)) as Hsame.
  { intros d n c. rewrite Hent. change (kind_of (set_entry dd nd i t1) c) with (kind_of t c).
    case_decide as H1; [injection H1 as <- <-|case_decide as H2; [injection H2 as <- <-|done]].
    - split; [intros [Hc Hd]; by destruct (Htarget _ Hc)|intros [[= <-] Hd]; congruence].
    - split; [intros [Hc Hd]; congruence|by intros [? _]]. }
  constructor; try done.
  - by apply (set_entry_wf t1 dd nd i bytes); [apply drop_entry_wf|..].
  - exists i. rewrite Hent, decide_True by done. split_and!; [done|exact Hk|].
    rewrite Hset, Hl1, decide_True; [done|done|]. intros Hj. by destruct (Htarget _ Hj).
  - rewrite Hent, decide_False, decide_True; congruence.
  - intros d n H1 H2. rewrite Hent, !decide_False; congruence.
  - intros d n j H1 H2 Hj Hlj. rewrite Hset.
    + assert (i <> j) as Hij.
      { intros ->. apply H1. by apply (nlink_unique t _ _ _ _ j). }
      rewrite decide_False by done. rewrite (nlink_drop_entry ds ns i t j He), decide_False in Hlj by done.
      fold t1 in Hlj. lia.
    + intros Hj'. apply H2. by apply (nlink_unique t _ _ _ _ j).
  - intros j Hj. by destruct (Htarget _ Hj).
Qed.

(** A file elsewhere is not touched. *)
Lemma moved_has_file t ds ns dd nd bytes t' d n b :
  moved t ds ns dd nd bytes t' -> (d, n) <> (ds, ns) -> (d, n) <> (dd, nd) ->
  has_file_at t d n b -> has_file_at t' d n b.
Proof.
  intros Hm H1 H2 (i & He & Hk & Hl). exists i. split_and!.
  - by rewrite (mv_entry _ _ _ _ _ _ _ Hm).
  - by rewrite (mv_kind _ _ _ _ _ _ _ Hm).
  - by apply (mv_nlink _ _ _ _ _ _ _ Hm d n).
Qed.

(** Removing a file of one name. *)
Lemma drop_entry_has_file t d n i d' n' b :
  entry t d n = Some i -> (d', n') <> (d, n) -> has_file_at t d' n' b ->
  has_file_at (drop_entry d n t) d' n' b.
Proof.
  intros He Hne (j & Hj & Hk & Hl). exists j. split_and!; [|exact Hk|].
  - by rewrite entry_drop_entry, decide_False by congruence.
  - assert (i <> j) as Hij.
    { intros ->. apply Hne. by apply (nlink_unique t _ _ _ _ j). }
    rewrite (nlink_drop_entry d n i t j He), decide_False in Hl by done. lia.
Qed.

(** Rewriting another file. *)
Lemma set_file_has_file t i old bytes d n b :
  kind_of t i = Some (IFile old) -> entry t d n <> Some i -> has_file_at t d n b ->
  has_file_at (set_node i (IFile bytes) t) d n b.
Proof.
  intros Hk Hne (j & Hj & Hkj & Hl). exists j. split_and!; [exact Hj| |exact Hl].
  rewrite kind_set_node, decide_False by congruence. done.
Qed.
