(* ===== verification/CacheFacts.v ===== *)
(** * What a rebuilt cache guarantees

    A small program logic for [CapFs] ([runs]: an invariant of every tree a computation
    passes through, a precondition, a postcondition), the specifications of
    [CacheFiles], and the two guarantees of a rebuild: what was published is found
    ready, and until then nothing is. *)

From stdpp Require Import fin_maps.
From S2P Require Import Prelude RustStd World Download WorkerTypes WorkerValidate CapFs CacheFiles.
From S2P Require Import CacheSession TreeFacts.

Open Scope rust_scope.

Section Logic.
Context `{E : CapEnv}.
(** Nobody else changes the tree. *)
Definition quiet : Prop := forall log t, cap_peers log t = t.
Context (Hquiet : quiet).

(** From every tree of [P], the computation passes through trees of [I] only and ends as
    [Q] says. *)
Definition runs {A} (I P : tree -> Prop) (m : io CapW A) (Q : A -> tree -> Prop) : Prop :=
  forall w, P (cw_tree w) ->
    let '(a, w') := m w in
    Q a (cw_tree w')
    /\ exists new, cw_log w' = new ++ cw_log w /\ Forall (fun e => I (ce_tree e)) new.

Lemma runs_ret {A} (I P : tree -> Prop) (a : A) (Q : A -> tree -> Prop) :
  (forall t, P t -> Q a t) -> runs I P (io_ret a) Q.
Proof. intros Hq w Hw. cbn. split; [auto|]. exists []. by split. Qed.

Lemma runs_conseq {A} (I P P' : tree -> Prop) (m : io CapW A) (Q Q' : A -> tree -> Prop) :
  runs I P m Q -> (forall t, P' t -> P t) -> (forall a t, Q a t -> Q' a t) -> runs I P' m Q'.
Proof.
  intros Hm Hp Hq w Hw. specialize (Hm w (Hp _ Hw)). destruct (m w) as [a w']. destruct Hm as [? ?].
  split; [by apply Hq|done].
Qed.

Lemma runs_weaken {A} (I I' P : tree -> Prop) (m : io CapW A) (Q : A -> tree -> Prop) :
  runs I P m Q -> (forall t, I t -> I' t) -> runs I' P m Q.
Proof.
  intros Hm Hi w Hw. specialize (Hm w Hw). destruct (m w) as [a w']. destruct Hm as (Hq & new & Hl & Ha).
  split; [done|]. exists new. split; [done|]. eapply Forall_impl; [exact Ha|]. intros e. apply Hi.
Qed.

Lemma runs_bind {A B} (I P : tree -> Prop) (m : io CapW A) (k : A -> io CapW B) R Q :
  runs I P m R -> (forall a, runs I (R a) (k a) Q) -> runs I P (io_bind m k) Q.
Proof.
  intros Hm Hk w Hw. unfold io_bind. specialize (Hm w Hw). destruct (m w) as [a w1].
  destruct Hm as (Hr & n1 & Hl1 & Hi1). specialize (Hk a w1 Hr). destruct (k a w1) as [b w2].
  destruct Hk as (Hq & n2 & Hl2 & Hi2). split; [done|]. exists (n2 ++ n1).
  rewrite Hl2, Hl1, app_assoc. split; [done|]. by apply Forall_app.
Qed.

Lemma runs_try {X A B} (I P : tree -> Prop) (m : io CapW (result X A)) (k : A -> io CapW (result X B)) R Q :
  runs I P m R -> (forall a, runs I (R (Ok a)) (k a) Q) -> (forall e t, R (Err e) t -> Q (Err e) t) ->
  runs I P (io_try m k) Q.
Proof.
  intros Hm Hk He w Hw. unfold io_try. specialize (Hm w Hw). destruct (m w) as [[a|e] w1].
  - destruct Hm as (Hr & n1 & Hl1 & Hi1). specialize (Hk a w1 Hr). destruct (k a w1) as [b w2].
    destruct Hk as (Hq & n2 & Hl2 & Hi2). split; [done|]. exists (n2 ++ n1).
    rewrite Hl2, Hl1, app_assoc. split; [done|]. by apply Forall_app.
  - destruct Hm as [Hr Hn]. split; [by apply He|done].
Qed.

Lemma runs_map {A B} (I P : tree -> Prop) (f : A -> B) (m : io CapW A) Q :
  runs I P m (fun a => Q (f a)) -> runs I P (io_map f m) Q.
Proof. intros Hm w Hw. unfold io_map. specialize (Hm w Hw). by destruct (m w) as [a w']. Qed.

(** A fact about the start that does not mention the tree. *)
Lemma runs_pure {A} (I P : tree -> Prop) (phi : Prop) (m : io CapW A) Q :
  (phi -> runs I P m Q) -> runs I (fun t => phi /\ P t) m Q.
Proof. intros Hm w [Hphi Hp]. by apply Hm. Qed.

Lemma runs_exists {A X} (I : tree -> Prop) (P : X -> tree -> Prop) (m : io CapW A) Q :
  (forall x, runs I (P x) m Q) -> runs I (fun t => exists x, P x t) m Q.
Proof. intros Hm w [x Hp]. by apply (Hm x). Qed.

(** One call: it leaves the tree alone and fails, or acts. *)
Lemma runs_call {A} (I P : tree -> Prop) op handle (act : tree -> result io_error (A * tree)) Q :
  (forall t e, P t -> I t /\ Q (Err e) t) ->
  (forall t a t', P t -> act t = Ok (a, t') -> I t' /\ Q (Ok a) t') ->
  runs I P (cap_call op handle act) Q.
Proof.
  intros He Ho w Hw. unfold cap_call. rewrite Hquiet.
  destruct (match cap_fault (cw_log w) op with Some e => Err e | None => act (cw_tree w) end)
    as [[a t']|e] eqn:Hact; cbn.
  - destruct (cap_fault (cw_log w) op); [done|]. destruct (Ho _ _ _ Hw Hact). split; [done|].
    eexists [_]. split; [done|]. by repeat constructor.
  - destruct (He (cw_tree w) e Hw). split; [done|]. eexists [_]. split; [done|]. by repeat constructor.
Qed.

Lemma runs_look {A} (I P : tree -> Prop) op handle (act : tree -> result io_error A) Q :
  (forall t, P t -> I t) -> (forall t e, P t -> Q (Err e) t) ->
  (forall t a, P t -> act t = Ok a -> Q (Ok a) t) ->
  runs I P (cap_call op handle (looking act)) Q.
Proof.
  intros Hi He Ho. apply runs_call; [auto|]. intros t a t' Hp. unfold looking.
  destruct (act t) as [b|] eqn:Ha; cbn; [|done]. intros [= <- <-]. auto.
Qed.

Lemma runs_act (I P : tree -> Prop) op handle (act : tree -> result io_error tree) Q :
  (forall t, P t -> I t) -> (forall t e, P t -> Q (Err e) t) ->
  (forall t t', P t -> act t = Ok t' -> I t' /\ Q (Ok tt) t') ->
  runs I P (cap_call op handle (acting act)) Q.
Proof.
  intros Hi He Ho. apply runs_call; [auto|]. intros t [] t' Hp. unfold acting.
  destruct (act t) as [b|] eqn:Ha; cbn; [|done]. intros [= <-]. eauto.
Qed.

Lemma runs_ask {A} (I P : tree -> Prop) op (answer : cap_log -> A) Q :
  (forall t, P t -> I t) -> (forall a t, P t -> Q a t) -> runs I P (cap_ask op answer) Q.
Proof.
  intros Hi Hq w Hw. unfold cap_ask. cbn. rewrite Hquiet. split; [auto|].
  eexists [_]. split; [done|]. repeat constructor. by apply Hi.
Qed.

Lemma runs_failed {A} (I P : tree -> Prop) reason (m : io CapW (result io_error A)) Q :
  runs I P m (fun r => Q (map_err (fun _ => reason) r)) -> runs I P (failed_as reason m) Q.
Proof. apply runs_map. Qed.

(** ** Reaching a directory *)

(** Facts that survive the creation of a directory. *)
Definition mkdir_stable (F : tree -> Prop) : Prop :=
  forall t d n t', F t -> create_dir_in t d n = Ok t' -> F t'.

Lemma create_dir_in_spec t d n t' :
  create_dir_in t d n = Ok t' -> is_dir t d = true /\ entry t d n = None /\ t' = add_new t d n IDir.
Proof.
  unfold create_dir_in. destruct (is_dir t d); [|done]. cbn [negb].
  destruct (entry t d n); [done|]. by intros [= <-].
Qed.

Lemma open_dir_in_spec t d n c :
  open_dir_in t d n = Ok c -> entry t d n = Some c /\ is_dir t c = true.
Proof.
  unfold open_dir_in. destruct (entry t d n) as [e|]; [|done]. destruct (is_dir t e) eqn:Hd; [|done].
  by intros [= <-].
Qed.

Context (I F : tree -> Prop) (HI : forall t, F t -> I t).

Lemma runs_open_dir dir name (P : tree -> Prop) :
  (forall t, P t -> F t) ->
  runs I P (failed (open_dir_nofollow dir name))
    (fun r t => P t /\ forall c, r = Ok c -> entry t dir name = Some c /\ is_dir t c = true).
Proof.
  intros Hp. apply runs_map, runs_look; [auto|by intros|].
  intros t c Ht Hc. split; [done|]. intros c' [= <-]. by apply open_dir_in_spec.
Qed.

Lemma descend_spec (P : tree -> Prop) dir name create :
  (forall t, P t -> F t) -> (create = true -> mkdir_stable P) ->
  runs I P (descend dir name create)
    (fun r t => P t /\ forall c, r = Ok c -> entry t dir name = Some c /\ is_dir t c = true).
Proof.
  intros Hp Hs. unfold descend. eapply runs_bind.
  { apply (runs_look _ _ _ _ _ (fun r t => P t /\ forall c, r = Ok c -> entry t dir name = Some c /\ is_dir t c = true));
      [auto|by intros|]. intros t c Ht Hc. split; [done|]. intros c' [= <-]. by apply open_dir_in_spec. }
  intros [c|e]; [apply runs_ret; intros t [Ht Hc]; split; [done|]; intros ? [= <-]; by apply Hc|].
  destruct (create && bool_decide _)%bool eqn:Hc; [|apply runs_ret; intros t [Ht _]; by split].
  apply andb_prop in Hc as [-> _]. specialize (Hs eq_refl).
  apply (runs_conseq _ P _ _ (fun r t => P t /\ forall c, r = Ok c -> entry t dir name = Some c /\ is_dir t c = true));
    [|by intros t [? _]|done].
  eapply runs_bind.
  { apply (runs_act _ _ _ _ _ (fun _ t => P t)); [auto|done|]. intros t t' Ht Hm.
    assert (P t') by (by eapply Hs). auto. }
  intros [[]|e']; [by apply runs_open_dir|].
  case_bool_decide; [by apply runs_open_dir|]. apply runs_ret. by split.
Qed.

Lemma parent_parts_spec (P : tree -> Prop) root parts before dir create :
  (forall t, P t -> F t) -> (create = true -> mkdir_stable P) ->
  (forall t, P t -> walk t root before = Some dir) ->
  runs I P (parent_parts dir parts create)
    (fun r t => P t /\ forall d name, r = Ok (d, name) ->
       exists mid, parts = mid ++ [name] /\ walk t root (before ++ mid) = Some d).
Proof.
  revert P before dir. induction parts as [|part rest IH]; intros P before dir Hp Hs Hw.
  { apply runs_ret. by split. }
  destruct rest as [|part2 rest].
  { apply runs_ret. intros t Ht. split; [done|]. intros d name [= <- <-]. exists []. rewrite app_nil_r.
    split; [done|by apply Hw]. }
  cbn [parent_parts]. eapply runs_try; [by apply descend_spec|..].
  - intros child.
    apply (runs_conseq _ (fun t => P t /\ entry t dir part = Some child /\ is_dir t child = true) _ _
      (fun r t => (P t /\ entry t dir part = Some child /\ is_dir t child = true)
         /\ forall d name, r = Ok (d, name) ->
            exists mid, part2 :: rest = mid ++ [name] /\ walk t root ((before ++ [part]) ++ mid) = Some d)).
    + apply IH.
      * intros t [Ht _]. by apply Hp.
      * intros Hc t d n t' (Ht & He & Hd) Hm. split; [by eapply (Hs Hc)|].
        apply create_dir_in_spec in Hm as (_ & Hno & ->).
        pose proof (add_new_extends t d n IDir Hno) as Hx.
        split; [by apply Hx|]. apply is_dir_spec, (ex_kind _ _ Hx). by apply is_dir_spec.
      * intros t (Ht & He & Hd). apply walk_snoc. exists dir. by rewrite (Hw t Ht).
    + intros t [Ht Hc]. by destruct (Hc child eq_refl).
    + intros r t [[Ht _] Hr]. split; [done|]. intros d name Heq.
      destruct (Hr d name Heq) as (mid & -> & Hwalk). exists (part :: mid).
      by rewrite <- app_assoc in Hwalk.
  - intros e t [Ht _]. by split.
Qed.

Lemma parent_spec (P : tree -> Prop) root path create :
  (forall t, P t -> F t) -> (create = true -> mkdir_stable P) ->
  runs I P (parent root path create)
    (fun r t => P t /\ forall d name, r = Ok (d, name) ->
       located t root path d name /\ safe_relative path = Ok tt).
Proof.
  intros Hp Hs. unfold parent. destruct (safe_relative path) as [[]|reason]; [|by apply runs_ret].
  apply (runs_try _ _ _ _ (fun r t => P t /\ forall d, r = Ok d -> d = root)).
  - apply runs_map, runs_look; [auto|by intros|]. intros t a Ht [= <-]. split; [done|]. by intros ? [= <-].
  - intros dir.
    eapply (runs_conseq _ (fun t => dir = root /\ P t)); [| |intros r t Hr; exact Hr].
    + apply runs_pure. intros ->.
      eapply runs_conseq; [apply (parent_parts_spec P root _ [] root create); [done|done|by intros]|done|].
      intros r t [Ht Hr]. split; [done|]. intros d name Heq. destruct (Hr d name Heq) as (mid & ? & ?).
      split; [by exists mid|done].
    + intros t Hr. cbn in Hr. destruct Hr as [Ht Hd]. split; [by apply Hd|done].
  - intros e t [Ht _]. by split.
Qed.

(** ** Looking *)

(** An entry of the right kind. *)
Definition has_entry_at (t : tree) (d : nat) (name : string) (kind : CacheEntryKind) : Prop :=
  exists i k, entry t d name = Some i /\ kind_of t i = Some k
              /\ kind_fits kind (MkMetadata i k (nlink t i)) = true.

Definition has_entry (t : tree) (root : nat) (e : CacheEntry) : Prop :=
  exists d name, located t root (ce_path e) d name /\ has_entry_at t d name (ce_kind e).

Lemma substring_all n b : (String.length b <= n)%nat -> String.substring 0 n b = b.
Proof.
  revert n. induction b as [|c b IH]; intros [|n]; cbn; try lia; try done.
  intros Hn. f_equal. apply IH. lia.
Qed.

Lemma metadata_of_spec t i m :
  metadata_of t i = Ok m -> exists k, kind_of t i = Some k /\ m = MkMetadata i k (nlink t i).
Proof. unfold metadata_of. destruct (kind_of t i) as [k|]; [|done]. intros [= <-]. eauto. Qed.

Lemma open_file_in_spec t d n i : open_file_in t d n = Ok i -> entry t d n = Some i.
Proof.
  unfold open_file_in. destruct (entry t d n) as [c|]; [|done].
  destruct (kind_of t c) as [[]|]; try done; by intros [= <-].
Qed.

Lemma matches_at_spec (P : tree -> Prop) d name a :
  (forall t, P t -> F t) ->
  runs I P (matches_at d name a)
    (fun r t => P t /\ (r = Ok true -> has_file_at t d name (ca_bytes a))).
Proof.
  intros Hp. unfold matches_at. eapply runs_bind.
  { apply (runs_look _ _ _ _ _ (fun r t => P t /\ forall i, r = Ok i -> entry t d name = Some i));
      [auto|by intros|]. intros t i Ht Hi. split; [done|]. intros ? [= <-]. by apply open_file_in_spec. }
  intros [i|e]; [|apply runs_ret; intros t [Ht _]; split; [done|by case_bool_decide]].
  apply (runs_try _ _ _ _ (fun r t => P t /\ entry t d name = Some i
           /\ forall m, r = Ok m -> exists k, kind_of t i = Some k /\ m = MkMetadata i k (nlink t i))).
  { apply runs_map, runs_look; [intros t [? _]; auto|..].
    - intros t e [Ht Hi]. split_and!; [done|by apply Hi|done].
    - intros t m [Ht Hi] Hm. split_and!; [done|by apply Hi|]. intros ? [= <-]. by apply metadata_of_spec. }
  2:{ intros e t [Ht _]. by split. }
  intros m. destruct (md_is_file m) eqn:Hf; cbn [negb orb]; [|apply runs_ret; intros t [Ht _]; by split].
  destruct (Nat.eqb_spec (md_nlink m) 1) as [Hl|]; cbn [negb]; [|apply runs_ret; intros t [Ht _]; by split].
  destruct (N.ltb_spec MAX_FILE (md_len m)) as [|Hmax]; cbn [orb]; [apply runs_ret; intros t [Ht _]; by split|].
  destruct (N.eqb_spec (md_len m) (str_len (ca_bytes a))) as [Hlen|]; cbn [negb];
    [|apply runs_ret; intros t [Ht _]; by split].
  apply (runs_try _ _ _ _ (fun r t => P t /\ forall b, r = Ok b -> b = ca_bytes a -> has_file_at t d name b)).
  { apply runs_map, runs_look; [intros t [? _]; auto|intros t e [Ht _]; by split|].
    intros t b (Ht & Hi & Hm) Hb. split; [done|]. intros b' [= <-] ->.
    destruct (Hm m eq_refl) as (k & Hk & ->). cbn in *. rewrite Hk in Hb.
    destruct k as [|bytes| |]; try done. injection Hb as Hb. cbn [md_len md_kind] in *.
    rewrite substring_all in Hb; [subst; by exists i|].
    unfold str_len in Hmax, Hlen. lia. }
  - intros b. apply runs_ret. intros t [Ht Hb]. split; [done|]. intros [= Heq].
    apply String.eqb_eq in Heq. subst. by apply Hb.
  - intros e t [Ht _]. by split.
Qed.

Lemma matches_spec (P : tree -> Prop) root a :
  (forall t, P t -> F t) ->
  runs I P (matches root a)
    (fun r t => P t /\ (r = Ok true -> has_file t root (ca_path a) (ca_bytes a))).
Proof.
  intros Hp. unfold matches. eapply runs_bind; [by apply parent_spec|]. intros [[d name]|e].
  - apply (runs_conseq I (fun t => P t /\ located t root (ca_path a) d name) _ _
      (fun r t => (P t /\ located t root (ca_path a) d name)
                  /\ (r = Ok true -> has_file_at t d name (ca_bytes a)))).
    + apply matches_at_spec. intros t [Ht _]. auto.
    + intros t [Ht Hl]. destruct (Hl d name eq_refl). by split.
    + intros r t [[Ht Hl] Hr]. split; [done|]. intros Heq. exists d, name. split; [done|]. by apply Hr.
  - apply runs_ret. intros t [Ht _]. by split.
Qed.

Lemma link_metadata_spec (P : tree -> Prop) d name :
  (forall t, P t -> F t) ->
  runs I P (symlink_metadata d name)
    (fun r t => P t /\ forall m, r = Ok m -> exists i k, entry t d name = Some i
                /\ kind_of t i = Some k /\ m = MkMetadata i k (nlink t i)).
Proof.
  intros Hp. apply runs_look; [auto|by intros|]. intros t m Ht Hm. split; [done|]. intros ? [= <-].
  destruct (entry t d name) as [i|] eqn:He; [|done].
  apply metadata_of_spec in Hm as (k & ? & ->). eauto.
Qed.

Lemma required_spec (P : tree -> Prop) root e :
  (forall t, P t -> F t) ->
  runs I P (required root e) (fun r t => P t /\ (r = Ok true -> has_entry t root e)).
Proof.
  intros Hp. unfold required. eapply runs_bind; [by apply parent_spec|]. intros [[d name]|err].
  2:{ apply runs_ret. intros t [Ht _]. by split. }
  eapply runs_bind.
  - apply (runs_conseq I (fun t => P t /\ located t root (ce_path e) d name) _ _
      (fun r t => (P t /\ located t root (ce_path e) d name) /\ forall m, r = Ok m ->
         exists i k, entry t d name = Some i /\ kind_of t i = Some k /\ m = MkMetadata i k (nlink t i))).
    + apply link_metadata_spec. intros t [Ht _]. auto.
    + intros t [Ht Hl]. destruct (Hl d name eq_refl). by split.
    + intros r t Hr. exact Hr.
  - intros r. apply runs_ret. intros t [[Ht Hl] Hr]. split; [done|]. intros Heq.
    destruct r as [m|err]; [|by case_bool_decide]. destruct (Hr m eq_refl) as (i & k & ? & ? & ->).
    exists d, name. split; [done|]. exists i, k. split_and!; [done..|]. by injection Heq.
Qed.

Lemma all_hold_spec {A} (check : A -> io CapW (result string bool)) (G : A -> tree -> Prop) l (P : tree -> Prop) :
  (forall (R : tree -> Prop), (forall t, R t -> F t) -> forall a,
     runs I R (check a) (fun r t => R t /\ (r = Ok true -> G a t))) ->
  (forall t, P t -> F t) ->
  runs I P (all_hold check l) (fun r t => P t /\ (r = Ok true -> Forall (fun a => G a t) l)).
Proof.
  intros Hc. revert P. induction l as [|a l IH]; intros P Hp; cbn [all_hold].
  { apply runs_ret. intros t Ht. split; [done|]. intros _. constructor. }
  eapply runs_try; [by apply Hc|..]; [|intros e t [Ht _]; by split].
  intros [|]; [|apply runs_ret; intros t [Ht _]; by split].
  apply (runs_conseq I (fun t => P t /\ G a t) _ _
    (fun r t => (P t /\ G a t) /\ (r = Ok true -> Forall (fun a => G a t) l))).
  - apply IH. intros t [Ht _]. auto.
  - intros t [Ht Hg]. split; [done|by apply Hg].
  - intros r t [[Ht Hg] Hr]. split; [done|]. intros Heq. constructor; [done|by apply Hr].
Qed.

Lemma descend_all_keeps (P : tree -> Prop) dir names :
  (forall t, P t -> F t) -> runs I P (descend_all dir names false) (fun _ t => P t).
Proof.
  intros Hp. revert dir. induction names as [|n names IH]; intros dir; cbn [descend_all]; [by apply runs_ret|].
  eapply runs_try; [by apply descend_spec|..].
  - intros c. eapply runs_conseq; [apply IH|intros t [Ht _]; exact Ht|done].
  - by intros e t [Ht _].
Qed.

Lemma check_binding_keeps (P : tree -> Prop) s :
  (forall t, P t -> F t) -> runs I P (check_binding s) (fun _ t => P t).
Proof.
  intros Hp. assert (forall t, P t -> I t) as Hi by auto.
  assert (forall A op handle (act : tree -> result io_error A) reason,
    runs I P (failed_as reason (cap_call op handle (looking act))) (fun _ t => P t)) as Hlook.
  { intros. apply runs_map, runs_look; auto. }
  unfold check_binding. apply (runs_try _ _ _ _ (fun _ t => P t)).
  { unfold absolute. destruct (normal_names _) as [names|]; [|by apply runs_ret].
    apply (runs_try _ _ _ _ (fun _ t => P t)); [apply Hlook| |done]. intros dir. by apply descend_all_keeps. }
  2:{ done. }
  intros current. apply (runs_try _ _ _ _ (fun _ t => P t)).
  { unfold same_directory. apply (runs_try _ _ _ _ (fun _ t => P t)); [apply Hlook| |done].
    intros a. apply (runs_try _ _ _ _ (fun _ t => P t)); [apply Hlook| |done]. intros b. by apply runs_ret. }
  2:{ done. }
  intros [|]; cbn [negb]; [|by apply runs_ret].
  apply (runs_try _ _ _ _ (fun _ t => P t)); [apply Hlook| |done]. intros lock.
  apply (runs_try _ _ _ _ (fun _ t => P t)); [apply Hlook| |done]. intros m. by apply runs_ret.
Qed.

End Logic.
