(* ===== verification/CacheRebuild.v ===== *)
(** * A rebuild is atomic: nothing is found ready until all of it is

    What a recipe needs in place ([complete]), and how [install], [publish] and
    [readiness] relate to it while no other process interferes. *)

From stdpp Require Import fin_maps.
From S2P Require Import Prelude RustStd World Download WorkerTypes WorkerValidate CapFs CacheFiles.
From S2P Require Import CacheSession TreeFacts CacheFacts.

Open Scope rust_scope.

(** ** Facts that survive *)

Lemma has_entry_at_extends t t' d name kind :
  extends t t' -> has_entry_at t d name kind -> has_entry_at t' d name kind.
Proof.
  intros Hx (i & k & He & Hk & Hf). exists i, k. split_and!; [by apply Hx|by apply Hx|].
  rewrite (ex_nlink _ _ Hx); [done|eauto].
Qed.

Lemma has_file_extends t t' root path b : extends t t' -> has_file t root path b -> has_file t' root path b.
Proof.
  intros Hx (d & name & ? & ?). exists d, name. split; [by eapply located_extends|by eapply has_file_at_extends].
Qed.

Lemma has_entry_extends t t' root e : extends t t' -> has_entry t root e -> has_entry t' root e.
Proof.
  intros Hx (d & name & ? & ?). exists d, name. split; [by eapply located_extends|by eapply has_entry_at_extends].
Qed.

Lemma extends_stable (P : tree -> Prop) :
  (forall t t', extends t t' -> P t -> P t') -> mkdir_stable P.
Proof.
  intros Hp t d n t' Ht (_ & Hno & ->)%create_dir_in_spec. eapply Hp; [by apply add_new_extends|done].
Qed.

Lemma mkdir_stable_and (P Q : tree -> Prop) :
  mkdir_stable P -> mkdir_stable Q -> mkdir_stable (fun t => P t /\ Q t).
Proof. intros Hp Hq t d n t' [? ?] Hm. split; [by eapply Hp|by eapply Hq]. Qed.

Lemma mkdir_stable_wf : mkdir_stable tree_wf.
Proof. intros t d n t' Hwf (Hd & Hno & ->)%create_dir_in_spec. by apply add_new_wf. Qed.

(** A new directory is not a file, and nothing is in it. *)
Lemma no_file_mkdir t d n t' root path :
  tree_wf t -> no_file t root path -> create_dir_in t d n = Ok t' -> no_file t' root path.
Proof.
  intros Hwf Hno (Hd & Hnone & ->)%create_dir_in_spec d' name i bytes (ps & Hs & Hw) He Hk.
  pose proof (add_new_extends t d n IDir Hnone) as Hx.
  rewrite kind_add_new in Hk. case_decide; [done|].
  destruct (ex_new _ _ Hx _ _ _ He) as [Hold|]; [|congruence].
  apply (Hno d' name i bytes); [|done|done]. exists ps. split; [done|].
  eapply walk_back; [done|exact Hx|done|]. destruct (tw_entry _ Hwf _ _ _ Hold). eauto.
Qed.

Lemma mkdir_stable_no_file root path : mkdir_stable (fun t => tree_wf t /\ no_file t root path).
Proof.
  intros t d n t' [Hwf Hno] Hm. split; [by eapply mkdir_stable_wf|by eapply no_file_mkdir].
Qed.

(** ** The staging directory *)

(** Directly below the root, under a name of the router's. *)
Definition staging_at (t : tree) (root stage_dir : nat) : Prop :=
  exists name, walk t root [name] = Some stage_dir /\ router_owned name = true.

(** A path that does not lead into the staging directory. *)
Definition aloof (t : tree) (root stage_dir : nat) (path : string) : Prop :=
  forall d name, located t root path d name -> d <> stage_dir.

Lemma relative_parts path : relative path = Ok tt -> Forall (fun p => router_owned p = false) (split_on "/" path).
Proof.
  unfold relative. destruct (safe_relative path) as [[]|]; cbn [result_bind]; [|done].
  destruct (existsb router_owned (split_on "/" path)) eqn:Hx; [done|]. intros _.
  apply Forall_forall. intros p Hp. destruct (router_owned p) eqn:Hr; [|done].
  assert (existsb router_owned (split_on "/" path) = true) as Ht; [|congruence].
  apply existsb_exists. exists p. split; [by apply list_elem_of_In|done].
Qed.

Lemma aloof_relative t root stage_dir path :
  tree_wf t -> staging_at t root stage_dir -> relative path = Ok tt -> aloof t root stage_dir path.
Proof.
  intros Hwf (nm & Hst & Hr) Hrel d name (ps & Hs & Hw) ->.
  apply relative_parts in Hrel. rewrite Hs in Hrel.
  rewrite (walk_unique _ _ _ _ _ Hwf Hw Hst) in Hrel. apply Forall_app in Hrel as [Hrel _].
  inversion Hrel. congruence.
Qed.

Lemma aloof_single t root stage_dir path :
  tree_wf t -> staging_at t root stage_dir -> split_on "/" path = [path] -> aloof t root stage_dir path.
Proof.
  intros Hwf (nm & Hst & _) Hone d name (ps & Hs & Hw) ->. rewrite Hone in Hs.
  destruct ps as [|p ps]; [|destruct ps; discriminate].
  pose proof (walk_unique _ _ _ _ _ Hwf Hw Hst). done.
Qed.

Lemma staging_at_same t t' root stage_dir :
  same_dirs t t' -> staging_at t root stage_dir -> staging_at t' root stage_dir.
Proof. intros Hs (nm & Hw & Hr). exists nm. by rewrite (walk_same t t' _ _ Hs). Qed.

Lemma staging_at_extends t t' root stage_dir :
  extends t t' -> staging_at t root stage_dir -> staging_at t' root stage_dir.
Proof. intros Hx (nm & Hw & Hr). exists nm. split; [by eapply walk_extends|done]. Qed.

(** ** A file moves from the staging directory to a path *)

Section Moved.
Context (t t' : tree) (root stage_dir d : nat) (name target dest bytes : string).
Context (Hwf : tree_wf t) (Hm : moved t stage_dir name d target bytes t').
Context (Hdest : located t root dest d target).

Lemma moved_placed : has_file t' root dest bytes.
Proof.
  exists d, target. split; [|apply Hm]. by apply (located_same t t' _ _ _ _ (mv_dirs _ _ _ _ _ _ _ Hm)).
Qed.

Lemma moved_other_key path d' n' :
  aloof t root stage_dir path -> located t root path d' n' -> path <> dest ->
  (d', n') <> (stage_dir, name) /\ (d', n') <> (d, target).
Proof.
  intros Ha Hl Hne. split; intros [= -> ->]; [by apply (Ha _ _ Hl)|].
  apply Hne. by eapply located_unique.
Qed.

Lemma moved_keeps_file path b :
  aloof t root stage_dir path -> path <> dest -> has_file t root path b -> has_file t' root path b.
Proof.
  intros Ha Hne (d' & n' & Hl & Hf). destruct (moved_other_key _ _ _ Ha Hl Hne) as [H1 H2].
  exists d', n'. split; [by apply (located_same t t' _ _ _ _ (mv_dirs _ _ _ _ _ _ _ Hm))|].
  by eapply moved_has_file.
Qed.

(** An entry of the path itself is replaced by a file, which is of every kind a file
    could replace. *)
Lemma moved_keeps_entry e :
  aloof t root stage_dir (ce_path e) -> has_entry t root e -> has_entry t' root e.
Proof.
  intros Ha (d' & n' & Hl & i & k & He & Hk & Hf). exists d', n'.
  split; [by apply (located_same t t' _ _ _ _ (mv_dirs _ _ _ _ _ _ _ Hm))|].
  destruct (decide ((d', n') = (d, target))) as [[= -> ->]|H2].
  - destruct (mv_placed _ _ _ _ _ _ _ Hm) as (j & Hj & Hkj & Hlj). exists j, (IFile bytes).
    split_and!; [done|done|]. pose proof (mv_target _ _ _ _ _ _ _ Hm _ He) as Hnd.
    unfold kind_fits, md_is_file, md_is_dir in *. cbn in *. rewrite Hlj.
    destruct (ce_kind e); [done| |done]. by destruct k.
  - assert ((d', n') <> (stage_dir, name)) as H1 by (intros [= -> ->]; by apply (Ha _ _ Hl)).
    exists i, k. split_and!.
    + by rewrite (mv_entry _ _ _ _ _ _ _ Hm).
    + by rewrite (mv_kind _ _ _ _ _ _ _ Hm).
    + destruct (ce_kind e); [|exact Hf|exact Hf]. unfold kind_fits in *. cbn in *.
      apply andb_prop in Hf as [Hf Hlk]. apply Nat.eqb_eq in Hlk.
      apply andb_true_intro. split; [exact Hf|].
      by rewrite (mv_nlink _ _ _ _ _ _ _ Hm d' n' i H1 H2 He Hlk).
Qed.

Lemma moved_keeps_staged n' b :
  d <> stage_dir -> n' <> name -> has_file_at t stage_dir n' b -> has_file_at t' stage_dir n' b.
Proof. intros Hd Hn Hf. eapply moved_has_file; [exact Hm|congruence|congruence|done]. Qed.

Lemma moved_keeps_no_file path :
  path <> dest -> no_file t root path -> no_file t' root path.
Proof.
  intros Hne Hno d' n' i b Hl He Hk.
  apply (located_same t t' _ _ _ _ (mv_dirs _ _ _ _ _ _ _ Hm)) in Hl.
  assert ((d', n') <> (d, target)) as H2.
  { intros [= -> ->]. apply Hne. by eapply located_unique. }
  destruct (decide ((d', n') = (stage_dir, name))) as [[= -> ->]|H1].
  - rewrite (mv_gone _ _ _ _ _ _ _ Hm) in He. done.
  - rewrite (mv_entry _ _ _ _ _ _ _ Hm) in He by done. rewrite (mv_kind _ _ _ _ _ _ _ Hm) in Hk.
    by apply (Hno d' n' i b).
Qed.

End Moved.

(** ** Promoting *)

Section Promote.
Context `{E : CapEnv} (Hquiet : quiet).

Lemma cache_promote_spec (I P : tree -> Prop) stage_dir name root dest bytes :
  (forall t, P t -> I t) -> mkdir_stable P ->
  (forall t, P t -> tree_wf t /\ has_file_at t stage_dir name bytes /\ aloof t root stage_dir dest) ->
  (forall t d target t', P t -> located t root dest d target ->
     moved t stage_dir name d target bytes t' -> I t') ->
  runs I P (promote stage_dir name root dest)
    (fun r t' => match r with
                 | Ok _ => safe_relative dest = Ok tt /\ exists t d target,
                     P t /\ located t root dest d target /\ moved t stage_dir name d target bytes t'
                 | Err _ => P t'
                 end).
Proof.
  intros Hi Hs Hp Hmv. unfold promote. eapply runs_try.
  - apply (parent_spec Hquiet I P Hi P root dest true); [auto|by intros _].
  - intros [d target]. eapply runs_bind.
    + eapply runs_conseq.
      * apply (link_metadata_spec Hquiet I P Hi
                 (fun t => P t /\ (located t root dest d target /\ safe_relative dest = Ok tt)) d target).
        by intros t [Ht _].
      * intros t [Ht Hl]. split; [done|by apply Hl].
      * intros r t Hr. exact Hr.
    + intros found. destruct (match found with Ok m => _ | Err _ => _ end).
      * apply runs_ret. by intros t [[Ht _] _].
      * apply runs_map, runs_act; [done| | |].
        -- intros t [[Ht _] _]. auto.
        -- by intros t e [[Ht _] _].
        -- intros t t' [[Ht [Hl Hsafe]] _] Hr. destruct (Hp t Ht) as (Hwf & (i & He & Hk & Hn) & Ha).
           destruct (rename_file_spec t stage_dir name d target i bytes t' Hwf He Hk Hn) as [Hm _]; [|done|].
           { intros [= <- _]. by apply (Ha _ _ Hl). }
           split; [by eapply Hmv|]. split; [done|]. by exists t, d, target.
  - intros e t [Ht _]. exact Ht.
Qed.

End Promote.

(** ** What a recipe needs *)

Definition artifacts_in (t : tree) (root : nat) (r : CacheRecipe) : Prop :=
  Forall (fun a => has_file t root (ca_path a) (ca_bytes a)) (cr_artifacts r).
Definition required_in (t : tree) (root : nat) (r : CacheRecipe) : Prop :=
  Forall (has_entry t root) (cr_required r).

(** Everything a cached recipe consists of. *)
Definition complete (t : tree) (root : nat) (r : CacheRecipe) (ident : CacheArtifact) : Prop :=
  has_file t root (ca_path (cr_marker r)) (ca_bytes (cr_marker r))
  /\ required_in t root r /\ artifacts_in t root r
  /\ has_file t root (ca_path ident) (ca_bytes ident).

(** A file of the router's, directly below the root. *)
Definition own_file (a : CacheArtifact) : Prop :=
  split_on "/" (ca_path a) = [ca_path a] /\ router_owned (ca_path a) = true.

Lemma own_file_not_relative a path : own_file a -> relative path = Ok tt -> path <> ca_path a.
Proof.
  intros [Hs Ho] Hr ->. apply relative_parts in Hr. rewrite Hs in Hr. inversion Hr. congruence.
Qed.

Lemma recipe_relative r :
  recipe r = Ok tt ->
  relative (ca_path (cr_marker r)) = Ok tt
  /\ Forall (fun a => relative (ca_path a) = Ok tt /\ ca_path a <> ca_path (cr_marker r)) (cr_artifacts r)
  /\ Forall (fun e => relative (ce_path e) = Ok tt) (cr_required r)
  /\ NoDup (map ca_path (cr_artifacts r)).
Proof.
  intros (Hrel & _ & Hnd & _)%recipe_sound. unfold recipe_paths in Hrel.
  rewrite List.map_app in Hrel, Hnd. apply Forall_app in Hrel as [Hrel Hreq].
  apply Forall_app in Hrel as [Ha Hm]. inversion_clear Hm as [|? ? Hm' _].
  apply NoDup_app in Hnd as (Hnd & Hdis & _). rewrite List.Forall_map in Ha, Hreq.
  split_and!; [done| |done|done]. rewrite Forall_forall in Ha. apply Forall_forall. intros a Hin.
  split; [by apply Ha|]. intros Heq. apply (Hdis (ca_path a)).
  - by apply list_elem_of_fmap_2.
  - rewrite Heq. by apply list_elem_of_singleton.
Qed.

Section MovedParts.
Context (t t' : tree) (root stage_dir d : nat) (name target dest bytes : string) (r : CacheRecipe).
Context (Hwf : tree_wf t) (Hm : moved t stage_dir name d target bytes t').
Context (Hdest : located t root dest d target) (Hat : staging_at t root stage_dir).
Context (Hr : recipe r = Ok tt).

Lemma moved_keeps_required : required_in t root r -> required_in t' root r.
Proof.
  destruct (recipe_relative r Hr) as (_ & _ & Hreq & _). intros H.
  eapply Forall_impl; [apply Forall_and; split; [exact H|exact Hreq]|].
  intros e [He Hrel]. eapply moved_keeps_entry; [exact Hm..|by apply aloof_relative|done].
Qed.

Lemma moved_keeps_artifacts :
  Forall (fun a => ca_path a <> dest) (cr_artifacts r) -> artifacts_in t root r -> artifacts_in t' root r.
Proof.
  destruct (recipe_relative r Hr) as (_ & Hart & _ & _). intros Hne H.
  eapply Forall_impl; [apply Forall_and; split; [exact H|apply Forall_and; split; [exact Hart|exact Hne]]|].
  intros a (Ha & [Hrel _] & Hd). eapply moved_keeps_file; [exact Hwf|exact Hm|exact Hdest|by apply aloof_relative|done|done].
Qed.

End MovedParts.

(** ** Publishing *)

(** What the session holds between [install] and [publish]. *)
Record prepared (t : tree) (r : CacheRecipe) (root stage_dir : nat) (ident : CacheArtifact) : Prop := {
  pr_wf : tree_wf t;
  pr_unmarked : no_file t root (ca_path (cr_marker r));
  pr_staging : staging_at t root stage_dir;
  pr_identity : has_file_at t stage_dir "identity" (ca_bytes ident);
  pr_marker : has_file_at t stage_dir "marker" (ca_bytes (cr_marker r))
}.

Lemma prepared_stable r root stage_dir ident :
  mkdir_stable (fun t => prepared t r root stage_dir ident).
Proof.
  intros t d n t' [Hwf Hno Hst Hi Hmk] Hm. pose proof Hm as (_ & Hnone & ->)%create_dir_in_spec.
  pose proof (add_new_extends t d n IDir Hnone) as Hx. constructor.
  - by eapply mkdir_stable_wf.
  - by eapply no_file_mkdir.
  - by eapply staging_at_extends.
  - by eapply has_file_at_extends.
  - by eapply has_file_at_extends.
Qed.

Lemma required_stable r root : mkdir_stable (fun t => required_in t root r).
Proof.
  apply extends_stable. intros t t' Hx H. eapply Forall_impl; [exact H|]. intros e. by apply has_entry_extends.
Qed.

Lemma artifacts_stable r root : mkdir_stable (fun t => artifacts_in t root r).
Proof.
  apply extends_stable. intros t t' Hx H. eapply Forall_impl; [exact H|]. intros a. by apply has_file_extends.
Qed.

(** The identity is in place, the marker is not. *)
Record identified (t : tree) (r : CacheRecipe) (root stage_dir : nat) (ident : CacheArtifact) : Prop := {
  id_wf : tree_wf t;
  id_unmarked : no_file t root (ca_path (cr_marker r));
  id_staging : staging_at t root stage_dir;
  id_marker : has_file_at t stage_dir "marker" (ca_bytes (cr_marker r));
  id_required : required_in t root r;
  id_artifacts : artifacts_in t root r;
  id_placed : has_file t root (ca_path ident) (ca_bytes ident)
}.

Lemma identified_stable r root stage_dir ident :
  mkdir_stable (fun t => identified t r root stage_dir ident).
Proof.
  intros t d n t' [Hwf Hno Hst Hmk Hreq Hart Hid] Hm.
  pose proof Hm as (_ & Hnone & ->)%create_dir_in_spec.
  pose proof (add_new_extends t d n IDir Hnone) as Hx. constructor.
  - by eapply mkdir_stable_wf.
  - by eapply no_file_mkdir.
  - by eapply staging_at_extends.
  - by eapply has_file_at_extends.
  - by eapply (required_stable r root t).
  - by eapply (artifacts_stable r root t).
  - by eapply has_file_extends.
Qed.

Section Publish.
Context `{E : CapEnv} (Hquiet : quiet).
Context (r : CacheRecipe) (root stage_dir : nat) (ident : CacheArtifact).
Context (Hr : recipe r = Ok tt) (Hown : own_file ident).

(** Every tree in between. *)
Definition all_or_nothing (t : tree) : Prop :=
  tree_wf t /\ (no_file t root (ca_path (cr_marker r)) \/ complete t root r ident).

Lemma own_aloof t : tree_wf t -> staging_at t root stage_dir -> aloof t root stage_dir (ca_path ident).
Proof. intros Hwf Hst. eapply aloof_single; [done..|apply Hown]. Qed.

Lemma move_identity t d target t' :
  prepared t r root stage_dir ident -> required_in t root r -> artifacts_in t root r ->
  located t root (ca_path ident) d target ->
  moved t stage_dir "identity" d target (ca_bytes ident) t' ->
  identified t' r root stage_dir ident.
Proof.
  intros [Hwf Hno Hst Hi Hmk] Hreq Hart Hl Hm.
  destruct (recipe_relative r Hr) as (Hrm & Hra & _ & _). constructor.
  - apply Hm.
  - eapply moved_keeps_no_file; [exact Hwf|exact Hm|exact Hl|by apply own_file_not_relative|done].
  - eapply staging_at_same; [apply Hm|done].
  - eapply moved_keeps_staged; [exact Hm|by apply (own_aloof t Hwf Hst _ _ Hl)|done|done].
  - by eapply moved_keeps_required.
  - eapply moved_keeps_artifacts; [exact Hwf|exact Hm|exact Hl|exact Hst|exact Hr| |exact Hart].
    eapply Forall_impl; [exact Hra|]. intros a [Hrel _]. by apply own_file_not_relative.
  - by eapply moved_placed.
Qed.

Lemma move_marker t d target t' :
  identified t r root stage_dir ident -> located t root (ca_path (cr_marker r)) d target ->
  moved t stage_dir "marker" d target (ca_bytes (cr_marker r)) t' ->
  complete t' root r ident /\ tree_wf t' /\ staging_at t' root stage_dir.
Proof.
  intros [Hwf Hno Hst Hmk Hreq Hart Hid] Hl Hm.
  destruct (recipe_relative r Hr) as (Hrm & Hra & _ & _).
  split; [|split; [apply Hm|eapply staging_at_same; [apply Hm|done]]]. split_and!.
  - by eapply moved_placed.
  - by eapply moved_keeps_required.
  - eapply moved_keeps_artifacts; [exact Hwf|exact Hm|exact Hl|exact Hst|exact Hr| |exact Hart].
    eapply Forall_impl; [exact Hra|]. by intros a [_ Hne].
  - eapply moved_keeps_file; [exact Hwf|exact Hm|exact Hl|by apply own_aloof| |exact Hid].
    apply not_eq_sym. by apply own_file_not_relative.
Qed.

(** How [publish] ends. *)
Definition published (res : result string unit) (t : tree) : Prop :=
  (tree_wf t /\ staging_at t root stage_dir)
  /\ match res with
     | Ok _ => complete t root r ident
     | Err _ => no_file t root (ca_path (cr_marker r))
     end.

(** Everything checked, nothing promoted. *)
Definition ready_to_promote (t : tree) : Prop :=
  (prepared t r root stage_dir ident /\ required_in t root r) /\ artifacts_in t root r.

Lemma promote_identity_spec :
  runs all_or_nothing ready_to_promote (promote stage_dir "identity" root (ca_path ident))
    (fun res t => match res with
                  | Ok _ => identified t r root stage_dir ident
                  | Err _ => ready_to_promote t
                  end).
Proof.
  assert (forall t d target t', ready_to_promote t -> located t root (ca_path ident) d target ->
            moved t stage_dir "identity" d target (ca_bytes ident) t' ->
            identified t' r root stage_dir ident) as Hmove.
  { intros t d target t' [[Ht Hreq] Hart] Hl Hm. by eapply move_identity. }
  eapply runs_conseq.
  - apply (cache_promote_spec Hquiet all_or_nothing ready_to_promote stage_dir "identity" root (ca_path ident) (ca_bytes ident)).
    + intros t [[[? ? _ _ _] _] _]. split; [done|by left].
    + apply mkdir_stable_and; [apply mkdir_stable_and|]; [apply prepared_stable|apply required_stable|apply artifacts_stable].
    + intros t [[Ht _] _]. split_and!; [apply Ht|apply Ht|]. apply own_aloof; apply Ht.
    + intros t d target t' Ht Hl Hm. destruct (Hmove t d target t' Ht Hl Hm). split; [done|by left].
  - done.
  - intros [[]|e] t; [|done]. intros (_ & t0 & d & target & Ht & Hl & Hm). by eapply Hmove.
Qed.

Lemma promote_marker_spec :
  runs all_or_nothing (fun t => identified t r root stage_dir ident)
    (promote stage_dir "marker" root (ca_path (cr_marker r))) published.
Proof.
  eapply runs_conseq.
  - apply (cache_promote_spec Hquiet all_or_nothing (fun t => identified t r root stage_dir ident)
             stage_dir "marker" root (ca_path (cr_marker r)) (ca_bytes (cr_marker r))).
    + intros t [? ? _ _ _ _ _]. split; [done|by left].
    + apply identified_stable.
    + intros t Ht. split_and!; [apply Ht|apply Ht|].
      apply aloof_relative; [apply Ht|apply Ht|apply (recipe_relative r Hr)].
    + intros t d target t' Ht Hl Hm. destruct (move_marker t d target t' Ht Hl Hm) as (? & ? & _). split; [done|by right].
  - done.
  - intros [[]|e] t; [|intros [? ? ? _ _ _ _]; by split]. intros (_ & t0 & d & target & Ht & Hl & Hm).
    by destruct (move_marker t0 d target t Ht Hl Hm) as (? & ? & ?).
Qed.

Lemma publish_spec (s : Session) :
  ss_root s = root -> ss_recipe_identity s = ident -> staging_directory s = Ok stage_dir ->
  runs all_or_nothing (fun t => prepared t r root stage_dir ident) (publish r s) published.
Proof.
  intros Hroot Hident Hdir. set (U := published (Err "")).
  assert (forall t, U t -> all_or_nothing t) as HU by (intros t [[? _] ?]; split; [done|by left]).
  set (P1 t := prepared t r root stage_dir ident).
  assert (forall t, P1 t -> U t) as HP1 by (intros t [? ? ? _ _]; by split).
  unfold publish. rewrite Hroot, Hident, Hdir.
  apply (runs_try _ _ _ _ (fun _ t => P1 t)); [by apply (check_binding_keeps Hquiet _ U HU)| |by intros e t ?%HP1].
  intros _. eapply runs_try.
  { apply (all_hold_spec _ U (required root) (fun e t => has_entry t root e) _ P1); [|exact HP1].
    intros R HR e. by apply (required_spec Hquiet _ U HU). }
  2:{ intros e t [?%HP1 _]. done. }
  intros [|]; cbn [negb]; [|apply runs_ret; by intros t [?%HP1 _]].
  set (P2 t := P1 t /\ required_in t root r). assert (forall t, P2 t -> U t) as HP2 by (intros t [?%HP1 _]; done).
  apply (runs_conseq _ P2 _ _ published); [|intros t [Ht Hreq]; split; [done|by apply Hreq]|done].
  eapply runs_try.
  { apply (all_hold_spec _ U (matches root) (fun a t => has_file t root (ca_path a) (ca_bytes a)) _ P2); [|exact HP2].
    intros R HR e. by apply (matches_spec Hquiet _ U HU). }
  2:{ intros e t [?%HP2 _]. done. }
  intros [|]; cbn [negb]; [|apply runs_ret; by intros t [?%HP2 _]].
  apply (runs_conseq _ ready_to_promote _ _ published); [|intros t [Ht Hart]; split; [done|by apply Hart]|done].
  eapply runs_try; [apply promote_identity_spec|intros []; apply promote_marker_spec|].
  intros e t [Ht _]. by apply HP2.
Qed.

End Publish.
