(* ===== verification/CacheReady.v ===== *)
(** * When a cache is ready

    Read in one piece, [readiness] is a question about the tree ([sees]): an accepted
    recipe is found cached exactly when everything it names is in place with its bytes.
    Also what the identity file's own name and bytes are. *)

From stdpp Require Import fin_maps.
From S2P Require Import Prelude RustStd World Download WorkerTypes WorkerValidate CapFs CacheFiles.
From S2P Require Import CacheSession TreeFacts CacheFacts CacheRebuild.

Open Scope rust_scope.

(** ** The recipe's identity *)

Definition is_hex_digit (c : ascii) : bool :=
  is_ascii_digit c || (97 <=? N_of_ascii c)%N && (N_of_ascii c <=? 102)%N.

(** What SHA-256 and [hex] document of their results. *)
Class DigestLaw `(Sha256) : Prop := {
  digest_length message : String.length (sha256 message) = 32%nat;
  hex_length bytes : String.length (hex_encode bytes) = (2 * String.length bytes)%nat;
  hex_digits bytes : string_forallb is_hex_digit (hex_encode bytes) = true
}.

Lemma hex_digit_range c :
  is_hex_digit c = true -> (48 <= N_of_ascii c <= 57)%N \/ (97 <= N_of_ascii c <= 102)%N.
Proof.
  unfold is_hex_digit, is_ascii_digit. intros [H|H]%orb_true_iff; apply andb_true_iff in H as [H1 H2];
    apply N.leb_le in H1, H2; lia.
Qed.

Lemma hex_digit_not c b :
  is_hex_digit c = true -> is_hex_digit b = false -> negb (Ascii.eqb b c) = true.
Proof. intros Hc Hb. apply negb_true_iff, Ascii.eqb_neq. congruence. Qed.

Definition IDENTITY_PREFIX : string := ".tinyruntime-recipe-".

Section Identity.
Context (h : string) (Hhex : string_forallb is_hex_digit h = true) (Hlen : String.length h = 64%nat).

Lemma identity_without b :
  contains_byte b IDENTITY_PREFIX = false -> is_hex_digit b = false ->
  contains_byte b (IDENTITY_PREFIX +:+ h) = false.
Proof.
  rewrite !contains_byte_forallb, string_forallb_append. intros -> Hb. cbn [andb].
  eapply string_forallb_impl; [|exact Hhex]. intros c Hc. by apply hex_digit_not.
Qed.

Lemma identity_name_safe : unsafe_part (IDENTITY_PREFIX +:+ h) = false.
Proof.
  assert (forbidden (IDENTITY_PREFIX +:+ h) = false) as Hforbidden.
  { unfold forbidden. apply bool_decide_eq_false. intros Hin.
    assert (Forall (fun s => (String.length s < 20)%nat) forbidden_names) as Hall by (repeat constructor; cbn; lia).
    rewrite Forall_forall in Hall. specialize (Hall _ Hin).
    unfold to_ascii_lowercase in Hall. rewrite string_map_length, string_length_app in Hall.
    cbn in Hall. lia. }
  assert (forall b, is_hex_digit b = false -> ends_with_byte b (IDENTITY_PREFIX +:+ h) = false) as Hends.
  { intros b Hb. unfold ends_with_byte, String.rev. rewrite rev_app_append.
    destruct (rev_app_last _ h (String.rev_app IDENTITY_PREFIX "") Hhex) as (c & rest & -> & Hc);
      [by intros ->|]. apply negb_true_iff. by apply hex_digit_not. }
  unfold unsafe_part. rewrite Hforbidden, !Hends by done. reflexivity.
Qed.

Lemma identity_path_safe : safe_relative (IDENTITY_PREFIX +:+ h) = Ok tt.
Proof.
  unfold safe_relative. rewrite !identity_without by done.
  rewrite split_on_one by (by apply identity_without). cbn [existsb]. rewrite identity_name_safe.
  rewrite printable_no_control.
  2:{ rewrite string_forallb_append. cbn. eapply string_forallb_impl; [|exact Hhex].
      intros c Hc%hex_digit_range. unfold is_printable. apply andb_true_iff.
      rewrite N.leb_le, N.ltb_lt. lia. }
  unfold str_len. rewrite string_length_app, Hlen. reflexivity.
Qed.

End Identity.

Section Recipes.
Context `{HSha : Sha256} `{!Sha256Law HSha} `{!DigestLaw HSha} `{HJson : RecipeJson}.

(** The identity is a file of the router's, with a name the cache's own checks accept,
    and small. *)
Lemma artifact_sound r ident :
  artifact r = Ok ident ->
  own_file ident /\ safe_relative (ca_path ident) = Ok tt
  /\ String.length (ca_bytes ident) = 64%nat.
Proof.
  unfold artifact. destruct (encode_recipe r) as [pieces|]; [|done]. intros [= <-]. cbn [ca_path ca_bytes].
  set (h := hex_encode (sha256 (ca_path (cr_marker r)))).
  assert (string_forallb is_hex_digit h = true) as Hhex by apply hex_digits.
  assert (String.length h = 64%nat) as Hlen.
  { unfold h. rewrite hex_length, digest_length. reflexivity. }
  change (".tinyruntime-recipe-" +:+ h) with (IDENTITY_PREFIX +:+ h). split_and!.
  - split; cbn [ca_path]; [apply split_on_one; by apply identity_without|]. reflexivity.
  - by apply identity_path_safe.
  - rewrite hex_length. rewrite (sha256_incremental pieces), digest_length. reflexivity.
Qed.

End Recipes.

(** ** Looking at a tree nobody changes *)

(** Calls that change the tree. *)
Definition changes (op : cap_op) : bool :=
  match op with
  | CapCreateDir _ _ | CapCreateFile _ _ | CapOpenOrCreate _ _ | CapWrite _ _ | CapSync _
  | CapSetMode _ _ | CapTruncate _ | CapRename _ _ _ _ | CapRemoveFile _ _ | CapRemoveDir _ => true
  | _ => false
  end.

Section Sight.
Context `{E : CapEnv}.
(** Looking always works. *)
Definition sighted : Prop := forall log op, changes op = false -> cap_fault log op = None.
Context (Hquiet : quiet) (Hsight : sighted).

(** [m] answers [f] of the tree, and leaves it. *)
Definition sees {A} (m : io CapW A) (f : tree -> A) : Prop :=
  forall w, exists new, m w = (f (cw_tree w), MkCapW (cw_tree w) (new ++ cw_log w))
                        /\ Forall (fun e => ce_tree e = cw_tree w) new.

Lemma sees_ret {A} (a : A) : sees (io_ret a) (fun _ => a).
Proof. intros [t log]. by exists []. Qed.

Lemma sees_ext {A} (m : io CapW A) f g : sees m f -> (forall t, f t = g t) -> sees m g.
Proof. intros Hm Hfg w. destruct (Hm w) as (new & -> & Hn). exists new. by rewrite Hfg. Qed.

Lemma sees_bind {A B} (m : io CapW A) f (k : A -> io CapW B) g :
  sees m f -> (forall a, sees (k a) (g a)) -> sees (io_bind m k) (fun t => g (f t) t).
Proof.
  intros Hm Hk w. unfold io_bind. destruct (Hm w) as (new & -> & Hn).
  destruct (Hk (f (cw_tree w)) (MkCapW (cw_tree w) (new ++ cw_log w))) as (new' & -> & Hn').
  exists (new' ++ new). cbn in *. rewrite app_assoc. split; [done|]. by apply Forall_app.
Qed.

Lemma sees_map {A B} (h : A -> B) (m : io CapW A) f : sees m f -> sees (io_map h m) (fun t => h (f t)).
Proof. intros Hm w. unfold io_map. destruct (Hm w) as (new & -> & Hn). by exists new. Qed.

Lemma sees_try {X A B} (m : io CapW (result X A)) f (k : A -> io CapW (result X B)) g :
  sees m f -> (forall a, sees (k a) (g a)) -> sees (io_try m k) (fun t => result_bind (f t) (fun a => g a t)).
Proof.
  intros Hm Hk w. unfold io_try. destruct (Hm w) as (new & -> & Hn).
  destruct (f (cw_tree w)) as [a|x]; cbn [result_bind]; [|by exists new].
  destruct (Hk a (MkCapW (cw_tree w) (new ++ cw_log w))) as (new' & -> & Hn').
  exists (new' ++ new). cbn in *. rewrite app_assoc. split; [done|]. by apply Forall_app.
Qed.

Lemma sees_look {A} op handle (act : tree -> result io_error A) :
  changes op = false -> sees (cap_call op handle (looking act)) act.
Proof.
  intros Hop w. unfold cap_call. rewrite Hquiet, (Hsight _ _ Hop). unfold looking.
  destruct (act (cw_tree w)) as [a|e]; cbn [result_map];
    (eexists [_]; split; [reflexivity|]; by repeat constructor).
Qed.

Lemma runs_sees {A} (I P : tree -> Prop) (m : io CapW A) f :
  (forall t, P t -> I t) -> sees m f -> runs I P m (fun a t => P t /\ a = f t).
Proof.
  intros Hi Hm w Hw. destruct (Hm w) as (new & -> & Hn). cbn. split; [done|]. exists new. split; [done|].
  eapply Forall_impl; [exact Hn|]. cbn. intros e ->. auto.
Qed.

(** *** Paths *)

Fixpoint parent_parts_in (t : tree) (dir : nat) (parts : list string) : result string (nat * string) :=
  match parts with
  | [] => Err "cache_path_invalid"
  | [part] => Ok (dir, part)
  | part :: rest =>
      match open_dir_in t dir part with
      | Ok child => parent_parts_in t child rest
      | Err _ => Err "cache_io_failed"
      end
  end.

Definition parent_in (root : nat) (path : string) (t : tree) : result string (nat * string) :=
  match safe_relative path with
  | Err reason => Err reason
  | Ok _ => parent_parts_in t root (split_on "/" path)
  end.

Lemma descend_sees dir name :
  sees (descend dir name false) (fun t => map_err (fun _ => "cache_io_failed") (open_dir_in t dir name)).
Proof.
  unfold descend. eapply sees_ext.
  - eapply sees_bind; [by apply sees_look|]. intros opened.
    instantiate (1 := fun opened _ => map_err (fun _ => "cache_io_failed") opened).
    destruct opened as [c|e]; apply sees_ret.
  - done.
Qed.

Lemma parent_parts_sees dir parts :
  sees (parent_parts dir parts false) (fun t => parent_parts_in t dir parts).
Proof.
  revert dir. induction parts as [|part rest IH]; intros dir; [apply sees_ret|].
  destruct rest as [|part2 rest]; [apply sees_ret|]. eapply sees_ext.
  - apply sees_try; [apply descend_sees|intros c; apply IH].
  - intros t. cbn [parent_parts_in]. by destruct (open_dir_in t dir part).
Qed.

Lemma parent_sees root path : sees (parent root path false) (parent_in root path).
Proof.
  unfold parent, parent_in. destruct (safe_relative path) as [[]|]; [|apply sees_ret].
  eapply sees_ext.
  - apply sees_try; [apply sees_map; by apply sees_look|]. intros d. apply parent_parts_sees.
  - done.
Qed.

Lemma parent_parts_in_spec t dir parts d name :
  parent_parts_in t dir parts = Ok (d, name)
  <-> exists mid, parts = mid ++ [name] /\ walk t dir mid = Some d.
Proof.
  revert dir. induction parts as [|part rest IH]; intros dir; cbn [parent_parts_in].
  { split; [done|]. intros (mid & Hm & _). by destruct mid. }
  destruct rest as [|part2 rest].
  { split; [intros [= -> ->]; by exists []|]. intros ([|m mid] & Hm & Hw).
    - injection Hm as ->. by injection Hw as ->.
    - injection Hm as _ Hm. by destruct mid. }
  split.
  - destruct (open_dir_in t dir part) as [c|] eqn:Ho; [|done]. intros (mid & -> & Hw)%IH.
    apply open_dir_in_spec in Ho as [He Hd]. exists (part :: mid). cbn. by rewrite He, Hd.
  - intros (mid & Hm & Hw). destruct mid as [|m mid]; [done|]. injection Hm as <- Hm.
    cbn in Hw. unfold open_dir_in. destruct (entry t dir part) as [c|]; [|done].
    destruct (is_dir t c); [|done]. apply IH. by exists mid.
Qed.

Lemma parent_in_spec t root path d name :
  parent_in root path t = Ok (d, name) <-> safe_relative path = Ok tt /\ located t root path d name.
Proof.
  unfold parent_in, located. destruct (safe_relative path) as [[]|]; [|by split; [|intros []]].
  rewrite parent_parts_in_spec. split; [by split|by intros [_ ?]].
Qed.

(** *** Files *)

Definition io_reason {A} (r : result io_error A) : result string A := map_err (fun _ => "cache_io_failed") r.

Definition absent {A} (absent_is : A) (e : io_error) : result string A :=
  if bool_decide (ioe_kind e = NotFound) then Ok absent_is else Err "cache_io_failed".

Definition read_in (i : nat) (limit : N) (t : tree) : result io_error string :=
  match kind_of t i with
  | Some (IFile b) => Ok (String.substring 0 (N.to_nat limit) b)
  | _ => Err (refused "is a directory")
  end.

Definition link_in (d : nat) (name : string) (t : tree) : result io_error metadata :=
  match entry t d name with Some i => metadata_of t i | None => Err not_found end.

Definition matches_at_in (d : nat) (name : string) (a : CacheArtifact) (t : tree) : result string bool :=
  match open_file_in t d name with
  | Err e => absent false e
  | Ok i =>
      result_bind (io_reason (metadata_of t i)) (fun m =>
      if negb (md_is_file m) || negb (Nat.eqb (md_nlink m) 1) then Err "cache_entry_unsafe"
      else if (MAX_FILE <? md_len m)%N || negb (md_len m =? str_len (ca_bytes a))%N then Ok false
      else result_map (fun bytes => String.eqb bytes (ca_bytes a)) (io_reason (read_in i (MAX_FILE + 1) t)))
  end.

Definition matches_in (root : nat) (a : CacheArtifact) (t : tree) : result string bool :=
  match parent_in root (ca_path a) t with
  | Err _ => Ok false
  | Ok (d, name) => matches_at_in d name a t
  end.

Definition exists_in (root : nat) (path : string) (t : tree) : result string bool :=
  match parent_in root path t with
  | Err _ => Ok false
  | Ok (d, name) =>
      match link_in d name t with
      | Ok m => if md_is_file m && Nat.eqb (md_nlink m) 1 then Ok true else Err "cache_entry_unsafe"
      | Err e => absent false e
      end
  end.

Definition entry_in (root : nat) (e : CacheEntry) (t : tree) : result string bool :=
  match parent_in root (ce_path e) t with
  | Err _ => Ok false
  | Ok (d, name) =>
      match link_in d name t with
      | Ok m => Ok (kind_fits (ce_kind e) m)
      | Err err => absent false err
      end
  end.

Lemma matches_at_sees d name a : sees (matches_at d name a) (matches_at_in d name a).
Proof.
  unfold matches_at, matches_at_in. eapply sees_ext.
  - eapply (sees_bind _ _ _ (fun opened t => match opened with
      | Err e => absent false e
      | Ok i => result_bind (io_reason (metadata_of t i)) (fun m =>
          if negb (md_is_file m) || negb (Nat.eqb (md_nlink m) 1) then Err "cache_entry_unsafe"
          else if (MAX_FILE <? md_len m)%N || negb (md_len m =? str_len (ca_bytes a))%N then Ok false
          else result_map (fun bytes => String.eqb bytes (ca_bytes a)) (io_reason (read_in i (MAX_FILE + 1) t)))
      end)); [by apply sees_look|].
    intros [i|e]; [|apply sees_ret].
    eapply (sees_try _ _ _ (fun m t => if negb (md_is_file m) || negb (Nat.eqb (md_nlink m) 1)
          then Err "cache_entry_unsafe"
          else if (MAX_FILE <? md_len m)%N || negb (md_len m =? str_len (ca_bytes a))%N then Ok false
          else result_map (fun bytes => String.eqb bytes (ca_bytes a)) (io_reason (read_in i (MAX_FILE + 1) t)))).
    { apply sees_map. by apply sees_look. }
    intros m. destruct (negb (md_is_file m) || negb (Nat.eqb (md_nlink m) 1)); [apply sees_ret|].
    destruct ((MAX_FILE <? md_len m)%N || negb (md_len m =? str_len (ca_bytes a))%N); [apply sees_ret|].
    eapply sees_ext; [eapply (sees_try _ _ _ (fun b _ => Ok (String.eqb b (ca_bytes a)))); [apply sees_map; by apply sees_look|intros b; apply sees_ret]|].
    intros t. unfold read_in. destruct (kind_of t i) as [[]|]; reflexivity.
  - done.
Qed.

Lemma matches_sees root a : sees (matches root a) (matches_in root a).
Proof.
  unfold matches, matches_in. eapply sees_ext.
  - eapply (sees_bind _ _ _ (fun reached t => match reached with
      | Err _ => Ok false | Ok (d, name) => matches_at_in d name a t end)); [apply parent_sees|].
    intros [[d name]|e]; [apply matches_at_sees|apply sees_ret].
  - done.
Qed.

(** What is at the end of a path is looked up without following it. *)
Lemma linked_sees {A} root path (ok : metadata -> result string A) (none : A) :
  sees (reached <-- parent root path false ;;
        match reached with
        | Err _ => io_ret (Ok none)
        | Ok (d, name) =>
            found <-- symlink_metadata d name ;;
            io_ret match found with
                   | Ok m => ok m
                   | Err error => if bool_decide (ioe_kind error = NotFound) then Ok none else Err "cache_io_failed"
                   end
        end)
    (fun t => match parent_in root path t with
              | Err _ => Ok none
              | Ok (d, name) => match link_in d name t with Ok m => ok m | Err e => absent none e end
              end).
Proof.
  eapply sees_ext.
  - eapply (sees_bind _ _ _ (fun reached t => match reached with
      | Err _ => Ok none
      | Ok (d, name) => match link_in d name t with Ok m => ok m | Err e => absent none e end
      end)); [apply parent_sees|].
    intros [[d name]|e]; [|apply sees_ret].
    eapply sees_ext; [eapply (sees_bind _ _ _ (fun found _ => match found with Ok m => ok m | Err e => absent none e end));
      [by apply sees_look|intros found; apply sees_ret]|].
    intros t. cbn beta. unfold link_in. destruct (match entry t d name with Some i => metadata_of t i | None => Err not_found end); reflexivity.
  - done.
Qed.

Lemma exists_sees root path : sees (regular_file_exists root path) (exists_in root path).
Proof.
  exact (linked_sees root path
           (fun m => if md_is_file m && Nat.eqb (md_nlink m) 1 then Ok true else Err "cache_entry_unsafe") false).
Qed.

Lemma required_sees root e : sees (required root e) (entry_in root e).
Proof. exact (linked_sees root (ce_path e) (fun m => Ok (kind_fits (ce_kind e) m)) false). Qed.

Fixpoint all_in {A} (check : A -> tree -> result string bool) (l : list A) (t : tree) : result string bool :=
  match l with
  | [] => Ok true
  | a :: rest => result_bind (check a t) (fun held : bool => if held then all_in check rest t else Ok false)
  end.

Lemma all_sees {A} (m : A -> io CapW (result string bool)) f l :
  (forall a, sees (m a) (f a)) -> sees (all_hold m l) (all_in f l).
Proof.
  intros Hm. induction l as [|a l IH]; [apply sees_ret|]. cbn [all_hold all_in].
  eapply (sees_try _ _ _ (fun held t => if held : bool then all_in f l t else Ok false)); [apply Hm|].
  intros [|]; [exact IH|apply sees_ret].
Qed.

Lemma all_in_true {A} (f : A -> tree -> result string bool) (l : list A) t :
  all_in f l t = Ok true <-> Forall (fun a => f a t = Ok true) l.
Proof.
  induction l as [|a l IH]; cbn [all_in]; [by split|]. split.
  - destruct (f a t) as [[|]|] eqn:Hf; cbn [result_bind]; try done. intros H%IH. by constructor.
  - intros H. apply Forall_cons in H as [-> H]. by apply IH.
Qed.

End Sight.

(** ** What was seen *)

Lemma matches_at_in_true t d name a :
  matches_at_in d name a t = Ok true
  <-> (str_len (ca_bytes a) <= MAX_FILE)%N /\ has_file_at t d name (ca_bytes a).
Proof.
  unfold matches_at_in, has_file_at, open_file_in, metadata_of, read_in, absent, io_reason.
  destruct (entry t d name) as [i|]; [|split; [by case_bool_decide|by intros (_ & ? & ? & _)]].
  destruct (kind_of t i) as [k|] eqn:Hk; [|split; [by case_bool_decide|intros (_ & j & [= <-] & Hj & _); congruence]].
  assert ((exists j, Some i = Some j /\ kind_of t j = Some (IFile (ca_bytes a)) /\ nlink t j = 1%nat)
          <-> (k = IFile (ca_bytes a) /\ nlink t i = 1%nat)) as ->.
  { split; [intros (j & [= <-] & Hj & Hl); split; [congruence|done]|].
    intros [-> Hl]. exists i. by split_and!. }
  assert (forall b, String.substring 0 (N.to_nat (MAX_FILE + 1)) b = b \/ (MAX_FILE < str_len b)%N) as Hsub.
  { intros b. unfold str_len. destruct (decide (String.length b <= N.to_nat (MAX_FILE + 1))%nat);
      [left; by apply substring_all|right; lia]. }
  destruct k as [|b|g|]; rewrite ?Hk; cbn; [by split; [|intros (_ & ? & _)]| |split; [by case_bool_decide|by intros (_ & ? & _)]|by split; [|intros (_ & ? & _)]].
  unfold md_len. cbn.
  destruct (Nat.eqb_spec (nlink t i) 1) as [Hl|Hl]; cbn; [|split; [done|by intros (_ & _ & ?)]].
  destruct (N.ltb_spec MAX_FILE (str_len b)) as [Hmax|Hmax]; cbn.
  { split; [done|]. intros (Hle & [= ->] & _). lia. }
  destruct (N.eqb_spec (str_len b) (str_len (ca_bytes a))) as [Hlen|Hlen]; cbn.
  2:{ split; [done|]. by intros (_ & [= ->] & _). }
  destruct (Hsub b) as [->|]; [|lia]. split.
  - intros [= Hb]. apply String.eqb_eq in Hb as ->. by split_and!.
  - intros (_ & [= ->] & _). by rewrite String.eqb_refl.
Qed.

Lemma matches_in_true t root a :
  matches_in root a t = Ok true
  <-> safe_relative (ca_path a) = Ok tt /\ (str_len (ca_bytes a) <= MAX_FILE)%N
      /\ has_file t root (ca_path a) (ca_bytes a).
Proof.
  unfold matches_in, has_file. destruct (parent_in root (ca_path a) t) as [[d name]|e] eqn:Hp.
  - apply parent_in_spec in Hp as [Hs Hl]. rewrite matches_at_in_true. split.
    + intros [? ?]. split_and!; [done..|]. by exists d, name.
    + intros (_ & ? & d' & name' & Hl' & ?). split; [done|].
      assert (parent_in root (ca_path a) t = Ok (d', name')) as H1 by (by apply parent_in_spec).
      assert (parent_in root (ca_path a) t = Ok (d, name)) as H2 by (by apply parent_in_spec).
      rewrite H1 in H2. by injection H2 as -> ->.
  - split; [done|]. intros (Hs & _ & d & name & Hl & _).
    assert (parent_in root (ca_path a) t = Ok (d, name)) by (by apply parent_in_spec). congruence.
Qed.

Lemma link_in_ok t d name m :
  link_in d name t = Ok m <->
  exists i k, entry t d name = Some i /\ kind_of t i = Some k /\ m = MkMetadata i k (nlink t i).
Proof.
  unfold link_in, metadata_of. destruct (entry t d name) as [i|]; [|split; [done|by intros (? & ? & ? & _)]].
  destruct (kind_of t i) as [k|] eqn:Hk.
  - split; [intros [= <-]; eauto|]. intros (j & k' & [= <-] & Hk' & ->). congruence.
  - split; [done|]. intros (j & k' & [= <-] & Hk' & _). congruence.
Qed.

Lemma entry_in_true t root e :
  entry_in root e t = Ok true <-> safe_relative (ce_path e) = Ok tt /\ has_entry t root e.
Proof.
  unfold entry_in, has_entry, has_entry_at. destruct (parent_in root (ce_path e) t) as [[d name]|err] eqn:Hp.
  - pose proof (proj1 (parent_in_spec _ _ _ _ _) Hp) as [Hs Hl]. split.
    + destruct (link_in d name t) as [m|x] eqn:Hm; [|unfold absent; by case_bool_decide].
      intros [= Hf]. apply link_in_ok in Hm as (i & k & ? & ? & ->). split; [done|]. exists d, name.
      split; [done|]. by exists i, k.
    + intros (_ & d' & name' & Hl' & i & k & He & Hk & Hf).
      rewrite (proj2 (parent_in_spec _ _ _ _ _) (conj Hs Hl')) in Hp. injection Hp as -> ->.
      rewrite (proj2 (link_in_ok _ _ _ _) (ex_intro _ i (ex_intro _ k (conj He (conj Hk eq_refl))))).
      by rewrite Hf.
  - split; [done|]. intros (Hs & d & name & Hl & _).
    rewrite (proj2 (parent_in_spec _ _ _ _ _) (conj Hs Hl)) in Hp. done.
Qed.

Lemma exists_in_true t root path b :
  safe_relative path = Ok tt -> has_file t root path b -> exists_in root path t = Ok true.
Proof.
  intros Hs (d & name & Hl & i & He & Hk & Hn). unfold exists_in.
  rewrite (proj2 (parent_in_spec _ _ _ _ _) (conj Hs Hl)).
  rewrite (proj2 (link_in_ok _ _ _ _) (ex_intro _ i (ex_intro _ _ (conj He (conj Hk eq_refl))))).
  cbn. by rewrite Hn.
Qed.

(** [readiness], of a tree, one question after the other. *)
Section Questions.
Context (r : CacheRecipe) (root : nat) (ident : CacheArtifact).

Definition identity_in (exists_ : bool) (t : tree) : result string Readiness :=
  if exists_
  then result_map (fun same : bool => if same then ReadyCached else Rebuild) (matches_in root ident t)
  else Ok match cr_adoption r with Strict => Rebuild | AdoptVerifiedLegacy => ReadyLegacy end.

Definition artifacts_seen (held : bool) (t : tree) : result string Readiness :=
  if negb held then Ok Rebuild
  else result_bind (exists_in root (ca_path ident) t) (fun exists_ => identity_in exists_ t).

Definition required_seen (held : bool) (t : tree) : result string Readiness :=
  if negb held then Ok Rebuild
  else result_bind (all_in (matches_in root) (cr_artifacts r) t) (fun held => artifacts_seen held t).

Definition marker_seen (held : bool) (t : tree) : result string Readiness :=
  if negb held then Ok Rebuild
  else result_bind (all_in (entry_in root) (cr_required r) t) (fun held => required_seen held t).

Definition readiness_in (t : tree) : result string Readiness :=
  result_bind (matches_in root (cr_marker r) t) (fun held => marker_seen held t).

(** The recipe is cached when each of its files passes the cache's own checks. *)
Lemma readiness_in_cached t :
  readiness_in t = Ok ReadyCached
  <-> matches_in root (cr_marker r) t = Ok true /\ all_in (entry_in root) (cr_required r) t = Ok true
      /\ all_in (matches_in root) (cr_artifacts r) t = Ok true
      /\ exists_in root (ca_path ident) t = Ok true /\ matches_in root ident t = Ok true.
Proof.
  unfold readiness_in, marker_seen, required_seen, artifacts_seen, identity_in. split.
  - destruct (matches_in root (cr_marker r) t) as [[|]|]; cbn; try done.
    destruct (all_in (entry_in root) _ t) as [[|]|]; cbn; try done.
    destruct (all_in (matches_in root) _ t) as [[|]|]; cbn; try done.
    destruct (exists_in root _ t) as [[|]|]; cbn; try done; [|by destruct (cr_adoption r)].
    by destruct (matches_in root ident t) as [[|]|].
  - by intros (-> & -> & -> & -> & ->).
Qed.

End Questions.

Section Readiness.
Context `{E : CapEnv} (Hquiet : quiet) (Hsight : sighted).

Lemma readiness_sees r s :
  sees (readiness r s) (readiness_in r (ss_root s) (ss_recipe_identity s)).
Proof.
  unfold readiness, readiness_in.
  eapply (sees_try _ _ _ (marker_seen r (ss_root s) (ss_recipe_identity s))); [by apply matches_sees|].
  intros [|]; unfold marker_seen; cbn [negb]; [|apply sees_ret].
  eapply (sees_try _ _ _ (required_seen r (ss_root s) (ss_recipe_identity s))).
  { apply all_sees. intros e. by apply required_sees. }
  intros [|]; unfold required_seen; cbn [negb]; [|apply sees_ret].
  eapply (sees_try _ _ _ (artifacts_seen r (ss_root s) (ss_recipe_identity s))).
  { apply all_sees. intros a. by apply matches_sees. }
  intros [|]; unfold artifacts_seen; cbn [negb]; [|apply sees_ret].
  eapply (sees_try _ _ _ (identity_in r (ss_root s) (ss_recipe_identity s))); [by apply exists_sees|].
  intros [|]; unfold identity_in; [|apply sees_ret].
  eapply sees_ext.
  - eapply (sees_try _ _ _ (fun same _ => Ok (if same : bool then ReadyCached else Rebuild))); [by apply matches_sees|].
    intros same. apply sees_ret.
  - done.
Qed.

Context `{HSha : Sha256} `{!Sha256Law HSha} `{!DigestLaw HSha} `{HJson : RecipeJson}.

Lemma complete_seen r s t :
  recipe r = Ok tt -> artifact r = Ok (ss_recipe_identity s) ->
  readiness_in r (ss_root s) (ss_recipe_identity s) t = Ok ReadyCached
  <-> complete t (ss_root s) r (ss_recipe_identity s).
Proof.
  intros Hr (_ & Hsafe & Hlen)%artifact_sound.
  destruct (recipe_sound r Hr) as (Hpaths & _ & _ & Hsizes & _).
  assert (forall path, relative path = Ok tt -> safe_relative path = Ok tt) as Hrel.
  { unfold relative. intros path. by destruct (safe_relative path) as [[]|]. }
  unfold recipe_paths in Hpaths. rewrite List.map_app in Hpaths.
  apply Forall_app in Hpaths as [Hpaths Hreq]. apply Forall_app in Hpaths as [Hart Hmark].
  apply Forall_app in Hsizes as [Hsizes Hmsize]. inversion_clear Hmark as [|? ? Hm _].
  inversion_clear Hmsize as [|? ? Hms _]. rewrite List.Forall_map in Hart, Hreq.
  rewrite readiness_in_cached, !matches_in_true, !all_in_true. unfold complete, required_in, artifacts_in. split.
  - intros ((_ & _ & ?) & Hq & Ha & _ & (_ & _ & ?)). split_and!; [done| | |done].
    + eapply Forall_impl; [exact Hq|]. by intros e [_ ?]%entry_in_true.
    + eapply Forall_impl; [exact Ha|]. by intros a (_ & _ & ?)%matches_in_true.
  - intros (? & Hq & Ha & Hi). split_and!; try done; [by apply Hrel| | |by eapply exists_in_true|].
    + eapply Forall_impl; [apply Forall_and; split; [exact Hq|exact Hreq]|].
      intros e [? ?%Hrel]. by apply entry_in_true.
    + eapply Forall_impl; [apply Forall_and; split; [exact Ha|apply Forall_and; split; [exact Hart|exact Hsizes]]|].
      intros a (? & ?%Hrel & ?). by apply matches_in_true.
    + unfold str_len, MAX_FILE. rewrite Hlen. lia.
Qed.

End Readiness.
