(* ===== verification/CacheInstall.v ===== *)
(** * Installing a recipe: the marker goes first

    [install] takes the old marker away before it changes anything else, and keeps it
    away; what it stages and places survives until [publish]. *)

From stdpp Require Import fin_maps.
From S2P Require Import Prelude RustStd World Download WorkerTypes WorkerValidate CapFs CacheFiles.
From S2P Require Import CacheSession TreeFacts CacheFacts CacheRebuild CacheReady.

Open Scope rust_scope.

(** ** Changes in the staging directory *)

Lemma located_fun t root path d n d' n' :
  located t root path d n -> located t root path d' n' -> d = d' /\ n = n'.
Proof.
  intros (ps & Hs & Hw) (ps' & Hs' & Hw'). rewrite Hs in Hs'. apply app_inj_tail in Hs' as [-> ->].
  rewrite Hw in Hw'. by injection Hw' as ->.
Qed.

(** The marker's path is free, and these files are in place, and these are staged. *)
Record staged_tree (root stage_dir : nat) (marker : string) (placed : list CacheArtifact)
    (held : list (string * string)) (t : tree) : Prop := {
  st_wf : tree_wf t;
  st_unmarked : no_file t root marker;
  st_staging : staging_at t root stage_dir;
  st_placed : Forall (fun a => has_file t root (ca_path a) (ca_bytes a)) placed;
  st_held : Forall (fun '(name, bytes) => has_file_at t stage_dir name bytes) held
}.

Section Staged.
Context (root stage_dir : nat) (marker : string) (placed : list CacheArtifact) (held : list (string * string)).
Context (Hmarker : relative marker = Ok tt).
Context (Hplaced : Forall (fun a => relative (ca_path a) = Ok tt) placed).
Let K := staged_tree root stage_dir marker placed held.

Lemma staged_tree_extends t t' :
  K t -> extends t t' -> tree_wf t' -> no_file t' root marker -> K t'.
Proof.
  intros [Hwf Hno Hst Hp Hh] Hx Hwf' Hno'. constructor; try done.
  - by eapply staging_at_extends.
  - eapply Forall_impl; [exact Hp|]. intros a. by apply has_file_extends.
  - eapply Forall_impl; [exact Hh|]. intros [n b]. by apply has_file_at_extends.
Qed.

Lemma staged_tree_mkdir : mkdir_stable K.
Proof.
  intros t d n t' Ht Hm. pose proof Hm as (_ & Hnone & Heq)%create_dir_in_spec.
  apply (staged_tree_extends t); [done| | |].
  - subst. by apply add_new_extends.
  - eapply mkdir_stable_wf; [apply Ht|done].
  - eapply no_file_mkdir; [apply Ht|apply Ht|done].
Qed.

(** A file appears in the staging directory. *)
Lemma staged_tree_create t name :
  K t -> is_dir t stage_dir = true -> entry t stage_dir name = None ->
  K (add_new t stage_dir name (IFile "")).
Proof.
  intros Ht Hd Hnone. apply (staged_tree_extends t); [done|by apply add_new_extends|by apply add_new_wf; [apply Ht|..]|].
  intros d n i b Hl He Hk. apply (located_same t _ _ _ _ _ (add_file_same_dirs t stage_dir name "" Hnone)) in Hl.
  assert (d <> stage_dir) as Hne.
  { by apply (aloof_relative t root stage_dir marker (st_wf _ _ _ _ _ _ Ht) (st_staging _ _ _ _ _ _ Ht) Hmarker _ _ Hl). }
  rewrite entry_add_new, decide_False in He by congruence. rewrite kind_add_new in Hk.
  destruct (new_ino_fresh t) as (_ & Hfresh & _).
  rewrite decide_False in Hk by (intros ->; by apply (Hfresh d n)).
  by apply (st_unmarked _ _ _ _ _ _ Ht d n i b).
Qed.

(** A staged file is written to. *)
Lemma staged_tree_write t name i old bytes :
  K t -> entry t stage_dir name = Some i -> kind_of t i = Some (IFile old) -> nlink t i = 1%nat ->
  name ∉ map fst held -> K (set_node i (IFile bytes) t).
Proof.
  intros [Hwf Hno Hst Hp Hh] He Hk Hl Hnew. set (t' := set_node i (IFile bytes) t).
  pose proof (set_file_same_dirs t i old bytes Hk) as Hsame.
  assert (forall d n b, (d, n) <> (stage_dir, name) -> has_file_at t d n b -> has_file_at t' d n b) as Hkeep.
  { intros d n b Hne. apply (set_file_has_file t i old); [done|].
    intros He'. by apply Hne, (nlink_unique t _ _ _ _ i). }
  constructor.
  - by eapply set_file_wf.
  - intros d n j b Hloc Hj Hkj. apply (located_same t _ _ _ _ _ Hsame) in Hloc.
    unfold t' in Hkj. rewrite kind_set_node in Hkj. case_decide as Hij; [subst|].
    + by apply (Hno d n j old).
    + by apply (Hno d n j b).
  - by eapply staging_at_same.
  - eapply Forall_impl; [apply Forall_and; split; [exact Hp|exact Hplaced]|].
    intros a [(d & n & Hloc & Hf) Hrel]. exists d, n. split; [by apply (located_same t _ _ _ _ _ Hsame)|].
    apply Hkeep; [|done]. intros [= -> ->].
    by apply (aloof_relative t root stage_dir (ca_path a) Hwf Hst Hrel _ _ Hloc).
  - apply Forall_forall. intros [n b] Hin. rewrite Forall_forall in Hh. specialize (Hh _ Hin). cbn in Hh.
    apply Hkeep; [|done]. intros [= ->]. apply Hnew. by apply (list_elem_of_fmap_2 fst) in Hin.
Qed.

(** A staged file is moved into place. *)
Lemma staged_tree_move t t' d target name a :
  staged_tree root stage_dir marker placed ((name, ca_bytes a) :: held) t ->
  relative (ca_path a) = Ok tt -> ca_path a <> marker -> ca_path a ∉ map ca_path placed ->
  name ∉ map fst held ->
  located t root (ca_path a) d target -> moved t stage_dir name d target (ca_bytes a) t' ->
  staged_tree root stage_dir marker (a :: placed) held t'.
Proof.
  intros [Hwf Hno Hst Hp Hh] Hrel Hne Hnew Hheld Hl Hm. constructor.
  - apply Hm.
  - by eapply moved_keeps_no_file.
  - eapply staging_at_same; [apply Hm|done].
  - constructor; [by eapply moved_placed|].
    apply Forall_forall. intros b Hin. rewrite Forall_forall in Hp, Hplaced.
    eapply moved_keeps_file; [exact Hwf|exact Hm|exact Hl| | |by apply Hp].
    + apply aloof_relative; [done|done|by apply Hplaced].
    + intros Heq. apply Hnew. rewrite <- Heq. by apply list_elem_of_fmap_2.
  - apply Forall_cons in Hh as [_ Hh]. apply Forall_forall. intros [n b] Hin. rewrite Forall_forall in Hh.
    specialize (Hh _ Hin). cbn in Hh. eapply moved_keeps_staged; [exact Hm| | |done].
    + by apply (aloof_relative t root stage_dir (ca_path a) Hwf Hst Hrel _ _ Hl).
    + intros ->. apply Hheld. by apply (list_elem_of_fmap_2 fst) in Hin.
Qed.

End Staged.

(** ** The operations *)

Section Install.
Context `{E : CapEnv} (Hquiet : quiet) (Hsight : sighted).

Lemma append_in_at t i bytes t' b :
  kind_of t i = Some (IFile b) -> append_in t i bytes = Ok t' -> t' = set_node i (IFile (b +:+ bytes)) t.
Proof. unfold append_in. intros ->. by intros [= <-]. Qed.

(** A write that fails has written a part. *)
Lemma runs_write (I P : tree -> Prop) i bytes (Q : result io_error unit -> tree -> Prop) :
  (forall t, P t -> exists b, kind_of t i = Some (IFile b)) ->
  (forall t part, P t -> forall b, kind_of t i = Some (IFile b) ->
     I (set_node i (IFile (b +:+ part)) t)
     /\ (forall e, Q (Err e) (set_node i (IFile (b +:+ part)) t))) ->
  (forall t b, P t -> kind_of t i = Some (IFile b) -> Q (Ok tt) (set_node i (IFile (b +:+ bytes)) t)) ->
  runs I P (write_bytes i bytes) Q.
Proof.
  intros Hk Hstep Hok w Hw. destruct (Hk _ Hw) as [b Hb]. unfold write_bytes.
  assert (forall part, append_in (cw_tree w) i part = Ok (set_node i (IFile (b +:+ part)) (cw_tree w))) as Happ.
  { intros part. unfold append_in. by rewrite Hb. }
  destruct (cap_fault (cw_log w) (CapWrite i bytes)) as [e|] eqn:Hf.
  - rewrite Hquiet, Happ. cbn.
    destruct (Hstep _ (String.substring 0 (cap_short (cw_log w)) bytes) Hw b Hb) as [Hi Hq].
    split; [apply Hq|]. eexists [_]. split; [reflexivity|]. by repeat constructor.
  - unfold cap_call. rewrite Hf, Hquiet. unfold acting. rewrite Happ. cbn.
    destruct (Hstep _ bytes Hw b Hb) as [Hi _]. split; [by apply Hok|].
    eexists [_]. split; [reflexivity|]. by repeat constructor.
Qed.

(** Staging a file keeps what creating and writing it keep. [fresh] is what is learned
    from its name being free. *)
Lemma stage_keeps (I K : tree -> Prop) (fresh : Prop) stage_dir name bytes :
  (forall t, K t -> I t) ->
  (forall t, K t -> entry t stage_dir name = None -> fresh) ->
  (forall t, K t -> is_dir t stage_dir = true -> entry t stage_dir name = None ->
     K (add_new t stage_dir name (IFile ""))) ->
  (fresh -> forall t i old b, K t -> entry t stage_dir name = Some i -> kind_of t i = Some (IFile old) ->
     nlink t i = 1%nat -> K (set_node i (IFile b) t)) ->
  runs I K (stage stage_dir name bytes)
    (fun r t => K t /\ (r = Ok tt -> has_file_at t stage_dir name bytes)).
Proof.
  intros HI Hfresh Hcreate Hwrite.
  set (open i old t := K t /\ fresh /\ entry t stage_dir name = Some i
                       /\ kind_of t i = Some (IFile old) /\ nlink t i = 1%nat).
  unfold stage. eapply (runs_try _ _ _ _ (fun r t => K t /\ forall i, r = Ok i -> open i "" t)).
  { apply runs_map, (runs_call Hquiet); [intros t e Ht; split; [by apply HI|by split]|]. intros t i t' Ht Hc.
    unfold create_file_in in Hc. destruct (is_dir t stage_dir) eqn:Hd; [|done]. cbn [negb] in Hc.
    destruct (entry t stage_dir name) eqn:He; [done|]. injection Hc as <- <-.
    change (set_entry _ _ _ _) with (add_new t stage_dir name (IFile "")).
    assert (K (add_new t stage_dir name (IFile ""))) as Hk by (by apply Hcreate).
    split; [by apply HI|]. split; [done|]. intros ? [= <-]. unfold open. split_and!; [done|by apply (Hfresh t)| | |].
    - rewrite entry_add_new. by rewrite decide_True.
    - rewrite kind_add_new. by rewrite decide_True.
    - by apply add_new_nlink. }
  2:{ intros e t [Ht _]. by split. }
  intros i. apply (runs_conseq _ (open i "") _ _ (fun r t => K t /\ (r = Ok tt -> has_file_at t stage_dir name bytes)));
    [|intros t [_ Ho]; by apply Ho|done].
  eapply (runs_try _ _ _ _ (fun r t => K t /\ (r = Ok tt -> open i bytes t))).
  { apply runs_map, runs_write.
    - intros t (_ & _ & _ & Hk & _). eauto.
    - intros t part (Ht & Hn & He & Hk & Hl) b Hb.
      assert (K (set_node i (IFile (b +:+ part)) t)) by (by eapply Hwrite).
      split; [by apply HI|by intros e].
    - intros t b (Ht & Hn & He & Hk & Hl) Hb. rewrite Hk in Hb. injection Hb as <-.
      assert (K (set_node i (IFile ("" +:+ bytes)) t)) by (by eapply Hwrite).
      split; [done|]. intros _. unfold open. split_and!; [done|done|exact He| |exact Hl].
      by rewrite kind_set_node, decide_True. }
  2:{ intros e t [Ht _]. by split. }
  intros []. apply (runs_conseq _ (open i bytes) _ _ (fun r t => K t /\ (r = Ok tt -> has_file_at t stage_dir name bytes)));
    [|intros t [_ Ho]; by apply Ho|done].
  apply runs_map, (runs_look Hquiet).
  - intros t (Ht & _). by apply HI.
  - intros t e (Ht & _). by split.
  - intros t [] (Ht & Hn & He & Hk & Hl) _. split; [done|]. intros _. exists i. by split_and!.
Qed.

(** A staging directory has one of the router's names and is known by its inode. *)
Definition stage_named (s : Session) : Prop :=
  forall st, ss_staging s = Some st ->
    router_owned (sg_name st) = true /\ (forall d, sg_directory st = Some d -> d = sg_identity st).

(** While it is held it is directly below the root. *)
Definition stage_in (t : tree) (s : Session) : Prop :=
  forall sd, staging_directory s = Ok sd -> staging_at t (ss_root s) sd.

(** What a failure leaves: the staging as it was, or one in a tree of [P] that can be
    cleaned up. *)
Definition stage_left (I P : tree -> Prop) (t : tree) (s s' : Session) : Prop :=
  (I t /\ ss_staging s' = ss_staging s) \/ (P t /\ stage_named s' /\ stage_in t s').

Lemma stage_left_tree (I P : tree -> Prop) t s s' :
  (forall t, P t -> I t) -> stage_left I P t s s' -> I t.
Proof. intros HP [[? _]|[? _]]; [done|by apply HP]. Qed.

(** Opening a staging directory adds one directory below the root, and says so only when
    it is there. *)
Section Opening.
Context (I P : tree -> Prop) (root : nat).
Context (HI : forall t, P t -> I t) (Hstable : mkdir_stable P).

Lemma Staging_open_spec name :
  runs I P (Staging_open root name)
    (fun res t => P t /\ forall st, res = Ok st ->
       exists sd, st = MkStaging (Some sd) name sd /\ walk t root [name] = Some sd).
Proof.
  unfold Staging_open.
  eapply (runs_try _ _ _ _ (fun res t => P t /\ forall c, res = Ok c -> walk t root [name] = Some c)).
  - apply runs_map, (runs_look Hquiet); [exact HI|by intros|]. intros t c Ht Ho. apply open_dir_in_spec in Ho as [He Hd].
    split; [done|]. intros ? [= <-]. cbn. by rewrite He, Hd.
  - intros sd. eapply (runs_try _ _ _ _ (fun res t => P t /\ walk t root [name] = Some sd
                                            /\ forall i, res = Ok i -> i = sd)).
    + apply runs_map, (runs_look Hquiet); [intros t [? _]; by apply HI|..]; intros t ? [Ht Hs]; [|intros [= <-]];
        (split; [done|split; [by apply Hs|by intros ? [= <-]]]).
    + intros ident. apply runs_ret. intros t (Ht & Hs & Hi). split; [done|]. intros st [= <-].
      exists sd. split; [|done]. by rewrite (Hi _ eq_refl).
    + intros e t [Ht _]. by split.
  - intros e t [Ht _]. by split.
Qed.

Lemma open_staging_spec s :
  ss_root s = root ->
  runs I P (open_staging s)
    (fun '(res, s') t => (ss_root s' = root /\ ss_recipe_identity s' = ss_recipe_identity s)
       /\ P t /\ match res with
                | Ok _ => stage_named s' /\ exists sd, staging_directory s' = Ok sd /\ staging_at t root sd
                | Err _ => s' = s
                end).
Proof.
  intros Hroot. unfold open_staging. rewrite Hroot. eapply runs_bind.
  { apply (runs_ask Hquiet I P _ _ (fun _ t => P t)); [exact HI|done]. }
  intros uuid. cbn zeta. set (name := ".tinyruntime-stage-" +:+ uuid).
  apply (runs_bind I P _ _ (fun _ t => P t)).
  { apply runs_map, (runs_act Hquiet); [exact HI|done|].
    intros t t' Ht Hm. assert (P t') by (by eapply Hstable). auto. }
  intros [[]|e]; [|by apply runs_ret].
  eapply runs_bind; [apply Staging_open_spec|].
  intros [st|e]; apply runs_ret; intros t [Ht Hst]; [|done].
  split; [done|]. split; [done|]. destruct (Hst st eq_refl) as (sd & -> & Hs).
  split; [by intros ? [= <-]; split; [|intros ? [= <-]]|]. exists sd. split; [done|]. by exists name.
Qed.

End Opening.

Section At.
Context (I : tree -> Prop) (root stage_dir : nat) (marker : string).
Context (Hmarker : relative marker = Ok tt).
Let K := staged_tree root stage_dir marker.
Context (HI : forall placed held t, K placed held t -> I t).

Section Placed.
Context (placed : list CacheArtifact).
Context (Hplaced : Forall (fun a => relative (ca_path a) = Ok tt) placed).

Lemma stage_spec held name bytes :
  runs I (K placed held) (stage stage_dir name bytes)
    (fun r t => match r with Ok _ => K placed ((name, bytes) :: held) t | Err _ => K placed held t end).
Proof.
  eapply runs_conseq; [apply (stage_keeps I (K placed held) (name ∉ map fst held) stage_dir name bytes)| |].
  - apply HI.
  - intros t Ht He Hin. apply list_elem_of_fmap in Hin as ([n b] & -> & Hin).
    pose proof (st_held _ _ _ _ _ _ Ht) as Hh. rewrite Forall_forall in Hh.
    destruct (Hh _ Hin) as (j & Hj & _). cbn in *. congruence.
  - intros t Ht. by apply staged_tree_create.
  - intros Hn t i old b Ht He Hk Hl. by eapply staged_tree_write.
  - done.
  - intros [[]|e] t [Ht Hf]; [|done]. destruct Ht. constructor; try done. constructor; [by apply Hf|done].
Qed.

Lemma check_binding_staged held s : runs I (K placed held) (check_binding s) (fun _ t => K placed held t).
Proof. apply (check_binding_keeps Hquiet I (K placed held)); [apply HI|done]. Qed.

(** One artifact: staged, then moved into place. *)
Lemma place_spec held name a s :
  relative (ca_path a) = Ok tt -> ca_path a <> marker -> ca_path a ∉ map ca_path placed ->
  name ∉ map fst held ->
  runs I (K placed held)
    (_ <-? stage stage_dir name (ca_bytes a) ;; _ <-? check_binding s ;;
     promote stage_dir name root (ca_path a))
    (fun r t => match r with Ok _ => K (a :: placed) held t | Err _ => I t end).
Proof.
  intros Hrel Hne Hnew Hheld. eapply runs_try; [apply stage_spec| |by intros e t ?%HI].
  intros []. eapply runs_try; [by apply check_binding_staged| |by intros e t ?%HI].
  intros []. eapply runs_conseq.
  - apply (cache_promote_spec Hquiet I (K placed ((name, ca_bytes a) :: held)) stage_dir name root (ca_path a) (ca_bytes a)).
    + apply HI.
    + apply staged_tree_mkdir.
    + intros t [Hwf Hno Hst Hp Hh]. apply Forall_cons in Hh as [Hf _]. split_and!; [done..|].
      by apply aloof_relative.
    + intros t d target t' Ht Hl Hm. eapply (HI (a :: placed) held). by eapply staged_tree_move.
  - done.
  - intros [[]|e] t; [|apply HI]. intros (_ & t0 & d & target & Ht & Hl & Hm). by eapply staged_tree_move.
Qed.

End Placed.

(** The same root, identity and staging directory. *)
Definition same_session (s s' : Session) : Prop :=
  ss_root s' = ss_root s /\ ss_recipe_identity s' = ss_recipe_identity s /\ ss_staging s' = ss_staging s.

Lemma install_artifacts_spec index artifacts placed s :
  ss_root s = root ->
  Forall (fun a => relative (ca_path a) = Ok tt) placed ->
  Forall (fun a => relative (ca_path a) = Ok tt /\ ca_path a <> marker) artifacts ->
  NoDup (map ca_path artifacts) ->
  (forall a, a ∈ artifacts -> ca_path a ∉ map ca_path placed) ->
  runs I (K placed []) (install_artifacts stage_dir index artifacts s)
    (fun '(res, s') t => same_session s s'
       /\ match res with Ok _ => K (rev_append artifacts placed) [] t | Err _ => I t end).
Proof.
  revert index placed s. induction artifacts as [|a rest IH]; intros index placed s Hroot Hplaced Hall Hnd Hdis.
  { apply runs_ret. by intros t Ht. }
  apply Forall_cons in Hall as [[Hrel Hne] Hall]. apply NoDup_cons in Hnd as [Hnew Hnd].
  cbn [install_artifacts rev_append]. cbn zeta. set (s1 := push_staged _ s).
  change (ss_root s1) with (ss_root s). rewrite Hroot.
  eapply runs_bind.
  { apply (place_spec placed Hplaced [] _ a s1); [done|done| |by apply not_elem_of_nil].
    apply Hdis. by apply elem_of_cons; left. }
  intros [[]|e]; [|by apply runs_ret].
  eapply (runs_conseq _ (K (a :: placed) [])); [apply (IH (S index) (a :: placed) s1)| |].
  - done.
  - by constructor.
  - done.
  - done.
  - intros b Hb Hin. apply elem_of_cons in Hin as [Heq|Hin].
    + apply Hnew. rewrite <- Heq. by apply list_elem_of_fmap_2.
    + apply (Hdis b); [|done]. by apply elem_of_cons; right.
  - done.
  - intros [res s'] t [(? & ? & ?) Hres]. split; [|exact Hres]. by split_and!.
Qed.

Lemma stage_marks_spec recipe placed s :
  Forall (fun a => relative (ca_path a) = Ok tt) placed ->
  runs I (K placed []) (stage_marks stage_dir recipe s)
    (fun '(res, s') t => same_session s s'
       /\ match res with
          | Ok _ => K placed [("marker", ca_bytes (cr_marker recipe));
                              ("identity", ca_bytes (ss_recipe_identity s))] t
          | Err _ => I t end).
Proof.
  intros Hplaced. unfold stage_marks. eapply runs_bind; [by apply stage_spec|].
  intros [[]|e]; [|apply runs_ret; intros t Ht; split; [done|by eapply HI]].
  apply runs_map. eapply runs_conseq; [by apply stage_spec|done|].
  intros [[]|e] t Ht; (split; [done|]); [exact Ht|by eapply HI].
Qed.

End At.

(** ** The whole installation *)

Section Whole.
Context (recipe : CacheRecipe) (root : nat) (t0 : tree).
Context (Hr : WorkerValidate.recipe recipe = Ok tt) (Hwf0 : tree_wf t0).
Let marker := ca_path (cr_marker recipe).

Definition unmarked (t : tree) : Prop := tree_wf t /\ no_file t root marker.
(** Every tree in between: nothing has happened, or the marker is gone. *)
Definition untouched_or_unmarked (t : tree) : Prop := t = t0 \/ unmarked t.
Let I := untouched_or_unmarked.

Lemma not_located_no_file t : (forall d n, ~ located t root marker d n) -> no_file t root marker.
Proof. intros Hno d n i b Hl. by destruct (Hno d n). Qed.

Lemma no_file_at t d n :
  located t root marker d n -> (forall i b, entry t d n = Some i -> kind_of t i <> Some (IFile b)) ->
  no_file t root marker.
Proof. intros Hl Hno d' n' i b Hl'. destruct (located_fun _ _ _ _ _ _ _ Hl Hl') as [<- <-]. apply Hno. Qed.

Lemma marker_safe : safe_relative marker = Ok tt.
Proof.
  destruct (recipe_relative recipe Hr) as (Hrel & _). unfold relative in Hrel. fold marker in Hrel.
  by destruct (safe_relative marker) as [[]|].
Qed.

Lemma invalidate_spec :
  runs I (fun t => t = t0) (invalidate root marker)
    (fun res t => match res with Ok _ => unmarked t | Err _ => I t end).
Proof.
  assert (forall t, t = t0 -> I t) as HI by (by left).
  unfold invalidate. eapply runs_bind; [apply (runs_sees I _ _ _ HI (parent_sees Hquiet Hsight root marker))|].
  intros [[d n]|reason].
  2:{ apply runs_ret. intros t [-> Hp]. split; [done|]. apply not_located_no_file. intros d n Hl.
      rewrite (proj2 (parent_in_spec _ _ _ _ _) (conj marker_safe Hl)) in Hp. done. }
  eapply runs_bind.
  { apply (runs_sees I _ _ (link_in d n)); [intros t [-> _]; by left|]. by apply sees_look. }
  assert (forall t, Ok (d, n) = parent_in root marker t -> located t root marker d n) as Hloc.
  { intros t Hp. symmetry in Hp. by apply parent_in_spec in Hp as [_ ?]. }
  intros [m|e]; cbn match.
  2:{ apply runs_ret. intros t [[-> Hp%Hloc] Hm]. case_bool_decide; [|by left]. split; [done|].
      eapply no_file_at; [exact Hp|]. intros i b He Hk. unfold link_in, metadata_of in Hm.
      by rewrite He, Hk in Hm. }
  destruct (md_is_file m && Nat.eqb (md_nlink m) 1) eqn:Hf; [|apply runs_ret; intros t [[-> _] _]; by left].
  apply runs_map, (runs_act Hquiet).
  - intros t [[-> _] _]. by left.
  - intros t e [[-> _] _]. by left.
  - intros t t' [[-> Hp%Hloc] Hm] Hrm. enough (unmarked t') by (split; [by right|done]).
    symmetry in Hm. apply link_in_ok in Hm as (i & k & He & Hk & ->).
    unfold remove_file_in in Hrm. rewrite He in Hrm. destruct (is_dir t0 i) eqn:Hd; [done|]. injection Hrm as <-.
    split; [by apply drop_entry_wf|]. eapply (no_file_at _ d n).
    + eapply located_same; [|exact Hp]. eapply drop_entry_same_dirs; [exact He|]. by apply is_dir_false.
    + intros j b. by rewrite entry_drop_entry, decide_True.
Qed.

Lemma unmarked_stable : mkdir_stable unmarked.
Proof. apply mkdir_stable_no_file. Qed.

(** From the open staging directory on. *)
Lemma install_files_spec sd s :
  ss_root s = root ->
  runs I (staged_tree root sd marker [] [])
    (installed <-- install_artifacts sd 0 (cr_artifacts recipe) s ;;
     match installed with
     | (Err reason, s) => io_ret (Err reason, s)
     | (Ok _, s) => stage_marks sd recipe s
     end)
    (fun '(res, s') t => same_session s s'
       /\ match res with
          | Ok _ => prepared t recipe root sd (ss_recipe_identity s) /\ artifacts_in t root recipe
          | Err _ => unmarked t /\ staging_at t root sd
          end).
Proof.
  intros Hroot. destruct (recipe_relative recipe Hr) as (Hrm & Hra & _ & Hnd).
  set (I' t := unmarked t /\ staging_at t root sd).
  assert (forall placed held t, staged_tree root sd marker placed held t -> I' t) as HK.
  { intros placed held t [Hwf Hno ? _ _]. by split. }
  apply (runs_weaken I'); [|intros t [? _]; by right].
  eapply runs_bind.
  { apply (install_artifacts_spec I' root sd marker Hrm HK 0 (cr_artifacts recipe) [] s);
      [done|constructor|done|done|by intros a _ Hin%elem_of_nil]. }
  intros [[[]|e] s2]; [|by apply runs_ret].
  apply (runs_pure I' _ (same_session s s2)). intros (Hr2 & Hi2 & Hs2).
  assert (forall a, a ∈ rev_append (cr_artifacts recipe) [] <-> a ∈ cr_artifacts recipe) as Hin.
  { intros a. rewrite <- rev_alt. rewrite !list_elem_of_In. symmetry. apply in_rev. }
  eapply runs_conseq; [apply (stage_marks_spec I' root sd marker Hrm HK recipe (rev_append (cr_artifacts recipe) []) s2)| |].
  - apply Forall_forall. intros a Ha%Hin. rewrite Forall_forall in Hra. by apply Hra.
  - done.
  - intros [[[]|e] s'] t [(? & ? & ?) Ht]; (split; [split_and!; congruence|]); [|done].
    destruct Ht as [Hwf Hno Hst Hp Hh]. rewrite Hi2 in Hh.
    apply Forall_cons in Hh as [Hm Hh]. apply Forall_cons in Hh as [Hid _]. split; [by constructor|].
    apply Forall_forall. intros a Ha. rewrite Forall_forall in Hp. apply Hp. by apply Hin.
Qed.

Lemma install_spec s :
  ss_root s = root ->
  runs I (fun t => t = t0) (install recipe s)
    (fun '(res, s') t => (ss_root s' = root /\ ss_recipe_identity s' = ss_recipe_identity s)
       /\ match res with
          | Ok _ => stage_named s' /\ exists sd, staging_directory s' = Ok sd
              /\ prepared t recipe root sd (ss_recipe_identity s) /\ artifacts_in t root recipe
          | Err _ => stage_left I unmarked t s s'
          end).
Proof.
  intros Hroot. assert (forall t, unmarked t -> I t) as HI by (by right).
  unfold install. rewrite Hroot. apply (runs_bind I _ _ _ (fun res t => match res with Ok _ => unmarked t | Err _ => I t end)).
  { eapply (runs_try _ _ _ _ (fun _ t => t = t0)).
    - apply (check_binding_keeps Hquiet I (fun t => t = t0)); [by left|done].
    - intros []. apply invalidate_spec.
    - by left. }
  intros [[]|e]; [|apply runs_ret; intros t Ht; split; [done|]; by left].
  eapply runs_bind; [by apply (open_staging_spec I unmarked root HI unmarked_stable)|].
  intros [[[]|e] s1].
  2:{ apply runs_ret. intros t [? [Ht ->]]. split; [done|]. left. split; [by apply HI|done]. }
  apply (runs_pure I _ (ss_root s1 = root /\ ss_recipe_identity s1 = ss_recipe_identity s)). intros [Hr1 Hi1].
  destruct (staging_directory s1) as [sd|e] eqn:Hd.
  2:{ apply runs_ret. intros t (_ & _ & sd & [=] & _). }
  apply (runs_conseq _ (fun t => stage_named s1 /\ staged_tree root sd marker [] [] t) _ _
    (fun '(res, s') t => (ss_root s' = root /\ ss_recipe_identity s' = ss_recipe_identity s)
       /\ match res with
          | Ok _ => stage_named s' /\ exists sd, staging_directory s' = Ok sd
              /\ prepared t recipe root sd (ss_recipe_identity s) /\ artifacts_in t root recipe
          | Err _ => stage_left I unmarked t s s'
          end)); [| |done].
  2:{ intros t ([Hwf Hno] & Hn & sd' & [= <-] & Hst). split; [done|by constructor]. }
  apply runs_pure. intros Hn. eapply runs_conseq; [by apply (install_files_spec sd s1)|done|].
  intros [res s'] t [(Hra & Hi2 & Hs2) Ht]. split; [split; congruence|].
  assert (stage_named s') as Hn' by (intros st Hst; apply Hn; congruence).
  assert (staging_directory s' = Ok sd) as Hd' by (unfold staging_directory in *; by rewrite Hs2).
  destruct res; [split; [done|]; exists sd; by rewrite <- Hi1|]. destruct Ht as [Ht Hat].
  right. split; [done|]. split; [done|]. intros sd'. rewrite Hd'. intros [= <-]. by rewrite Hra, Hr1.
Qed.

End Whole.
End Install.
