(* ===== verification/CacheAdopt.v ===== *)
(** * Adopting a cache that predates identities

    A cache with everything a recipe needs but no identity is adopted by adding the
    identity, and nothing else: [Session::adopt_legacy] never takes the cache apart. *)

From stdpp Require Import fin_maps.
From S2P Require Import Prelude RustStd World Download WorkerTypes WorkerValidate CapFs CacheFiles.
From S2P Require Import CacheSession TreeFacts CacheFacts CacheRebuild CacheReady CacheInstall.

Open Scope rust_scope.

(** Everything a recipe needs, but for the identity. *)
Record verified (r : CacheRecipe) (root : nat) (t : tree) : Prop := {
  vf_wf : tree_wf t;
  vf_marker : has_file t root (ca_path (cr_marker r)) (ca_bytes (cr_marker r));
  vf_required : required_in t root r;
  vf_artifacts : artifacts_in t root r
}.

(** A session finds a legacy cache only where all of that is in place. *)
Lemma legacy_seen (r : CacheRecipe) `{Sha256, RecipeJson} root ident t :
  tree_wf t -> readiness_in r root ident t = Ok ReadyLegacy -> verified r root t.
Proof.
  intros Hwf. unfold readiness_in, marker_seen, required_seen, artifacts_seen.
  destruct (matches_in root (cr_marker r) t) as [[|]|] eqn:Hm; cbn; try done.
  destruct (all_in (entry_in root) _ t) as [[|]|] eqn:Hq; cbn; try done.
  destruct (all_in (matches_in root) _ t) as [[|]|] eqn:Ha; cbn; try done. intros _.
  apply matches_in_true in Hm as (_ & _ & Hm). apply all_in_true in Hq, Ha. constructor; [done|done|..].
  - eapply Forall_impl; [exact Hq|]. by intros e [_ ?]%entry_in_true.
  - eapply Forall_impl; [exact Ha|]. by intros a (_ & _ & ?)%matches_in_true.
Qed.

(** ** What staging the identity leaves alone *)

Section Staged.
Context (r : CacheRecipe) (root sd : nat) (Hr : WorkerValidate.recipe r = Ok tt).

Definition adopting (t : tree) : Prop := verified r root t /\ staging_at t root sd.

Lemma verified_extends t t' : extends t t' -> tree_wf t' -> verified r root t -> verified r root t'.
Proof.
  intros Hx Hwf [_ Hm Hq Ha]. constructor; [done|by eapply has_file_extends|..].
  - eapply Forall_impl; [exact Hq|]. intros e. by apply has_entry_extends.
  - eapply Forall_impl; [exact Ha|]. intros a. by apply has_file_extends.
Qed.

Lemma verified_stable : mkdir_stable (verified r root).
Proof.
  intros t d n t' Ht (Hd & Hno & ->)%create_dir_in_spec.
  eapply verified_extends; [by apply add_new_extends|by apply add_new_wf; [apply Ht|..]|done].
Qed.

Lemma adopting_extends t t' : extends t t' -> tree_wf t' -> adopting t -> adopting t'.
Proof. intros Hx Hwf [? ?]. split; [by eapply verified_extends|by eapply staging_at_extends]. Qed.

Lemma adopting_stable : mkdir_stable adopting.
Proof.
  intros t d n t' Ht (Hd & Hno & ->)%create_dir_in_spec.
  eapply adopting_extends; [by apply add_new_extends|by apply add_new_wf; [apply Ht|..]|done].
Qed.

Lemma adopting_create t name :
  adopting t -> is_dir t sd = true -> entry t sd name = None -> adopting (add_new t sd name (IFile "")).
Proof.
  intros Ht Hd Hno. eapply adopting_extends; [by apply add_new_extends|by apply add_new_wf; [apply Ht|..]|done].
Qed.

(** Writing to a staged file. *)
Section Write.
Context (t : tree) (name : string) (i : nat) (old bytes : string).
Context (Ht : adopting t) (He : entry t sd name = Some i).
Context (Hk : kind_of t i = Some (IFile old)) (Hl : nlink t i = 1%nat).
Let t' := set_node i (IFile bytes) t.

Lemma written_elsewhere path d n :
  relative path = Ok tt -> located t root path d n -> located t' root path d n /\ entry t d n <> Some i.
Proof.
  destruct Ht as [[Hwf _ _ _] Hst]. intros Hrel Hloc.
  split; [by apply (located_same t _ _ _ _ _ (set_file_same_dirs t i old bytes Hk))|].
  intros He'. pose proof (nlink_unique t _ _ _ _ i Hl He He') as [= <- _].
  by apply (aloof_relative t root sd path Hwf Hst Hrel _ _ Hloc).
Qed.

Lemma write_keeps_file path b : relative path = Ok tt -> has_file t root path b -> has_file t' root path b.
Proof.
  intros Hrel (d & n & Hloc & Hf). destruct (written_elsewhere _ _ _ Hrel Hloc).
  exists d, n. split; [done|]. by apply (set_file_has_file t i old).
Qed.

Lemma write_keeps_entry e : relative (ce_path e) = Ok tt -> has_entry t root e -> has_entry t' root e.
Proof.
  intros Hrel (d & n & Hloc & j & k & Hj & Hkj & Hf). destruct (written_elsewhere _ _ _ Hrel Hloc) as [? Hne].
  exists d, n. split; [done|]. exists j, k. split_and!; [done| |done].
  unfold t'. rewrite kind_set_node, decide_False by congruence. done.
Qed.

Lemma adopting_write : adopting t'.
Proof.
  destruct (recipe_relative r Hr) as (Hrm & Hra & Hrq & _). pose proof Ht as [[Hwf Hm Hq Ha] Hst].
  split; [constructor|].
  - by eapply set_file_wf.
  - by apply write_keeps_file.
  - eapply Forall_impl; [apply Forall_and; split; [exact Hq|exact Hrq]|]. intros e [? ?]. by apply write_keeps_entry.
  - eapply Forall_impl; [apply Forall_and; split; [exact Ha|exact Hra]|].
    intros a [? [? _]]. by apply write_keeps_file.
  - eapply staging_at_same; [by eapply set_file_same_dirs|done].
Qed.

End Write.

(** The identity is moved into place. *)
Lemma adopting_move ident t d target t' name :
  own_file ident -> adopting t -> located t root (ca_path ident) d target ->
  moved t sd name d target (ca_bytes ident) t' ->
  adopting t' /\ complete t' root r ident.
Proof.
  intros Hown [[Hwf Hm Hq Ha] Hst] Hl Hmv. destruct (recipe_relative r Hr) as (Hrm & Hra & _ & _).
  enough (verified r root t') as Hv.
  { split; [|destruct Hv; split_and!; [done..|by eapply moved_placed]].
    split; [done|]. eapply staging_at_same; [apply Hmv|done]. }
  constructor.
  - apply Hmv.
  - eapply moved_keeps_file; [exact Hwf|exact Hmv|exact Hl|by apply aloof_relative| |done].
    by apply own_file_not_relative.
  - by eapply moved_keeps_required.
  - eapply moved_keeps_artifacts; [exact Hwf|exact Hmv|exact Hl|done|done| |done].
    eapply Forall_impl; [exact Hra|]. intros a [? _]. by apply own_file_not_relative.
Qed.

End Staged.

(** ** Adopting *)

Section Adopt.
Context `{E : CapEnv} (Hquiet : quiet) (Hsight : sighted).
Context `{HSha : Sha256} `{HJson : RecipeJson}.
Context (r : CacheRecipe) (root : nat) (ident : CacheArtifact) (t0 : tree).
Context (Hr : recipe r = Ok tt) (Hown : own_file ident) (Hwf0 : tree_wf t0).

(** Every tree in between. *)
Definition untouched_or_verified (t : tree) : Prop := t = t0 \/ verified r root t.
Let I := untouched_or_verified.

Lemma verified_I t : verified r root t -> I t.
Proof. by right. Qed.

Lemma adopting_I sd t : adopting r root sd t -> I t.
Proof. intros [? _]. by right. Qed.

(** Staging the identity and moving it into place. *)
Lemma place_identity_spec sd s :
  runs I (adopting r root sd)
    (_ <-? stage sd "identity" (ca_bytes ident) ;; _ <-? check_binding s ;;
     promote sd "identity" root (ca_path ident))
    (fun res t => adopting r root sd t /\ (res = Ok tt -> complete t root r ident)).
Proof.
  set (K := adopting r root sd). set (K' t := K t /\ has_file_at t sd "identity" (ca_bytes ident)).
  assert (forall t, K t -> I t) as HK by (apply adopting_I).
  assert (forall t, K' t -> I t) as HK' by (intros t [? _]; by apply HK).
  eapply (runs_try _ _ _ _ (fun res t => K t /\ (res = Ok tt -> has_file_at t sd "identity" (ca_bytes ident)))).
  { apply (stage_keeps Hquiet I K True); [exact HK|done|intros t; apply adopting_create|].
    intros _ t i old b. by apply adopting_write. }
  2:{ intros e t [? _]. by split. }
  intros []. apply (runs_conseq _ K' _ _ (fun res t => K t /\ (res = Ok tt -> complete t root r ident)));
    [|intros t [? Hf]; split; [done|by apply Hf]|done].
  eapply (runs_try _ _ _ _ (fun _ => K')); [by apply (check_binding_keeps Hquiet I K')| |intros e t [? _]; by split].
  intros []. eapply runs_conseq.
  - apply (cache_promote_spec Hquiet I K' sd "identity" root (ca_path ident) (ca_bytes ident)).
    + exact HK'.
    + apply mkdir_stable_and; [apply adopting_stable|]. apply extends_stable. intros t t'. by apply has_file_at_extends.
    + intros t [[Hv Hst] Hf]. split_and!; [apply Hv|done|]. apply aloof_single; [apply Hv|done|apply Hown].
    + intros t d target t' [Ht _] Hl Hm. apply HK. by destruct (adopting_move r root sd Hr ident t d target t' "identity").
  - done.
  - intros [[]|e] t; [|intros [? _]; by split]. intros (_ & t1 & d & target & [Ht _] & Hl & Hm).
    by destruct (adopting_move r root sd Hr ident t1 d target t "identity").
Qed.

(** The session is told to adopt only where a second look agrees. *)
Definition checked_legacy (s : Session) : io CapW (result string unit) :=
  _ <-? check_binding s ;;
  if negb (ss_legacy s) then io_ret (Err "cache_legacy_changed")
  else
    ready <-? readiness r s ;;
    io_ret (if bool_decide (ready = ReadyLegacy) then Ok tt else Err "cache_legacy_changed").

Lemma checked_legacy_spec s :
  ss_root s = root ->
  runs I (fun t => t = t0) (checked_legacy s)
    (fun res t => t = t0 /\ (res = Ok tt -> verified r root t)).
Proof.
  intros Hroot. assert (forall t, t = t0 -> I t) as HI by (by left). unfold checked_legacy.
  eapply (runs_try _ _ _ _ (fun _ t => t = t0)); [by apply (check_binding_keeps Hquiet I (fun t => t = t0))| |by intros e].
  intros []. destruct (ss_legacy s); cbn [negb]; [|by apply runs_ret].
  eapply (runs_try _ _ _ _ (fun res t => t = t0 /\ res = readiness_in r root (ss_recipe_identity s) t)).
  - rewrite <- Hroot. apply runs_sees; [exact HI|]. by apply readiness_sees.
  - intros ready. apply runs_ret. intros t [-> Hready]. split; [done|]. case_bool_decide as Hl; [|done].
    intros _. subst ready. by apply (legacy_seen r root (ss_recipe_identity s)).
  - by intros e t [? _].
Qed.

(** What adopting answers, of the session and the tree. *)
Definition adopted (s : Session) (res : result string unit) (s' : Session) (t : tree) : Prop :=
  (ss_root s' = root /\ ss_recipe_identity s' = ident) /\ stage_left I (verified r root) t s s'
  /\ (res = Ok tt -> complete t root r ident /\ verified r root t
                     /\ ss_cached s' = true /\ ss_legacy s' = false).

Lemma adopt_legacy_spec s :
  ss_root s = root -> ss_recipe_identity s = ident ->
  runs I (fun t => t = t0) (adopt_legacy r s) (fun '(res, s') => adopted s res s').
Proof.
  intros Hroot Hid. unfold adopt_legacy. change (_ <-? check_binding s ;; _) with (checked_legacy s).
  assert (forall e t, I t -> adopted s (Err e) s t) as Herr by (intros e t Ht; split; [done|split; [by left|done]]).
  eapply runs_bind; [by apply checked_legacy_spec|].
  intros [[]|e]; [|apply runs_ret; intros t [? _]; apply Herr; by left].
  apply (runs_conseq _ (verified r root) _ _ (fun '(res, s') => adopted s res s'));
    [|intros t [_ Hv]; by apply Hv|done].
  eapply runs_bind; [by apply (open_staging_spec Hquiet I (verified r root) root verified_I (verified_stable r root))|].
  intros [[[]|e] s1]; [|apply runs_ret; intros t (_ & ? & ->); apply Herr; by right].
  apply (runs_pure I _ (ss_root s1 = root /\ ss_recipe_identity s1 = ss_recipe_identity s)). intros [Hr1 Hi1].
  destruct (staging_directory s1) as [sd|e] eqn:Hd; [|apply runs_ret; by intros t (_ & _ & sd & [=] & _)].
  cbn zeta. change (ss_root (push_staged "identity" s1)) with (ss_root s1).
  change (ss_recipe_identity (push_staged "identity" s1)) with (ss_recipe_identity s1). rewrite Hr1, Hi1, Hid.
  apply (runs_conseq _ (fun t => stage_named s1 /\ adopting r root sd t) _ _ (fun '(res, s') => adopted s res s'));
    [|intros t (Hv & Hn & sd' & [= <-] & ?); by split|done].
  apply runs_pure. intros Hn. eapply runs_bind; [apply place_identity_spec|].
  intros res. assert (forall s', ss_root s' = ss_root s1 -> ss_staging s' = ss_staging s1 ->
    forall t, verified r root t -> staging_at t root sd -> stage_left I (verified r root) t s s') as Hleft.
  { intros s' Hroot' Hst' t Hv Hat. right. split; [done|]. split; [intros st Hst; apply Hn; congruence|].
    intros sd'. unfold staging_directory in *. rewrite Hst', Hd, Hroot', Hr1. by intros [= <-]. }
  destruct res as [[]|e]; apply runs_ret; intros t [[Hv Hat] Hc];
    (split; [split; cbn; congruence|]); (split; [by apply Hleft|]); [|done].
  intros _. by split_and!; [apply Hc|..].
Qed.

End Adopt.

(** C23. Adopting a cache that has no identity yet never takes it apart. While no other
    process interferes and looking at the tree works (writes, renames and removals may
    still fail, and a write may leave a part), every tree it passes through, and the
    last, is either the one it started from or has the marker, every required entry and
    every artifact in place with their bytes; it changes nothing unless all of that was
    there on a second look. When it succeeds the cache is complete, identity included,
    and the session takes it for cached. *)
Theorem adopting_only_adds_the_identity `{E : CapEnv} `{HSha : Sha256} `{!Sha256Law HSha} `{!DigestLaw HSha} `{HJson : RecipeJson}
    (r : CacheRecipe) (s s' : Session) (res : result string unit) (w w' : CapW) :
  quiet -> sighted -> recipe r = Ok tt -> artifact r = Ok (ss_recipe_identity s) -> tree_wf (cw_tree w) ->
  adopt_legacy r s w = ((res, s'), w') ->
  (exists new, cw_log w' = new ++ cw_log w
     /\ Forall (fun e => untouched_or_verified r (ss_root s) (cw_tree w) (ce_tree e)) new)
  /\ untouched_or_verified r (ss_root s) (cw_tree w) (cw_tree w')
  /\ (res = Ok tt -> complete (cw_tree w') (ss_root s) r (ss_recipe_identity s)
        /\ ss_cached s' = true /\ ss_legacy s' = false).
Proof.
  intros Hquiet Hsight Hr Hart Hwf Ha. apply artifact_sound in Hart as [Hown _].
  pose proof (adopt_legacy_spec Hquiet Hsight r (ss_root s) (ss_recipe_identity s) (cw_tree w) Hr Hown Hwf
                s eq_refl eq_refl w eq_refl) as H'.
  rewrite Ha in H'. destruct H' as [(_ & Hi & Hok) Hlog]. split; [done|].
  split; [by eapply stage_left_tree; [apply verified_I|]|].
  intros Hres. by destruct (Hok Hres) as (? & _ & ? & ?).
Qed.
