(* ===== verification/CacheAcquire.v ===== *)
(** * How a session begins

    [Session::acquire] reaches the scope's directory, creating what is missing, takes
    the lock and looks at what is there: it says cached, or to be adopted, only of what
    is. *)

From stdpp Require Import fin_maps.
From S2P Require Import Prelude RustStd World Download WorkerTypes WorkerValidate CapFs CacheFiles.
From S2P Require Import CacheSession TreeFacts CacheFacts CacheRebuild CacheReady CacheInstall CacheAdopt.

Open Scope rust_scope.

(** What a session is, at the tree it was acquired in. *)
Record fresh_session (r : CacheRecipe) (ident : CacheArtifact) (s : Session) (t : tree) : Prop := {
  fs_wf : tree_wf t;
  fs_identity : ss_recipe_identity s = ident;
  fs_held : ss_lock s <> None;
  fs_unstaged : ss_staging s = None;
  fs_cached : ss_cached s = true -> complete t (ss_root s) r ident;
  fs_legacy : ss_legacy s = true -> verified r (ss_root s) t
}.

Section Acquire.
Context `{E : CapEnv} (Hquiet : quiet) (Hsight : sighted).
Context `{HSha : Sha256} `{!Sha256Law HSha} `{!DigestLaw HSha} `{HJson : RecipeJson}.

Let I := tree_wf.

Lemma descend_all_wf dir names create : runs I tree_wf (descend_all dir names create) (fun _ => tree_wf).
Proof.
  revert dir. induction names as [|n names IH]; intros dir; cbn [descend_all]; [by apply runs_ret|].
  eapply runs_try; [apply (descend_spec Hquiet I tree_wf (fun _ Hwf => Hwf) tree_wf)|..].
  - done.
  - intros _. apply mkdir_stable_wf.
  - intros c. eapply runs_conseq; [apply IH|by intros t [Ht _]|done].
  - by intros e t [Ht _].
Qed.

Lemma absolute_wf path create : runs I tree_wf (absolute path create) (fun _ => tree_wf).
Proof.
  unfold absolute. destruct (normal_names _); [|by apply runs_ret].
  apply (runs_try _ _ _ _ (fun _ => tree_wf)); [|intros d; apply descend_all_wf|done].
  by apply runs_map, (runs_look Hquiet).
Qed.

Lemma open_lock_file_wf root : runs I tree_wf (open_lock_file root) (fun _ => tree_wf).
Proof.
  unfold open_lock_file. apply (runs_try _ _ _ _ (fun _ => tree_wf)); [|intros lock|done].
  - apply runs_map, (runs_call Hquiet); [done|]. intros t i t' Ht. unfold open_or_create_in, create_file_in.
    destruct (entry t root LOCK_NAME) as [c|] eqn:He.
    + destruct (kind_of t c) as [[]|]; try done; by intros [= <- <-].
    + destruct (is_dir t root) eqn:Hd; [|done]. intros [= <- <-].
      assert (tree_wf (add_new t root LOCK_NAME (IFile ""))) by (by apply add_new_wf). done.
  - apply (runs_try _ _ _ _ (fun _ => tree_wf)); [|intros m; by apply runs_ret|done].
    by apply runs_map, (runs_look Hquiet).
Qed.

Lemma acquire_lock_wf turns lock deadline : runs I tree_wf (acquire_lock turns lock deadline) (fun _ => tree_wf).
Proof.
  induction turns as [|turns IH]; cbn [acquire_lock]; [by apply runs_ret|].
  apply (runs_bind _ _ _ _ (fun _ => tree_wf)); [by apply (runs_ask Hquiet)|]. intros [|]; [by apply runs_ret|].
  apply (runs_bind _ _ _ _ (fun _ => tree_wf)); [by apply (runs_ask Hquiet)|]. intros t.
  match goal with |- context [if ?late then _ else _] => destruct late end; [by apply runs_ret|].
  apply (runs_bind _ _ _ _ (fun _ => tree_wf)); [by apply (runs_ask Hquiet)|].
  intros []; [by apply runs_ret| |by apply runs_ret].
  apply (runs_bind _ _ _ _ (fun _ => tree_wf)); [by apply (runs_ask Hquiet)|].
  intros [|]; [by apply runs_ret|apply IH].
Qed.

Lemma acquired_spec path r ident root lock lock_id :
  recipe r = Ok tt -> artifact r = Ok ident ->
  runs I tree_wf (acquired path r ident root lock lock_id)
    (fun res t => forall s, res = Ok s -> fresh_session r ident s t).
Proof.
  intros Hr Hart. unfold acquired. cbv zeta. set (s0 := MkSession _ _ _ _ _ _ _ _ _).
  apply (runs_try _ _ _ _ (fun _ => tree_wf)); [by apply (check_binding_keeps Hquiet I tree_wf)| |done].
  intros []. eapply runs_try.
  - apply runs_sees; [|by apply readiness_sees]. by intros t.
  - intros ready. apply runs_ret. intros t [Hwf Hready] s [= <-]. cbn [ss_root ss_recipe_identity s0] in Hready.
    destruct ready; constructor; try done; intros _.
    + by apply (complete_seen r s0).
    + by apply (legacy_seen r root ident).
  - done.
Qed.

Lemma acquire_spec turns path r ident deadline :
  recipe r = Ok tt -> artifact r = Ok ident ->
  runs I tree_wf (acquire turns path r deadline)
    (fun res t => forall s, res = Some (Ok s) -> fresh_session r ident s t).
Proof.
  intros Hr Hart. unfold acquire. rewrite Hart.
  eapply runs_bind; [apply absolute_wf|]. intros [root|e]; [|by apply runs_ret].
  eapply runs_bind; [apply open_lock_file_wf|]. intros [[lock lock_id]|e]; [|by apply runs_ret].
  eapply runs_bind; [apply acquire_lock_wf|]. intros [[[]|e]|]; [|by apply runs_ret..].
  apply runs_map. eapply runs_conseq; [by apply acquired_spec|done|]. intros res t Hs s [= Heq]. by apply Hs.
Qed.

End Acquire.
