(* ===== verification/CacheCleanup.v ===== *)
(** * Taking a staging directory away

    [Session::cleanup] removes what a session staged and then the staging directory.
    Whatever it removes, and wherever it stops, nothing outside that directory is
    touched ([shed]): a complete, a legacy and an unmarked cache stay what they are. *)

From stdpp Require Import fin_maps.
From S2P Require Import Prelude RustStd World Download WorkerTypes WorkerValidate CapFs CacheFiles.
From S2P Require Import CacheSession TreeFacts CacheFacts CacheRebuild CacheReady CacheInstall CacheAdopt.

Open Scope rust_scope.

(** ** Losing only a directory and what is in it *)

Record shed (sd : nat) (t t' : tree) : Prop := {
  sh_wf : tree_wf t';
  sh_kind i : i <> sd -> kind_of t' i = kind_of t i;
  sh_kind_sub i k : kind_of t' i = Some k -> kind_of t i = Some k;
  sh_entry d n c : d <> sd -> c <> sd -> entry t d n = Some c -> entry t' d n = Some c;
  sh_entry_sub d n c : entry t' d n = Some c -> entry t d n = Some c;
  sh_nlink d n i : d <> sd -> i <> sd -> entry t d n = Some i -> nlink t i = 1%nat -> nlink t' i = 1%nat
}.

Lemma shed_refl sd t : tree_wf t -> shed sd t t.
Proof. by constructor. Qed.

Lemma shed_trans sd a b c : shed sd a b -> shed sd b c -> shed sd a c.
Proof.
  intros Hab Hbc. constructor.
  - apply Hbc.
  - intros i Hi. rewrite (sh_kind _ _ _ Hbc) by done. by apply Hab.
  - intros i k Hk. by apply (sh_kind_sub _ _ _ Hab), (sh_kind_sub _ _ _ Hbc).
  - intros d n i Hd Hi He. apply (sh_entry _ _ _ Hbc); [done..|]. by apply (sh_entry _ _ _ Hab).
  - intros d n i He. by apply (sh_entry_sub _ _ _ Hab), (sh_entry_sub _ _ _ Hbc).
  - intros d n i Hd Hi He Hl. apply (sh_nlink _ _ _ Hbc d n); [done..| |].
    + by apply (sh_entry _ _ _ Hab).
    + by apply (sh_nlink _ _ _ Hab d n).
Qed.

(** A file in it loses its name. *)
Lemma shed_remove_file sd t name t' :
  tree_wf t -> remove_file_in t sd name = Ok t' -> shed sd t t' /\ same_dirs t t'.
Proof.
  intros Hwf. unfold remove_file_in. destruct (entry t sd name) as [i|] eqn:He; [|done].
  destruct (is_dir t i) eqn:Hd; [done|]. intros [= <-]. split.
  2:{ eapply drop_entry_same_dirs; [exact He|]. by apply is_dir_false. }
  constructor; [by apply drop_entry_wf|done|done|..].
  - intros d n c Hne _ Hc. by rewrite entry_drop_entry, decide_False by congruence.
  - intros d n c. rewrite entry_drop_entry. by case_decide.
  - intros d n j Hne _ Hj Hl.
    assert (i <> j) as Hij. { intros ->. apply Hne. pose proof (nlink_unique t _ _ _ _ j Hl He Hj). congruence. }
    rewrite (nlink_drop_entry sd name i t j He), decide_False in Hl by done. lia.
Qed.

Lemma is_empty_dir_spec t d n : is_empty_dir t d = true -> entry t d n = None.
Proof.
  unfold is_empty_dir. rewrite forallb_forall. intros Hall. unfold entry.
  destruct (t_entries t !! (d, n)) as [c|] eqn:He; [|done].
  apply elem_of_map_to_list, list_elem_of_In in He. specialize (Hall _ He). cbn in Hall.
  by rewrite Nat.eqb_refl in Hall.
Qed.

(** The directory itself, once it is empty. *)
Lemma shed_remove_dir sd t t' : tree_wf t -> sd <> fs_root -> remove_dir_in t sd = Ok t' -> shed sd t t'.
Proof.
  intros Hwf Hroot. unfold remove_dir_in. destruct (is_empty_dir t sd) eqn:Hempty; [|done]. intros [= <-].
  set (t' := MkTree _ _).
  assert (forall i, kind_of t' i = if decide (i = sd) then None else kind_of t i) as Hkind.
  { intros i. unfold kind_of, t'. cbn. case_decide; [subst; apply lookup_delete_eq|by apply lookup_delete_ne]. }
  assert (forall d n c, entry t' d n = Some c <-> entry t d n = Some c /\ c <> sd) as Hentry.
  { intros d n c. unfold entry, t'. cbn. by rewrite map_lookup_filter_Some. }
  assert (forall d n c, entry t' d n = Some c -> d <> sd) as Hin.
  { intros d n c [He _]%Hentry ->. by rewrite (is_empty_dir_spec _ _ _ Hempty) in He. }
  assert (forall i, i <> sd -> nlink t' i = nlink t i) as Hl.
  { intros i Hi. unfold nlink, t'. cbn. rewrite map_filter_filter. f_equal. apply map_filter_ext.
    intros [d n] c _. split; [by intros [? ?]|]. intros ->. by split. }
  constructor.
  - constructor.
    + rewrite Hkind, decide_False by done. apply Hwf.
    + intros d n [He _]%Hentry. by apply (tw_top _ Hwf d n).
    + intros d n c Hc. pose proof (Hin _ _ _ Hc). apply Hentry in Hc as [Hc Hne].
      rewrite !Hkind, !decide_False by done. by apply (tw_entry _ Hwf d n).
    + intros d n d' n' c [Hc Hne]%Hentry [Hc' _]%Hentry. rewrite Hkind, decide_False by done.
      by apply (tw_parent _ Hwf).
    + destruct (tw_rank _ Hwf) as [rank Hr]. exists rank. intros d n c [Hc Hne]%Hentry.
      rewrite Hkind, decide_False by done. by apply (Hr d n).
  - intros i Hi. by rewrite Hkind, decide_False.
  - intros i k. rewrite Hkind. by case_decide.
  - intros d n c _ Hc He. by apply Hentry.
  - by intros d n c [? _]%Hentry.
  - intros d n i _ Hi _ <-. by apply Hl.
Qed.

(** ** What is outside stays *)

Lemma staging_not_root sd root t : tree_wf t -> staging_at t root sd -> sd <> fs_root.
Proof.
  intros Hwf Hst. destruct Hst as (nm & Hw & _). cbn in Hw. destruct (entry t root nm) as [c|] eqn:He; [|done].
  destruct (is_dir t c); [|done]. injection Hw as <-. intros ->. by apply (tw_top _ Hwf root nm).
Qed.

Section Outside.
Context (sd root : nat) (t t' : tree).
Context (Hwf : tree_wf t) (Hst : staging_at t root sd) (Hshed : shed sd t t').

(** A walk by names that are not the router's does not come through. *)
Lemma shed_walk ps d :
  Forall (fun p => router_owned p = false) ps -> walk t root ps = Some d -> d <> sd /\ walk t' root ps = Some d.
Proof.
  revert d. induction ps as [|p ps IH] using rev_ind; intros d Hps Hw.
  { injection Hw as <-. split; [|done]. intros ->. destruct Hst as (nm & Hnm & _).
    by pose proof (walk_unique t sd [nm] [] sd Hwf Hnm eq_refl). }
  assert (d <> sd) as Hd.
  { intros ->. destruct Hst as (nm & Hnm & Hr). rewrite (walk_unique t root _ _ sd Hwf Hw Hnm) in Hps.
    inversion Hps. congruence. }
  split; [done|]. apply walk_snoc in Hw as (f & Hf & He & Hdir). apply Forall_app in Hps as [Hps _].
  destruct (IH f Hps Hf) as [Hfsd Hf']. apply walk_snoc. exists f. split_and!; [done| |].
  - by apply (sh_entry _ _ _ Hshed).
  - apply is_dir_spec. rewrite (sh_kind _ _ _ Hshed) by done. by apply is_dir_spec.
Qed.

(** A path of that kind, or a single name in the root. *)
Definition outside (path : string) : Prop :=
  Forall (fun p => router_owned p = false) (removelast (split_on "/" path)).

Lemma relative_outside path : relative path = Ok tt -> outside path.
Proof.
  intros Hr%relative_parts. unfold outside. destruct (split_on "/" path) as [|p ps]; [done|].
  rewrite (app_removelast_last "" (l := p :: ps)) in Hr by done. by apply Forall_app in Hr as [? _].
Qed.

Lemma own_file_outside a : own_file a -> outside (ca_path a).
Proof. intros [Hs _]. unfold outside. rewrite Hs. constructor. Qed.

Lemma shed_located path d name :
  outside path -> located t root path d name -> d <> sd /\ located t' root path d name.
Proof.
  intros Ho (ps & Hs & Hw). unfold outside in Ho. rewrite Hs, removelast_last in Ho.
  destruct (shed_walk ps d Ho Hw) as [? ?]. split; [done|]. by exists ps.
Qed.

Lemma shed_keeps_file path b : outside path -> has_file t root path b -> has_file t' root path b.
Proof.
  intros Ho (d & name & Hl & i & He & Hk & Hn). destruct (shed_located _ _ _ Ho Hl) as [Hd Hl'].
  assert (i <> sd) as Hi.
  { intros ->. destruct Hst as (nm & Hw & _). pose proof (walk_dir _ _ _ _ Hw ltac:(done)). congruence. }
  exists d, name. split; [done|]. exists i. split_and!.
  - by apply (sh_entry _ _ _ Hshed).
  - by rewrite (sh_kind _ _ _ Hshed).
  - by apply (sh_nlink _ _ _ Hshed d name).
Qed.

Lemma shed_keeps_entry e : relative (ce_path e) = Ok tt -> has_entry t root e -> has_entry t' root e.
Proof.
  intros Hr (d & name & Hl & i & k & He & Hk & Hf).
  destruct (shed_located _ _ _ (relative_outside _ Hr) Hl) as [Hd Hl'].
  assert (i <> sd) as Hi.
  { intros ->. destruct Hst as (nm & Hw & Hown). cbn in Hw. destruct (entry t root nm) as [c|] eqn:Hc; [|done].
    destruct (is_dir t c) eqn:Hdc; [|done]. injection Hw as ->. apply is_dir_spec in Hdc.
    destruct (tw_parent _ Hwf _ _ _ _ _ He Hc Hdc) as [_ ->].
    destruct Hl as (ps & Hs & _). apply relative_parts in Hr. rewrite Hs in Hr.
    apply Forall_app in Hr as [_ Hr]. inversion Hr. congruence. }
  exists d, name. split; [done|]. exists i, k. split_and!.
  - by apply (sh_entry _ _ _ Hshed).
  - by rewrite (sh_kind _ _ _ Hshed).
  - unfold kind_fits, md_is_file in *. cbn in *. destruct (ce_kind e); [|exact Hf|exact Hf].
    apply andb_true_iff in Hf as [Hf Hn]. rewrite Hf. cbn [andb]. apply Nat.eqb_eq. apply Nat.eqb_eq in Hn.
    by apply (sh_nlink _ _ _ Hshed d name).
Qed.

Lemma shed_walk_sub d ps e : walk t' d ps = Some e -> walk t d ps = Some e.
Proof.
  revert d. induction ps as [|p ps IH]; intros d; cbn [walk]; [done|].
  destruct (entry t' d p) as [c|] eqn:He; [|done]. destruct (is_dir t' c) eqn:Hd; [|done].
  apply (sh_entry_sub _ _ _ Hshed) in He. apply is_dir_spec, (sh_kind_sub _ _ _ Hshed), is_dir_spec in Hd.
  rewrite He, Hd. apply IH.
Qed.

Lemma shed_no_file path : no_file t root path -> no_file t' root path.
Proof.
  intros Hno d name i b (ps & Hs & Hw) He Hk. apply (Hno d name i b); [|by apply Hshed..].
  exists ps. split; [done|by apply shed_walk_sub].
Qed.

Context (r : CacheRecipe) (Hr : WorkerValidate.recipe r = Ok tt).

Lemma shed_keeps_verified : verified r root t -> verified r root t'.
Proof.
  destruct (recipe_relative r Hr) as (Hrm & Hra & Hrq & _). intros [_ Hm Hq Ha]. constructor.
  - apply Hshed.
  - by apply shed_keeps_file; [apply relative_outside|].
  - eapply Forall_impl; [apply Forall_and; split; [exact Hq|exact Hrq]|]. intros e [? ?]. by apply shed_keeps_entry.
  - eapply Forall_impl; [apply Forall_and; split; [exact Ha|exact Hra]|].
    intros a [? [? _]]. by apply shed_keeps_file; [apply relative_outside|].
Qed.

Lemma shed_keeps_complete ident : own_file ident -> complete t root r ident -> complete t' root r ident.
Proof.
  intros Hown (Hm & Hq & Ha & Hi). destruct shed_keeps_verified as [_ Hm' Hq' Ha']; [by constructor|].
  split_and!; [done..|]. by apply shed_keeps_file; [apply own_file_outside|].
Qed.

End Outside.

(** ** Cleaning up *)

Section Cleanup.
Context `{E : CapEnv} (Hquiet : quiet).
Context (root : nat) (t0 : tree) (Hwf0 : tree_wf t0).

(** The first tree, or it without a staging directory or some of what was in one. *)
Definition cleaned_from (t : tree) : Prop :=
  t = t0 \/ exists sd, staging_at t0 root sd /\ shed sd t0 t.

Section Held.
Context (sd : nat) (Hst : staging_at t0 root sd).

Definition emptying (t : tree) : Prop := shed sd t0 t /\ staging_at t root sd.

Lemma emptying_cleaned t : emptying t -> cleaned_from t.
Proof. intros [? _]. right. by exists sd. Qed.

Lemma emptying_start : emptying t0.
Proof. split; [by apply shed_refl|done]. Qed.

Lemma remove_staged_spec names :
  runs cleaned_from emptying (remove_staged sd names) (fun _ => emptying).
Proof.
  induction names as [|name names IH]; cbn [remove_staged]; [by apply runs_ret|].
  apply (runs_bind _ _ _ _ (fun _ => emptying)).
  - apply (runs_act Hquiet); [apply emptying_cleaned|done|]. intros t t' [Hs Hat] Hrm.
    destruct (shed_remove_file sd t name t' (sh_wf _ _ _ Hs) Hrm) as [Hs' Hd].
    assert (emptying t') as Ht' by (split; [by eapply shed_trans|by eapply staging_at_same]).
    split; [by apply emptying_cleaned|done].
  - intros [[]|e]; [apply IH|]. case_bool_decide; [apply IH|by apply runs_ret].
Qed.

(** The tail of [Staging::cleanup], once it knows its directory. *)
Lemma emptied_spec names st :
  runs cleaned_from emptying
    (emptied <-- remove_staged sd names ;;
     match emptied with
     | Err reason => io_ret (Err reason, MkStaging (Some sd) (sg_name st) (sg_identity st))
     | Ok _ =>
         removed <-- failed_as "cache_stage_cleanup_failed" (remove_open_dir sd) ;;
         io_ret (removed, MkStaging None (sg_name st) (sg_identity st))
     end)
    (fun '(_, st') t => cleaned_from t
       /\ (sg_name st' = sg_name st /\ sg_identity st' = sg_identity st)
       /\ forall d, sg_directory st' = Some d -> d = sd /\ staging_at t root d).
Proof.
  eapply runs_bind; [apply remove_staged_spec|]. intros [[]|e].
  2:{ apply runs_ret. intros t Ht. split; [by apply emptying_cleaned|]. split; [done|]. intros d [= <-].
      split; [done|apply Ht]. }
  apply (runs_bind _ _ _ _ (fun _ => cleaned_from)).
  - apply runs_map, (runs_act Hquiet); [apply emptying_cleaned|intros t e; apply emptying_cleaned|].
    intros t t' [Hs Hat] Hrm. enough (cleaned_from t') by done. right. exists sd. split; [done|].
    eapply shed_trans; [exact Hs|]. apply shed_remove_dir; [apply Hs| |done].
    exact (staging_not_root sd root t (sh_wf _ _ _ Hs) Hat).
  - intros removed. apply runs_ret. by intros t Ht.
Qed.

End Held.

(** The directory to empty is the session's own, or one of its name and inode. *)
Lemma reopened_spec st :
  router_owned (sg_name st) = true ->
  (forall d, sg_directory st = Some d -> d = sg_identity st /\ staging_at t0 root d) ->
  runs cleaned_from (fun t => t = t0) (reopened root st)
    (fun res t => t = t0 /\ forall d, res = Ok d -> d = sg_identity st /\ staging_at t0 root d).
Proof.
  intros Hown Hheld. assert (forall t, t = t0 -> cleaned_from t) as HI by (by left).
  unfold reopened. destruct (sg_directory st) as [d|] eqn:Hd.
  { apply runs_ret. intros t ->. split; [done|]. intros ? [= <-]. by apply Hheld. }
  eapply (runs_try _ _ _ _ (fun res t => t = t0 /\ forall d, res = Ok d -> staging_at t0 root d)).
  - apply runs_map, (runs_look Hquiet); [exact HI|by intros|]. intros t d -> Ho%open_dir_in_spec.
    split; [done|]. intros ? [= <-]. exists (sg_name st). split; [|done]. cbn. destruct Ho as [-> Hdir]. by rewrite Hdir.
  - intros d. apply (runs_try _ _ _ _ (fun res t => (t = t0 /\ staging_at t0 root d) /\ forall i, res = Ok i -> i = d)).
    + apply runs_map, (runs_look Hquiet).
      * intros t [-> _]. by left.
      * intros t e [-> Ho]. split; [|done]. split; [done|by apply Ho].
      * intros t i [-> Ho] [= <-]. split; [split; [done|by apply Ho]|]. by intros ? [= <-].
    + intros i. destruct (Nat.eqb_spec i (sg_identity st)) as [->|]; apply runs_ret; intros t [[-> Ho] Hi]; (split; [done|]); [|done].
      intros ? [= <-]. by rewrite (Hi _ eq_refl).
    + intros e t [[-> _] _]. by split.
  - intros e t [-> _]. by split.
Qed.

Lemma session_cleanup_spec s :
  ss_root s = root -> stage_named s -> stage_in t0 s ->
  runs cleaned_from (fun t => t = t0) (session_cleanup s)
    (fun '(res, s') t => cleaned_from t /\ stage_named s' /\ stage_in t s'
       /\ match res with Ok _ => s' = session_released s | Err _ => exists st, s' = set_staging (Some st) s end).
Proof.
  intros Hroot Hn Hin. unfold session_cleanup. destruct (ss_staging s) as [st|] eqn:Hst.
  2:{ apply runs_ret. intros t ->. split; [by left|]. by split_and!. }
  destruct (Hn st Hst) as [Hown Hid].
  assert (forall d, sg_directory st = Some d -> d = sg_identity st /\ staging_at t0 root d) as Hheld.
  { intros d Hd. split; [by apply Hid|]. rewrite <- Hroot. apply Hin. unfold staging_directory, Staging_directory.
    by rewrite Hst, Hd. }
  rewrite Hroot. unfold Staging_cleanup.
  apply (runs_bind _ _ _ _ (fun '(res, st') t => cleaned_from t
           /\ (sg_name st' = sg_name st /\ sg_identity st' = sg_identity st)
           /\ forall d, sg_directory st' = Some d -> d = sg_identity st /\ staging_at t root d)).
  - eapply runs_bind; [by apply reopened_spec|]. intros [sd|e].
    2:{ apply runs_ret. intros t [-> _]. split; [by left|]. split; [done|]. intros d Hd. by apply Hheld. }
    apply (runs_conseq _ (fun t => (sd = sg_identity st /\ staging_at t0 root sd) /\ t = t0) _ _
             (fun '(_, st') t => cleaned_from t
                /\ (sg_name st' = sg_name st /\ sg_identity st' = sg_identity st)
                /\ forall d, sg_directory st' = Some d -> d = sg_identity st /\ staging_at t root d));
      [|intros t [-> Ho]; by split; [apply Ho|]|done].
    apply runs_pure. intros [-> Hat].
    eapply runs_conseq; [by apply emptied_spec| |by intros []].
    intros t ->. by apply emptying_start.
  - intros [[[]|e] st']; apply runs_ret; intros t (Hc & [Hname Hident] & Hdir); (split; [done|]).
    + by split_and!.
    + assert (stage_named (set_staging (Some st') s) /\ stage_in t (set_staging (Some st') s)) as [? ?];
        [|by split_and!; [..|by exists st']]. split.
      * intros ? [= <-]. rewrite Hname, Hident. split; [done|]. intros d Hd. by apply Hdir.
      * intros sd. unfold staging_directory, Staging_directory. cbn. rewrite Hroot.
        destruct (sg_directory st') as [d|]; [|done]. intros [= <-]. by apply Hdir.
Qed.

End Cleanup.
