(* ===== verification/WorkerScript.v ===== *)
(** * Where a worker's script is put: [Actor::install_script]

    The script is written into the worker's directory through the handle the supervisor
    then starts its processes in; [Actor] asks for it in one go. *)

From stdpp Require Import fin_maps.
From S2P Require Import Prelude RustStd World CapFs CacheFiles CacheSession TreeFacts CacheFacts CacheInstall.

Open Scope rust_scope.

Definition SCRIPT_NAME : string := "worker-script".
(** [0o700] and [0o600] *)
Definition DIRECTORY_MODE : N := 448.
Definition SCRIPT_MODE : N := 384.

Section Script.
Context `{E : CapEnv}.

(** From the opened directory on. *)
Definition write_script (d : nat) (source : string) : io CapW (result string unit) :=
  file <-? failed (open_or_create d SCRIPT_NAME) ;;
  m <-? failed (file_metadata file) ;;
  if negb (md_is_file m) || negb (Nat.eqb (md_nlink m) 1) then io_ret (Err "invalid_input")
  else
    _ <-? failed (set_mode file SCRIPT_MODE) ;;
    _ <-? failed (set_len_zero file) ;;
    failed (write_bytes file source).

(** The answer, and the directory the supervisor keeps. *)
Definition install_script (current_dir : option Path) (root : Path) (source : string)
  : io CapW (result string unit * option nat) :=
  opened <-- open_worker_directory current_dir root ;;
  match opened with
  | Err reason => io_ret (Err reason, None)
  | Ok d =>
      entered <-- (self <-? failed (try_clone d) ;; _ <-? failed (set_mode self DIRECTORY_MODE) ;;
                   failed (try_clone d)) ;;
      match entered with
      | Err reason => io_ret (Err reason, None)
      | Ok kept => io_map (fun r => (r, Some kept)) (write_script d source)
      end
  end.

(** ** What is written *)

(** Latest first: nothing is written to a file before it was made private. *)
Fixpoint private_writes (log : cap_log) : Prop :=
  match log with
  | [] => True
  | e :: earlier =>
      private_writes earlier
      /\ match ce_op e with
         | CapWrite i _ => exists e', e' ∈ earlier /\ ce_op e' = CapSetMode i SCRIPT_MODE /\ ce_ok e' = true
         | _ => True
         end
  end.

(** One call adds one event, with what it was asked. *)
Lemma cap_call_logs {A} op handle (act : tree -> result io_error (A * tree)) w r w' :
  cap_call op handle act w = (r, w') ->
  exists e, cw_log w' = e :: cw_log w /\ ce_op e = op /\ ce_ok e = is_ok r.
Proof.
  unfold cap_call. destruct (match cap_fault _ op with Some e => _ | None => _ end) as [[a t]|x];
    intros [= <- <-]; by eexists.
Qed.

Lemma write_bytes_logs i bytes w r w' :
  write_bytes i bytes w = (r, w') -> exists e, cw_log w' = e :: cw_log w /\ ce_op e = CapWrite i bytes.
Proof.
  unfold write_bytes. destruct (cap_fault _ _).
  - intros [= <- <-]. by eexists.
  - intros (e & ? & ? & _)%cap_call_logs. by exists e.
Qed.

(** Whatever fails and whoever interferes, the script's bytes only go to a file that was
    made readable by its owner alone before. *)
Lemma script_is_written_privately d source w r w' :
  write_script d source w = (r, w') ->
  exists new, cw_log w' = new ++ cw_log w /\ private_writes new.
Proof.
  unfold write_script, failed, io_try, io_map.
  destruct (open_or_create d SCRIPT_NAME w) as [r1 w1] eqn:E1. apply cap_call_logs in E1 as (e1 & H1 & O1 & _).
  destruct r1 as [i|x]; cbn [map_err]; [|intros [= <- <-]; exists [e1]; split; [done|]; cbn; by rewrite O1].
  destruct (file_metadata i w1) as [r2 w2] eqn:E2. apply cap_call_logs in E2 as (e2 & H2 & O2 & _).
  destruct r2 as [m|x]; cbn [map_err];
    [|intros [= <- <-]; exists [e2; e1]; split; [by rewrite H2, H1|]; cbn; by rewrite O1, O2].
  destruct (negb (md_is_file m) || negb (Nat.eqb (md_nlink m) 1));
    [intros [= <- <-]; exists [e2; e1]; split; [by rewrite H2, H1|]; cbn; by rewrite O1, O2|].
  destruct (set_mode i SCRIPT_MODE w2) as [r3 w3] eqn:E3. apply cap_call_logs in E3 as (e3 & H3 & O3 & K3).
  destruct r3 as [[]|x]; cbn [map_err];
    [|intros [= <- <-]; exists [e3; e2; e1]; split; [by rewrite H3, H2, H1|]; cbn; by rewrite O1, O2, O3].
  destruct (set_len_zero i w3) as [r4 w4] eqn:E4. apply cap_call_logs in E4 as (e4 & H4 & O4 & _).
  destruct r4 as [[]|x]; cbn [map_err];
    [|intros [= <- <-]; exists [e4; e3; e2; e1]; split; [by rewrite H4, H3, H2, H1|]; cbn; by rewrite O1, O2, O3, O4].
  destruct (write_bytes i source w4) as [r5 w5] eqn:E5. apply write_bytes_logs in E5 as (e5 & H5 & O5).
  intros [= <- <-]. exists [e5; e4; e3; e2; e1]. split; [by rewrite H5, H4, H3, H2, H1|]. cbn.
  rewrite O1, O2, O3, O4, O5. split_and!; try done. exists e3. split; [|done].
  apply elem_of_cons; right; apply elem_of_cons; by left.
Qed.

(** While nobody interferes, success means the directory has the whole script, and nothing
    of an older one, in a file with no other name. *)
Lemma script_is_written_whole d source :
  quiet ->
  runs (fun _ => True) (fun _ => True) (write_script d source)
    (fun r t => r = Ok tt -> has_file_at t d SCRIPT_NAME source).
Proof.
  intros Hquiet. unfold write_script.
  set (file i old t := entry t d SCRIPT_NAME = Some i /\ kind_of t i = Some (IFile old) /\ nlink t i = 1%nat).
  eapply (runs_try _ _ _ _ (fun r t => forall i, r = Ok i -> entry t d SCRIPT_NAME = Some i)); [|..|done].
  { apply runs_map, (runs_call Hquiet); [done|]. intros t i t' _ Ho. split; [done|]. intros ? [= <-].
    unfold open_or_create_in, create_file_in in Ho. destruct (entry t d SCRIPT_NAME) as [c|] eqn:He.
    - destruct (kind_of t c) as [[]|]; try done; by injection Ho as <- <-.
    - destruct (is_dir t d); [|done]. injection Ho as <- <-. rewrite entry_set_entry. by rewrite decide_True. }
  intros i. eapply (runs_try _ _ _ _ (fun r t => entry t d SCRIPT_NAME = Some i
      /\ forall m, r = Ok m -> exists k, kind_of t i = Some k /\ m = MkMetadata i k (nlink t i))); [|..|done].
  { apply runs_map, (runs_look Hquiet); [done|intros t e He; split; [by apply He|done]|].
    intros t m He Hm. split; [by apply He|]. intros ? [= <-]. by apply metadata_of_spec. }
  intros m. destruct (md_is_file m) eqn:Hf; cbn [negb orb]; [|by apply runs_ret].
  destruct (Nat.eqb_spec (md_nlink m) 1) as [Hl|]; cbn [negb]; [|by apply runs_ret].
  apply (runs_conseq _ (fun t => exists old, file i old t) _ _ (fun r t => r = Ok tt -> has_file_at t d SCRIPT_NAME source)).
  2:{ intros t [He Hm]. destruct (Hm m eq_refl) as (k & Hk & ->). cbn in *. unfold md_is_file in Hf. cbn in Hf.
      destruct k as [|old| |]; try done. by exists old. }
  2:{ done. }
  eapply (runs_try _ _ _ _ (fun _ t => exists old, file i old t)); [|..|done].
  { by apply runs_map, (runs_look Hquiet). }
  intros []. eapply (runs_try _ _ _ _ (fun r t => r = Ok tt -> file i "" t)); [|..|done].
  { apply runs_map, (runs_act Hquiet); [done|done|]. intros t t' (old & He & Hk & Hn) Ht.
    unfold truncate_in in Ht. rewrite Hk in Ht. injection Ht as <-. split; [done|]. intros _.
    split; [exact He|]. split; [by rewrite kind_set_node, decide_True|exact Hn]. }
  intros []. apply (runs_conseq _ (file i "") _ _ (fun r t => r = Ok tt -> has_file_at t d SCRIPT_NAME source));
    [|by intros t Ht; apply Ht|done].
  apply runs_map, (runs_write Hquiet).
  - intros t (_ & Hk & _). eauto.
  - done.
  - intros t b (He & Hk & Hn) Hb _. rewrite Hk in Hb. injection Hb as <-. exists i.
    split; [exact He|]. split; [by rewrite kind_set_node, decide_True|exact Hn].
Qed.

End Script.
