(* ===== verification/CacheConfine.v ===== *)
(** * A cache session only changes its own directory

    Whatever other processes do to the tree, and whatever calls fail: a session changes
    single names in directories it reached from its root by opening one real directory
    after the other, writes only to files it created there itself, and removes only a
    directory it opened right below its root under a name it made ([acts], a logic of
    the calls made so far). *)

From stdpp Require Import fin_maps.
From S2P Require Import Prelude RustStd World Download WorkerTypes WorkerValidate CapFs CacheFiles.
From S2P Require Import CacheSession CacheReady.

Open Scope rust_scope.

(** ** What confinement is *)

(** One name of an entry: no separator in it, and not a way up. *)
Definition plain (name : string) : Prop :=
  name <> "" /\ name <> "." /\ name <> ".." /\ contains_byte "/" name = false.

(** The directories reached from [root] by the calls of a log: each was a real entry of
    the one before when it was opened. *)
Inductive reached (root : nat) : cap_log -> nat -> Prop :=
| reached_root log : reached root log root
| reached_open e log d n :
    reached root log d -> plain n -> ce_op e = CapOpenDir d n -> ce_ok e = true ->
    entry (ce_tree e) d n = Some (ce_handle e) -> is_dir (ce_tree e) (ce_handle e) = true ->
    reached root (e :: log) (ce_handle e)
| reached_later e log d : reached root log d -> reached root (e :: log) d.

(** A file that the calls of a log created, exclusively, in a directory they reached. *)
Definition created (root : nat) (log : cap_log) (i : nat) : Prop :=
  exists e d n, e ∈ log /\ ce_op e = CapCreateFile d n /\ ce_ok e = true /\ ce_handle e = i.

(** A name that the calls of a log made right below the root. *)
Definition made (root : nat) (log : cap_log) (n : string) : Prop :=
  exists e, e ∈ log /\ ce_op e = CapCreateDir root n /\ ce_ok e = true.

(** A directory opened right below the root, without following a link, under a name that
    was made there before. *)
Definition own_dir (root : nat) (log : cap_log) (d : nat) : Prop :=
  exists new e old n,
    log = new ++ e :: old /\ plain n /\ made root old n
    /\ ce_op e = CapOpenDir root n /\ ce_ok e = true /\ ce_handle e = d
    /\ entry (ce_tree e) root n = Some d /\ is_dir (ce_tree e) d = true.

(** What a call may change, given the calls before it. *)
Definition confined_op (root : nat) (log : cap_log) (op : cap_op) : Prop :=
  match op with
  | CapCreateDir d n | CapCreateFile d n | CapOpenOrCreate d n | CapRemoveFile d n =>
      reached root log d /\ plain n
  | CapRename d n d' n' => (reached root log d /\ plain n) /\ reached root log d' /\ plain n'
  | CapRemoveDir d => own_dir root log d
  | CapWrite i _ | CapTruncate i => created root log i
  | _ => True
  end.

(** From [base] on, only such calls. *)
Inductive confined (root : nat) (base : cap_log) : cap_log -> Prop :=
| confined_start : confined root base base
| confined_call e log :
    confined root base log -> confined_op root log (ce_op e) -> confined root base (e :: log).

Lemma reached_app root new log d : reached root log d -> reached root (new ++ log) d.
Proof. intros Hd. induction new; [done|]. by apply reached_later. Qed.

Lemma created_app root new log i : created root log i -> created root (new ++ log) i.
Proof. intros (e & d & n & Hin & ?). exists e, d, n. split; [|done]. apply elem_of_app. by right. Qed.

Lemma made_app root new log n : made root log n -> made root (new ++ log) n.
Proof. intros (e & Hin & ?). exists e. split; [|done]. apply elem_of_app. by right. Qed.

Lemma own_dir_app root new log d : own_dir root log d -> own_dir root (new ++ log) d.
Proof.
  intros (more & e & old & n & -> & Hd). exists (new ++ more), e, old, n. split; [|done]. by rewrite app_assoc.
Qed.

Lemma own_dir_reached root log d : own_dir root log d -> reached root log d.
Proof.
  intros (new & e & old & n & -> & Hn & _ & Hop & Hok & <- & He & Hd).
  apply reached_app. by eapply reached_open; [apply reached_root|..].
Qed.

(** ** A logic of calls *)

Section Acts.
Context `{E : CapEnv} (root : nat) (base : cap_log).

Definition acts {A} (P : cap_log -> Prop) (m : io CapW A) (Q : A -> cap_log -> Prop) : Prop :=
  forall w, confined root base (cw_log w) -> P (cw_log w) ->
    let '(a, w') := m w in
    (exists new, cw_log w' = new ++ cw_log w) /\ confined root base (cw_log w') /\ Q a (cw_log w').

(** Facts that stay. *)
Definition lasting (F : cap_log -> Prop) : Prop := forall new log, F log -> F (new ++ log).

Lemma acts_ret {A} (P : cap_log -> Prop) (a : A) (Q : A -> cap_log -> Prop) :
  (forall log, P log -> Q a log) -> acts P (io_ret a) Q.
Proof. intros Hq w Hc Hp. cbn. split; [by exists []|]. split; [done|by apply Hq]. Qed.

Lemma acts_conseq {A} (P P' : cap_log -> Prop) (m : io CapW A) (Q Q' : A -> cap_log -> Prop) :
  acts P m Q -> (forall log, P' log -> P log) -> (forall a log, Q a log -> Q' a log) -> acts P' m Q'.
Proof.
  intros Hm Hp Hq w Hc Hw. specialize (Hm w Hc (Hp _ Hw)). destruct (m w). destruct Hm as (? & ? & ?).
  split_and!; [done..|by apply Hq].
Qed.

Lemma acts_frame {A} (F P : cap_log -> Prop) (m : io CapW A) (Q : A -> cap_log -> Prop) :
  lasting F -> acts P m Q -> acts (fun log => F log /\ P log) m (fun a log => F log /\ Q a log).
Proof.
  intros Hf Hm w Hc [HF Hp]. specialize (Hm w Hc Hp). destruct (m w). destruct Hm as ([new Hl] & ? & ?).
  split; [by exists new|]. split; [done|]. split; [|done]. rewrite Hl. by apply Hf.
Qed.

(** What lasts needs no mention while a computation that needs nothing runs. *)
Lemma acts_keep {A} (F : cap_log -> Prop) (m : io CapW A) :
  lasting F -> acts (fun _ => True) m (fun _ _ => True) -> acts F m (fun _ => F).
Proof.
  intros Hf Hm. eapply acts_conseq; [apply (acts_frame F), Hm; done|done|]. by intros a log [? _].
Qed.

Lemma acts_bind {A B} (P : cap_log -> Prop) (m : io CapW A) (k : A -> io CapW B) R Q :
  acts P m R -> (forall a, acts (R a) (k a) Q) -> acts P (io_bind m k) Q.
Proof.
  intros Hm Hk w Hc Hp. unfold io_bind. specialize (Hm w Hc Hp). destruct (m w) as [a w1].
  destruct Hm as ([n1 H1] & Hc1 & Hr). specialize (Hk a w1 Hc1 Hr). destruct (k a w1) as [b w2].
  destruct Hk as ([n2 H2] & Hc2 & Hq). split; [|done]. exists (n2 ++ n1). by rewrite H2, H1, app_assoc.
Qed.

Lemma acts_try {X A B} (P : cap_log -> Prop) (m : io CapW (result X A)) (k : A -> io CapW (result X B)) R Q :
  acts P m R -> (forall a, acts (R (Ok a)) (k a) Q) -> (forall e log, R (Err e) log -> Q (Err e) log) ->
  acts P (io_try m k) Q.
Proof.
  intros Hm Hk He w Hc Hp. unfold io_try. specialize (Hm w Hc Hp). destruct (m w) as [[a|e] w1].
  - destruct Hm as ([n1 H1] & Hc1 & Hr). specialize (Hk a w1 Hc1 Hr). destruct (k a w1) as [b w2].
    destruct Hk as ([n2 H2] & Hc2 & Hq). split; [|done]. exists (n2 ++ n1). by rewrite H2, H1, app_assoc.
  - destruct Hm as (? & ? & ?). split_and!; [done..|by apply He].
Qed.

Lemma acts_map {A B} (P : cap_log -> Prop) (f : A -> B) (m : io CapW A) Q :
  acts P m (fun a => Q (f a)) -> acts P (io_map f m) Q.
Proof. intros Hm w Hc Hp. unfold io_map. specialize (Hm w Hc Hp). by destruct (m w). Qed.

Lemma acts_call {A} (P : cap_log -> Prop) op handle (act : tree -> result io_error (A * tree)) Q :
  (forall log, P log -> confined_op root log op) ->
  (forall x e log, P log -> ce_op e = op -> ce_ok e = false -> Q (Err x) (e :: log)) ->
  (forall a t e log, P log -> ce_op e = op -> ce_ok e = true -> ce_handle e = handle a ->
     act t = Ok (a, ce_tree e) -> Q (Ok a) (e :: log)) ->
  acts P (cap_call op handle act) Q.
Proof.
  intros Hop He Ho w Hc Hp. unfold cap_call. set (t := cap_peers _ _).
  destruct (match cap_fault (cw_log w) op with Some e => Err e | None => act t end) as [[a t']|x] eqn:Hact;
    cbn [cw_log]; (split; [by eexists [_]|]); (split; [apply confined_call; [done|by apply Hop]|]).
  - destruct (cap_fault _ _); [done|]. by apply (Ho a t (MkCapEvent op true (handle a) t')).
  - by apply He.
Qed.

(** A call that changes nothing. *)
Lemma acts_look {A} op handle (act : tree -> result io_error (A * tree)) :
  changes op = false -> acts (fun _ => True) (cap_call op handle act) (fun _ _ => True).
Proof. intros Hop. apply acts_call; [|done..]. by destruct op. Qed.

Lemma acts_ask {A} op (answer : cap_log -> A) :
  changes op = false -> acts (fun _ => True) (cap_ask op answer) (fun _ _ => True).
Proof.
  intros Hop w Hc _. cbn. split; [by eexists [_]|]. split; [|done]. apply confined_call; [done|]. by destruct op.
Qed.

Lemma lasting_reached d : lasting (fun log => reached root log d).
Proof. intros new log. apply reached_app. Qed.

Lemma lasting_made n : lasting (fun log => made root log n).
Proof. intros new log. apply made_app. Qed.

Lemma lasting_own d : lasting (fun log => own_dir root log d).
Proof. intros new log. apply own_dir_app. Qed.

Lemma lasting_and F G : lasting F -> lasting G -> lasting (fun log => F log /\ G log).
Proof. intros Hf Hg new log [? ?]. split; [by apply Hf|by apply Hg]. Qed.

Lemma lasting_true (phi : Prop) : lasting (fun _ => phi).
Proof. by intros new log. Qed.

Lemma acts_pure {A} (P : cap_log -> Prop) (phi : Prop) (m : io CapW A) Q :
  (phi -> acts P m Q) -> acts (fun log => phi /\ P log) m Q.
Proof. intros Hm w Hc [Hphi Hp]. by apply Hm. Qed.

End Acts.

(** ** Names *)

Lemma safe_parts_plain path : safe_relative path = Ok tt -> Forall plain (split_on "/" path).
Proof.
  intros [_ Hparts]%safe_relative_path.
  eapply Forall_impl; [apply Forall_and; split; [exact Hparts|apply (split_on_without "/")]|].
  intros part [Hu Hc]. unfold unsafe_part in Hu. reflect_bools. by split_and!.
Qed.

(** The router's own names: a long prefix and no separator. *)
Lemma plain_prefixed p s :
  contains_byte "/" p = false -> contains_byte "/" s = false -> (3 <= String.length p)%nat -> plain (p +:+ s).
Proof.
  intros Hp Hs Hlen. assert (3 <= String.length (p +:+ s))%nat as Hl by (rewrite string_length_app; lia).
  split_and!; [intros Heq; rewrite Heq in Hl; cbn in Hl; lia..|]. by rewrite contains_byte_app, Hp, Hs.
Qed.

Lemma plain_literal name :
  bool_decide (name ∉ [""; "."; ".."]) && negb (contains_byte "/" name) = true -> plain name.
Proof.
  intros Hn. reflect_bools.
  split_and!; [intros ->; apply H; set_solver..|done].
Qed.

(** ** Operations on files *)

Section Files.
Context `{E : CapEnv} (root : nat) (base : cap_log).
Let act {A} := acts (A := A) root base.

(** What a handle that was opened is, when it was. *)
Definition opened {X} (r : result X nat) (log : cap_log) : Prop :=
  match r with Ok d => reached root log d | Err _ => True end.

Lemma open_acts {X} (f : io_error -> X) d n :
  plain n -> act (fun log => reached root log d) (io_map (map_err f) (open_dir_nofollow d n)) opened.
Proof.
  intros Hn. apply acts_map, acts_call; [done|done|]. intros c t e log Hd Hop Hok Hh Ha.
  unfold looking in Ha. destruct (open_dir_in t d n) as [c'|] eqn:Ho; [|done].
  cbn in Ha. injection Ha as -> ->. unfold open_dir_in in Ho.
  destruct (entry (ce_tree e) d n) as [x|] eqn:He; [|done]. destruct (is_dir (ce_tree e) x) eqn:Hx; [|done].
  injection Ho as ->. cbn in Hh |- *. rewrite <- Hh in *. by eapply reached_open.
Qed.

(** Opening what was made right below the root. *)
Definition owned {X} (r : result X nat) (log : cap_log) : Prop :=
  match r with Ok d => own_dir root log d | Err _ => True end.

Lemma open_own_acts {X} (f : io_error -> X) n :
  plain n -> act (fun log => made root log n) (io_map (map_err f) (open_dir_nofollow root n)) owned.
Proof.
  intros Hn. apply acts_map, acts_call; [done|done|]. intros c t e log Hmade Hop Hok Hh Ha.
  unfold looking in Ha. destruct (open_dir_in t root n) as [c'|] eqn:Ho; [|done].
  cbn in Ha. injection Ha as -> ->. unfold open_dir_in in Ho.
  destruct (entry (ce_tree e) root n) as [x|] eqn:He; [|done]. destruct (is_dir (ce_tree e) x) eqn:Hx; [|done].
  injection Ho as ->. cbn in Hh |- *. by exists [], e, log, n.
Qed.

Lemma open_raw_acts d n :
  plain n -> act (fun log => reached root log d) (open_dir_nofollow d n) opened.
Proof.
  intros Hn w Hc Hd. pose proof (open_acts (fun e => e) d n Hn w Hc Hd) as H.
  unfold io_map in H. destruct (open_dir_nofollow d n w) as [[c|x] w']; exact H.
Qed.

Lemma descend_acts d n create :
  plain n -> act (fun log => reached root log d) (descend d n create) opened.
Proof.
  intros Hn. unfold descend.
  apply (acts_bind _ _ _ _ _ (fun r log => reached root log d /\ opened r log)).
  { eapply acts_conseq; [apply (acts_frame _ _ (fun log => reached root log d) (fun log => reached root log d));
      [apply lasting_reached|by apply open_raw_acts]|done|done]. }
  intros [c|e]; [apply acts_ret; by intros log [_ ?]|].
  destruct (create && _); [|by apply acts_ret].
  apply (acts_bind _ _ _ _ _ (fun _ log => reached root log d)).
  { apply acts_call; [intros log [? _]; by split|..].
    - intros x e' log [Hd _] _ _. by apply reached_later.
    - intros a t e' log [Hd _] _ _ _ _. by apply reached_later. }
  intros [[]|e']; [by apply open_acts|]. case_bool_decide; [by apply open_acts|by apply acts_ret].
Qed.

Lemma descend_all_acts d names create :
  Forall plain names -> act (fun log => reached root log d) (descend_all d names create) opened.
Proof.
  revert d. induction names as [|n names IH]; intros d Hn; [by apply acts_ret|]. apply Forall_cons in Hn as [Hn Hns].
  cbn [descend_all]. eapply acts_try; [by apply descend_acts|intros c; by apply IH|done].
Qed.

(** A place in a directory that was reached. *)
Definition place {X} (r : result X (nat * string)) (log : cap_log) : Prop :=
  match r with Ok (d, name) => reached root log d /\ plain name | Err _ => True end.

Lemma parent_parts_acts d parts create :
  Forall plain parts -> act (fun log => reached root log d) (parent_parts d parts create) place.
Proof.
  revert d. induction parts as [|n parts IH]; intros d Hn; [by apply acts_ret|]. apply Forall_cons in Hn as [Hn Hns].
  destruct parts as [|n2 parts]; [by apply acts_ret|].
  change (parent_parts d (n :: n2 :: parts) create)
    with (child <-? descend d n create ;; parent_parts child (n2 :: parts) create).
  eapply acts_try; [by apply descend_acts|intros c; by apply IH|done].
Qed.

Lemma parent_acts d path create :
  act (fun log => reached root log d) (parent d path create) place.
Proof.
  unfold parent. destruct (safe_relative path) as [[]|] eqn:Hs; [|by apply acts_ret].
  apply safe_parts_plain in Hs.
  apply (acts_try _ _ _ _ _ (fun r log => reached root log d /\ forall c, r = Ok c -> c = d)).
  - apply acts_map, acts_call; [done|..].
    + intros x e log Hd _ _. split; [by apply reached_later|done].
    + intros a t e log Hd _ _ _ Ha. cbn in Ha. injection Ha as <- _. split; [by apply reached_later|by intros ? [= <-]].
  - intros c. eapply (acts_conseq _ _ (fun log => c = d /\ reached root log d)); [|intros log [? H]; split; [by apply H|done]|done].
    apply acts_pure. intros ->. by apply parent_parts_acts.
  - by intros e log _.
Qed.

(** *** Looking *)

Definition looks {A} (m : io CapW A) : Prop := act (fun _ => True) m (fun _ _ => True).

Lemma looks_ret {A} (a : A) : looks (io_ret a).
Proof. by apply acts_ret. Qed.

Lemma looks_bind {A B} (m : io CapW A) (k : A -> io CapW B) :
  looks m -> (forall a, looks (k a)) -> looks (io_bind m k).
Proof. intros Hm Hk. by eapply acts_bind. Qed.

Lemma looks_try {X A B} (m : io CapW (result X A)) (k : A -> io CapW (result X B)) :
  looks m -> (forall a, looks (k a)) -> looks (io_try m k).
Proof. intros Hm Hk. by eapply acts_try. Qed.

Lemma looks_map {A B} (f : A -> B) (m : io CapW A) : looks m -> looks (io_map f m).
Proof. intros Hm. by apply acts_map. Qed.

(** A computation of calls that change nothing. *)
#[local] Create HintDb looks.
Ltac only_looks :=
  repeat first
    [ apply looks_ret | apply looks_map | apply acts_look; reflexivity | apply acts_ask; reflexivity
    | apply looks_try; [|intros ?] | apply looks_bind; [|intros ?] | progress eauto with looks
    | match goal with
      | |- looks (match ?x with _ => _ end) => destruct x
      | |- looks (let '_ := ?x in _) => destruct x
      end ].

Lemma descend_looks d n : looks (descend d n false).
Proof. unfold descend, failed, open_dir_nofollow. only_looks. Qed.

Lemma descend_all_looks d names : looks (descend_all d names false).
Proof.
  revert d. induction names as [|n names IH]; intros d; [apply looks_ret|]. cbn [descend_all].
  apply looks_try; [apply descend_looks|apply IH].
Qed.

Lemma parent_parts_looks d parts : looks (parent_parts d parts false).
Proof.
  revert d. induction parts as [|n parts IH]; intros d; [apply looks_ret|].
  destruct parts as [|n2 parts]; [apply looks_ret|]. apply looks_try; [apply descend_looks|apply IH].
Qed.

Hint Resolve descend_looks descend_all_looks parent_parts_looks : looks.

Lemma parent_looks d path : looks (parent d path false).
Proof. unfold parent, failed, try_clone. only_looks. Qed.

Lemma absolute_looks path : looks (absolute path false).
Proof. unfold absolute, failed, open_ambient_dir. only_looks. Qed.

Hint Resolve parent_looks absolute_looks : looks.

Lemma matches_looks d a : looks (matches d a).
Proof. unfold matches, matches_at, failed, open_nofollow, file_metadata, read_up_to. only_looks. Qed.

Lemma required_looks d e : looks (required d e).
Proof. unfold required, symlink_metadata. only_looks. Qed.

Lemma exists_looks d path : looks (regular_file_exists d path).
Proof. unfold regular_file_exists, symlink_metadata. only_looks. Qed.

Lemma all_hold_looks {A} (check : A -> io CapW (result string bool)) l :
  (forall a, looks (check a)) -> looks (all_hold check l).
Proof. intros Hc. induction l as [|a l IH]; cbn [all_hold]; only_looks. Qed.

Hint Resolve matches_looks required_looks exists_looks all_hold_looks : looks.

Lemma check_binding_looks s : looks (check_binding s).
Proof.
  unfold check_binding, same_directory, failed, failed_as, dir_metadata, open_nofollow, file_metadata. only_looks.
Qed.

Lemma readiness_looks r s : looks (readiness r s).
Proof. unfold readiness. only_looks. Qed.

Hint Resolve check_binding_looks readiness_looks : looks.

Lemma acquire_lock_looks turns lock deadline : looks (acquire_lock turns lock deadline).
Proof.
  induction turns as [|turns IH]; [apply looks_ret|]. cbn [acquire_lock].
  unfold stop_requested, now, try_lock_exclusive, sleep_or_canceled. only_looks.
Qed.

(** *** Changing *)

Lemma keeps {A} (F : cap_log -> Prop) (m : io CapW A) : lasting F -> looks m -> act F m (fun _ => F).
Proof. apply acts_keep. Qed.

Lemma lasting_created i : lasting (fun log => created root log i).
Proof. intros new log. apply created_app. Qed.

Lemma write_acts i bytes : act (fun log => created root log i) (write_bytes i bytes) (fun _ _ => True).
Proof.
  intros w Hc Hi. unfold write_bytes. destruct (cap_fault _ _) as [e|] eqn:Hf.
  - split; [by eexists [_]|]. split; [|done]. by apply confined_call.
  - by apply (acts_call root base (fun log => created root log i) (CapWrite i bytes) no_handle
             (acting (fun t => append_in t i bytes)) (fun _ _ => True)).
Qed.

Lemma stage_acts d name bytes :
  plain name -> act (fun log => reached root log d) (stage d name bytes) (fun _ _ => True).
Proof.
  intros Hn. unfold stage.
  eapply (acts_try _ _ _ _ _ (fun r log => match r with Ok i => created root log i | Err _ => True end)); [| |done].
  - apply acts_map, acts_call; [done|done|]. intros i t e log Hd Hop Hok Hh _. cbn.
    exists e, d, name. split; [apply elem_of_cons; by left|done].
  - intros i. apply (acts_try _ _ _ _ _ (fun _ _ => True)); [apply acts_map, write_acts| |done].
    intros []. by apply acts_map, acts_call.
Qed.

Lemma promote_acts staging name dest :
  plain name -> act (fun log => reached root log staging) (promote staging name root dest) (fun _ _ => True).
Proof.
  intros Hn. unfold promote.
  eapply (acts_try _ _ _ _ _ (fun r log => reached root log staging /\ place r log)); [| |done].
  { eapply acts_conseq; [apply (acts_frame _ _ (fun log => reached root log staging)), (parent_acts root dest true)| |done].
    - apply lasting_reached.
    - intros log Hs. split; [done|apply reached_root]. }
  intros [d target].
  eapply (acts_bind _ _ _ _ _ (fun _ log => reached root log staging /\ reached root log d /\ plain target)).
  { apply keeps; [|unfold symlink_metadata; only_looks].
    apply lasting_and; [apply lasting_reached|]. apply lasting_and; [apply lasting_reached|apply lasting_true]. }
  intros found. destruct (match found with Ok m => _ | Err _ => _ end); [by apply acts_ret|].
  apply acts_map, acts_call; [|done|done]. intros log (Hs & Hd & Ht). by split.
Qed.

Lemma invalidate_acts path : act (fun _ => True) (invalidate root path) (fun _ _ => True).
Proof.
  unfold invalidate. eapply (acts_bind _ _ _ _ _ place).
  { eapply acts_conseq; [apply (parent_acts root path false)|intros log _; apply reached_root|done]. }
  intros [[d name]|e]; [|by apply acts_ret].
  eapply (acts_bind _ _ _ _ _ (fun _ log => reached root log d /\ plain name)).
  { apply keeps; [|unfold symlink_metadata; only_looks].
    apply lasting_and; [apply lasting_reached|apply lasting_true]. }
  intros [m|e]; [|by apply acts_ret]. destruct (_ && _); [|by apply acts_ret].
  by apply acts_map, acts_call.
Qed.

Lemma remove_staged_acts d staged :
  Forall plain staged ->
  act (fun log => reached root log d) (remove_staged d staged) (fun _ log => reached root log d).
Proof.
  induction 1 as [|name staged Hn _ IH]; [by apply acts_ret|]. cbn [remove_staged].
  eapply (acts_bind _ _ _ _ _ (fun _ log => reached root log d)).
  { apply acts_call; [done|..]; intros; by apply reached_later. }
  intros [[]|e]; [exact IH|]. case_bool_decide; [exact IH|by apply acts_ret].
Qed.

(** A staging directory's name is one name, made by the session, and its handle was opened
    under it. *)
Definition staging_ok (st : Staging) (log : cap_log) : Prop :=
  (plain (sg_name st) /\ made root log (sg_name st))
  /\ forall d, sg_directory st = Some d -> own_dir root log d.

Lemma lasting_staging st : lasting (staging_ok st).
Proof.
  intros new log [[Hn Hm] Hd]. split; [split; [done|by apply made_app]|]. intros d Heq. by apply own_dir_app, Hd.
Qed.

Lemma dir_metadata_keeps F d reason :
  lasting F -> act F (failed_as reason (dir_metadata d)) (fun _ => F).
Proof. intros Hf. apply keeps; [done|]. unfold failed_as, dir_metadata. only_looks. Qed.

(** An own directory, opened with its name in mind. *)
Lemma open_named_acts {X} (f : io_error -> X) n :
  plain n ->
  act (fun log => made root log n) (io_map (map_err f) (open_dir_nofollow root n))
    (fun r log => made root log n /\ owned r log).
Proof.
  intros Hn. eapply acts_conseq;
    [apply (acts_frame _ _ (fun log => made root log n)), (open_own_acts f n Hn); apply lasting_made|done|done].
Qed.

Lemma Staging_open_acts name :
  plain name ->
  act (fun log => made root log name) (Staging_open root name)
    (fun r log => match r with Ok st => staging_ok st log | Err _ => True end).
Proof.
  intros Hn. unfold Staging_open. eapply acts_try; [by apply open_named_acts| |done].
  intros d. eapply acts_try; [apply (dir_metadata_keeps (fun log => made root log name /\ own_dir root log d)); apply lasting_and;
    [apply lasting_made|apply lasting_own]| |done].
  intros i. apply acts_ret. intros log [Hm Hd]. split; [done|]. by intros ? [= <-].
Qed.

Lemma reopened_acts st : act (staging_ok st) (reopened root st) owned.
Proof.
  unfold reopened. destruct (sg_directory st) as [d|] eqn:Hd.
  { apply acts_ret. intros log [_ H]. by apply H. }
  eapply (acts_conseq _ _ (fun log => plain (sg_name st) /\ made root log (sg_name st)));
    [|by intros log [? _]|done].
  apply acts_pure. intros Hn. eapply (acts_try _ _ _ _ _ owned); [by apply open_own_acts| |done].
  intros d. eapply acts_try; [apply (dir_metadata_keeps (fun log => own_dir root log d)), lasting_own| |done].
  intros i. destruct (Nat.eqb _ _); by apply acts_ret.
Qed.

Lemma Staging_cleanup_acts staged st :
  Forall plain staged ->
  act (staging_ok st) (Staging_cleanup root staged st) (fun '(_, st') log => staging_ok st' log).
Proof.
  intros Hn. unfold Staging_cleanup.
  eapply (acts_bind _ _ _ _ _ (fun r log => staging_ok st log /\ owned r log)).
  { eapply acts_conseq; [apply (acts_frame _ _ (staging_ok st)), (reopened_acts st); apply lasting_staging|done|done]. }
  intros [d|e]; [|apply acts_ret; by intros log [? _]].
  set (held := fun log => staging_ok st log /\ own_dir root log d).
  assert (lasting held) as Hheld by (apply lasting_and; [apply lasting_staging|apply lasting_own]).
  eapply (acts_bind _ _ _ _ _ (fun _ => held)).
  { eapply acts_conseq; [apply (acts_frame _ _ held), (remove_staged_acts d staged Hn); done| |by intros r log [? _]].
    intros log Hh. split; [done|]. by apply own_dir_reached, Hh. }
  intros [[]|e].
  - eapply (acts_bind _ _ _ _ _ (fun _ => held)).
    + apply acts_map, acts_call; [by intros log [_ ?]|intros x ev log Hh _ _; by apply (Hheld [_])|
        intros x t ev log Hh _ _ _ _; by apply (Hheld [_])].
    + intros r. apply acts_ret. intros log [[Hnm _] _]. by split.
  - apply acts_ret. intros log [[Hnm _] Hd]. split; [done|]. by intros ? [= <-].
Qed.

(** ** Operations of a session *)

(** What a session holds was opened below its root, under a name it made. *)
Record session_ok (s : Session) (log : cap_log) : Prop := {
  so_root : ss_root s = root;
  so_staging st : ss_staging s = Some st -> staging_ok st log;
  so_staged : Forall plain (ss_staged s)
}.

Lemma lasting_session s : lasting (session_ok s).
Proof. intros new log [Hr Hs Hn]. constructor; [done| |done]. intros st Heq. by apply lasting_staging, Hs. Qed.

Lemma session_ok_push s name log : plain name -> session_ok s log -> session_ok (push_staged name s) log.
Proof. intros Hp [Hr Hs Hn]. constructor; [done|done|]. apply Forall_app. split; [done|by apply Forall_singleton]. Qed.

Lemma session_ok_directory s log d :
  session_ok s log -> staging_directory s = Ok d -> reached root log d.
Proof.
  intros [_ Hs _]. unfold staging_directory, Staging_directory. destruct (ss_staging s) as [st|]; [|done].
  destruct (sg_directory st) as [d'|] eqn:Hd; [|done]. intros [= <-]. apply own_dir_reached. by apply (Hs st eq_refl).
Qed.

(** A session that is handed on unchanged. *)
Lemma with_session s {A} (P : cap_log -> Prop) (m : io CapW A) :
  act P m (fun _ _ => True) ->
  act (fun log => session_ok s log /\ P log) m (fun _ log => session_ok s log).
Proof.
  intros Hm. eapply acts_conseq; [apply (acts_frame _ _ (session_ok s)), Hm; apply lasting_session|done|].
  by intros a log [? _].
Qed.

Lemma rooted s {A} (P : cap_log -> Prop) (m : io CapW A) Q :
  (forall log, P log -> session_ok s log) -> (ss_root s = root -> act P m Q) -> act P m Q.
Proof. intros Hs Hm w Hc Hp. apply Hm; [|done..]. by apply (so_root s (cw_log w)), Hs. Qed.

Context (Huuid : forall log, contains_byte "/" (cap_uuid log) = false).

Lemma open_staging_acts s :
  act (session_ok s) (open_staging s) (fun '(_, s') log => session_ok s' log).
Proof.
  apply (rooted s); [done|]. intros Hroot. unfold open_staging. rewrite Hroot.
  apply (acts_bind _ _ _ _ _ (fun uuid log => contains_byte "/" uuid = false /\ session_ok s log)).
  { intros w Hc Hs. cbn. split; [by eexists [_]|]. split; [by apply confined_call|].
    split; [apply Huuid|]. by apply (lasting_session s [_]). }
  intros uuid. cbn zeta. apply acts_pure. intros Hu. set (name := ".tinyruntime-stage-" +:+ uuid).
  assert (plain name) as Hn by (by apply plain_prefixed; [|done|cbn; lia]).
  eapply (acts_bind _ _ _ _ _ (fun r log => session_ok s log /\ (is_ok r = true -> made root log name))).
  { apply acts_map. eapply acts_conseq; [apply (acts_frame _ _ (session_ok s) (fun _ => True)), (acts_call _ _ _ _ _ _ (fun r log => is_ok r = true -> made root log name))| |].
    - apply lasting_session.
    - intros log _. split; [apply reached_root|done].
    - done.
    - intros a t e log _ Hop Hok _ _ _. exists e. split; [apply elem_of_cons; by left|done].
    - done.
    - by intros [[]|e] log. }
  intros [[]|e]; [|apply acts_ret; by intros log [? _]].
  eapply (acts_bind _ _ _ _ _ (fun r log => session_ok s log
            /\ match r with Ok st => staging_ok st log | Err _ => True end)).
  { eapply acts_conseq; [apply (acts_frame _ _ (session_ok s)), (Staging_open_acts name Hn); apply lasting_session| |done].
    intros log [? Hm]. split; [done|by apply Hm]. }
  intros [st|e]; apply acts_ret; [|by intros log [? _]]. intros log [[Hr Hs Hnm] Hst].
  constructor; [done| |done]. by intros ? [= <-].
Qed.

Lemma artifact_name_plain index : plain ("artifact-" +:+ display_u64 (N.of_nat index)).
Proof. apply plain_prefixed; [done|by apply display_u64_without|cbn; lia]. Qed.

Lemma place_acts s d name bytes dest :
  plain name ->
  act (fun log => session_ok s log /\ reached root log d)
    (_ <-? stage d name bytes ;; _ <-? check_binding s ;; promote d name root dest)
    (fun _ log => session_ok s log).
Proof.
  intros Hn. apply (with_session s (fun log => reached root log d)).
  assert (forall A (m : io CapW A), act (fun log => reached root log d) m (fun _ _ => True) ->
            act (fun log => reached root log d) m (fun _ log => reached root log d)) as Hkeep.
  { intros A m Hm. eapply acts_conseq; [apply (acts_frame _ _ (fun log => reached root log d)), Hm; apply lasting_reached|done|].
    by intros a log [? _]. }
  eapply acts_try; [apply Hkeep; by apply stage_acts| |done]. intros [].
  eapply acts_try; [apply (keeps (fun log => reached root log d)); [apply lasting_reached|apply check_binding_looks]| |done].
  intros []. by apply promote_acts.
Qed.

Lemma install_artifacts_acts d index artifacts s :
  act (fun log => session_ok s log /\ reached root log d) (install_artifacts d index artifacts s)
    (fun '(_, s') log => session_ok s' log /\ reached root log d).
Proof.
  revert index s. induction artifacts as [|a rest IH]; intros index s; [by apply acts_ret|].
  cbn [install_artifacts]. cbn zeta. set (name := "artifact-" +:+ _). set (s1 := push_staged name s).
  assert (plain name) as Hn by apply artifact_name_plain.
  apply (acts_conseq _ _ (fun log => session_ok s1 log /\ reached root log d) _ _
           (fun '(_, s') log => session_ok s' log /\ reached root log d));
    [|intros log [? ?]; split; [by apply session_ok_push|done]|done].
  apply (rooted s1); [by intros log [? _]|]. intros ->.
  eapply (acts_bind _ _ _ _ _ (fun _ log => session_ok s1 log /\ reached root log d)).
  { eapply acts_conseq; [apply (acts_frame _ _ (fun log => reached root log d)), (place_acts s1 d name (ca_bytes a) (ca_path a) Hn); apply lasting_reached| |].
    - intros log [? ?]. by split_and!.
    - intros r log [? ?]. by split. }
  intros [[]|e]; [apply IH|by apply acts_ret].
Qed.

Lemma stage_marks_acts d r s :
  act (fun log => session_ok s log /\ reached root log d) (stage_marks d r s)
    (fun '(_, s') log => session_ok s' log).
Proof.
  unfold stage_marks. cbn zeta. set (s1 := push_staged "identity" s). set (s2 := push_staged "marker" s1).
  apply (acts_conseq _ _ (fun log => reached root log d /\ session_ok s1 log /\ reached root log d) _ _
           (fun '(_, s') log => session_ok s' log)).
  2:{ intros log [? ?]. split_and!; [done|apply session_ok_push; [by apply plain_literal|done]|done]. }
  2:{ done. }
  eapply (acts_bind _ _ _ _ _ (fun _ log => reached root log d /\ session_ok s1 log)).
  { apply (acts_frame _ _ (fun log => reached root log d)); [apply lasting_reached|].
    apply (with_session s1), stage_acts. by apply plain_literal. }
  intros [[]|e]; [|apply acts_ret; by intros log [_ ?]].
  apply acts_map. eapply acts_conseq; [apply (with_session s2 (fun log => reached root log d)), stage_acts| |done].
  - by apply plain_literal.
  - intros log [? ?]. split; [|done]. apply session_ok_push; [by apply plain_literal|done].
Qed.

Lemma checked_acts s {A} (P : cap_log -> Prop) (m : io CapW (result string A)) :
  lasting P -> act P m (fun _ _ => True) ->
  act (fun log => session_ok s log /\ P log) (_ <-? check_binding s ;; m) (fun _ log => session_ok s log).
Proof.
  intros Hp Hm. apply (with_session s P).
  eapply (acts_try _ _ _ _ _ (fun _ log => P log)); [apply keeps; [done|apply check_binding_looks]| |done].
  by intros [].
Qed.

Lemma staged_acts s {A} (k : nat -> io CapW A) (Q : A -> cap_log -> Prop) (other : string -> io CapW A) :
  (forall d, act (fun log => session_ok s log /\ reached root log d) (k d) Q) ->
  (forall e, act (session_ok s) (other e) Q) ->
  act (session_ok s) (match staging_directory s with Err e => other e | Ok d => k d end) Q.
Proof.
  intros Hk Ho. destruct (staging_directory s) as [d|e] eqn:Hd; [|apply Ho].
  eapply acts_conseq; [apply (Hk d)| |done]. intros log Hs. split; [done|by eapply session_ok_directory].
Qed.

Lemma install_acts r s : act (session_ok s) (install r s) (fun '(_, s') log => session_ok s' log).
Proof.
  unfold install. apply (rooted s); [done|]. intros ->.
  eapply (acts_bind _ _ _ _ _ (fun _ log => session_ok s log)).
  { eapply acts_conseq; [apply (checked_acts s (fun _ => True)), invalidate_acts; apply lasting_true|done|done]. }
  intros [[]|e]; [|by apply acts_ret].
  eapply acts_bind; [apply open_staging_acts|]. intros [[[]|e] s1]; [|by apply acts_ret].
  apply (staged_acts s1 (fun d => installed <-- install_artifacts d 0 (cr_artifacts r) s1 ;;
    match installed with (Err reason, s) => io_ret (Err reason, s) | (Ok _, s) => stage_marks d r s end)
    _ (fun e => io_ret (Err e, s1))); [|intros e; by apply acts_ret].
  intros d. eapply acts_bind; [apply install_artifacts_acts|].
  intros [[[]|e] s2]; [apply stage_marks_acts|apply acts_ret; by intros log [? _]].
Qed.

Lemma adopt_legacy_acts r s : act (session_ok s) (adopt_legacy r s) (fun '(_, s') log => session_ok s' log).
Proof.
  unfold adopt_legacy. eapply (acts_bind _ _ _ _ _ (fun _ log => session_ok s log)).
  { apply keeps; [apply lasting_session|]. only_looks. }
  intros [[]|e]; [|by apply acts_ret].
  eapply acts_bind; [apply open_staging_acts|]. intros [[[]|e] s1]; [|by apply acts_ret].
  apply (staged_acts s1 (fun d => let s := push_staged "identity" s1 in
     adopted <-- (_ <-? stage d "identity" (ca_bytes (ss_recipe_identity s)) ;; _ <-? check_binding s ;;
                  promote d "identity" (ss_root s) (ca_path (ss_recipe_identity s))) ;;
     io_ret match adopted with Err reason => (Err reason, s) | Ok _ => (Ok tt, set_ready true false s) end)
     _ (fun e => io_ret (Err e, push_staged "identity" s1))).
  2:{ intros e. apply acts_ret. intros log Hs. apply session_ok_push; [by apply plain_literal|done]. }
  intros d. cbn zeta. set (s2 := push_staged "identity" s1).
  apply (acts_conseq _ _ (fun log => session_ok s2 log /\ reached root log d) _ _
           (fun '(_, s') log => session_ok s' log));
    [|intros log [? ?]; split; [apply session_ok_push; [by apply plain_literal|done]|done]|done].
  apply (rooted s2); [by intros log [? _]|]. intros ->.
  eapply acts_bind; [apply place_acts; by apply plain_literal|].
  intros [[]|e]; apply acts_ret; [|done]. intros log [Hr Hs Hn]. by constructor.
Qed.

Lemma publish_acts r s : act (session_ok s) (publish r s) (fun _ log => session_ok s log).
Proof.
  assert (forall X (m : io CapW X), looks m -> act (session_ok s) m (fun _ log => session_ok s log)) as Hlook.
  { intros X m Hm. apply keeps; [apply lasting_session|done]. }
  unfold publish. apply (rooted s); [done|]. intros ->.
  eapply acts_try; [apply Hlook, check_binding_looks| |done]. intros [].
  eapply acts_try; [apply Hlook, all_hold_looks; intros e; apply required_looks| |done]. intros [|]; cbn [negb]; [|by apply acts_ret].
  eapply acts_try; [apply Hlook, all_hold_looks; intros a; apply matches_looks| |done]. intros [|]; cbn [negb]; [|by apply acts_ret].
  apply (staged_acts s (fun d => _ <-? promote d "identity" root (ca_path (ss_recipe_identity s)) ;;
                                 promote d "marker" root (ca_path (cr_marker r)))
          _ (fun e => io_ret (Err e))); [|intros e; by apply acts_ret].
  intros d. eapply (acts_try _ _ _ _ _ (fun _ log => session_ok s log /\ reached root log d)).
  - eapply acts_conseq; [apply (acts_frame _ _ (fun log => reached root log d)), (with_session s), promote_acts;
      [apply lasting_reached|by apply plain_literal]| |].
    + intros log [? Hd]. by split_and!.
    + intros x log [? ?]. by split.
  - intros []. apply (with_session s), promote_acts. by apply plain_literal.
  - by intros e log [? _].
Qed.

Lemma session_cleanup_acts s : act (session_ok s) (session_cleanup s) (fun '(_, s') log => session_ok s' log).
Proof.
  unfold session_cleanup. apply (rooted s); [done|]. intros Hroot.
  destruct (ss_staging s) as [st|] eqn:Hst.
  2:{ apply acts_ret. intros log [Hr Hs Hn]. constructor; [done|done|constructor]. }
  rewrite Hroot. apply (acts_conseq _ _ (fun log => Forall plain (ss_staged s) /\ session_ok s log /\ staging_ok st log) _ _
    (fun '(_, s') log => session_ok s' log));
    [|intros log [Hr Hs Hn]; split_and!; [done|by constructor|by apply Hs]|done].
  apply acts_pure. intros Hn.
  eapply (acts_bind _ _ _ _ _ (fun '(_, st') log => session_ok s log /\ staging_ok st' log)).
  { eapply acts_conseq; [apply (acts_frame _ _ (session_ok s)), (Staging_cleanup_acts (ss_staged s) st Hn); apply lasting_session|done|].
    by intros [r st'] log. }
  intros [[[]|e] st']; apply acts_ret; intros log [[Hr Hs Hnm] Hst']; (constructor; [done| |done || constructor]);
    [done|]. by intros ? [= <-].
Qed.

End Files.

(** *** Acquiring *)

Section Acquire.
Context `{E : CapEnv} `{HSha : Sha256} `{HJson : RecipeJson} (base : cap_log).

Lemma Path_new_names text :
  Forall (fun name => name <> "" /\ contains_byte "/" name = false) (p_names (Path_new text)).
Proof.
  assert (Forall (fun name => name <> "" /\ contains_byte "/" name = false)
            (filter (fun p => p <> "" /\ p <> ".") (split_on "/" text))) as H.
  { apply Forall_forall. intros name [[Hne _] Hin]%list_elem_of_filter. split; [done|].
    pose proof (split_on_without "/" text) as Hs. rewrite Forall_forall in Hs. by apply Hs. }
  unfold Path_new. destruct (split_on "/" text) as [|x [|y rest]] eqn:Hs.
  - exact H.
  - destruct (decide (x = ".")) as [->|]; [by repeat constructor|].
    repeat (match goal with |- context [match ?x with _ => _ end] => destruct x end; try exact H; try done).
  - repeat (match goal with |- context [match ?x with _ => _ end] => destruct x end; try exact H; try done);
      (constructor; [done|exact H]).
Qed.

Lemma normal_names_plain cs names :
  Forall (fun name => name <> "" /\ contains_byte "/" name = false) cs ->
  normal_names (map component_of cs) = Ok names -> Forall plain names.
Proof.
  intros Hcs. revert names. induction Hcs as [|c cs [Hne Hc] _ IH]; intros names; cbn; [by intros [= <-]|].
  unfold component_of at 1. destruct (String.eqb_spec c ".."); [done|]. destruct (String.eqb_spec c "."); [done|].
  destruct (normal_names (map component_of cs)) as [ns|]; [|done]. intros [= <-].
  constructor; [by split_and!|by apply IH].
Qed.

Lemma absolute_acts text create :
  acts fs_root base (fun _ => True) (absolute (Path_new text) create) (opened fs_root).
Proof.
  unfold absolute. destruct (normal_names (components (Path_new text))) as [names|] eqn:Hn; [|by apply acts_ret].
  assert (Forall plain names) as Hp.
  { unfold components in Hn. eapply (normal_names_plain (p_names (Path_new text))); [apply Path_new_names|].
    by destruct (p_root (Path_new text)). }
  eapply (acts_try _ _ _ _ _ (fun r log => forall d, r = Ok d -> d = fs_root)); [| |done].
  { apply acts_map, acts_call; [done|done|]. intros d t e log _ _ _ _ Ha. unfold looking in Ha.
    destruct (_ && _); [|done]. cbn in Ha. injection Ha as <- _. by intros ? [= <-]. }
  intros d. eapply (acts_conseq _ _ (fun log => d = fs_root /\ reached fs_root log d)); [| |done].
  - apply acts_pure. intros _. by apply descend_all_acts.
  - intros log Hd. specialize (Hd d eq_refl). subst. split; [done|apply reached_root].
Qed.

(** A session as it is acquired. *)
Definition acquired_ok (r : option (result string Session)) (log : cap_log) : Prop :=
  match r with
  | Some (Ok s) => reached fs_root log (ss_root s) /\ session_ok (ss_root s) s log
  | _ => True
  end.

Lemma acquired_acts path recipe ident root lock lock_id :
  acts fs_root base (fun log => reached fs_root log root)
    (acquired path recipe ident root lock lock_id) (fun r log => acquired_ok (Some r) log).
Proof.
  assert (forall X (m : io CapW X), looks fs_root base m ->
            acts fs_root base (fun log => reached fs_root log root) m (fun _ log => reached fs_root log root)) as Hlook.
  { intros X m Hm. apply keeps; [apply lasting_reached|done]. }
  unfold acquired. eapply acts_try; [apply Hlook, check_binding_looks| |done]. intros [].
  eapply acts_try; [apply Hlook, readiness_looks| |done].
  intros ready. apply acts_ret. intros log Hr. by destruct ready.
Qed.

Lemma acquire_acts turns text recipe deadline :
  acts fs_root base (fun _ => True) (acquire turns (Path_new text) recipe deadline) acquired_ok.
Proof.
  unfold acquire. destruct (artifact recipe) as [ident|]; [|by apply acts_ret].
  eapply acts_bind; [apply absolute_acts|]. intros [root|]; [|by apply acts_ret].
  eapply (acts_bind _ _ _ _ _ (fun _ log => reached fs_root log root)).
  { unfold open_lock_file. eapply (acts_try _ _ _ _ _ (fun _ log => reached fs_root log root)); [| |done].
    - apply acts_map, acts_call; [|intros; by apply reached_later..].
      intros log Hr. split; [done|by apply plain_literal].
    - intros lock. apply keeps; [apply lasting_reached|].
      unfold failed_as, file_metadata. apply looks_try; [apply looks_map; by apply acts_look|].
      intros m. apply looks_ret. }
  intros [[lock lock_id]|]; [|by apply acts_ret].
  eapply acts_bind; [apply keeps; [apply lasting_reached|apply acquire_lock_looks]|].
  intros [[[]|e]|]; [|by apply acts_ret..]. apply acts_map, acquired_acts.
Qed.

End Acquire.

(** ** The properties *)

(** What a session can be asked to do. *)
Inductive session_op := OpInstall | OpAdoptLegacy | OpPublish | OpCleanup.

Definition operate `{CapEnv} `{Sha256} `{RecipeJson} (op : session_op) (r : CacheRecipe) (s : Session)
  : io CapW (result string unit * Session) :=
  match op with
  | OpInstall => install r s
  | OpAdoptLegacy => adopt_legacy r s
  | OpPublish => keep s (publish r s)
  | OpCleanup => session_cleanup s
  end.

Section Properties.
Context `{E : CapEnv} `{HSha : Sha256} `{HJson : RecipeJson}.

(** C21. A cache session never leaves its directory, whatever other processes do to the
    tree meanwhile and whatever calls fail: every name it creates, replaces or removes
    is a single name (no separator, no "..") in a directory reached from the session's
    root by opening one real directory after the other (never a link); it writes only to
    files it created itself, exclusively; and a directory it removes is one it opened
    right below its root, without following a link, under a name it had made there
    itself (the removal follows the handle, under whatever name others have given that
    directory since). What it holds afterwards was opened the same
    way, so this goes on for the session's life. *)
Theorem a_session_stays_in_its_directory (op : session_op) (r : CacheRecipe) (s s' : Session)
    (res : result string unit) (w w' : CapW) :
  (forall log, contains_byte "/" (cap_uuid log) = false) ->
  session_ok (ss_root s) s (cw_log w) ->
  operate op r s w = ((res, s'), w') ->
  confined (ss_root s) (cw_log w) (cw_log w') /\ session_ok (ss_root s) s' (cw_log w').
Proof.
  intros Huuid Hs Hop.
  assert (acts (ss_root s) (cw_log w) (session_ok (ss_root s) s) (operate op r s)
            (fun '(_, s') log => session_ok (ss_root s) s' log)) as H.
  { destruct op; cbn [operate];
      [by apply install_acts|by apply adopt_legacy_acts| |by apply session_cleanup_acts].
    apply acts_map, publish_acts. }
  specialize (H w (confined_start _ _) Hs). rewrite Hop in H. by destruct H as (_ & ? & ?).
Qed.

(** Acquiring is confined, too: the scope's directories and the lock file are
    created under the names of the approved path, each in a real directory reached from
    the filesystem's root, and the session begins in the directory so reached, holding
    nothing else. *)
Theorem acquiring_follows_the_path (turns : nat) (text : string) (r : CacheRecipe) (deadline : N) (w : CapW) :
  let '(answer, w') := acquire turns (Path_new text) r deadline w in
  confined fs_root (cw_log w) (cw_log w') /\ acquired_ok answer (cw_log w').
Proof.
  pose proof (acquire_acts (cw_log w) turns text r deadline w (confined_start _ _) Logic.I) as H.
  destruct (acquire _ _ _ _ w) as [answer w']. by destruct H as (_ & ? & ?).
Qed.

End Properties.
