(* ===== verification/CacheProps.v ===== *)
(** * Worker caches: atomic rebuilds, found again, and a lock that is waited for

    The properties of [CacheSession], with the cache at work on a small tree. *)

From stdpp Require Import fin_maps.
From S2P Require Import Prelude RustStd World Download WorkerTypes WorkerValidate CapFs CacheFiles.
From S2P Require Import CacheSession TreeFacts CacheFacts CacheRebuild CacheReady CacheInstall.

Open Scope rust_scope.

(** ** Rebuilding *)

(** Nobody takes the cache for a good one, or it is. *)
Definition unmarked_or_complete (r : CacheRecipe) (root : nat) (ident : CacheArtifact) (t : tree) : Prop :=
  no_file t root (ca_path (cr_marker r)) \/ complete t root r ident.

(** What a session that looks at the tree is told. *)
Definition found_cached `{CapEnv} `{Sha256} `{RecipeJson} (r : CacheRecipe) (s : Session) (w : CapW) : Prop :=
  fst (readiness r s w) = Ok ReadyCached.

Section Rebuild.
Context `{E : CapEnv} `{HSha : Sha256} `{!Sha256Law HSha} `{!DigestLaw HSha} `{HJson : RecipeJson}.

(** A rebuild takes the old marker away before it touches anything else: while no
    other process interferes and looking at the tree works (writes may still fail, and
    leave a part), every tree [install] passes through either is the one it started
    from or has no marker file; when it succeeds the artifacts are in place with their
    bytes and the identity and the marker are staged; when it fails the tree is one of
    those. *)
Theorem install_hides_the_cache (r : CacheRecipe) (s s' : Session) (res : result string unit) (w w' : CapW) :
  quiet -> sighted -> recipe r = Ok tt -> tree_wf (cw_tree w) ->
  install r s w = ((res, s'), w') ->
  (exists new, cw_log w' = new ++ cw_log w
     /\ Forall (fun e => ce_tree e = cw_tree w
                         \/ tree_wf (ce_tree e) /\ no_file (ce_tree e) (ss_root s) (ca_path (cr_marker r))) new)
  /\ ss_root s' = ss_root s
  /\ match res with
     | Ok _ => artifacts_in (cw_tree w') (ss_root s) r
         /\ exists sd, staging_directory s' = Ok sd
            /\ prepared (cw_tree w') r (ss_root s) sd (ss_recipe_identity s')
     | Err _ => cw_tree w' = cw_tree w
         \/ tree_wf (cw_tree w') /\ no_file (cw_tree w') (ss_root s) (ca_path (cr_marker r))
     end.
Proof.
  intros Hquiet Hsight Hr Hwf Hi.
  pose proof (install_spec Hquiet Hsight r (ss_root s) (cw_tree w) Hr Hwf s eq_refl w eq_refl) as H.
  rewrite Hi in H. destruct H as [[[Hroot Hid] H] Hlog]. split; [exact Hlog|]. split; [done|].
  destruct res; [|apply stage_left_tree in H; [exact H|by right]]. destruct H as (_ & sd & Hd & Hp & Ha). split; [done|]. exists sd. by rewrite Hid.
Qed.

(** Publishing is atomic. While no other process interferes, and whatever calls
    fail, every tree [publish] passes through either has no marker file or is complete:
    the marker, every required entry, every artifact and the recipe's identity are in
    place with their bytes. It succeeds exactly with a complete cache, and a failure
    leaves the cache without a marker. *)
Theorem publish_is_atomic (r : CacheRecipe) (s : Session) (sd : nat) (res : result string unit) (w w' : CapW) :
  quiet -> recipe r = Ok tt -> artifact r = Ok (ss_recipe_identity s) ->
  staging_directory s = Ok sd ->
  prepared (cw_tree w) r (ss_root s) sd (ss_recipe_identity s) ->
  publish r s w = (res, w') ->
  (exists new, cw_log w' = new ++ cw_log w
     /\ Forall (fun e => unmarked_or_complete r (ss_root s) (ss_recipe_identity s) (ce_tree e)) new)
  /\ tree_wf (cw_tree w')
  /\ match res with
     | Ok _ => complete (cw_tree w') (ss_root s) r (ss_recipe_identity s)
     | Err _ => no_file (cw_tree w') (ss_root s) (ca_path (cr_marker r))
     end.
Proof.
  intros Hquiet Hr Hart Hd Hprep Hp. apply artifact_sound in Hart as [Hown _].
  pose proof (publish_spec Hquiet r (ss_root s) sd (ss_recipe_identity s) Hr Hown s eq_refl eq_refl Hd w Hprep) as H.
  rewrite Hp in H. destruct H as [[[Hwf _] H] (new & Hlog & Hnew)]. split; [|by split].
  exists new. split; [done|]. eapply Forall_impl; [exact Hnew|]. by intros e [_ ?].
Qed.

(** C24. The reuse check is exact: while no other process interferes and looking at the
    tree works, an accepted recipe is found cached exactly when its marker, every
    required entry, every artifact and its identity are in place, as regular files with
    one name and the right bytes; looking changes nothing. *)
Theorem found_cached_exactly_when_complete (r : CacheRecipe) (s : Session) (w : CapW) :
  quiet -> sighted -> recipe r = Ok tt -> artifact r = Ok (ss_recipe_identity s) ->
  (found_cached r s w <-> complete (cw_tree w) (ss_root s) r (ss_recipe_identity s))
  /\ cw_tree (snd (readiness r s w)) = cw_tree w.
Proof.
  intros Hquiet Hsight Hr Hart. unfold found_cached. destruct (readiness_sees Hquiet Hsight r s w) as (new & -> & _). cbn.
  split; [|done]. by apply complete_seen.
Qed.

(** What [publish] answers decides what a later look finds. *)
Lemma marker_needed t root r ident : complete t root r ident -> ~ no_file t root (ca_path (cr_marker r)).
Proof. intros [(d & n & Hl & i & He & Hk & _) _] Hno. by apply (Hno d n i (ca_bytes (cr_marker r))). Qed.

(** Publish and look: the next session finds the recipe cached exactly when
    [publish] succeeded. *)
Theorem published_is_found (r : CacheRecipe) (s s' : Session) (sd : nat) (w : CapW) :
  quiet -> sighted -> recipe r = Ok tt -> artifact r = Ok (ss_recipe_identity s) ->
  staging_directory s = Ok sd ->
  prepared (cw_tree w) r (ss_root s) sd (ss_recipe_identity s) ->
  ss_root s' = ss_root s -> ss_recipe_identity s' = ss_recipe_identity s ->
  let published := publish r s w in
  fst published = Ok tt <-> found_cached r s' (snd published).
Proof.
  intros Hquiet Hsight Hr Hart Hd Hprep Hroot Hid. cbn zeta. unfold found_cached.
  pose proof (artifact_sound r _ Hart) as [Hown _].
  pose proof (publish_spec Hquiet r (ss_root s) sd (ss_recipe_identity s) Hr Hown s eq_refl eq_refl Hd w Hprep) as H.
  destruct (publish r s w) as [res w1]. destruct H as [[Hwf H] _]. cbn.
  destruct (readiness_sees Hquiet Hsight r s' w1) as (new & -> & _). cbn.
  rewrite (complete_seen r s' _ Hr) by congruence. rewrite Hroot, Hid.
  destruct res as [[]|e]; [done|]. split; [done|]. intros Hc. by apply marker_needed in Hc.
Qed.

End Rebuild.

(** ** Waiting for the lock *)

Section Lock.
Context `{E : CapEnv}.

Definition is_sleep (e : cap_event) : bool := match ce_op e with CapSleep => true | _ => false end.

(** [sleep_until(deadline.min(now + 25ms))]: once slept, the clock shows at least that. *)
Definition sleeping_takes_time (deadline : N) : Prop :=
  forall newer log, existsb is_sleep newer = true ->
    (N.min deadline (cap_now log + 25) <= cap_now (newer ++ log))%N.

(** How the wait may end, and that the lock is only taken from the system. *)
Definition lock_verdict (lock : nat) (r : result string unit) (w : CapW) : Prop :=
  match r with
  | Ok _ => exists e log, cw_log w = e :: log /\ ce_op e = CapTryLock lock /\ cap_lock (cw_log w) = LockTaken
  | Err reason => In reason ["canceled"; "cache_timeout"; "cache_lock_failed"]
  end.

Lemma acquire_lock_from (lock n : nat) (deadline : N) (w : CapW) (b : N) :
  sleeping_takes_time deadline -> (deadline <= b + 25 * N.of_nat n)%N ->
  (forall newer, b <= cap_now (newer ++ cw_log w))%N ->
  exists r w', acquire_lock (S n) lock deadline w = (Some r, w') /\ lock_verdict lock r w'.
Proof.
  intros Hclock. revert w b. induction n as [|n IH]; intros w b Hd Hb;
    cbn [acquire_lock]; unfold io_bind, stop_requested, now, cap_ask; cbn [cw_tree cw_log];
    (set (e1 := MkCapEvent CapStop _ _ _); destruct (cap_stop (e1 :: cw_log w)); [eexists _, _; split; [done|by left]|]);
    set (e2 := MkCapEvent CapNow _ _ _); cbn [cw_log]; pose proof (Hb [e2; e1]) as Ht; cbn [app] in Ht;
    set (t := cap_now (e2 :: e1 :: cw_log w)) in *.
  - rewrite (proj2 (N.leb_le _ _)) by lia. eexists _, _. split; [done|]. right. by left.
  - destruct (N.leb_spec deadline t) as [|Hlt]; [eexists _, _; split; [done|]; right; by left|].
    unfold try_lock_exclusive, cap_ask. cbn [cw_tree cw_log]. set (e3 := MkCapEvent (CapTryLock lock) _ _ _). cbn [cw_log].
    destruct (cap_lock (e3 :: e2 :: e1 :: cw_log w)) eqn:Hl.
    + eexists _, _. split; [done|]. cbn. by eexists _, _.
    + unfold sleep_or_canceled, cap_ask. cbn [cw_tree cw_log]. set (e4 := MkCapEvent CapSleep _ _ _). cbn [cw_log].
      destruct (cap_canceled _); [eexists _, _; split; [done|by left]|].
      apply (IH _ (N.min deadline (t + 25))); [lia|]. intros newer. cbn [cw_log].
      change (newer ++ e4 :: e3 :: e2 :: e1 :: cw_log w)
        with (newer ++ [e4; e3] ++ (e2 :: e1 :: cw_log w)). rewrite app_assoc.
      apply Hclock. rewrite existsb_app. cbn. by rewrite orb_true_r.
    + eexists _, _. split; [done|]. right; right; by left.
Qed.

(** Waiting for a cache's lock ends: if each sleep lasts its 25 milliseconds (or to
    the deadline), the loop answers within one turn per 25 milliseconds before the
    deadline, however long others hold the lock. It answers that the lock was taken
    only when the system's last word was so, and else that the wait was canceled, ran
    out of time, or failed. *)
Theorem waiting_for_the_lock_ends (lock n : nat) (deadline : N) (w : CapW) :
  sleeping_takes_time deadline -> (deadline <= 25 * N.of_nat n)%N ->
  exists r w', acquire_lock (S n) lock deadline w = (Some r, w') /\ lock_verdict lock r w'.
Proof. intros Hclock Hd. apply (acquire_lock_from _ _ _ _ 0); [done|lia|intros newer; lia]. Qed.

End Lock.

(** ** Cleaning up *)

Section Cleanup.
Context `{E : CapEnv}.

(** A cleanup that fails gives up nothing: the session keeps its lock, the list of what
    it staged and the staging it can still identify, so that it can be asked again;
    only one that emptied and removed its staging directory drops the lock. *)
Lemma cleanup_keeps_the_lock (s s' : Session) (res : result string unit) (w w' : CapW) :
  session_cleanup s w = ((res, s'), w') ->
  match res with
  | Ok _ => ss_lock s' = None /\ ss_staging s' = None /\ ss_staged s' = []
  | Err reason =>
      reason = "cache_stage_cleanup_failed" /\ ss_lock s' = ss_lock s /\ ss_staged s' = ss_staged s
      /\ exists st st', ss_staging s = Some st /\ ss_staging s' = Some st'
         /\ sg_name st' = sg_name st /\ sg_identity st' = sg_identity st
  end.
Proof.
  assert (forall names d w res w', remove_staged d names w = (res, w') ->
            forall reason, res = Err reason -> reason = "cache_stage_cleanup_failed") as Hrm.
  { induction names as [|n names IH]; intros d w0 res0 w0'; cbn [remove_staged]; [by intros [= <- <-]|].
    unfold io_bind. destruct (remove_entry d n w0) as [[[]|e] w1]; [by apply IH|].
    case_bool_decide; [by apply IH|]. by intros [= <- <-] ? [= <-]. }
  assert (forall root st w res w', reopened root st w = (res, w') ->
            forall reason, res = Err reason -> reason = "cache_stage_cleanup_failed") as Hre.
  { intros root st w0 res0 w0'. unfold reopened. destruct (sg_directory st); [by intros [= <- <-]|].
    unfold io_try, failed_as, io_map. destruct (open_dir_nofollow root (sg_name st) w0) as [[d|e] w1]; cbn;
      [|by intros [= <- <-] ? [= <-]].
    destruct (dir_metadata d w1) as [[i|e] w2]; cbn; [|by intros [= <- <-] ? [= <-]].
    destruct (Nat.eqb i (sg_identity st)); by intros [= <- <-] ? [= <-]. }
  unfold session_cleanup. destruct (ss_staging s) as [st|] eqn:Hst; [|by intros [= <- <- <-]].
  unfold io_bind, Staging_cleanup. cbn.
  unfold io_bind. destruct (reopened (ss_root s) st w) as [[d|e] w1] eqn:Ho.
  2:{ intros [= <- <- <-]. split_and!; [by eapply Hre|done|done|]. by exists st, st. }
  destruct (remove_staged d (ss_staged s) w1) as [[[]|e] w2] eqn:Hr.
  2:{ intros [= <- <- <-]. split_and!; [by eapply Hrm|done|done|]. by eexists st, _. }
  unfold failed_as, io_map. destruct (remove_open_dir d w2) as [[[]|e] w3]; intros [= <- <- <-]; [done|].
  split_and!; [done|done|done|]. by eexists st, _.
Qed.

End Cleanup.
