(* ===== verification/CacheProvision.v ===== *)
(** * Rebuilding a cache from end to end: [Actor::provision_cache] over a real session

    [Actor] drives a session through what it answers; here the same sequence (install,
    the recipe's commands, publish) runs on the session itself, with the commands any
    programs that change the tree. *)

From stdpp Require Import fin_maps.
From S2P Require Import Prelude RustStd Vocabulary World Download WorkerTypes WorkerValidate CapFs CacheFiles.
From S2P Require Import CacheSession TreeFacts CacheFacts CacheRebuild CacheReady CacheInstall.

Open Scope rust_scope.

Section Provision.
Context `{E : CapEnv} `{HSha : Sha256} `{HJson : RecipeJson}.

(** What a command of the recipe answers and does to the tree. *)
Context (command : cap_log -> WorkerCommand -> tree -> result string unit * tree).

Definition run_command (c : WorkerCommand) : io CapW (result string unit) :=
  fun w =>
    let '(r, t) := command (cw_log w) c (cap_peers (cw_log w) (cw_tree w)) in
    (r, MkCapW t (MkCapEvent CapRun true 0 t :: cw_log w)).

(** The loop over the steps, then publishing. *)
Fixpoint session_steps (recipe : CacheRecipe) (deadline : N) (steps : list WorkerCommand) (s : Session)
  : io CapW (result string unit) :=
  stop <-- stop_requested ;;
  if stop : bool then io_ret (Err "canceled")
  else
    t <-- now ;;
    if (deadline <=? t)%N then io_ret (Err "cache_timeout")
    else
      match steps with
      | [] => publish recipe s
      | step :: rest =>
          _ <-? check_binding s ;;
          _ <-? run_command step ;;
          session_steps recipe deadline rest s
      end.

Definition session_provision (recipe : CacheRecipe) (deadline : N) (s : Session)
  : io CapW (result string unit * Session) :=
  if ss_legacy s then adopt_legacy recipe s
  else if ss_cached s then io_ret (Ok tt, s)
  else
    installed <-- install recipe s ;;
    match installed with
    | (Err reason, s) => io_ret (Err reason, s)
    | (Ok _, s) => keep s (session_steps recipe deadline (cr_steps recipe) s)
    end.

Section Facts.
Context (Hquiet : quiet) (Hsight : sighted).
Context (r : CacheRecipe) (root : nat) (ident : CacheArtifact).
Context (Hr : recipe r = Ok tt) (Hown : own_file ident).

(** A recipe's commands leave what the session staged where it is, and do not forge the
    marker. *)
Definition well_behaved (sd : nat) : Prop :=
  forall log c t, prepared t r root sd ident -> prepared (command log c t).2 r root sd ident.

Lemma steps_spec (sd : nat) (deadline : N) (steps : list WorkerCommand) (s : Session) :
  well_behaved sd ->
  ss_root s = root -> ss_recipe_identity s = ident -> staging_directory s = Ok sd ->
  runs (all_or_nothing r root ident) (fun t => prepared t r root sd ident)
    (session_steps r deadline steps s) (published r root sd ident).
Proof.
  intros Hcmd Hroot Hid Hd. set (P t := prepared t r root sd ident).
  assert (forall t, P t -> all_or_nothing r root ident t) as HP by (intros t [? ? _ _ _]; split; [done|by left]).
  assert (forall e t, P t -> published r root sd ident (Err e) t) as HE by (intros e t [? ? ? _ _]; by split).
  induction steps as [|c steps IH]; cbn [session_steps];
    (eapply runs_bind; [by apply (runs_ask Hquiet _ P _ _ (fun _ => P)); [exact HP|]|]);
    (intros [|]; [apply runs_ret; apply HE|]);
    (eapply runs_bind; [by apply (runs_ask Hquiet _ P _ _ (fun _ => P)); [exact HP|]|]);
    (intros t; destruct (deadline <=? t)%N; [apply runs_ret; apply HE|]).
  - by apply publish_spec.
  - eapply (runs_try _ _ _ _ (fun _ => P)); [by apply (check_binding_keeps Hquiet _ P HP)| |apply HE].
    intros []. eapply (runs_try _ _ _ _ (fun _ => P)); [|by intros []|apply HE].
    intros w Hw. unfold run_command. rewrite Hquiet. specialize (Hcmd (cw_log w) c (cw_tree w) Hw).
    destruct (command _ c _) as [res t']. split; [exact Hcmd|]. eexists [_]. split; [done|].
    apply Forall_singleton. by apply HP.
Qed.

Definition rebuild_ok (t0 t : tree) : Prop :=
  t = t0 \/ no_file t root (ca_path (cr_marker r)) \/ complete t root r ident.

Lemma provision_spec (deadline : N) (s : Session) (t0 : tree) :
  tree_wf t0 -> (forall sd, well_behaved sd) ->
  ss_root s = root -> ss_recipe_identity s = ident -> ss_legacy s = false -> ss_cached s = false ->
  runs (rebuild_ok t0) (fun t => t = t0) (session_provision r deadline s)
    (fun '(res, s') t => match res with
       | Ok _ => complete t root r ident
       | Err _ => t = t0 \/ no_file t root (ca_path (cr_marker r)) end).
Proof.
  intros Hwf Hcmd Hroot Hid Hl Hc. unfold session_provision. rewrite Hl, Hc.
  eapply runs_bind.
  - eapply runs_weaken; [by apply (install_spec Hquiet Hsight r root t0 Hr Hwf s)|].
    intros t [->|[_ Hno]]; [by left|by right; left].
  - intros [[[]|e] s1].
    + intros w ([Hroot1 Hid1] & _ & sd & Hd & Hp & _). unfold keep, io_map. rewrite Hid in *.
      pose proof (steps_spec sd deadline (cr_steps r) s1 (Hcmd sd) Hroot1 Hid1 Hd w Hp) as H.
      destruct (session_steps _ _ _ s1 w) as [res w']. destruct H as [[_ H] (new & Hnew & Hall)].
      split; [destruct res; [done|by right]|]. exists new. split; [done|].
      eapply Forall_impl; [exact Hall|]. intros e [_ ?]. by right.
    + apply runs_ret. intros t [_ [->|[_ ?]]%stage_left_tree]; [by left|by right|by right].
Qed.

End Facts.

Context `{!Sha256Law HSha} `{!DigestLaw HSha}.

(** Rebuilding a cache is all or nothing, from end to end. While no other process
    interferes and looking at the tree works, and whatever writes fail, commands fail or
    time runs out: if the recipe's commands leave the staged files alone and do not
    forge the marker, then every tree the rebuild passes through is the one it started
    from, or has no marker, or is complete; it succeeds only with a complete cache. *)
Theorem cache_rebuild_is_all_or_nothing (r : CacheRecipe) (deadline : N) (s s' : Session)
    (res : result string unit) (w w' : CapW) :
  quiet -> sighted -> recipe r = Ok tt -> artifact r = Ok (ss_recipe_identity s) ->
  tree_wf (cw_tree w) ->
  (forall sd, well_behaved r (ss_root s) (ss_recipe_identity s) sd) ->
  ss_legacy s = false -> ss_cached s = false ->
  session_provision r deadline s w = ((res, s'), w') ->
  (exists new, cw_log w' = new ++ cw_log w
     /\ Forall (fun e => rebuild_ok r (ss_root s) (ss_recipe_identity s) (cw_tree w) (ce_tree e)) new)
  /\ match res with
     | Ok _ => complete (cw_tree w') (ss_root s) r (ss_recipe_identity s)
     | Err _ => cw_tree w' = cw_tree w \/ no_file (cw_tree w') (ss_root s) (ca_path (cr_marker r))
     end.
Proof.
  intros Hquiet Hsight Hr Hart Hwf Hcmd Hl Hc Hp. apply artifact_sound in Hart as [Hown _].
  pose proof (provision_spec Hquiet Hsight r (ss_root s) (ss_recipe_identity s) Hr Hown deadline s (cw_tree w)
                Hwf Hcmd eq_refl eq_refl Hl Hc w eq_refl) as H.
  rewrite Hp in H. by destruct H.
Qed.

End Provision.
