(* ===== verification/CacheJoint.v ===== *)
(** * A supervisor and its cache session, together

    [Actor] asks the outside for what its cache session answers, and [CacheSession] is
    what answers. Here the two are one system: the session's side is read off the
    supervisor's history, operation by operation, and [with_session] is the environment
    in which the answers are that session's own. *)

From stdpp Require Import fin_maps.
From S2P Require Import Prelude RustStd Vocabulary World Download WorkerTypes WorkerValidate CapFs CacheFiles.
From S2P Require Import CacheSession TreeFacts CacheFacts CacheRebuild CacheReady CacheInstall CacheAdopt.
From S2P Require Import CacheAcquire CacheCleanup CacheProvision.
From S2P Require Import Identity Errors PoolWorker Native Actor.

Open Scope rust_scope.

(** The session that is held, the tree and the calls made on it, and (for the proofs)
    the session and the world as they were when it was acquired. *)
Record side := MkSide {
  sd_session : option Session;
  sd_world : CapW;
  sd_found : option (Session * CapW)
}.

(** What the supervisor keeps of a session. *)
Definition flags (s : Session) : session := Actor.MkSession (ss_cached s) (ss_legacy s).

Section Joint.
Context `{JsonValue}.

(** The step started last. *)
Fixpoint running (log : list aevent) : option WorkerCommand :=
  match log with
  | [] => None
  | AeStep c :: _ => Some c
  | _ :: rest => running rest
  end.

Context `{E : CapEnv} `{HSha : Sha256} `{HJson : RecipeJson}.
(** What a command does to the tree, the recipe and where its cache is, and how many turns
    the lock is waited for at a time of the supervisor. *)
Context (command : cap_log -> WorkerCommand -> tree -> result string unit * tree).
Context (cached : Cached) (turns : list aevent -> nat) (start : CapW).
Context (clock : list aevent -> N).

Definition on_held (f : Session -> io CapW (result string unit * Session)) (sd : side)
  : result string unit * side :=
  match sd_session sd with
  | None => (Err "cache_session_missing", sd)
  | Some s => let '((r, s'), w) := f s (sd_world sd) in (r, MkSide (Some s') w (sd_found sd))
  end.

(** One operation on the session that is held. A session that was cleaned up is dropped by
    its caller. *)
Definition perform (op : cache_op) (sd : side) : result string unit * side :=
  match op with
  | CacheAcquire => (Ok tt, sd)
  | CacheInstall => on_held (install (cc_recipe cached)) sd
  | CacheAdopt => on_held (adopt_legacy (cc_recipe cached)) sd
  | CacheCheckBinding => on_held (fun s => keep s (check_binding s)) sd
  | CachePublish => on_held (fun s => keep s (publish (cc_recipe cached) s)) sd
  | CacheCleanup =>
      let '(r, sd) := on_held session_cleanup sd in
      (r, MkSide (match r with Ok _ => None | Err _ => sd_session sd end) (sd_world sd) (sd_found sd))
  end.

(** Acquiring one, under the deadline the supervisor just computed. *)
Definition acquiring (log : list aevent) (sd : side) : result string session * side :=
  let deadline := (clock log + cr_timeout_ms (cc_recipe cached))%N in
  match acquire (turns log) (cc_root cached) (cc_recipe cached) deadline (sd_world sd) with
  | (Some (Ok s), w) => (Ok (flags s), MkSide (Some s) w (Some (s, w)))
  | (Some (Err reason), w) => (Err reason, MkSide None w (sd_found sd))
  | (None, w) => (Err "cache_timeout", MkSide None w (sd_found sd))
  end.

(** A step of the recipe runs while the session is held. *)
Definition stepping (log : list aevent) (sd : side) : side :=
  match sd_session sd, running log with
  | Some s, Some c => MkSide (Some s) (snd (run_command command c (sd_world sd))) (sd_found sd)
  | _, _ => sd
  end.

Fixpoint cache_side (log : list aevent) : side :=
  match log with
  | [] => MkSide None start None
  | e :: rest =>
      match e with
      | AeCache CacheAcquire => snd (acquiring rest (cache_side rest))
      | AeCache op => snd (perform op (cache_side rest))
      | AeStepRun _ => stepping rest (cache_side rest)
      | _ => cache_side rest
      end
  end.

End Joint.

(** The environment in which the cache answers as the session does. *)
Definition with_session `{JsonValue} `{E : CapEnv} `{HSha : Sha256} `{HJson : RecipeJson}
    (command : cap_log -> WorkerCommand -> tree -> result string unit * tree) (cached : Cached)
    (turns : list aevent -> nat) (start : CapW) (base : ActorEnv) : ActorEnv :=
  let side_of := cache_side command cached turns start (ae_now (ActorEnv := base)) in
  {|
    ae_now := ae_now (ActorEnv := base);
    ae_stop := ae_stop (ActorEnv := base);
    ae_spawn := ae_spawn (ActorEnv := base);
    ae_handshake := ae_handshake (ActorEnv := base);
    ae_exchange := ae_exchange (ActorEnv := base);
    ae_stdin := ae_stdin (ActorEnv := base);
    ae_try_wait := ae_try_wait (ActorEnv := base);
    ae_reap := ae_reap (ActorEnv := base);
    ae_install_script := ae_install_script (ActorEnv := base);
    ae_step_spawn := ae_step_spawn (ActorEnv := base);
    ae_step_reading := ae_step_reading (ActorEnv := base);
    ae_step_waiting := ae_step_waiting (ActorEnv := base);
    ae_acquire := fun log =>
      match log with
      | AeCache CacheAcquire :: rest =>
          fst (acquiring cached turns (ae_now (ActorEnv := base)) rest (side_of rest))
      | _ => Err "cache_session_missing"
      end;
    ae_cache := fun log =>
      match log with
      | AeCache op :: rest => fst (perform cached op (side_of rest))
      | _ => Err "cache_session_missing"
      end
  |}.
