(* ===== verification/CacheSupervisor.v ===== *)
(** * What a supervisor's life does to its cache

    Over every history of a supervisor with a cached recipe, together with a real session
    ([CacheJoint]): the cache is whole at every moment or not found, preparation only
    succeeds with a complete cache, and the lock is given back. *)

From stdpp Require Import fin_maps.
From S2P Require Import Prelude RustStd Vocabulary World Download WorkerTypes WorkerValidate CapFs CacheFiles.
From S2P Require Import CacheSession TreeFacts CacheFacts CacheRebuild CacheReady CacheInstall CacheAdopt.
From S2P Require Import CacheAcquire CacheCleanup CacheProvision CacheJoint.
From S2P Require Import Identity Errors PoolWorker Native Actor ActorFacts ActorMemory ActorProcess ActorClose.

Open Scope rust_scope.

(** ** The session's side *)

(** Every tree since the session was acquired: the one it found, an unmarked one, a
    complete one, or one that only lacks the identity. *)
Definition tree_ok (r : CacheRecipe) (ident : CacheArtifact) (root : nat) (t1 t : tree) : Prop :=
  t = t1 \/ no_file t root (ca_path (cr_marker r)) \/ complete t root r ident \/ verified r root t.

Definition trees_ok (r : CacheRecipe) (s1 : Session) (w1 w : CapW) : Prop :=
  exists new, cw_log w = new ++ cw_log w1
    /\ Forall (fun e => tree_ok r (ss_recipe_identity s1) (ss_root s1) (cw_tree w1) (ce_tree e)) new.

Section Side.
Context `{E : CapEnv} (Hquiet : quiet) (Hsight : sighted).
Context `{HSha : Sha256} `{!Sha256Law HSha} `{!DigestLaw HSha} `{HJson : RecipeJson}.
Context (r : CacheRecipe) (s1 : Session) (w1 : CapW).
Let ident := ss_recipe_identity s1.
Let root := ss_root s1.
Let t1 := cw_tree w1.
Let marker := ca_path (cr_marker r).
Context (Hr : recipe r = Ok tt) (Hart : artifact r = Ok ident).
Context (Hfresh : fresh_session r ident s1 t1).

Lemma found_own : own_file ident.
Proof. by apply (artifact_sound r ident Hart). Qed.

Lemma runs_ok {A} (I P : tree -> Prop) (m : io CapW A) Q w a w' :
  runs I P m Q -> (forall t, I t -> tree_ok r ident root t1 t) ->
  trees_ok r s1 w1 w -> P (cw_tree w) -> m w = (a, w') -> Q a (cw_tree w') /\ trees_ok r s1 w1 w'.
Proof.
  intros Hm HI (new & Hl & Hn) HP E'. specialize (Hm w HP). rewrite E' in Hm.
  destruct Hm as [HQ (new' & Hl' & Hn')]. split; [done|]. exists (new' ++ new).
  rewrite Hl', Hl, app_assoc. split; [done|]. apply Forall_app. split; [|done].
  eapply Forall_impl; [exact Hn'|]. intros e. apply HI.
Qed.

(** The session acquired, and what it becomes. *)
Definition same_cache (s : Session) : Prop :=
  ss_root s = root /\ ss_recipe_identity s = ident /\ stage_named s.

(** Stopped anywhere: it can be cleaned up, and the tree is one of those. *)
Definition tree_rests (t : tree) (s : Session) : Prop :=
  (t = t1 /\ ss_staging s = None) \/ no_file t root marker \/ complete t root r ident \/ verified r root t.

Record resting (s : Session) (w : CapW) : Prop := {
  rs_same : same_cache s;
  rs_stage : stage_in (cw_tree w) s;
  rs_wf : tree_wf (cw_tree w);
  rs_tree : tree_rests (cw_tree w) s;
  rs_log : trees_ok r s1 w1 w
}.

(** Between [install] and [publish]. *)
Record preparing (d : nat) (s : Session) (w : CapW) : Prop := {
  pp_same : same_cache s;
  pp_stage : staging_directory s = Ok d;
  pp_prepared : prepared (cw_tree w) r root d ident;
  pp_log : trees_ok r s1 w1 w
}.

Lemma tree_rests_ok t s : tree_rests t s -> tree_ok r ident root t1 t.
Proof. intros [[-> _]|Ht]; [by left|by right]. Qed.

Lemma fresh_resting : resting s1 w1.
Proof.
  destruct Hfresh as [Hwf Hid Hheld Hst _ _]. constructor; try done.
  - split_and!; [done..|]. intros st. by rewrite Hst.
  - intros d. unfold staging_directory. by rewrite Hst.
  - by left.
  - by exists [].
Qed.

Lemma preparing_resting d s w : preparing d s w -> resting s w.
Proof.
  intros [Hs Hd [Hwf Hno Hat _ _] Hlog]. pose proof Hs as (Hroot & _ & _). constructor; try done.
  - intros d'. rewrite Hd, Hroot. by intros [= <-].
  - by right; left.
Qed.

(** *** [check_binding] *)

Lemma binding_keeps s0 s w res w' :
  resting s w -> check_binding s0 w = (res, w') -> resting s w' /\ cw_tree w' = cw_tree w.
Proof.
  intros [Hs Hin Hwf Ht Hlog] E'.
  destruct (runs_ok _ (fun t => t = cw_tree w) _ _ _ _ _
              (check_binding_keeps Hquiet _ _ (fun _ H => H) _ s0 (fun _ H => H))
              ltac:(intros t ->; by eapply tree_rests_ok) Hlog eq_refl E') as [Heq Hlog'].
  cbn in Heq. split; [|done]. by constructor; rewrite ?Heq.
Qed.

Lemma binding_keeps_preparing d s w res w' :
  preparing d s w -> check_binding s w = (res, w') -> preparing d s w'.
Proof.
  intros Hp E'. destruct (binding_keeps s _ _ _ _ (preparing_resting _ _ _ Hp) E') as [[_ _ _ _ Hlog] Heq].
  destruct Hp as [Hs Hd Hp _]. constructor; [done|done|by rewrite Heq|done].
Qed.

(** *** [install] *)

Lemma install_step res s' w' :
  install r s1 w1 = ((res, s'), w') ->
  match res with Ok _ => exists d, preparing d s' w' | Err _ => resting s' w' end.
Proof.
  intros E'. pose proof fresh_resting as [Hs Hin Hwf _ Hlog].
  assert (ss_staging s1 = None) as Hnone by apply Hfresh.
  destruct (runs_ok _ _ _ _ _ _ _ (install_spec Hquiet Hsight r root t1 Hr Hwf s1 eq_refl)
              ltac:(intros t [->|[_ ?]]; [by left|by right; left]) Hlog eq_refl E') as [[[Hroot Hid] Hres] Hlog'].
  destruct res as [[]|e].
  - destruct Hres as (Hn & d & Hd & Hp & _). exists d. by constructor.
  - destruct Hres as [[Ht Hst]|[[Hwf' Hno] [Hn Hat]]].
    + rewrite Hnone in Hst. assert (tree_wf (cw_tree w')) by (destruct Ht as [->|[? _]]; done).
      constructor; [split_and!; [done..|]| |done| |done].
      * intros st. by rewrite Hst.
      * intros d. unfold staging_directory. by rewrite Hst.
      * destruct Ht as [->|[_ ?]]; [by left|by right; left].
    + constructor; try done. by right; left.
Qed.

(** *** [adopt_legacy] *)

Lemma adopt_step res s' w' :
  adopt_legacy r s1 w1 = ((res, s'), w') ->
  resting s' w' /\ (res = Ok tt -> complete (cw_tree w') root r ident).
Proof.
  intros E'. pose proof fresh_resting as [Hs Hin Hwf _ Hlog].
  assert (ss_staging s1 = None) as Hnone by apply Hfresh.
  destruct (runs_ok _ _ _ _ _ _ _ (adopt_legacy_spec Hquiet Hsight r root ident t1 Hr found_own Hwf s1 eq_refl eq_refl)
              ltac:(intros t [->|?]; [by left|by right; right; right]) Hlog eq_refl E') as [([Hroot Hid] & Hleft & Hok) Hlog'].
  split; [|intros Hres; by apply Hok].
  destruct Hleft as [[Ht Hst]|[Hv [Hn Hat]]].
  - rewrite Hnone in Hst. assert (tree_wf (cw_tree w')) by (destruct Ht as [->|?]; [done|apply H]).
    constructor; [split_and!; [done..|]| |done| |done].
    + intros st. by rewrite Hst.
    + intros d. unfold staging_directory. by rewrite Hst.
    + destruct Ht as [->|?]; [by left|by right; right; right].
  - constructor; try done; [apply Hv|by right; right; right].
Qed.

(** *** [publish] *)

Lemma publish_step d s w res w' :
  preparing d s w -> publish r s w = (res, w') ->
  resting s w' /\ (res = Ok tt -> complete (cw_tree w') root r ident).
Proof.
  intros [(Hroot & Hid & Hn) Hd Hp Hlog] E'.
  destruct (runs_ok _ _ _ _ _ _ _ (publish_spec Hquiet r root d ident Hr found_own s Hroot Hid Hd)
              ltac:(intros t [_ [?|?]]; [by right; left|by right; right; left]) Hlog Hp E') as [[[Hwf Hat] Hres] Hlog'].
  split; [|by intros ->]. constructor; [done| |done| |done].
  - intros d'. rewrite Hd, Hroot. by intros [= <-].
  - destruct res; [by right; right; left|by right; left].
Qed.

(** *** A command of the recipe *)

Lemma command_step (command : cap_log -> WorkerCommand -> tree -> result string unit * tree) d s w c :
  well_behaved command r root ident d -> preparing d s w ->
  preparing d s (snd (run_command command c w)).
Proof.
  intros Hc [Hs Hd Hp (new & Hl & Hn)]. unfold run_command. rewrite Hquiet.
  specialize (Hc (cw_log w) c (cw_tree w) Hp). destruct (command _ c _) as [res t]. cbn in *.
  constructor; [done|done|exact Hc|]. exists (MkCapEvent CapRun true 0 t :: new). cbn. rewrite Hl. split; [done|].
  constructor; [|done]. right; left. apply Hc.
Qed.

(** *** [cleanup] *)

Lemma cleaned_keeps t t' s :
  tree_wf t -> tree_rests t s -> ss_staging s <> None -> cleaned_from root t t' ->
  tree_wf t' /\ (no_file t' root marker \/ complete t' root r ident \/ verified r root t')
  /\ (complete t root r ident -> complete t' root r ident).
Proof.
  intros Hwf [[_ ?]|Ht] Hst; [done|]. intros [->|(d & Hat & Hshed)]; [done|]. split; [apply Hshed|].
  assert (complete t root r ident -> complete t' root r ident) as Hc.
  { intros Hc. eapply shed_keeps_complete; [exact Hwf|exact Hat|exact Hshed|exact Hr|exact found_own|exact Hc]. }
  split; [|done]. destruct Ht as [Hno|[?|Hv]].
  - left. by eapply shed_no_file.
  - right; left. by apply Hc.
  - right; right. by eapply shed_keeps_verified.
Qed.

Lemma cleanup_step s w res s' w' :
  resting s w -> session_cleanup s w = ((res, s'), w') ->
  trees_ok r s1 w1 w' /\ tree_ok r ident root t1 (cw_tree w')
  /\ (complete (cw_tree w) root r ident -> complete (cw_tree w') root r ident)
  /\ match res with Ok _ => True | Err _ => resting s' w' end.
Proof.
  intros Hrest E'. pose proof Hrest as [(Hroot & Hid & Hn) Hin Hwf Ht Hlog].
  destruct (decide (ss_staging s = None)) as [Hst|Hst].
  { unfold session_cleanup in E'. rewrite Hst in E'. injection E' as <- <- <-.
    split_and!; [done|by eapply tree_rests_ok|done|done]. }
  destruct (runs_ok _ _ _ _ _ _ _ (session_cleanup_spec Hquiet root (cw_tree w) Hwf s Hroot Hn Hin)
              ltac:(intros t Hc; destruct (cleaned_keeps _ _ _ Hwf Ht Hst Hc) as (_ & ? & _); by right)
              Hlog eq_refl E') as [(Hc & Hn' & Hin' & Hs') Hlog'].
  destruct (cleaned_keeps _ _ _ Hwf Ht Hst Hc) as (Hwf' & Ht' & Hcomp).
  split_and!; [done|by right|done|]. destruct res as [|e]; [done|]. destruct Hs' as [st ->].
  constructor; [by split_and!|done|done|by right|done].
Qed.

End Side.
