(* ===== verification/CacheLife.v ===== *)
(** * The cache over a supervisor's whole life

    A small logic of [Actor]'s computations on what they see of the cache: the outcome of
    preparation, the flags the supervisor keeps and the session's side. With it every part
    of [Actor] is carried from before preparation to the end of the closing loop. *)

From stdpp Require Import fin_maps.
From S2P Require Import Prelude RustStd Vocabulary World Download WorkerTypes WorkerValidate CapFs CacheFiles.
From S2P Require Import CacheSession TreeFacts CacheFacts CacheRebuild CacheReady CacheInstall CacheAdopt.
From S2P Require Import CacheAcquire CacheCleanup CacheProvision CacheJoint CacheSupervisor.
From S2P Require Import Identity Errors PoolWorker Native Actor ActorFacts ActorMemory ActorProcess ActorClose.

Open Scope rust_scope.

Create HintDb stay.

Section Life.
Context `{JsonValue} `{!WorkerJson} (base : ActorEnv).
Context `{E : CapEnv} `{HSha : Sha256} `{HJson : RecipeJson}.
Context (command : cap_log -> WorkerCommand -> tree -> result string unit * tree) (cached : Cached)
  (turns : list aevent -> nat) (start_world : CapW).

#[local] Instance joint : ActorEnv := with_session command cached turns start_world base.

Definition side_of (log : list aevent) : side :=
  cache_side command cached turns start_world (ae_now (ActorEnv := base)) log.

(** What a computation sees of the cache. *)
Definition view : Type := option WorkerOutcome * option session * side.
Definition view_of (w : AW) : view :=
  (sa_prepared (ac_state (aw_actor w)), ac_cache (aw_actor w), side_of (aw_log w)).

Definition is_complete (p : option WorkerOutcome) : Prop :=
  match p with Some result => wo_kind result = Complete | None => False end.

Let r := cc_recipe cached.

(** The cache that was found is now complete. *)
Definition whole (v : view) : Prop :=
  match sd_found v.2 with
  | Some (s1, _) => complete (cw_tree (sd_world v.2)) (ss_root s1) r (ss_recipe_identity s1)
  | None => False
  end.

(** The session and the flags kept of it go together; a session is at rest; preparation is
    only complete with a complete cache and no session held. *)
Definition sound (v : view) : Prop :=
  let '(p, c, sd) := v in
  match sd_found sd with
  | None => c = None /\ sd_session sd = None /\ ~ is_complete p
  | Some (s1, w1) =>
      artifact r = Ok (ss_recipe_identity s1) /\ trees_ok r s1 w1 (sd_world sd)
      /\ match c, sd_session sd with
         | Some _, Some s => resting r s1 w1 s (sd_world sd) /\ ~ is_complete p
         | None, None => is_complete p -> whole v
         | _, _ => False
         end
  end.

Definition triple {A} (X : view -> Prop) (m : act A) (Q : A -> view -> Prop) : Prop :=
  forall w a w', X (view_of w) -> m w = (a, w') ->
  match a with Some a => Q a (view_of w') | None => sound (view_of w') end.

(** ** Rules *)

Lemma tr_conseq {A} (X X' : view -> Prop) (m : act A) (Q Q' : A -> view -> Prop) :
  triple X' m Q' -> (forall v, X v -> X' v) -> (forall a v, Q' a v -> Q a v) -> triple X m Q.
Proof. intros Hm HX HQ w a w' Hv E'. specialize (Hm w a w' (HX _ Hv) E'). destruct a; auto. Qed.

Lemma tr_bind {A B} X (m : act A) (Q : A -> view -> Prop) (k : A -> act B) R :
  triple X m Q -> (forall a, triple (Q a) (k a) R) -> triple X (act_bind m k) R.
Proof.
  intros Hm Hk w b w' Hv. unfold act_bind. destruct (m w) as [[a|] w1] eqn:E';
    pose proof (Hm _ _ _ Hv E') as Hm'; cbn in Hm'; [by apply Hk|]. by intros [= <- <-].
Qed.

Lemma tr_try {X A B} V (m : act (result X A)) Q (k : A -> act (result X B)) R :
  triple V m Q -> (forall a, triple (Q (Ok a)) (k a) R) -> (forall e v, Q (Err e) v -> R (Err e) v) ->
  triple V (try_act m k) R.
Proof.
  intros Hm Hk He. eapply tr_bind; [exact Hm|]. intros [a|e]; [apply Hk|].
  intros w b w' Hv [= <- <-]. by apply He.
Qed.

Lemma tr_done {A} (X : view -> Prop) (a : A) (Q : A -> view -> Prop) :
  (forall v, X v -> Q a v) -> triple X (done a) Q.
Proof. intros HQ w b w' Hv [= <- <-]. by apply HQ. Qed.

Lemma tr_ret {A} (X : view -> Prop) (o : option A) (Q : A -> view -> Prop) :
  (forall v, X v -> sound v) -> (forall a v, X v -> Q a v) -> triple X (io_ret o) Q.
Proof. intros HX HQ w b w' Hv [= <- <-]. destruct o; auto. Qed.

Lemma tr_reading {A} (X : view -> Prop) (f : Actor -> A) : triple X (reading_actor f) (fun _ => X).
Proof. by intros w b w' Hv [= <- <-]. Qed.

Lemma tr_modify (X : view -> Prop) f :
  (forall a, sa_prepared (ac_state (f a)) = sa_prepared (ac_state a) /\ ac_cache (f a) = ac_cache a) ->
  triple X (modify f) (fun _ => X).
Proof. intros Hf w b w' Hv [= <- <-]. unfold view_of in *. cbn. by destruct (Hf (aw_actor w)) as [-> ->]. Qed.

(** Nothing of the cache. *)
Definition elsewhere (e : aevent) : bool :=
  match e with AeCache _ | AeStepRun _ => false | _ => true end.

Lemma tr_ask {A} (X : view -> Prop) e (answer : list aevent -> A) :
  elsewhere e = true -> triple X (ask e answer) (fun _ => X).
Proof. intros He w b w' Hv [= <- <-]. destruct e; (discriminate He || exact Hv). Qed.

(** A step that runs: something may happen to the cache. *)
Lemma tr_step_run {A} (X : view -> Prop) deadline (answer : list aevent -> A) :
  (forall p c log sd, X (p, c, sd) -> X (p, c, stepping command log sd)) ->
  triple X (ask (AeStepRun deadline) answer) (fun _ => X).
Proof. intros Hs w b w' Hv [= <- <-]. by apply (Hs _ _ (aw_log w)). Qed.

Lemma tr_under_deadline {A} (X : view -> Prop) (m : act A) (Q : A -> view -> Prop) :
  triple X m Q -> triple X (under_deadline m) (fun o v => match o with Some a => Q a v | None => sound v end).
Proof.
  intros Hm w b w' Hv. unfold under_deadline. destruct (m w) as [a w1] eqn:E'. intros [= <- <-].
  exact (Hm _ _ _ Hv E').
Qed.

Lemma tr_pure {A} (phi : Prop) X (m : act A) Q : (phi -> triple X m Q) -> triple (fun v => phi /\ X v) m Q.
Proof. intros Hm w b w' [Hphi Hv]. by apply Hm. Qed.

(** One operation on the session. *)
Lemma tr_cache (X : view -> Prop) op (Q : result string unit -> view -> Prop) :
  op <> CacheAcquire ->
  (forall p c sd, X (p, c, sd) ->
     let '(res, sd') := perform cached op sd in Q res (p, c, sd')) ->
  triple X (ask (AeCache op) ae_cache) Q.
Proof.
  intros Hop HQ w b w' Hv [= <- <-]. unfold view_of in *. specialize (HQ _ _ _ Hv).
  change (ae_cache (AeCache op :: aw_log w)) with (fst (perform cached op (side_of (aw_log w)))).
  assert (side_of (AeCache op :: aw_log w) = snd (perform cached op (side_of (aw_log w)))) as Hside
    by (by destruct op). cbn [aw_actor aw_log]. rewrite Hside.
  unfold side_of in *. destruct (perform cached op _) as [res sd']. exact HQ.
Qed.

(** ** What is left alone *)

Lemma tr_seq {A B} (X : view -> Prop) (m : act A) (k : A -> act B) Q :
  triple X m (fun _ => X) -> (forall a, triple X (k a) Q) -> triple X (act_bind m k) Q.
Proof. intros Hm Hk. by eapply tr_bind. Qed.

Lemma tr_dropped {A} (X : view -> Prop) (Q : A -> view -> Prop) :
  (forall v, X v -> sound v) -> triple X dropped Q.
Proof. intros HX w b w' Hv [= <- <-]. by apply HX. Qed.

(** Parts that keep a view which is sound. *)
Ltac stay := repeat match goal with
  | |- triple _ (act_bind _ _) _ => apply tr_seq; [|intros ?]
  | |- triple _ (try_act _ _) _ => apply tr_seq; [|intros [?|?]]
  | |- triple _ (done _) _ => apply tr_done; by intros
  | |- triple _ dropped _ => apply tr_dropped; (assumption || by intros)
  | |- triple _ (io_ret _) _ => apply tr_ret; (assumption || by intros)
  | |- triple _ (reading_actor _) _ => apply tr_reading
  | |- triple _ (ask _ _) _ => by apply tr_ask
  | |- triple _ now _ => by apply tr_ask
  | |- triple _ stopped _ => by apply tr_ask
  | |- triple _ (modify _) _ => apply tr_modify; by intros
  | |- triple _ (match ?x with _ => _ end) _ => destruct x
  | |- triple _ _ _ => progress cbv zeta
  | |- triple _ _ _ => solve [auto with stay]
  end.

Section Kept.
Context (X : view -> Prop) (HX : forall v, X v -> sound v).

Lemma clean_preparation_stays : triple X clean_preparation (fun _ => X).
Proof. unfold clean_preparation. stay. Qed.

Lemma clean_process_stays : triple X clean_process (fun _ => X).
Proof. unfold clean_process. stay. Qed.

(** A step, when it keeps what is seen. *)
Context (Hstep : forall p c log sd, X (p, c, sd) -> X (p, c, stepping command log sd)).

Lemma run_step_stays step enclosing : triple X (run_step step enclosing) (fun _ => X).
Proof.
  unfold run_step. stay; [by apply tr_step_run|..]. all: apply clean_preparation_stays.
Qed.

End Kept.

(** ** Cleaning up *)

Lemma tr_reading_cache (X : view -> Prop) :
  triple X (reading_actor ac_cache) (fun c v => X v /\ v.1.2 = c).
Proof. by intros w b w' Hv [= <- <-]. Qed.

(** Once the session is gone, and before the supervisor drops its flags. *)
Definition dropped_ok (v : view) : Prop := let '(p, _, sd) := v in sound (p, None, sd).

Section CleanCache.
Context `{!Sha256Law HSha} `{!DigestLaw HSha} (Hquiet : quiet) (Hr : recipe r = Ok tt).

Lemma cleanup_performed p f sd :
  sound (p, Some f, sd) ->
  let '(res, sd') := perform cached CacheCleanup sd in
  match res with Ok _ => sound (p, None, sd') | Err _ => sound (p, Some f, sd') end
  /\ (whole (p, Some f, sd) -> whole (p, Some f, sd')).
Proof.
  unfold sound at 1. destruct (sd_found sd) as [[s1 w1]|] eqn:Hf; [|by intros [? _]].
  intros (Hart & Hlog & Hsd). destruct (sd_session sd) as [s|] eqn:Hs; [|done]. destruct Hsd as [Hrest Hp].
  unfold perform, on_held. rewrite Hs. destruct (session_cleanup s (sd_world sd)) as [[res s'] w'] eqn:E'.
  destruct (cleanup_step Hquiet r s1 w1 Hr Hart _ _ _ _ _ Hrest E') as (Hlog' & _ & Hc & Hrest').
  unfold sound, whole. cbn [sd_found sd_session sd_world fst snd]. rewrite Hf.
  destruct res as [[]|e]; (split; [|exact Hc]); by split_and!.
Qed.

Lemma clean_cache_spec (phi : Prop) :
  triple (fun v => sound v /\ (phi -> whole v)) clean_cache
    (fun res v => match res with Ok _ => dropped_ok v | Err _ => sound v end /\ (phi -> whole v)).
Proof.
  unfold clean_cache. eapply tr_bind; [apply tr_reading_cache|]. intros [f|].
  - apply tr_cache; [done|]. intros p c sd [[Hs Hphi] Heq]. cbn in Heq. subst c.
    pose proof (cleanup_performed p f sd Hs) as Hc. destruct (perform _ _ sd) as [res sd'].
    destruct Hc as [Hres Hw]. split; [by destruct res|]. intros Hphi'. by apply Hw, Hphi.
  - apply tr_done. intros [[p c] sd] [[Hs Hphi] Heq]. cbn in Heq. subst c. by split.
Qed.

Lemma drop_flags (phi : Prop) :
  triple (fun v => dropped_ok v /\ (phi -> whole v)) (modify (set_cache None))
    (fun _ v => sound v /\ v.1.2 = None /\ (phi -> whole v)).
Proof. intros w b w' [Hd Hphi] [= <- <-]. by split_and!. Qed.

Lemma cleanup_sound : triple sound cleanup (fun _ => sound).
Proof.
  unfold cleanup. apply tr_seq; [by apply tr_modify|]. intros [].
  eapply tr_try; [by apply clean_preparation_stays| |done]. intros [].
  apply tr_seq; [by apply tr_modify|]. intros [].
  eapply (tr_try _ _ _ _ (fun _ => sound)).
  - eapply tr_conseq; [apply (clean_cache_spec False)|by intros v Hv; split|intros res v [Hv _]; exact Hv].
  - intros []. apply (tr_bind _ _ (fun _ => sound)).
    + eapply tr_conseq; [apply (drop_flags False)|by intros v Hv; split|by intros a v [? _]].
    + intros []. eapply tr_try; [by apply clean_process_stays| |done]. intros []. stay.
  - by intros e v.
Qed.

#[local] Hint Resolve cleanup_sound : stay.

(** ** After preparation *)

Lemma handshake_sound : triple sound handshake (fun _ => sound).
Proof. unfold handshake. stay. Qed.
#[local] Hint Resolve handshake_sound : stay.

Lemma start_finish_sound result : triple sound (start_finish result) (fun _ => sound).
Proof. unfold start_finish. stay. Qed.
#[local] Hint Resolve start_finish_sound : stay.

Lemma start_new_sound : triple sound start_new (fun _ => sound).
Proof. unfold start_new, start_spawn. stay. Qed.
#[local] Hint Resolve start_new_sound : stay.

Lemma start_sound : triple sound start (fun _ => sound).
Proof. unfold start, alive. stay. Qed.
#[local] Hint Resolve start_sound : stay.

Lemma start_within_sound : triple sound (under_deadline start) (fun _ => sound).
Proof. eapply tr_conseq; [apply tr_under_deadline, start_sound|done|by intros [] v]. Qed.
#[local] Hint Resolve start_within_sound : stay.

Lemma exchange_sound p wire deadline : triple sound (exchange p wire deadline) (fun _ => sound).
Proof. unfold exchange. stay. Qed.
#[local] Hint Resolve exchange_sound : stay.

Lemma attempts_sound remaining wire deadline attempted reason :
  triple sound (attempts remaining wire deadline attempted reason) (fun _ => sound).
Proof.
  revert attempted reason. induction remaining as [|remaining IH]; intros attempted reason; cbn [attempts]; stay; apply IH.
Qed.
#[local] Hint Resolve attempts_sound : stay.

Lemma request_sound q deadline : triple sound (request q deadline) (fun _ => sound).
Proof. unfold request, dispatch. stay. all: apply tr_modify; intros ?; by destruct (_ : bool). Qed.
#[local] Hint Resolve request_sound : stay.

Lemma serve_one_sound c : triple sound (serve_one c) (fun _ => sound).
Proof. unfold serve_one, supervise, alive. destruct c; stay. Qed.
#[local] Hint Resolve serve_one_sound : stay.

Lemma serve_sound cs : triple sound (serve cs) (fun _ => sound).
Proof. induction cs as [|c cs IH]; cbn [serve]; stay. Qed.

Lemma close_sound removals : triple sound (close removals) (fun _ => sound).
Proof. induction removals as [|removal rest IH]; cbn [close]; unfold close_once; stay. Qed.

(** ** Preparing *)

Context (Hsight : sighted).
Context (Hcommand : forall root ident d, artifact r = Ok ident -> well_behaved command r root ident d).

(** With the session that was just found. *)
Section Found.
Context (s1 : Session) (w1 : CapW).
Let ident := ss_recipe_identity s1.
Context (Hart : artifact r = Ok ident) (Hfresh : fresh_session r ident s1 (cw_tree w1)).

Definition just_found (v : view) : Prop := v = (None, Some (flags s1), MkSide (Some s1) w1 (Some (s1, w1))).

(** The session is held, at rest. *)
Definition held_at (Y : Session -> CapW -> Prop) (v : view) : Prop :=
  let '(p, c, sd) := v in
  p = None /\ c = Some (flags s1) /\ sd_found sd = Some (s1, w1)
  /\ exists s, sd_session sd = Some s /\ Y s (sd_world sd).

Definition provisioned (res : result string unit) (v : view) : Prop :=
  held_at (resting r s1 w1) v /\ (res = Ok tt -> whole v).

Lemma held_sound Y v : (forall s w, Y s w -> resting r s1 w1 s w) -> held_at Y v -> sound v.
Proof.
  intros HY. destruct v as [[p c] sd]. intros (-> & -> & Hf & s & Hs & Hy). unfold sound. rewrite Hf, Hs.
  apply HY in Hy. split; [exact Hart|]. split; [apply Hy|]. by split; [|intros []].
Qed.

(** One operation on the session that is held. *)
Lemma tr_held (Y : Session -> CapW -> Prop) op f Q :
  op <> CacheAcquire -> (forall sd, perform cached op sd = on_held f sd) ->
  (forall p c sd s w res s' w', sd_found sd = Some (s1, w1) -> Y s w -> f s w = ((res, s'), w') ->
     p = None -> c = Some (flags s1) -> sd = MkSide (Some s') w' (Some (s1, w1)) -> Q res (p, c, sd)) ->
  triple (held_at Y) (ask (AeCache op) ae_cache) Q.
Proof.
  intros Hop Hf HQ. apply tr_cache; [done|]. intros p c sd (-> & -> & Hfound & s & Hs & HY). rewrite Hf.
  unfold on_held. rewrite Hs. destruct (f s (sd_world sd)) as [[res s'] w'] eqn:E'.
  by eapply HQ; [|exact HY|exact E'|..]; rewrite ?Hfound.
Qed.

Lemma cache_steps_spec d deadline steps :
  triple (held_at (preparing r s1 w1 d)) (cache_steps deadline steps) provisioned.
Proof.
  set (X := held_at (preparing r s1 w1 d)).
  assert (forall v, X v -> held_at (resting r s1 w1) v) as Hrest.
  { intros [[p c] sd] (-> & -> & Hf & s & Hs & Hp). split_and!; [done..|]. exists s. split; [done|].
    by eapply preparing_resting. }
  assert (forall v, X v -> sound v) as HX.
  { intros v Hv. by apply (held_sound (resting r s1 w1)), Hrest. }
  assert (forall e v, X v -> provisioned (Err e) v) as HE by (intros e v Hv; split; [by apply Hrest|done]).
  assert (forall p c log sd, X (p, c, sd) -> X (p, c, stepping command log sd)) as Hstep.
  { intros p c log sd (-> & -> & Hf & s & Hs & Hp). unfold stepping. rewrite Hs.
    destruct (running log) as [cmd|]; [|by split_and!; [..|exists s]]. split_and!; [done|done|done|].
    exists s. split; [done|]. apply command_step; [done|by apply Hcommand|done]. }
  induction steps as [|step steps IH]; cbn [cache_steps];
    (apply tr_seq; [by apply tr_ask|]); (intros [|]; [apply tr_done; exact (HE _)|]);
    (apply tr_seq; [by apply tr_ask|]); (intros t; destruct (deadline <=? t)%N; [apply tr_done; exact (HE _)|]).
  - eapply tr_held; [done|done|]. intros p c sd s w res s' w' Hf Hp E' -> -> ->.
    unfold keep, io_map in E'. destruct (publish (cc_recipe cached) s w) as [res0 w0] eqn:Epub. injection E' as <- <- <-.
    destruct (publish_step Hquiet r s1 w1 Hr Hart _ _ _ _ _ Hp Epub) as [Hres Hc].
    split; [|exact Hc]. split_and!; [done..|]. by exists s.
  - apply (tr_try _ _ (fun _ => X)); [| |by intros e v ?%HE].
    { eapply tr_held; [done|done|]. intros p c sd s w res s' w' Hf Hp E' -> -> ->.
      unfold keep, io_map in E'. destruct (check_binding s w) as [res0 w0] eqn:Eb. injection E' as <- <- <-.
      split_and!; [done..|]. exists s. split; [done|]. by eapply binding_keeps_preparing. }
    intros []. apply tr_seq; [by apply run_step_stays|]. intros [reason|reason|[[]|reason]];
      [apply tr_done; exact (HE _)..|exact IH|apply tr_done; exact (HE _)].
Qed.

Lemma provision_cache_spec deadline : triple just_found (provision_cache cached deadline) provisioned.
Proof.
  pose proof (fresh_resting r s1 w1 Hfresh) as Hrest.
  assert (forall v, just_found v -> held_at (fun s w => s = s1 /\ w = w1) v) as Hheld.
  { intros v ->. split_and!; [done..|]. by exists s1. }
  assert (forall v, just_found v -> held_at (resting r s1 w1) v) as Hr1.
  { intros v ->. split_and!; [done..|]. by exists s1. }
  unfold provision_cache. eapply tr_bind; [apply tr_reading_cache|]. intros c.
  apply (tr_conseq _ (fun v => c = Some (flags s1) /\ just_found v) _ _ provisioned); [|by intros v [-> <-]|done].
  apply tr_pure. intros ->. cbn [flags se_legacy se_cached].
  destruct (ss_legacy s1) eqn:Hl; [|destruct (ss_cached s1) eqn:Hc].
  - eapply tr_conseq; [|exact Hheld|by intros]. eapply tr_held; [done|done|].
    intros p c sd s w res s' w' Hf [-> ->] E' -> -> ->.
    destruct (adopt_step Hquiet Hsight r s1 w1 Hr Hart Hfresh _ _ _ E') as [Hres Hcomp].
    split; [|exact Hcomp]. split_and!; [done..|]. by exists s'.
  - apply tr_done. intros v Hv. split; [by apply Hr1|]. intros _. rewrite Hv. by apply Hfresh.
  - set (Q := fun (res : result string unit) v => match res with
             | Ok _ => exists d, held_at (preparing r s1 w1 d) v
             | Err _ => held_at (resting r s1 w1) v end).
    apply (tr_try _ _ Q).
    + apply (tr_conseq _ (held_at (fun s w => s = s1 /\ w = w1)) _ _ Q); [|exact Hheld|done].
      eapply tr_held; [done|done|].
      intros p c sd s w res s' w' Hf [-> ->] E' -> -> ->.
      pose proof (install_step Hquiet Hsight r s1 w1 Hr Hfresh _ _ _ E') as Hres.
      destruct res as [[]|e]; [destruct Hres as [d Hp]; exists d|]; (split_and!; try done); by exists s'.
    + intros [] w b w' [d Hv]. by apply (cache_steps_spec d).
    + intros e v Hv. by split.
Qed.

End Found.

(** Before anything was asked. *)
Definition untouched (v : view) : Prop := v = (None, None, MkSide None start_world None).

Lemma acquiring_spec log :
  tree_wf (cw_tree start_world) ->
  let '(res, sd) := acquiring cached turns (ae_now (ActorEnv := base)) log (MkSide None start_world None) in
  match res with
  | Ok s => exists s1 w1, (artifact r = Ok (ss_recipe_identity s1)
      /\ fresh_session r (ss_recipe_identity s1) s1 (cw_tree w1)) /\ s = flags s1
      /\ (None, None, sd) = (None, None, MkSide (Some s1) w1 (Some (s1, w1))) :> view
  | Err _ => sound (None, None, sd)
  end.
Proof.
  intros Hwf. unfold acquiring. cbv zeta. cbn [sd_world sd_found].
  set (deadline := (_ + _)%N).
  destruct (acquire _ (cc_root cached) _ deadline _) as [[[s1|reason]|] w1] eqn:E';
    [|split; [done|by split; [|intros []]]..].
  destruct (artifact r) as [ident|e] eqn:Hart.
  2:{ unfold acquire in E'. fold r in E'. by rewrite Hart in E'. }
  pose proof (acquire_spec Hquiet Hsight (turns log) (cc_root cached) r ident deadline Hr Hart start_world Hwf) as Hs.
  unfold r in Hs. rewrite E' in Hs. destruct Hs as [Hs _]. specialize (Hs s1 eq_refl).
  exists s1, w1. rewrite (fs_identity _ _ _ _ Hs). by split_and!.
Qed.

Lemma tr_acquire :
  tree_wf (cw_tree start_world) ->
  triple untouched (ask (AeCache CacheAcquire) ae_acquire)
    (fun res v => match res with
       | Ok s => exists s1 w1, (artifact r = Ok (ss_recipe_identity s1)
           /\ fresh_session r (ss_recipe_identity s1) s1 (cw_tree w1)) /\ s = flags s1
           /\ v = (None, None, MkSide (Some s1) w1 (Some (s1, w1)))
       | Err _ => sound v
       end).
Proof.
  intros Hwf w res w' Hv [= <- <-]. unfold view_of in *. cbn [aw_actor aw_log].
  injection Hv as Hp Hc Hside. rewrite Hp, Hc. pose proof (acquiring_spec (aw_log w) Hwf) as Ha.
  change (side_of (AeCache CacheAcquire :: aw_log w))
    with (snd (acquiring cached turns (ae_now (ActorEnv := base)) (aw_log w) (side_of (aw_log w)))).
  change (ae_acquire (AeCache CacheAcquire :: aw_log w))
    with (fst (acquiring cached turns (ae_now (ActorEnv := base)) (aw_log w) (side_of (aw_log w)))).
  unfold side_of in *. rewrite Hside. destruct (acquiring _ _ _ _ _) as [[|] sd]; exact Ha.
Qed.

(** From one world. *)
Definition starting {A} (w : AW) (m : act A) (Q : A -> view -> Prop) : Prop :=
  forall a w', m w = (a, w') ->
  match a with Some a => Q a (view_of w') | None => sound (view_of w') end.

Lemma starting_bind {A B} w (m : act A) Q (k : A -> act B) R :
  starting w m Q -> (forall a, triple (Q a) (k a) R) -> starting w (act_bind m k) R.
Proof.
  intros Hm Hk b w'. unfold act_bind. destruct (m w) as [[a|] w1] eqn:E';
    pose proof (Hm _ _ E') as Hm'; cbn in Hm'; [by apply Hk|]. by intros [= <- <-].
Qed.

Lemma starting_triple {A} (X : view -> Prop) w (m : act A) Q :
  X (view_of w) -> triple X m Q -> starting w m Q.
Proof. intros Hv Hm a w'. by apply Hm. Qed.

(** Preparation left it. *)
Definition settled (res : result string unit) (v : view) : Prop :=
  sound v /\ (res = Ok tt -> v.1.2 = None /\ whole v).

Lemma after_provision result :
  triple (fun v => sound v /\ (result = Ok tt -> whole v))
    (_ <-t clean_preparation ;;
     _ <-a modify (set_preparation None) ;;
     _ <-t clean_cache ;;
     _ <-a modify (set_cache None) ;;
     done result) settled.
Proof.
  set (X := fun v => sound v /\ (result = Ok tt -> whole v)).
  assert (forall v, X v -> sound v) as HX by (by intros v [? _]).
  apply (tr_try _ _ (fun _ => X)); [by apply clean_preparation_stays| |by intros e v [? _]]. intros [].
  apply tr_seq; [by apply tr_modify|]. intros [].
  eapply tr_try; [apply (clean_cache_spec (result = Ok tt))| |by intros e v [? _]]. intros [].
  eapply tr_bind; [apply drop_flags|]. intros []. apply tr_done. intros v (Hs & Hc & Hw). by split; [|auto].
Qed.

(** The recipe's part, once the cache is known. *)
Lemma acquired_and_settled :
  tree_wf (cw_tree start_world) ->
  triple untouched
    (t <-a now ;;
     let deadline := (t + cr_timeout_ms (cc_recipe cached))%N in
     s <-t ask (AeCache CacheAcquire) ae_acquire ;;
     _ <-a modify (set_cache (Some s)) ;;
     result <-a provision_cache cached deadline ;;
     _ <-t clean_preparation ;;
     _ <-a modify (set_preparation None) ;;
     _ <-t clean_cache ;;
     _ <-a modify (set_cache None) ;;
     done result) settled.
Proof.
  intros Hwf. apply tr_seq; [by apply tr_ask|]. intros t. cbv zeta.
  eapply tr_try; [by apply tr_acquire| |by intros e v]. intros s w a w' (s1 & w1 & [Hart Hfresh] & -> & Hv).
  revert Hv. generalize w a w'.
  enough (triple (fun v => v = (None, None, MkSide (Some s1) w1 (Some (s1, w1))))
    (_ <-a modify (set_cache (Some (flags s1))) ;;
     result <-a provision_cache cached (t + cr_timeout_ms (cc_recipe cached)) ;;
     _ <-t clean_preparation ;; _ <-a modify (set_preparation None) ;;
     _ <-t clean_cache ;; _ <-a modify (set_cache None) ;; done result) settled) as Ht.
  { intros w2 a2 w2' Hv. by apply Ht. }
  apply (tr_bind _ _ (fun _ => just_found s1 w1)).
  { intros w2 a2 w2' Hv [= <- <-].
    transitivity ((fun v : view => (v.1.1, Some (flags s1), v.2)) (view_of w2)); [done|by rewrite Hv]. }
  intros []. eapply tr_bind; [by apply (provision_cache_spec s1 w1)|]. intros result.
  eapply tr_conseq; [apply after_provision| |by intros].
  intros v [Hh Hw]. split; [|exact Hw]. by eapply (held_sound s1 w1).
Qed.

Lemma prepare_cache_spec w :
  tree_wf (cw_tree start_world) -> ac_cached (aw_actor w) = Some cached -> untouched (view_of w) ->
  starting w prepare_cache settled.
Proof.
  intros Hwf Hcached Hv a w' E'. unfold prepare_cache in E'. unfold act_bind at 1, reading_actor at 1 in E'.
  rewrite Hcached in E'. by apply (acquired_and_settled Hwf w a w' Hv).
Qed.

(** ** The whole preparation *)

(** No session any more, and a complete cache. *)
Definition ready (v : view) : Prop := (sound v /\ v.1.2 = None) /\ whole v.

Lemma ready_stepping p c log sd : ready (p, c, sd) -> ready (p, c, stepping command log sd).
Proof.
  intros [[Hs Hc] Hw]. cbn in Hc. subst c. unfold stepping.
  enough (sd_session sd = None) as ->; [done|]. unfold sound in Hs. unfold whole in Hw. cbn in Hw.
  destruct (sd_found sd) as [[? ?]|]; [|done]. destruct Hs as (_ & _ & Hs). by destruct (sd_session sd).
Qed.

Lemma plan_steps_ready deadline steps : triple ready (plan_steps deadline steps) (fun _ => ready).
Proof.
  assert (forall v, ready v -> sound v) as HX by (by intros v [[? _] _]).
  induction steps as [|step steps IH]; cbn [plan_steps]; [by stay|].
  apply tr_seq; [by apply run_step_stays; [|apply ready_stepping]|]. intros [?|?|[[]|?]]; [by stay..|exact IH|by stay].
Qed.

Lemma prepare_spec w :
  tree_wf (cw_tree start_world) -> ac_cached (aw_actor w) = Some cached -> untouched (view_of w) ->
  starting w prepare (fun o v => sound v /\ (wo_kind o = Complete -> ready v)).
Proof.
  intros Hwf Hcached Hv. eapply starting_bind; [by apply prepare_cache_spec|]. intros [[]|reason].
  2:{ apply tr_done. by intros v [? _]. }
  apply (tr_conseq _ ready _ _ (fun _ => ready)).
  - assert (forall v, ready v -> sound v) as HX by (by intros v [[? _] _]).
    stay. apply plan_steps_ready.
  - intros v [Hs Hw]. destruct (Hw eq_refl). by split.
  - intros o v Hr'. by split; [apply Hr'|].
Qed.

Lemma published_kind plan o s : sa_prepared (published_prepared plan o s) = Some o.
Proof. unfold published_prepared. by case_bool_decide. Qed.

Lemma publishing_sound o :
  triple (fun v => sound v /\ (wo_kind o = Complete -> ready v))
    (modify (fun a => set_state (published_prepared (ac_plan a) o (ac_state a)) a)) (fun _ => sound).
Proof.
  intros w a w' [Hs Hc] [= <- <-]. set (w' := MkAW _ _).
  assert (view_of w' = (Some o, (view_of w).1.2, (view_of w).2)) as ->.
  { unfold view_of, w'. cbn [aw_actor aw_log fst snd ac_state ac_cache set_state]. by rewrite published_kind. }
  destruct (view_of w) as [[p c] sd]. cbn [fst snd]. unfold sound in *.
  destruct (sd_found sd) as [[s1 w1]|] eqn:Hf.
  - destruct Hs as (Hart & Hlog & Hs). split; [exact Hart|]. split; [exact Hlog|].
    destruct c, (sd_session sd); [|done..|].
    + split; [apply Hs|]. cbn. intros Hk. by destruct (Hc Hk) as [[_ ?] _].
    + intros Hk. exact (proj2 (Hc Hk)).
  - destruct Hs as (? & ? & _). split_and!; [done..|]. intros Hk. destruct (Hc Hk) as [_ Hw].
    unfold whole in Hw. cbn in Hw. by rewrite Hf in Hw.
Qed.

Lemma serve_prepare_spec w :
  tree_wf (cw_tree start_world) -> ac_cached (aw_actor w) = Some cached -> untouched (view_of w) ->
  starting w serve_prepare (fun _ => sound).
Proof.
  intros Hwf Hcached Hv. eapply starting_bind; [by apply prepare_spec|]. intros o. apply publishing_sound.
Qed.

(** From the start to the end of the closing loop. *)
Lemma run_sound plan t cs removals :
  tree_wf (cw_tree start_world) -> sound (view_of (run plan (Some cached) t cs removals).2).
Proof.
  intros Hwf. unfold run.
  assert (sound (view_of (life plan (Some cached) t cs).2)) as Hlife.
  { unfold life. set (w0 := MkAW _ _).
    assert (starting w0 (_ <-a serve_prepare ;; serve cs) (fun _ => sound)) as Hl.
    { eapply starting_bind; [by apply serve_prepare_spec|]. intros []. apply serve_sound. }
    destruct ((_ <-a serve_prepare ;; serve cs) w0) as [a w] eqn:E'. specialize (Hl _ _ E'). by destruct a. }
  destruct (close removals _) as [a w] eqn:E'. pose proof (close_sound removals _ _ _ Hlife E'). by destruct a.
Qed.

End CleanCache.

(** C22. The cache over a supervisor's whole life, for a recipe that validates, under three
    conditions on what is around it: nobody else changes the scope ([quiet]); calls that
    only look at the tree do not fail ([sighted]; without it the marker of the old cache
    can be taken for absent and stay over a half-made rebuild,
    [CacheSamples.an_unreachable_marker_stays]); and the recipe's commands, whatever else
    they do to the tree, leave the staging directory and the identity and marker staged
    in it as they are, and do not write the cache's marker themselves ([well_behaved]).
    Then, however the life goes (what it is asked, when it is canceled or out of time,
    which writes, renames and removals fail, what spawning, waiting and killing answer):
    every call made since the session was acquired left a cache that is the one it found,
    or has no marker, or is complete, or lacks only its identity; preparation is only
    complete with a complete cache, which cleaning up and closing leave complete; and a
    life that came to its end has given the session, and with it the lock, back. *)
Theorem supervised_cache_is_whole `{!Sha256Law HSha} `{!DigestLaw HSha} (plan : WorkerPlan) (t : N) (cs : list Actor.command)
    (removals : list (result io_error unit)) (ended : option bool) (w : AW) :
  quiet -> sighted -> recipe (cc_recipe cached) = Ok tt -> tree_wf (cw_tree start_world) ->
  (forall root ident d, artifact (cc_recipe cached) = Ok ident ->
     well_behaved command (cc_recipe cached) root ident d) ->
  run plan (Some cached) t cs removals = (ended, w) ->
  let sd := cache_side command cached turns start_world (ae_now (ActorEnv := base)) (aw_log w) in
  (forall s1 w1, sd_found sd = Some (s1, w1) ->
     exists new, cw_log (sd_world sd) = new ++ cw_log w1
     /\ Forall (fun e => tree_ok (cc_recipe cached) (ss_recipe_identity s1) (ss_root s1) (cw_tree w1)
                           (ce_tree e)) new)
  /\ (prepared_complete (ac_state (aw_actor w)) = true ->
      exists s1 w1, sd_found sd = Some (s1, w1)
      /\ complete (cw_tree (sd_world sd)) (ss_root s1) (cc_recipe cached) (ss_recipe_identity s1))
  /\ (ended = Some true -> sd_session sd = None).
Proof.
  intros Hquiet Hsight Hr Hwf Hcommand Hrun sd.
  pose proof (run_sound Hquiet Hr Hsight Hcommand plan t cs removals Hwf) as Hs. rewrite Hrun in Hs. cbn in Hs.
  unfold view_of in Hs. change (side_of (aw_log w)) with sd in Hs. unfold sound in Hs.
  assert (prepared_complete (ac_state (aw_actor w)) = true -> is_complete (sa_prepared (ac_state (aw_actor w)))) as Hpc.
  { unfold prepared_complete, is_complete. destruct (sa_prepared _); [|done]. apply bool_decide_eq_true_1. }
  assert (ended = Some true -> ac_cache (aw_actor w) = None) as Hended.
  { intros ->. unfold run in Hrun. by destruct (close_ok _ _ _ Hrun) as [(_ & _ & ?) _]. }
  destruct (sd_found sd) as [[s1 w1]|] eqn:Hf.
  - destruct Hs as (_ & Hlog & Hs). split_and!.
    + intros ? ? [= <- <-]. exact Hlog.
    + intros Hp%Hpc. exists s1, w1. split; [done|].
      destruct (ac_cache (aw_actor w)), (sd_session sd); try done; [by destruct Hs|].
      specialize (Hs Hp). unfold whole in Hs. cbn [snd] in Hs. by rewrite Hf in Hs.
    + intros He%Hended. rewrite He in Hs. by destruct (sd_session sd).
  - destruct Hs as (_ & Hnone & Hp). by split_and!; [|intros ?%Hpc|].
Qed.

End Life.
