(* ===== verification/CacheSamples.v ===== *)
(** * The worker cache at work

    A small tree, a calm system and a stand-in digest, on which the cache's operations
    are evaluated and its properties applied. *)

From stdpp Require Import fin_maps.
From S2P Require Import Prelude RustStd Vocabulary World Download WorkerTypes WorkerValidate CapFs CacheFiles.
From S2P Require Import CacheSession TreeFacts CacheFacts CacheRebuild CacheReady CacheInstall.
From S2P Require Import CacheAdopt CacheConfine CacheProps CacheProvision WorkerScript.

Open Scope rust_scope.

(** ** A digest *)

Definition nibble (n : N) : ascii := ascii_of_N (if (n <? 10)%N then 48 + n else 87 + n).

Fixpoint to_hex (bytes : string) : string :=
  match bytes with
  | EmptyString => ""
  | String c rest =>
      let n := N_of_ascii c in
      String (nibble (n / 16)) (String (nibble (n mod 16)) (to_hex rest))
  end.

(** Every message has the same digest, of the right length. *)
Definition constant_sha256 : Sha256 := {|
  hasher := unit;
  Sha256_new := tt;
  Sha256_update := fun _ _ => tt;
  Sha256_finalize := fun _ => "0123456789abcdef0123456789abcdef";
  hex_encode := to_hex;
  sha256 := fun _ => "0123456789abcdef0123456789abcdef"
|}.

Lemma constant_sha256_law : Sha256Law constant_sha256.
Proof. by intros chunks. Qed.

Lemma nibble_hex n : (n < 16)%N -> is_hex_digit (nibble n) = true.
Proof.
  intros Hn. assert (Forall (fun n => is_hex_digit (nibble n) = true) (map N.of_nat (seq 0 16))) as Hall.
  { repeat constructor. }
  rewrite Forall_forall in Hall. apply Hall, list_elem_of_fmap. exists (N.to_nat n).
  split; [by rewrite N2Nat.id|]. apply elem_of_seq. lia.
Qed.

Lemma constant_digest_law : DigestLaw constant_sha256.
Proof.
  constructor; cbn [sha256 hex_encode constant_sha256].
  - done.
  - intros bytes. induction bytes as [|c bytes IH]; [done|]. cbn. rewrite IH. lia.
  - intros bytes. induction bytes as [|c bytes IH]; [done|]. cbn [to_hex].
    rewrite !string_forallb_cons, IH, !nibble_hex; [done|apply N.mod_lt; lia|].
    apply N.Div0.div_lt_upper_bound. pose proof (N_ascii_bounded c). lia.
Qed.

Definition path_only_json : RecipeJson := {| encode_recipe := fun r => Ok [ca_path (cr_marker r)] |}.

(** ** A tree with a cache scope *)

Definition bare_tree : tree := MkTree {[fs_root := IDir]} ∅.

Lemma bare_tree_wf : tree_wf bare_tree.
Proof.
  constructor; [done|done|..].
  - by intros d n c Hc.
  - by intros d n d' n' c Hc.
  - exists (fun _ => 0%nat). by intros d n c Hc.
Qed.

(** [/cache], its lock file and [/cache/bin]. *)
Definition scope_tree : tree :=
  add_new (add_new (add_new bare_tree 0 "cache" IDir) 1 LOCK_NAME (IFile "")) 1 "bin" IDir.

Lemma scope_tree_wf : tree_wf scope_tree.
Proof. repeat (apply add_new_wf; [|reflexivity|reflexivity]). apply bare_tree_wf. Qed.

Definition calm : CapEnv := {|
  cap_fault := fun _ _ => None;
  cap_short := fun _ => 0%nat;
  cap_peers := fun _ t => t;
  cap_lock := fun log => if (length (filter (fun e => is_sleep e = true) log) <? 2)%nat then LockContended else LockTaken;
  cap_uuid := fun _ => "0";
  cap_now := fun log => N.of_nat (25 * length (filter (fun e => is_sleep e = true) log));
  cap_stop := fun _ => false;
  cap_canceled := fun _ => false
|}.

Lemma calm_quiet : quiet (E := calm).
Proof. by intros log t. Qed.
Lemma calm_sighted : sighted (E := calm).
Proof. by intros log op. Qed.
Lemma calm_clock deadline : sleeping_takes_time (E := calm) deadline.
Proof.
  intros newer log Hs. cbn [cap_now calm]. rewrite filter_app, length_app.
  enough (1 <= length (filter (fun e => is_sleep e = true) newer))%nat by lia.
  apply existsb_exists in Hs as (e & Hin & He). apply list_elem_of_In in Hin.
  assert (e ∈ filter (fun e => is_sleep e = true) newer) as Hf by (by apply list_elem_of_filter).
  destruct (filter _ newer); [by apply elem_of_nil in Hf|cbn; lia].
Qed.

Lemma pair3 {A B C} (p : (A * B) * C) : p = ((fst (fst p), snd (fst p)), snd p).
Proof. by destruct p as [[? ?] ?]. Qed.

Section Samples.
#[local] Existing Instances calm constant_sha256 constant_sha256_law constant_digest_law path_only_json.

Let tool : CacheRecipe := MkCacheRecipe "tools" [MkCacheArtifact "bin/run.py" "print()"]
  [MkWorkerCommand "/opt/venv/bin/python" ["-m"; "server"] [("LANG", "C")] None]
  [MkCacheEntry "bin" DirectoryEntry] (MkCacheArtifact "state/ready" "1") Strict 60000.
Let ident : CacheArtifact := match artifact tool with Ok a => a | Err _ => MkCacheArtifact "" "" end.
Let session : Session := MkSession 1 (Path_new "/cache") (Some 2%nat) 2 ident None [] false false.
Let start : CapW := MkCapW scope_tree [].

Example a_cold_cache_is_rebuilt :
  fst (readiness tool session start) = Ok Rebuild
  /\ let '((res, s), w) := install tool session start in
     res = Ok tt /\ fst (readiness tool s w) = Ok Rebuild
     /\ let '(res, w) := publish tool s w in
        res = Ok tt /\ fst (readiness tool s w) = Ok ReadyCached
        /\ let '((res, s), w) := session_cleanup s w in
           res = Ok tt /\ ss_lock s = None /\ fst (readiness tool s w) = Ok ReadyCached.
Proof. vm_compute. repeat split. Qed.

Lemma tool_accepted : recipe tool = Ok tt.
Proof. vm_compute. reflexivity. Qed.

Let installed := install tool session start.
Let mid : Session := snd (fst installed).

Lemma install_hides_the_cache_witness :
  fst (fst installed) = Ok tt /\ artifacts_in (cw_tree (snd installed)) 1 tool.
Proof.
  assert (fst (fst installed) = Ok tt) as Hok by (vm_compute; reflexivity). split; [exact Hok|].
  destruct (install_hides_the_cache tool session mid (fst (fst installed)) start (snd installed))
    as (_ & _ & H); [exact calm_quiet|exact calm_sighted|exact tool_accepted|exact scope_tree_wf| |].
  - apply pair3.
  - rewrite Hok in H. apply H.
Defined.

Lemma tool_prepared :
  exists sd, staging_directory mid = Ok sd /\ prepared (cw_tree (snd installed)) tool 1 sd ident.
Proof.
  assert (fst (fst installed) = Ok tt) as Hok by (vm_compute; reflexivity).
  pose proof (install_spec calm_quiet calm_sighted tool 1 scope_tree tool_accepted scope_tree_wf session
                (eq_refl 1%nat) start (eq_refl scope_tree)) as H.
  unfold mid. revert Hok H. unfold installed. generalize (install tool session start).
  intros [[res s'] w'] Hok. cbn [fst snd] in *. subst res.
  intros [(_ & _ & sd & Hd & Hp & _) _]. by exists sd.
Qed.

Lemma publish_is_atomic_witness :
  fst (publish tool mid (snd installed)) = Ok tt
  /\ complete (cw_tree (snd (publish tool mid (snd installed)))) 1 tool ident.
Proof.
  assert (fst (publish tool mid (snd installed)) = Ok tt) as Hok by (vm_compute; reflexivity).
  split; [exact Hok|]. destruct tool_prepared as (sd & Hd & Hp).
  destruct (publish_is_atomic tool mid sd (fst (publish tool mid (snd installed))) (snd installed)
              (snd (publish tool mid (snd installed)))) as (_ & _ & H);
    [exact calm_quiet|exact tool_accepted|vm_compute; reflexivity|exact Hd|exact Hp
    |apply surjective_pairing|]. rewrite Hok in H. exact H.
Defined.

Lemma found_cached_exactly_when_complete_witness :
  fst (readiness tool session start) = Ok Rebuild /\ ~ complete scope_tree 1 tool ident.
Proof.
  assert (fst (readiness tool session start) = Ok Rebuild) as Hres by (vm_compute; reflexivity).
  split; [exact Hres|].
  destruct (found_cached_exactly_when_complete tool session start) as [[_ H] _];
    [exact calm_quiet|exact calm_sighted|exact tool_accepted|vm_compute; reflexivity|].
  intros Hc. specialize (H Hc). unfold found_cached in H. rewrite Hres in H. discriminate.
Defined.

Lemma published_is_found_witness :
  fst (publish tool mid (snd installed)) = Ok tt
  /\ fst (readiness tool session (snd (publish tool mid (snd installed)))) = Ok ReadyCached.
Proof.
  assert (fst (publish tool mid (snd installed)) = Ok tt) as Hok by (vm_compute; reflexivity).
  split; [exact Hok|]. destruct tool_prepared as (sd & Hd & Hp).
  apply (published_is_found tool mid session sd (snd installed));
    [exact calm_quiet|exact calm_sighted|exact tool_accepted|vm_compute; reflexivity|exact Hd|exact Hp
    |vm_compute; reflexivity|vm_compute; reflexivity|exact Hok].
Defined.

(** The lock is contended twice, and then taken; with no time, it is not waited for. *)
Lemma waiting_for_the_lock_ends_witness :
  (exists r w, acquire_lock 11 2 250 start = (Some r, w) /\ lock_verdict 2 r w)
  /\ fst (acquire_lock 11 2 250 start) = Some (Ok tt)
  /\ fst (acquire_lock 11 2 30 start) = Some (Err "cache_timeout").
Proof.
  split; [|vm_compute; by split].
  apply (waiting_for_the_lock_ends 2 10 250 start); [apply calm_clock|vm_compute; discriminate].
Defined.

(** *** A marker that cannot be reached is not taken away *)

(** Opening a directory fails once, for want of memory, say. *)
Let strained : CapEnv := {|
  cap_fault := fun log op => match op with
                             | CapOpenDir 1 "state" => if (length log <? 90)%nat then Some (refused "out of memory") else None
                             | _ => None
                             end;
  cap_short := fun _ => 0%nat;
  cap_peers := fun _ t => t;
  cap_lock := fun _ => LockTaken;
  cap_uuid := fun _ => "0";
  cap_now := fun _ => 0%N;
  cap_stop := fun _ => false;
  cap_canceled := fun _ => false
|}.

Example an_unreachable_marker_stays :
  let w := MkCapW (cw_tree (snd (publish tool mid (snd installed)))) [] in
  fst (invalidate (H := strained) 1 "state/ready" w) = Ok tt
  /\ fst (matches (H := calm) 1 (cr_marker tool) (snd (invalidate (H := strained) 1 "state/ready" w))) = Ok true.
Proof. vm_compute. repeat split. Qed.

(** *** Somebody interferes *)

(** Before every call, [/cache/bin] becomes a link to a directory elsewhere. *)
Let hostile : CapEnv := {|
  cap_fault := fun _ _ => None;
  cap_short := fun _ => 0%nat;
  cap_peers := fun _ t => set_entry 1 "bin" 99 (set_node 99 (ILink "/etc") t);
  cap_lock := fun _ => LockTaken;
  cap_uuid := fun _ => "0";
  cap_now := fun _ => 0%N;
  cap_stop := fun _ => false;
  cap_canceled := fun _ => false
|}.

Let disturbed := install (H := hostile) tool session start.

Lemma a_session_stays_in_its_directory_witness :
  fst (fst disturbed) = Err "cache_io_failed"
  /\ confined 1 [] (cw_log (snd disturbed)) /\ session_ok 1 (snd (fst disturbed)) (cw_log (snd disturbed)).
Proof.
  split; [vm_compute; reflexivity|].
  apply (a_session_stays_in_its_directory (E := hostile) OpInstall tool session (snd (fst disturbed))
           (fst (fst disturbed)) start (snd disturbed)).
  - done.
  - by constructor.
  - apply pair3.
Defined.

(** Nothing is there yet: acquiring makes the scope's directory and its lock. *)
Example a_scope_is_made :
  match fst (acquire 10 (Path_new "/caches/tools") tool 1000 (MkCapW bare_tree [])) with
  | Some (Ok s) => ss_root s <> fs_root /\ ss_lock s <> None /\ ss_cached s = false
  | _ => False
  end
  /\ fst (acquire 10 (Path_new "/caches/../etc") tool 1000 (MkCapW bare_tree []))
     = Some (Err "cache_scope_invalid").
Proof. vm_compute. repeat split; discriminate. Qed.

(** A staging directory with something else in it is kept, and with it the lock; the
    cleanup can be asked again. *)
Example a_failed_cleanup_is_retried :
  let w := snd installed in
  let crowded := MkCapW (add_new (cw_tree w) 4 "core" (IFile "")) (cw_log w) in
  let '((res, s), w1) := session_cleanup mid crowded in
  staging_directory mid = Ok 4%nat /\ res = Err "cache_stage_cleanup_failed" /\ ss_lock s = Some 2%nat
  /\ let '((res, s), w2) := session_cleanup s (MkCapW (drop_entry 4 "core" (cw_tree w1)) (cw_log w1)) in
     res = Ok tt /\ ss_lock s = None /\ entry (cw_tree w2) 1 ".tinyruntime-stage-0" = None.
Proof. vm_compute. repeat split. Qed.

(** *** The whole of it *)

(** The recipe's command leaves the tree alone, or fails. *)
Let command (works : bool) (_ : cap_log) (_ : WorkerCommand) (t : tree) : result string unit * tree :=
  (if works then Ok tt else Err "prepare_failed", t).

Let rebuilt := session_provision (command true) tool 1000 session start.

Lemma cache_rebuild_is_all_or_nothing_witness :
  fst (fst rebuilt) = Ok tt /\ complete (cw_tree (snd rebuilt)) 1 tool ident.
Proof.
  assert (fst (fst rebuilt) = Ok tt) as Hok by (vm_compute; reflexivity). split; [exact Hok|].
  destruct (cache_rebuild_is_all_or_nothing (command true) tool 1000 session (snd (fst rebuilt))
              (fst (fst rebuilt)) start (snd rebuilt)) as [_ H];
    [exact calm_quiet|exact calm_sighted|exact tool_accepted|vm_compute; reflexivity|exact scope_tree_wf
    |intros sd log c t Ht; exact Ht|reflexivity|reflexivity|apply pair3|].
  rewrite Hok in H. exact H.
Defined.

(** A command that fails leaves a cache that is not found, and what was staged is taken
    away. *)
Example a_failed_command_leaves_nothing_cached :
  let '((res, s), w) := session_provision (command false) tool 1000 session start in
  res = Err "prepare_failed" /\ fst (readiness tool s w) = Ok Rebuild
  /\ let '((res, s), w) := session_cleanup s w in
     res = Ok tt /\ entry (cw_tree w) 1 ".tinyruntime-stage-0" = None.
Proof. vm_compute. repeat split. Qed.

(** *** A cache without an identity *)

(** The same recipe, told to adopt; and its cache as an earlier router left it. *)
Let lenient : CacheRecipe := MkCacheRecipe (cr_scope tool) (cr_artifacts tool) (cr_steps tool)
  (cr_required tool) (cr_marker tool) AdoptVerifiedLegacy (cr_timeout_ms tool).
Let lenient_ident : CacheArtifact := match artifact lenient with Ok a => a | Err _ => MkCacheArtifact "" "" end.
Let earlier : tree :=
  add_new (add_new (add_new scope_tree 3 "run.py" (IFile "print()")) 1 "state" IDir) 5 "ready" (IFile "1").
Let old_session : Session := MkSession 1 (Path_new "/cache") (Some 2%nat) 2 lenient_ident None [] false true.
Let adopted := adopt_legacy lenient old_session (MkCapW earlier []).

Lemma adopting_only_adds_the_identity_witness :
  fst (fst adopted) = Ok tt /\ complete (cw_tree (snd adopted)) 1 lenient lenient_ident.
Proof.
  assert (fst (fst adopted) = Ok tt) as Hok by (vm_compute; reflexivity). split; [exact Hok|].
  destruct (adopting_only_adds_the_identity lenient old_session (snd (fst adopted)) (fst (fst adopted))
              (MkCapW earlier []) (snd adopted)) as (_ & _ & H);
    [exact calm_quiet|exact calm_sighted|vm_compute; reflexivity|vm_compute; reflexivity| |apply pair3|].
  - repeat (apply add_new_wf; [|reflexivity|reflexivity]). apply bare_tree_wf.
  - apply (H Hok).
Defined.

(** An artifact that changed since the first look: nothing is adopted, or touched. *)
Example a_changed_cache_is_not_adopted :
  let changed := set_node 4 (IFile "exec()") earlier in
  let '((res, s), w) := adopt_legacy lenient old_session (MkCapW changed []) in
  res = Err "cache_legacy_changed" /\ cw_tree w = changed.
Proof. vm_compute. by split. Qed.

(** *** A worker's script *)

(** A longer script of an earlier worker is replaced; one that has a second name, and so
    might be someone else's file, is not touched. *)
Example a_script_is_replaced_whole :
  let old := add_new scope_tree 1 SCRIPT_NAME (IFile "print('an old one')") in
  let '((res, kept), w) := install_script None (Path_new "/cache") "print()" (MkCapW old []) in
  res = Ok tt /\ kept = Some 1%nat
  /\ (i ← entry (cw_tree w) 1 SCRIPT_NAME; kind_of (cw_tree w) i) = Some (IFile "print()")
  /\ fst (fst (install_script None (Path_new "/cache") "print()"
                 (MkCapW (set_entry 3 "alias" 4 old) []))) = Err "invalid_input".
Proof. vm_compute. repeat split. Qed.

End Samples.
