(* ===== verification/CacheLifeSamples.v ===== *)
(** * A supervisor's cache at work

    Lives of a supervisor whose cache answers as its session does ([with_session]), on the
    small tree of [CacheSamples]: one that prepares, serves and closes, one whose step
    fails, and one that finds the cache an earlier one left. *)

From stdpp Require Import fin_maps.
From S2P Require Import Prelude RustStd Vocabulary World Download WorkerTypes WorkerValidate Identity Errors.
From S2P Require Import PoolWorker Native Actor ActorFacts ActorMemory ActorProcess ActorSamples ActorClose CapFs CacheFiles.
From S2P Require Import CacheSession TreeFacts CacheFacts CacheRebuild CacheReady.
From S2P Require Import CacheProvision CacheJoint CacheSupervisor CacheLife CacheSamples.

Open Scope rust_scope.

Section Samples.
#[local] Existing Instances calm constant_sha256 constant_sha256_law constant_digest_law path_only_json.
#[local] Existing Instances sample_value sample_worker_json.

Let tool : CacheRecipe := MkCacheRecipe "tools" [MkCacheArtifact "bin/run.py" "print()"]
  [MkWorkerCommand "/opt/venv/bin/python" ["-m"; "server"] [("LANG", "C")] None]
  [MkCacheEntry "bin" DirectoryEntry] (MkCacheArtifact "state/ready" "1") Strict 60000.
Let cached : Cached := MkCached tool (Path_new "/cache").
Let plan := MkWorkerPlan "print()" (MkWorkerCommand "/opt/python" [] [] None) [] [] 1000 1000 None 0.
Let request := MkWorkerRequest (MkWorkerHandle "h") 1 "run" ("x" : Value).

(** The recipe's command leaves the tree alone. *)
Let command (_ : cap_log) (_ : WorkerCommand) (t : tree) : result string unit * tree := (Ok tt, t).
Let turns (_ : list aevent) : nat := 10.

(** The worker answers; steps end well, or do not. *)
Let lines := [Chunk ("ready" +:+ newline); Chunk ("1" +:+ newline)].
Let base (works : bool) : ActorEnv := {|
  ae_now := ae_now (ActorEnv := sample_actor_env (Ok lines));
  ae_stop _ := false;
  ae_spawn _ := Ok lines;
  ae_handshake _ := Some (Done tt);
  ae_exchange _ := Done tt;
  ae_stdin _ := Ok tt;
  ae_try_wait _ := Ok None;
  ae_reap _ := Some Waited;
  ae_install_script _ := Ok tt;
  ae_step_spawn _ := Ok tt;
  ae_step_reading _ := Done (Ok tt);
  ae_step_waiting _ := Done (Ok works);
  ae_acquire _ := Err "cache_session_missing";
  ae_cache _ := Ok tt
|}.

Let env (works : bool) (start : tree) : ActorEnv :=
  with_session command cached turns (MkCapW start []) (base works).
Let ended (works : bool) (start : tree) :=
  run (H1 := env works start) plan (Some cached) 0 [CmdRequest request 900 false] [Ok tt].
Let its_side (works : bool) (start : tree) : side :=
  cache_side command cached turns (MkCapW start []) (ae_now (ActorEnv := base works))
    (aw_log (ended works start).2).
Let left_behind (works : bool) (start : tree) : tree := cw_tree (sd_world (its_side works start)).

Lemma tool_recipe : recipe tool = Ok tt.
Proof. vm_compute. reflexivity. Qed.

Lemma supervised_cache_is_whole_witness :
  (ended true scope_tree).1 = Some true /\ sd_session (its_side true scope_tree) = None
  /\ exists s1 w1, sd_found (its_side true scope_tree) = Some (s1, w1)
     /\ complete (left_behind true scope_tree) (ss_root s1) tool (ss_recipe_identity s1).
Proof.
  assert ((ended true scope_tree).1 = Some true) as Hok by (vm_compute; reflexivity).
  assert (prepared_complete (ac_state (aw_actor (ended true scope_tree).2)) = true) as Hp
    by (vm_compute; reflexivity).
  split; [exact Hok|].
  destruct (supervised_cache_is_whole (base true) command cached turns (MkCapW scope_tree []) plan 0
              [CmdRequest request 900 false] [Ok tt] (ended true scope_tree).1 (ended true scope_tree).2)
    as (_ & Hc & Hs);
    [exact calm_quiet|exact calm_sighted|exact tool_recipe|exact scope_tree_wf
    |intros root ident d _ log c t Ht; exact Ht|apply surjective_pairing|].
  split; [exact (Hs Hok)|exact (Hc Hp)].
Defined.

(** The step fails: preparation has failed, no marker is there and nothing of what was
    staged, and the lock was given back. *)
Example a_failed_step_leaves_no_cache :
  (ended false scope_tree).1 = Some true
  /\ sa_prepared (ac_state (aw_actor (ended false scope_tree).2))
     = Some (outcome Failed (Some "prepare_failed"))
  /\ sd_session (its_side false scope_tree) = None
  /\ entry (left_behind false scope_tree) 1 "state" = None
  /\ entry (left_behind false scope_tree) 1 ".tinyruntime-stage-0" = None.
Proof. vm_compute. repeat split. Qed.

(** The next supervisor finds the cache and leaves it as it is. *)
Example a_cache_is_found_again :
  let next := ended true (left_behind true scope_tree) in
  next.1 = Some true
  /\ prepared_complete (ac_state (aw_actor next.2)) = true
  /\ ~ In (AeCache CacheInstall) (aw_log next.2)
  /\ left_behind true (left_behind true scope_tree) = left_behind true scope_tree.
Proof.
  vm_compute. repeat split. intros Hin.
  repeat (destruct Hin as [Hin|Hin]; [discriminate Hin|]). destruct Hin.
Qed.

End Samples.
